(** * Working-memory session engine: scripted flow, rendezvous and evaluation gate

    A shallow embedding of the backend of the cognitive-assessment app:

    - [models/messages.py]             the message vocabulary,
    - [services/stt_service.py]        silence detection and transcription,
    - [services/llm_service.py]        grading of a working-memory answer,
    - [websocket/base_handler.py]      the message loop and the send helpers,
    - [websocket/working_memory_handler.py]  the scripted flow,
    - [main.py]                        the upload endpoint and the background
                                       evaluation.

    Coroutines are terms of a small resumption monad [Prog]: reads and writes
    of the handler object are silent, and every call that leaves the process
    (a socket send, a sleep, the wait on the playback event, the synthesizer,
    the transcriber, the grader) is a constructor carrying its continuation.
    Two interpreters give the programs their meaning: [run] executes one
    coroutine to its end, and [sched] interleaves a pool of coroutines the way
    the asyncio loop does, one segment between two suspension points at a
    time. *)

From Stdlib Require Import ZArith NArith Ascii String List Bool Lia Sorted.
From Stdlib Require Import Floats.PrimFloat Numbers.Cyclic.Int63.Uint63.
From Stdlib Require Floats.SpecFloat Floats.FloatOps.
From stdpp Require Import base decidable option list gmap sets strings pretty.

Set Default Proof Using "Type".
Local Open Scope string_scope.
Local Open Scope list_scope.
Local Open Scope Z_scope.

(** ** Python values *)

(** [bytes] objects. *)
Abbreviation bytes := (list Byte.byte).

(** A Python call either returns a value or raises; [e] is [str(exc)]. *)
Inductive outcome (A : Type) : Type :=
| Returned (a : A)
| Raised (e : string).
Arguments Returned {A} a.
Arguments Raised {A} e.

(** One call after another, as long as none raises. *)
Definition and_then {A B} (r : outcome A) (f : A -> outcome B) : outcome B :=
  match r with
  | Returned a => f a
  | Raised e => Raised e
  end.

(** [l[i]] on a Python list: negative indices count from the end, an index
    out of range raises [IndexError]. *)
Definition py_index {A} (l : list A) (i : Z) : outcome A :=
  let n := Z.of_nat (length l) in
  let j := if i <? 0 then i + n else i in
  if (j <? 0) || (n <=? j) then Raised "list index out of range"
  else match l !! Z.to_nat j with
       | Some x => Returned x
       | None => Raised "list index out of range"
       end.

(** [sep.join(l)]. *)
Fixpoint join (sep : string) (l : list string) : string :=
  match l with
  | [] => ""
  | [x] => x
  | x :: rest => x +:+ sep +:+ join sep rest
  end.

(** [str(n)] for an [int]. *)
Definition str_int (n : Z) : string := pretty n.

(** [s.strip() == ""]: every character of [s] is white space.  A character
    is one code point below 256; the white space of [str.strip] in that range
    is 9-13, 28-32, 133 and 160. *)
Definition is_space (c : ascii) : bool :=
  let n := N_of_ascii c in
  ((9 <=? n) && (n <=? 13) || (28 <=? n) && (n <=? 32) || (n =? 133) || (n =? 160))%N.

Fixpoint strip_is_empty (s : string) : bool :=
  match s with
  | EmptyString => true
  | String c rest => is_space c && strip_is_empty rest
  end.

(** [base64.b64encode(b).decode('utf-8')]. *)
Definition b64_alphabet : string :=
  "ABCDEFGHIJKLMNOPQRSTUVWXYZabcdefghijklmnopqrstuvwxyz0123456789+/".

Definition b64_char (n : N) : ascii :=
  match String.get (N.to_nat n) b64_alphabet with
  | Some c => c
  | None => "="%char
  end.

Fixpoint b64encode_fuel (fuel : nat) (b : list N) : string :=
  match fuel with
  | O => ""
  | S fuel =>
      match b with
      | [] => ""
      | [x] =>
          String (b64_char (x / 4))
         (String (b64_char ((x mod 4) * 16)) "==")
      | [x; y] =>
          String (b64_char (x / 4))
         (String (b64_char ((x mod 4) * 16 + y / 16))
         (String (b64_char ((y mod 16) * 4)) "="))
      | x :: y :: z :: rest =>
          String (b64_char (x / 4))
         (String (b64_char ((x mod 4) * 16 + y / 16))
         (String (b64_char ((y mod 16) * 4 + z / 64))
         (String (b64_char (z mod 64)) (b64encode_fuel fuel rest))))
      end%N
  end.

Definition b64encode (b : bytes) : string :=
  b64encode_fuel (S (length b)) (map Byte.to_N b).

(** ** models/messages.py *)

(** [Event.action]. *)
Inductive Action := start_task | end_session | audio_complete.

(** [ClientMessage]: the [type] tag and the [data] union.  The payload of an
    audio chunk is never read by the handlers. *)
Inductive ClientType := audio_chunk | event.
Inductive ClientData := AudioChunk | Event (action : Action).
Record ClientMessage := { cm_type : ClientType; cm_data : ClientData }.

Record TTSMessage := { tts_audio_b64 : string; tts_trial_number : option Z }.

(** [TaskState.state]. *)
Inductive TaskStateName := listening | complete_state.
Record TaskState :=
  { ts_state : TaskStateName; ts_trial_number : option Z; ts_message : option string }.

(** [StateTransition.phase]. *)
Inductive Phase :=
| instruction_display | instruction_playing | trial_intro_playing
| words_displaying | words_playing | prompt_playing | beep_start | recording
| beep_end | recording_complete | completion_playing | complete.

Record StateTransition :=
  { st_phase : Phase; st_trial_number : option Z; st_message : option string }.

Record DebugMessage := { dbg_message : string }.

Record WordDisplayMessage :=
  { wd_word : string; wd_trial_number : Z; wd_word_index : Z }.

Record EvaluationResult :=
  { er_trial_number : Z;
    er_word1 : option string;
    er_word2 : option string;
    er_category : option string;
    er_words : option (list string);
    er_correct_words : option (list string);
    er_score : option float;
    er_transcript : string;
    er_is_correct : bool;
    er_confidence : float;
    er_notes : string }.

(** [ServerMessage]: the [type] tag is determined by the constructor
    ("tts_audio", "task_state", "debug", "evaluation_result", "all_results",
    "word_display", "state_transition"). *)
Inductive ServerMessage :=
| tts_audio (d : TTSMessage)
| task_state (d : TaskState)
| debug (d : DebugMessage)
| evaluation_result (d : EvaluationResult)
| all_results (d : list EvaluationResult)
| word_display (d : WordDisplayMessage)
| state_transition (d : StateTransition).

(** ** The handler object

    The attributes of [BaseTaskHandler] and [WorkingMemoryTaskHandler] that
    the code reads or writes after construction. *)
Record Handler :=
  { current_phase : string;
    evaluation_results : list EvaluationResult;
    trial_number : Z;
    trial_words : list (list string);
    completion_sent : bool;
    audio_complete_event : bool;
    waiting_for_audio_complete : bool;
    evaluated_trials : gset Z }.

(** State after [__init__]. *)
Definition init_handler : Handler :=
  {| current_phase := "waiting";
     evaluation_results := [];
     trial_number := 0;
     trial_words := [];
     completion_sent := false;
     audio_complete_event := false;
     waiting_for_audio_complete := false;
     evaluated_trials := ∅ |}.

Definition set_current_phase (v : string) (h : Handler) : Handler :=
  {| current_phase := v; evaluation_results := evaluation_results h;
     trial_number := trial_number h; trial_words := trial_words h;
     completion_sent := completion_sent h;
     audio_complete_event := audio_complete_event h;
     waiting_for_audio_complete := waiting_for_audio_complete h;
     evaluated_trials := evaluated_trials h |}.

Definition set_evaluation_results (v : list EvaluationResult) (h : Handler) : Handler :=
  {| current_phase := current_phase h; evaluation_results := v;
     trial_number := trial_number h; trial_words := trial_words h;
     completion_sent := completion_sent h;
     audio_complete_event := audio_complete_event h;
     waiting_for_audio_complete := waiting_for_audio_complete h;
     evaluated_trials := evaluated_trials h |}.

Definition set_trial_number (v : Z) (h : Handler) : Handler :=
  {| current_phase := current_phase h; evaluation_results := evaluation_results h;
     trial_number := v; trial_words := trial_words h;
     completion_sent := completion_sent h;
     audio_complete_event := audio_complete_event h;
     waiting_for_audio_complete := waiting_for_audio_complete h;
     evaluated_trials := evaluated_trials h |}.

Definition set_trial_words (v : list (list string)) (h : Handler) : Handler :=
  {| current_phase := current_phase h; evaluation_results := evaluation_results h;
     trial_number := trial_number h; trial_words := v;
     completion_sent := completion_sent h;
     audio_complete_event := audio_complete_event h;
     waiting_for_audio_complete := waiting_for_audio_complete h;
     evaluated_trials := evaluated_trials h |}.

Definition set_completion_sent (v : bool) (h : Handler) : Handler :=
  {| current_phase := current_phase h; evaluation_results := evaluation_results h;
     trial_number := trial_number h; trial_words := trial_words h;
     completion_sent := v;
     audio_complete_event := audio_complete_event h;
     waiting_for_audio_complete := waiting_for_audio_complete h;
     evaluated_trials := evaluated_trials h |}.

Definition set_audio_complete_event (v : bool) (h : Handler) : Handler :=
  {| current_phase := current_phase h; evaluation_results := evaluation_results h;
     trial_number := trial_number h; trial_words := trial_words h;
     completion_sent := completion_sent h;
     audio_complete_event := v;
     waiting_for_audio_complete := waiting_for_audio_complete h;
     evaluated_trials := evaluated_trials h |}.

Definition set_waiting_for_audio_complete (v : bool) (h : Handler) : Handler :=
  {| current_phase := current_phase h; evaluation_results := evaluation_results h;
     trial_number := trial_number h; trial_words := trial_words h;
     completion_sent := completion_sent h;
     audio_complete_event := audio_complete_event h;
     waiting_for_audio_complete := v;
     evaluated_trials := evaluated_trials h |}.

Definition set_evaluated_trials (v : gset Z) (h : Handler) : Handler :=
  {| current_phase := current_phase h; evaluation_results := evaluation_results h;
     trial_number := trial_number h; trial_words := trial_words h;
     completion_sent := completion_sent h;
     audio_complete_event := audio_complete_event h;
     waiting_for_audio_complete := waiting_for_audio_complete h;
     evaluated_trials := v |}.

(** ** Coroutines as resumptions *)

(** What [json.loads] makes of a document: [None], a [bool], an [int], a
    [float], a [str], a [list] or a [dict].  The members of an object are
    kept in the order of the document. *)
#[local] Unset Elimination Schemes.
Inductive Json :=
| JNull
| JBool (b : bool)
| JInt (n : Z)
| JFloat (f : float)
| JString (s : string)
| JArray (items : list Json)
| JObject (members : list (string * Json)).
#[local] Set Elimination Schemes.

(** The coroutine objects of [main.py] handed to [asyncio.create_task]. *)
Inductive Coro :=
| co_handle_audio_upload (trial : Z) (audio_bytes : bytes)
| co_process_working_memory_audio_async (audio_bytes : bytes) (trial : Z)
| co_evaluate_working_memory_audio_background (audio_bytes : bytes) (trial : Z).

(** A coroutine body.  [GetSelf] and [SetSelf] read and replace the handler
    object and never suspend; each other constructor but [Ret] and [Raise]
    is a call that may hand control back to the event loop.  [ReceiveText]
    is the message loop's [await websocket.receive_text()]; the frames it
    returns are a parameter of the loop. *)
Inductive Prog (A : Type) : Type :=
| Ret (a : A)
| Raise (e : string)
| GetSelf (k : Handler -> Prog A)
| SetSelf (h : Handler) (k : Prog A)
| SendText (m : ServerMessage) (k : outcome unit -> Prog A)
| Sleep (ms : N) (k : Prog A)
| WaitFor (timeout_ms : N) (k : bool -> Prog A)
| GenerateAudio (text : string) (k : outcome bytes -> Prog A)
| Transcribe (audio : bytes) (k : outcome string -> Prog A)
| ChatCompletion (words : list string) (transcript : string)
                 (k : outcome Json -> Prog A)
| CreateTask (c : Coro) (k : Prog A)
| ReceiveText (k : Prog A).
Arguments Ret {A} a.
Arguments Raise {A} e.
Arguments GetSelf {A} k.
Arguments SetSelf {A} h k.
Arguments SendText {A} m k.
Arguments Sleep {A} ms k.
Arguments WaitFor {A} timeout_ms k.
Arguments GenerateAudio {A} text k.
Arguments Transcribe {A} audio k.
Arguments ChatCompletion {A} words transcript k.
Arguments CreateTask {A} c k.
Arguments ReceiveText {A} k.

Fixpoint bind {A B} (p : Prog A) (f : A -> Prog B) : Prog B :=
  match p with
  | Ret a => f a
  | Raise e => Raise e
  | GetSelf k => GetSelf (fun h => bind (k h) f)
  | SetSelf h k => SetSelf h (bind k f)
  | SendText m k => SendText m (fun r => bind (k r) f)
  | Sleep ms k => Sleep ms (bind k f)
  | WaitFor t k => WaitFor t (fun b => bind (k b) f)
  | GenerateAudio text k => GenerateAudio text (fun r => bind (k r) f)
  | Transcribe audio k => Transcribe audio (fun r => bind (k r) f)
  | ChatCompletion ws tr k => ChatCompletion ws tr (fun r => bind (k r) f)
  | CreateTask c k => CreateTask c (bind k f)
  | ReceiveText k => ReceiveText (bind k f)
  end.

(** [try: p  except Exception as e: handle e]. *)
Fixpoint try_except {A} (p : Prog A) (handle : string -> Prog A) : Prog A :=
  match p with
  | Ret a => Ret a
  | Raise e => handle e
  | GetSelf k => GetSelf (fun h => try_except (k h) handle)
  | SetSelf h k => SetSelf h (try_except k handle)
  | SendText m k => SendText m (fun r => try_except (k r) handle)
  | Sleep ms k => Sleep ms (try_except k handle)
  | WaitFor t k => WaitFor t (fun b => try_except (k b) handle)
  | GenerateAudio text k => GenerateAudio text (fun r => try_except (k r) handle)
  | Transcribe audio k => Transcribe audio (fun r => try_except (k r) handle)
  | ChatCompletion ws tr k => ChatCompletion ws tr (fun r => try_except (k r) handle)
  | CreateTask c k => CreateTask c (try_except k handle)
  | ReceiveText k => ReceiveText (try_except k handle)
  end.

#[global] Instance Prog_ret : MRet Prog := fun A a => Ret a.
#[global] Instance Prog_bind : MBind Prog := fun A B f p => bind p f.

(** A call that returns [a] or raises. *)
Definition of_outcome {A} (r : outcome A) : Prog A :=
  match r with
  | Returned a => Ret a
  | Raised e => Raise e
  end.

(** [self.attr = v] and [self.attr]. *)
Definition modify_self (f : Handler -> Handler) : Prog unit :=
  GetSelf (fun h => SetSelf (f h) (Ret tt)).
Definition read_self {A} (f : Handler -> A) : Prog A :=
  GetSelf (fun h => Ret (f h)).

(** The awaited calls. *)
Definition websocket_send_text (m : ServerMessage) : Prog unit :=
  SendText m of_outcome.
Definition asyncio_sleep (ms : N) : Prog unit := Sleep ms (Ret tt).
Definition tts_service_generate_audio (text : string) : Prog bytes :=
  GenerateAudio text of_outcome.
Definition asyncio_create_task (c : Coro) : Prog unit := CreateTask c (Ret tt).

(** [asyncio.wait_for(self.audio_complete_event.wait(), timeout)]: [true]
    when the event was set in time, [false] for [asyncio.TimeoutError]. *)
Definition wait_for_audio_complete_event (timeout_ms : N) : Prog bool :=
  WaitFor timeout_ms Ret.

(** Durations are in milliseconds: [asyncio.sleep(0.3)] is [Sleep 300] and
    the 30.0 seconds of [wait_for] are [AUDIO_COMPLETE_TIMEOUT]. *)
Definition AUDIO_COMPLETE_TIMEOUT : N := 30000.

(** ** The world a coroutine runs in *)

Inductive WaitResult :=
| Signalled (after_ms : N)   (* the event was set [after_ms] into the wait *)
| TimedOut.

Inductive TraceEvent :=
| EvSend (m : ServerMessage) (r : outcome unit)
| EvSleep (ms : N)
| EvWait (timeout_ms : N) (r : WaitResult)
| EvSynth (text : string) (r : outcome bytes)
| EvTranscribe (audio : bytes) (r : outcome string)
| EvGrade (words : list string) (transcript : string) (r : outcome Json)
| EvCreateTask (c : Coro).

(** What the collaborators answer.  The index is the length of the trace at
    the call, so that two calls with the same argument may be answered
    differently.  [client_ack_after n] is the delay after which the client's
    [audio_complete] frame for the wait at position [n] is handled, if it
    ever is. *)
Record Env :=
  { ws_send_text : nat -> ServerMessage -> outcome unit;
    client_ack_after : nat -> option N;
    elevenlabs_convert : nat -> string -> outcome bytes;
    whisper_create : nat -> bytes -> outcome string;
    chat_create : nat -> list string -> string -> outcome Json }.

Record World :=
  { handler : Handler;
    trace : list TraceEvent;
    clock : N }.

Definition with_handler (h : Handler) (w : World) : World :=
  {| handler := h; trace := trace w; clock := clock w |}.

Definition log (e : TraceEvent) (d : N) (w : World) : World :=
  {| handler := handler w; trace := trace w ++ [e]; clock := (clock w + d)%N |}.

(** The world after [websocket.send_text(m)], whether it raised or not. *)
Definition sent (env : Env) (m : ServerMessage) (w : World) : World :=
  log (EvSend m (ws_send_text env (length (trace w)) m)) 0 w.

(** [_handle_audio_complete] of the base class: set the event, and stop
    waiting.  Both attributes exist on a working-memory handler. *)
Definition audio_complete_set (h : Handler) : Handler :=
  set_waiting_for_audio_complete false (set_audio_complete_event true h).

Definition _handle_audio_complete : Prog unit :=
  modify_self audio_complete_set.

(** The wait returns at once when the event is already set; otherwise it
    ends when the message loop handles the client's [audio_complete] frame,
    or at the deadline, whichever comes first. *)
Definition resolve_wait (env : Env) (timeout_ms : N) (w : World) : bool * World :=
  if audio_complete_event (handler w) then
    (true, log (EvWait timeout_ms (Signalled 0)) 0 w)
  else
    match client_ack_after env (length (trace w)) with
    | Some d =>
        if (d <? timeout_ms)%N then
          (true, log (EvWait timeout_ms (Signalled d)) d
                     (with_handler (audio_complete_set (handler w)) w))
        else (false, log (EvWait timeout_ms TimedOut) timeout_ms w)
    | None => (false, log (EvWait timeout_ms TimedOut) timeout_ms w)
    end.

(** [run]: one coroutine from start to end, nothing else scheduled in
    between. *)
Fixpoint run {A} (env : Env) (p : Prog A) (w : World) : outcome A * World :=
  match p with
  | Ret a => (Returned a, w)
  | Raise e => (Raised e, w)
  | GetSelf k => run env (k (handler w)) w
  | SetSelf h k => run env k (with_handler h w)
  | SendText m k =>
      let r := ws_send_text env (length (trace w)) m in
      run env (k r) (log (EvSend m r) 0 w)
  | Sleep ms k => run env k (log (EvSleep ms) ms w)
  | WaitFor t k =>
      let bw := resolve_wait env t w in
      run env (k bw.1) bw.2
  | GenerateAudio text k =>
      let r := elevenlabs_convert env (length (trace w)) text in
      run env (k r) (log (EvSynth text r) 0 w)
  | Transcribe audio k =>
      let r := whisper_create env (length (trace w)) audio in
      run env (k r) (log (EvTranscribe audio r) 0 w)
  | ChatCompletion ws tr k =>
      let r := chat_create env (length (trace w)) ws tr in
      run env (k r) (log (EvGrade ws tr r) 0 w)
  | CreateTask c k => run env k (log (EvCreateTask c) 0 w)
  | ReceiveText k => run env k w
  end.

(** [step]: one segment of a coroutine, up to and including its next
    suspension point; what is left of the coroutine is returned. *)
Fixpoint step {A} (env : Env) (p : Prog A) (w : World) : Prog A * World :=
  match p with
  | Ret a => (Ret a, w)
  | Raise e => (Raise e, w)
  | GetSelf k => step env (k (handler w)) w
  | SetSelf h k => step env k (with_handler h w)
  | SendText m k =>
      let r := ws_send_text env (length (trace w)) m in
      (k r, log (EvSend m r) 0 w)
  | Sleep ms k => (k, log (EvSleep ms) ms w)
  | WaitFor t k =>
      let bw := resolve_wait env t w in
      (k bw.1, bw.2)
  | GenerateAudio text k =>
      let r := elevenlabs_convert env (length (trace w)) text in
      (k r, log (EvSynth text r) 0 w)
  | Transcribe audio k =>
      let r := whisper_create env (length (trace w)) audio in
      (k r, log (EvTranscribe audio r) 0 w)
  | ChatCompletion ws tr k =>
      let r := chat_create env (length (trace w)) ws tr in
      (k r, log (EvGrade ws tr r) 0 w)
  | CreateTask c k => (k, log (EvCreateTask c) 0 w)
  | ReceiveText k => (k, w)
  end.

(** ** services/stt_service.py *)

Section STTService.

(** The two float routines of the interpreter that IEEE 754 does not pin
    down: [sum] over floats (plain left-to-right addition in older
    interpreters, compensated since) and [x ** 0.5] (the C library's
    [pow]). *)
Variable float_sum : list float -> float.
Variable float_pow_half : float -> float.

(** [struct.unpack('<Nh', b)]: little-endian signed 16-bit samples. *)
Fixpoint unpack_int16_le (b : bytes) : list Z :=
  match b with
  | lo :: hi :: rest =>
      let u := Z.of_N (Byte.to_N lo) + 256 * Z.of_N (Byte.to_N hi) in
      (if u <? 32768 then u else u - 65536) :: unpack_int16_le rest
  | _ => []
  end.

(** [float(n)] for an [int] of small magnitude. *)
Definition float_of_int (n : Z) : float :=
  let m := PrimFloat.of_uint63 (Uint63.of_Z (Z.abs n)) in
  if n <? 0 then PrimFloat.opp m else m.

Definition RIFF : bytes := [Byte.x52; Byte.x49; Byte.x46; Byte.x46].

(** The double nearest to 0.002, the default [threshold]. *)
Definition SILENCE_THRESHOLD : float := 0x1.0624dd2f1a9fcp-9%float.

Definition bytes_eqb (a b : bytes) : bool :=
  bool_decide (map Byte.to_N a = map Byte.to_N b).

(** [_is_silent].  Nothing in the [try] block can raise on a [bytes]
    argument, so its [except] branch is left out. *)
Definition _is_silent (audio_bytes : bytes) (threshold : float) : bool :=
  if (length audio_bytes <? 2)%nat then true
  else
    (* a WAV file: skip the 44-byte header *)
    let is_wav := (4 <? length audio_bytes)%nat && bytes_eqb (take 4 audio_bytes) RIFF in
    if is_wav && (length audio_bytes <? 44)%nat then true
    else
      let audio_bytes := if is_wav then drop 44 audio_bytes else audio_bytes in
      (* an odd number of bytes: drop the last one *)
      let audio_bytes :=
        if negb (Nat.even (length audio_bytes))
        then take (length audio_bytes - 1) audio_bytes else audio_bytes in
      if (length audio_bytes <? 2)%nat then true
      else
        let samples := unpack_int16_le audio_bytes in
        if (length samples =? 0)%nat then true
        else
          let max_value := 32768%float in
          let normalized_samples :=
            map (fun sample => PrimFloat.abs (float_of_int sample / max_value)%float) samples in
          let rms :=
            float_pow_half
              (float_sum (map (fun s => (s * s)%float) normalized_samples)
               / float_of_int (Z.of_nat (length normalized_samples)))%float in
          PrimFloat.ltb rms threshold.

(** [n.to_bytes(size, 'little')]. *)
Fixpoint to_bytes_little (size : nat) (n : N) : outcome bytes :=
  match size with
  | O => if (n =? 0)%N then Returned [] else Raised "int too big to convert"
  | S size =>
      match Byte.of_N (n mod 256), to_bytes_little size (n / 256) with
      | Some b, Returned rest => Returned (b :: rest)
      | _, Raised e => Raised e
      | None, _ => Raised "int too big to convert"
      end
  end.

Definition ascii_bytes (s : string) : bytes :=
  map byte_of_ascii (list_ascii_of_string s).

(** The header written in front of the PCM data: 16 kHz, 16 bit, mono. *)
Definition wav_header (data_size : N) : outcome bytes :=
  let sample_rate := 16000%N in
  let num_channels := 1%N in
  let bits_per_sample := 16%N in
  let file_size := (36 + data_size)%N in
  match to_bytes_little 4 file_size,
        to_bytes_little 4 16, to_bytes_little 2 1,
        to_bytes_little 2 num_channels, to_bytes_little 4 sample_rate,
        to_bytes_little 4 (sample_rate * num_channels * bits_per_sample / 8),
        to_bytes_little 2 (num_channels * bits_per_sample / 8),
        to_bytes_little 2 bits_per_sample,
        to_bytes_little 4 data_size with
  | Returned fs, Returned c16, Returned pcm, Returned nc, Returned sr,
    Returned br, Returned ba, Returned bps, Returned ds =>
      Returned (ascii_bytes "RIFF" ++ fs ++ ascii_bytes "WAVE" ++ ascii_bytes "fmt "
                ++ c16 ++ pcm ++ nc ++ sr ++ br ++ ba ++ bps
                ++ ascii_bytes "data" ++ ds)
  | Raised e, _, _, _, _, _, _, _, _ => Raised e
  | _, _, _, _, _, _, _, _, Raised e => Raised e
  | _, _, _, _, _, _, _, _, _ => Raised "int too big to convert"
  end.

(** [transcribe_audio]: silent audio gives the empty string and Whisper is
    not called; otherwise the audio goes to Whisper as a WAV file, and any
    exception is raised again. *)
Definition transcribe_audio (audio_bytes : bytes) : Prog string :=
  try_except
    (if _is_silent audio_bytes SILENCE_THRESHOLD then Ret ""
     else
       wav_header ← of_outcome (wav_header (N.of_nat (length audio_bytes)));
       Transcribe (wav_header ++ audio_bytes) of_outcome)
    (fun e => Raise e).

End STTService.

(** ** services/llm_service.py *)

(** What the interpreter and pydantic make of a value of another type than
    the code expects is behaviour of the libraries, part of it different
    from one version to the next, that no line of the program fixes.  It
    is left open: [float(s)] for a string, the text of the [TypeError] of
    [float] on a value that is no number and no string, what pydantic
    accepts for a [bool] field that is not a bool, for a [str] field that
    is not a string and for a [List[str]] field that is not a list of
    strings (each time for a value other than [None]), and the text of its
    [ValidationError]. *)
Record Runtime :=
  { float_of_str : string -> outcome float;
    float_type_error : Json -> string;
    lax_bool : Json -> option bool;
    lax_str : Json -> option string;
    lax_str_list : Json -> option (list string);
    validation_error : Json -> Json -> Json -> string }.

(** [type(v).__name__]. *)
Definition type_name (v : Json) : string :=
  match v with
  | JNull => "NoneType"
  | JBool _ => "bool"
  | JInt _ => "int"
  | JFloat _ => "float"
  | JString _ => "str"
  | JArray _ => "list"
  | JObject _ => "dict"
  end.

(** The value of a key in a parsed object: of its last occurrence, if the
    document repeats the key. *)
Fixpoint lookup_member (key : string) (members : list (string * Json)) : option Json :=
  match members with
  | [] => None
  | (k, v) :: rest =>
      match lookup_member key rest with
      | Some v' => Some v'
      | None => if String.eqb k key then Some v else None
      end
  end.

Definition get_default {A} (o : option A) (d : A) : A :=
  match o with Some a => a | None => d end.

(** [result.get(key, default)]: only a dict has the method. *)
Definition py_get (result : Json) (key : string) (default : Json) : outcome Json :=
  match result with
  | JObject members => Returned (get_default (lookup_member key members) default)
  | _ => Raised ("'" +:+ type_name result +:+ "' object has no attribute 'get'")
  end.

(** [float(n)] for an [int]: the nearest double, ties to even, and
    [OverflowError] beyond the largest one. *)
Definition float_of_Z (n : Z) : outcome float :=
  let f := FloatOps.SF2Prim (SpecFloat.binary_normalize FloatOps.prec FloatOps.emax n 0 false) in
  if PrimFloat.is_infinity f then Raised "int too large to convert to float"
  else Returned f.

(** [float(v)]. *)
Definition py_float (rt : Runtime) (v : Json) : outcome float :=
  match v with
  | JFloat f => Returned f
  | JInt n => float_of_Z n
  | JBool b => Returned (if b then 1.0%float else 0.0%float)
  | JString s => float_of_str rt s
  | JNull | JArray _ | JObject _ => Raised (float_type_error rt v)
  end.

(** The dict [evaluate_working_memory_response] returns: the words, the
    verdict and the notes are whatever the reply holds under these keys. *)
Record Evaluation :=
  { correct_words : Json;
    score : float;
    is_correct : Json;
    confidence : float;
    notes : Json }.

Definition NO_RESPONSE_NOTES : string := "No response detected - user remained silent".

(** The body of the [try] of [evaluate_working_memory_response], once the
    request and [json.loads] have given [result]: the values of the dict,
    in the order in which they are computed. *)
Definition read_working_memory_reply (rt : Runtime) (result : Json) : outcome Evaluation :=
  and_then (py_get result "correct_words" (JArray [])) (fun correct_words =>
  and_then (py_get result "score" (JFloat 0.0)) (fun score_value =>
  and_then (py_float rt score_value) (fun score =>
  and_then (py_get result "is_correct" (JBool false)) (fun is_correct =>
  and_then (py_get result "confidence" (JFloat 0.0)) (fun confidence_value =>
  and_then (py_float rt confidence_value) (fun confidence =>
  and_then (py_get result "notes" (JString "")) (fun notes =>
  Returned {| correct_words := correct_words;
              score := score;
              is_correct := is_correct;
              confidence := confidence;
              notes := notes |}))))))).

(** [evaluate_working_memory_response].  The request is determined by the
    expected words and the transcript, which the prompt embeds; the grader
    answers with the parsed reply, or the request or [json.loads] raises.
    Whatever raises inside the [try] ends in the [except] branch. *)
Definition evaluate_working_memory_response
    (rt : Runtime) (words : list string) (transcript : string) : Prog Evaluation :=
  if bool_decide (transcript = "") || strip_is_empty transcript then
    Ret {| correct_words := JArray []; score := 0.0; is_correct := JBool false;
           confidence := 1.0; notes := JString NO_RESPONSE_NOTES |}
  else
    try_except
      (result ← ChatCompletion words transcript of_outcome;
       of_outcome (read_working_memory_reply rt result))
      (fun e =>
         Ret {| correct_words := JArray []; score := 0.0; is_correct := JBool false;
                confidence := 0.0; notes := JString ("Evaluation error: " +:+ e) |}).

(** ** models/messages.py: the validation of [EvaluationResult]

    pydantic checks the fields when the object is built.  A [str] field
    takes a string and refuses [None]; a [bool] field takes a bool and
    refuses [None]; an [Optional] field takes [None] as well. *)

Definition validate_str (rt : Runtime) (v : Json) : option string :=
  match v with
  | JString s => Some s
  | JNull => None
  | _ => lax_str rt v
  end.

Definition validate_bool (rt : Runtime) (v : Json) : option bool :=
  match v with
  | JBool b => Some b
  | JNull => None
  | _ => lax_bool rt v
  end.

Definition validate_optional_str (rt : Runtime) (v : Json) : option (option string) :=
  match v with
  | JNull => Some None
  | JString s => Some (Some s)
  | _ => Some <$> lax_str rt v
  end.

(** The strings of a list, when each item is one. *)
Fixpoint as_strings (items : list Json) : option (list string) :=
  match items with
  | [] => Some []
  | JString s :: rest => cons s <$> as_strings rest
  | _ => None
  end.

Definition validate_optional_str_list (rt : Runtime) (v : Json)
  : option (option (list string)) :=
  match v with
  | JNull => Some None
  | JArray items =>
      match as_strings items with
      | Some l => Some (Some l)
      | None => Some <$> lax_str_list rt v
      end
  | _ => Some <$> lax_str_list rt v
  end.

(** [EvaluationResult(trial_number=..., words=..., transcript=...,
    correct_words=..., score=..., is_correct=..., confidence=...,
    notes=...)]: the trial number, the words, the transcript and the two
    floats are of their types already. *)
Definition new_working_memory_result
    (rt : Runtime) (trial : Z) (words : list string) (transcript : string)
    (correct_words : Json) (score : float) (is_correct : Json)
    (confidence : float) (notes : Json) : outcome EvaluationResult :=
  match validate_optional_str_list rt correct_words,
        validate_bool rt is_correct,
        validate_str rt notes with
  | Some cw, Some ok, Some nt =>
      Returned {| er_trial_number := trial;
                  er_word1 := None; er_word2 := None; er_category := None;
                  er_words := Some words;
                  er_correct_words := cw;
                  er_score := Some score;
                  er_transcript := transcript;
                  er_is_correct := ok;
                  er_confidence := confidence;
                  er_notes := nt |}
  | _, _, _ => Raised (validation_error rt correct_words is_correct notes)
  end.

(** ** websocket/base_handler.py: the send helpers

    Each helper sends one message inside [try ... except Exception], so a
    failed send is logged and the caller carries on. *)

Definition send_task_state
    (state : TaskStateName) (trial : option Z) (message : option string) : Prog unit :=
  try_except
    (websocket_send_text
       (task_state {| ts_state := state; ts_trial_number := trial; ts_message := message |}))
    (fun _ => Ret tt).

Definition send_debug (message : string) : Prog unit :=
  try_except
    (websocket_send_text (debug {| dbg_message := message |}))
    (fun _ => Ret tt).

Definition send_evaluation_result (result : EvaluationResult) : Prog unit :=
  try_except
    (websocket_send_text (evaluation_result result))
    (fun _ => Ret tt).

(** [send_all_results]: the aggregate is the stored list as it stands. *)
Definition send_all_results : Prog unit :=
  modify_self (set_current_phase "complete");;
  send_task_state complete_state None (Some "Task completed!");;
  try_except
    (results ← read_self evaluation_results;
     websocket_send_text (all_results results))
    (fun _ => Ret tt).

(** [BaseTaskHandler.add_evaluation_result]: store, do not send. *)
Definition BaseTaskHandler_add_evaluation_result (result : EvaluationResult) : Prog unit :=
  modify_self (fun h => set_evaluation_results (evaluation_results h ++ [result]) h).

(** ** websocket/working_memory_handler.py *)

Definition WORKING_MEMORY_SCRIPT_instruction : string :=
  "We'll start with the Working Memory Task. For this task, I will read you 5 words. After I finish, I want you to repeat these words back to me in the same order that you heard them. We will repeat this for two trials., and you'll have 10 seconds to respond each time. Here are the words:".
Definition WORKING_MEMORY_SCRIPT_trial_2_intro : string :=
  "Well done, now let's do that one more time. Again, you'll have 10 seconds to respond. Here are the words:".
Definition WORKING_MEMORY_SCRIPT_prompt : string := "Now you repeat them.".
Definition WORKING_MEMORY_SCRIPT_completion : string :=
  "Great job! You've completed the working memory task.".

(** [_select_trial_words]: the fixed word set, whatever the trial. *)
Definition _select_trial_words (trial : Z) : list string :=
  ["chair"; "book"; "hand"; "road"; "cloud"].

(** The override of [send_tts_audio]: reset the event, synthesize, send, and
    wait for the client's [audio_complete] with a deadline.  A timeout is
    handled in place; any other failure skips the wait. *)
Definition send_tts_audio (text : string) (trial : option Z) : Prog unit :=
  try_except
    (modify_self (set_audio_complete_event false);;
     modify_self (set_waiting_for_audio_complete true);;
     audio_bytes ← tts_service_generate_audio text;
     let audio_base64 := b64encode audio_bytes in
     websocket_send_text
       (tts_audio {| tts_audio_b64 := audio_base64; tts_trial_number := trial |});;
     signalled ← wait_for_audio_complete_event AUDIO_COMPLETE_TIMEOUT;
     if signalled : bool then Ret tt
     else modify_self (set_waiting_for_audio_complete false))
    (fun _ => modify_self (set_waiting_for_audio_complete false)).

Definition _send_state_transition
    (phase : Phase) (trial : option Z) (message : option string) : Prog unit :=
  try_except
    (websocket_send_text
       (state_transition
          {| st_phase := phase; st_trial_number := trial; st_message := message |}))
    (fun _ => Ret tt).

Definition _send_instruction : Prog unit :=
  modify_self (set_current_phase "instruction");;
  let instruction_text := WORKING_MEMORY_SCRIPT_instruction in
  _send_state_transition instruction_display (Some 0) (Some instruction_text);;
  asyncio_sleep 100;;
  _send_state_transition instruction_playing (Some 0) None;;
  send_tts_audio instruction_text (Some 0).

Definition _send_word_display (word : string) (trial : Z) (word_index : Z) : Prog unit :=
  try_except
    (websocket_send_text
       (word_display
          {| wd_word := word; wd_trial_number := trial; wd_word_index := word_index |}))
    (fun _ => Ret tt).

(** [_send_completion], guarded by [completion_sent]. *)
Definition _send_completion : Prog unit :=
  sent ← read_self completion_sent;
  if sent : bool then Ret tt
  else
    modify_self (set_completion_sent true);;
    let completion_text := WORKING_MEMORY_SCRIPT_completion in
    _send_state_transition completion_playing None (Some completion_text);;
    asyncio_sleep 100;;
    send_tts_audio completion_text None;;
    _send_state_transition complete None None;;
    send_all_results.

(** The loop [for word_index, word in enumerate(words, start=1)]. *)
Fixpoint for_word_display (trial : Z) (word_index : Z) (words : list string) : Prog unit :=
  match words with
  | [] => Ret tt
  | word :: rest =>
      _send_word_display word trial word_index;;
      asyncio_sleep 50;;
      for_word_display trial (word_index + 1) rest
  end.

Definition _send_trial_words (trial : Z) : Prog unit :=
  h ← GetSelf Ret;
  if Z.of_nat (length (trial_words h)) <? trial then _send_completion
  else
    modify_self (set_current_phase ("trial_" +:+ str_int trial));;
    modify_self (set_trial_number trial);;
    all_words ← read_self trial_words;
    words ← of_outcome (py_index all_words (trial - 1));
    (if trial =? 2 then
       let intro_text := WORKING_MEMORY_SCRIPT_trial_2_intro in
       _send_state_transition trial_intro_playing (Some trial) (Some intro_text);;
       asyncio_sleep 100;;
       send_tts_audio intro_text (Some trial)
     else Ret tt);;
    _send_state_transition words_displaying (Some trial) None;;
    for_word_display trial 1 words;;
    asyncio_sleep 200;;
    _send_state_transition words_playing (Some trial) None;;
    let words_text := join ". " words +:+ "." in
    send_tts_audio words_text (Some trial);;
    _send_word_display "" trial 0;;
    asyncio_sleep 200;;
    let prompt_text := WORKING_MEMORY_SCRIPT_prompt in
    _send_state_transition prompt_playing (Some trial) (Some prompt_text);;
    asyncio_sleep 100;;
    send_tts_audio prompt_text (Some trial);;
    _send_state_transition beep_start (Some trial) None;;
    asyncio_sleep 100;;
    _send_state_transition recording (Some trial) None.

Definition _start_task : Prog unit :=
  try_except
    (let selected_words := _select_trial_words 1 in
     modify_self (set_trial_words [selected_words; selected_words]);;
     _send_instruction)
    (fun e => send_debug ("Failed to start task: " +:+ e)).

Definition _handle_audio_upload (trial : Z) (audio_bytes : bytes) : Prog unit :=
  (if 0 <? trial then
     _send_state_transition beep_end (Some trial) None;;
     asyncio_sleep 300;;
     _send_state_transition recording_complete (Some trial) None;;
     asyncio_sleep 200
   else Ret tt);;
  if trial =? 0 then _send_trial_words 1
  else if trial =? 1 then _send_trial_words 2
  else _send_completion.

(** The override of [add_evaluation_result]: the gate.  Membership is tested
    and set before the result object is built, and the result is stored
    before the first suspension point.  When pydantic refuses the values,
    the trial stays marked and nothing is stored. *)
Definition add_evaluation_result
    (rt : Runtime) (trial : Z) (words : list string) (transcript : string)
    (correct_words : Json) (score : float) (is_correct : Json)
    (confidence : float) (notes : Json) : Prog unit :=
  if negb (bool_decide (trial ∈ [1; 2])) then Ret tt
  else
    evaluated ← read_self evaluated_trials;
    if bool_decide (trial ∈ evaluated) then Ret tt
    else
      modify_self (fun h => set_evaluated_trials (evaluated_trials h ∪ {[trial]}) h);;
      result ← of_outcome
                 (new_working_memory_result rt trial words transcript
                    correct_words score is_correct confidence notes);
      BaseTaskHandler_add_evaluation_result result;;
      send_evaluation_result result.

(** ** websocket/base_handler.py: the message loop *)

(** What [receive_text] followed by the parse into a [ClientMessage]
    yields: a message, an exception, or [WebSocketDisconnect]. *)
Inductive Received :=
| RecvMessage (m : ClientMessage)
| RecvInvalid (e : string)
| RecvDisconnect.

(** How far the loop got on the frames it was given: still blocked in
    [receive_text], or left (and the socket closed). *)
Inductive LoopExit :=
| StillReceiving (task_started : bool)
| Closed.

(** The [while True] loop on the frames that arrive.  [_start_task] is
    awaited in place, so no further frame is read before it returns. *)
Fixpoint message_loop (frames : list Received) (task_started : bool) : Prog LoopExit :=
  match frames with
  | [] => Ret (StillReceiving task_started)
  | f :: rest =>
      ReceiveText
        match f with
        | RecvDisconnect => Ret Closed
        | RecvInvalid e => Raise e
        | RecvMessage client_msg =>
            match cm_type client_msg, cm_data client_msg with
            | event, Event start_task =>
                if negb task_started then
                  send_debug "Task start received, beginning scripted flow...";;
                  _start_task;;
                  message_loop rest true
                else message_loop rest task_started
            | event, Event end_session =>
                send_debug "Session ended by client";;
                Ret Closed
            | event, Event audio_complete =>
                _handle_audio_complete;;
                message_loop rest task_started
            | _, _ => message_loop rest task_started
            end
        end
  end.

Definition handle_connection (session_id : string) (frames : list Received) : Prog LoopExit :=
  send_debug ("Connected to task (Session: " +:+ session_id +:+ ")");;
  send_debug ("Session ID: " +:+ session_id);;
  send_task_state listening None (Some "Waiting to start...");;
  try_except
    (message_loop frames false)
    (fun e =>
       try_except (send_debug ("Error: " +:+ e)) (fun _ => Ret tt);;
       Ret Closed).

(** ** main.py *)

Record JSONResponse :=
  { status_code : Z; content_status : string; content_message : option string }.

Section Main.

Variable float_sum : list float -> float.
Variable float_pow_half : float -> float.
Variable rt : Runtime.

(** [_evaluate_working_memory_audio_background]: transcribe, grade, store
    and send, behind the trial-number and gate checks. *)
Definition _evaluate_working_memory_audio_background
    (audio_bytes : bytes) (trial : Z) : Prog unit :=
  try_except
    (if negb (bool_decide (trial ∈ [1; 2])) then Ret tt
     else
       evaluated ← read_self evaluated_trials;
       if bool_decide (trial ∈ evaluated) then Ret tt
       else
         transcript ← transcribe_audio float_sum float_pow_half audio_bytes;
         all_words ← read_self trial_words;
         if (0 <? trial) && (trial <=? Z.of_nat (length all_words)) then
           words ← of_outcome (py_index all_words (trial - 1));
           evaluated ← read_self evaluated_trials;
           if negb (bool_decide (trial ∈ evaluated)) then
             evaluation ← evaluate_working_memory_response rt words transcript;
             add_evaluation_result rt trial words transcript
               (correct_words evaluation) (score evaluation)
               (is_correct evaluation) (confidence evaluation) (notes evaluation)
           else Ret tt
         else Ret tt)
    (fun _ => Ret tt).

Definition _process_working_memory_audio_async
    (audio_bytes : bytes) (trial : Z) : Prog unit :=
  try_except
    (if trial =? 0 then Ret tt
     else
       asyncio_create_task
         (co_evaluate_working_memory_audio_background audio_bytes trial))
    (fun _ => Ret tt).

(** [upload_working_memory_audio] for one session; [session_found] is the
    outcome of the lookup in [active_working_memory_handlers]. *)
Definition upload_working_memory_audio
    (session_found : bool) (audio : bytes) (trial : Z) : Prog JSONResponse :=
  try_except
    (if negb session_found then
       Ret {| status_code := 404; content_status := "error";
              content_message := Some "Session not found" |}
     else
       let audio_bytes := audio in
       asyncio_create_task (co_handle_audio_upload trial audio_bytes);;
       asyncio_create_task (co_process_working_memory_audio_async audio_bytes trial);;
       Ret {| status_code := 200; content_status := "success";
              content_message := None |})
    (fun e =>
       Ret {| status_code := 500; content_status := "error";
              content_message := Some e |}).

(** The body behind each coroutine object. *)
Definition coro_body (c : Coro) : Prog unit :=
  match c with
  | co_handle_audio_upload trial audio_bytes =>
      _handle_audio_upload trial audio_bytes
  | co_process_working_memory_audio_async audio_bytes trial =>
      _process_working_memory_audio_async audio_bytes trial
  | co_evaluate_working_memory_audio_background audio_bytes trial =>
      _evaluate_working_memory_audio_background audio_bytes trial
  end.

(** ** The event loop

    A pool of coroutines over one handler.  [Resume i] lets the [i]-th
    coroutine run one segment; [Request] is an upload request reaching
    the endpoint.  The tasks a segment creates join the pool.  The real
    loop never switches inside a call to the synthesizer, the transcriber
    or the grader (these calls block), so its interleavings are among the
    ones of this model. *)
Record System := { world : World; tasks : list (Prog unit) }.

Inductive Tick :=
| Resume (i : nat)
| Request (trial : Z) (audio : bytes).

Definition created_task (e : TraceEvent) : option (Prog unit) :=
  match e with
  | EvCreateTask c => Some (coro_body c)
  | _ => None
  end.

Definition tick (env : Env) (s : System) (t : Tick) : System :=
  match t with
  | Resume i =>
      match tasks s !! i with
      | Some p =>
          let pw := step env p (world s) in
          {| world := pw.2;
             tasks := <[i := pw.1]> (tasks s)
                      ++ omap created_task (drop (length (trace (world s))) (trace pw.2)) |}
      | None => s
      end
  | Request trial audio =>
      {| world := world s;
         tasks := tasks s ++ [upload_working_memory_audio true audio trial;; Ret tt] |}
  end.

Definition sched (env : Env) (ticks : list Tick) (s : System) : System :=
  fold_left (tick env) ticks s.

Definition init_world : World :=
  {| handler := init_handler; trace := []; clock := 0 |}.

(** A session: the connection handler is the only task at first. *)
Definition init_system (session_id : string) (frames : list Received) : System :=
  {| world := init_world;
     tasks := [handle_connection session_id frames;; Ret tt] |}.

End Main.

(** ** Observations on traces *)

(** The script steps a trace shows, whatever became of each send: the
    messages put on the socket other than audio payloads, and the texts
    given to the synthesizer. *)
Inductive ScriptStep :=
| Transition (phase : Phase) (trial : option Z) (message : option string)
| Display (word : string) (trial : Z) (word_index : Z)
| Speak (text : string)
| State (state : TaskStateName) (trial : option Z) (message : option string)
| Result (r : EvaluationResult)
| Results (l : list EvaluationResult)
| Debug (message : string).

Definition step_of (e : TraceEvent) : option ScriptStep :=
  match e with
  | EvSend (state_transition d) _ =>
      Some (Transition (st_phase d) (st_trial_number d) (st_message d))
  | EvSend (word_display d) _ =>
      Some (Display (wd_word d) (wd_trial_number d) (wd_word_index d))
  | EvSend (task_state d) _ =>
      Some (State (ts_state d) (ts_trial_number d) (ts_message d))
  | EvSend (evaluation_result r) _ => Some (Result r)
  | EvSend (all_results l) _ => Some (Results l)
  | EvSend (debug d) _ => Some (Debug (dbg_message d))
  | EvSend (tts_audio _) _ => None
  | EvSynth text _ => Some (Speak text)
  | _ => None
  end.

Definition steps (tr : list TraceEvent) : list ScriptStep := omap step_of tr.

(** Time a wait took. *)
Definition wait_duration (timeout_ms : N) (r : WaitResult) : N :=
  match r with
  | Signalled d => d
  | TimedOut => timeout_ms
  end.

(** A wait on the playback event: the 30 s deadline, ended by the signal
    before the deadline or by the deadline itself. *)
Definition wait_resolved (timeout_ms : N) (r : WaitResult) : bool :=
  (timeout_ms =? AUDIO_COMPLETE_TIMEOUT)%N
  && match r with
     | Signalled d => (d <? timeout_ms)%N
     | TimedOut => true
     end.

(** Every audio payload that went out is followed at once by the end of
    its wait: nothing is emitted in between. *)
Fixpoint waits_ok (tr : list TraceEvent) : bool :=
  match tr with
  | [] => true
  | EvSend (tts_audio _) (Returned _) :: rest =>
      match rest with
      | EvWait t r :: rest' => wait_resolved t r && waits_ok rest'
      | _ => false
      end
  | EvWait _ _ :: _ => false
  | _ :: rest => waits_ok rest
  end.

(** Every audio that was synthesized goes out at once, and the end of its
    wait follows at once: no event lies between the synthesis, the payload
    and the end of the wait, and no payload and no wait occurs anywhere
    else. *)
Fixpoint audio_in_place (tr : list TraceEvent) : bool :=
  match tr with
  | [] => true
  | EvSynth _ (Returned a) :: rest =>
      match rest with
      | EvSend (tts_audio d) (Returned _) :: EvWait t r :: rest' =>
          String.eqb (tts_audio_b64 d) (b64encode a)
          && wait_resolved t r && audio_in_place rest'
      | EvSend (tts_audio d) (Raised _) :: rest' =>
          String.eqb (tts_audio_b64 d) (b64encode a) && audio_in_place rest'
      | _ => false
      end
  | EvSend (tts_audio _) _ :: _ => false
  | EvWait _ _ :: _ => false
  | _ :: rest => audio_in_place rest
  end.

(** Every wait in the trace ended at its deadline. *)
Definition is_timeout (e : TraceEvent) : bool :=
  match e with
  | EvWait t r => match r with TimedOut => true | Signalled _ => false end
  | _ => true
  end.
Definition waits_timed_out (tr : list TraceEvent) : bool := forallb is_timeout tr.

(** Waits, and calls to the synthesizer. *)
Definition is_wait (e : TraceEvent) : bool :=
  match e with EvWait _ _ => true | _ => false end.
Definition is_synth (e : TraceEvent) : bool :=
  match e with EvSynth _ _ => true | _ => false end.
Definition wait_count (tr : list TraceEvent) : nat :=
  length (filter (fun e => is_wait e = true) tr).
Definition synth_calls (tr : list TraceEvent) : nat :=
  length (filter (fun e => is_synth e = true) tr).

(** Calls to the transcriber and to the grader. *)
Definition is_transcription (e : TraceEvent) : bool :=
  match e with EvTranscribe _ _ => true | _ => false end.
Definition is_grading (e : TraceEvent) : bool :=
  match e with EvGrade _ _ _ => true | _ => false end.
Definition transcription_calls (tr : list TraceEvent) : nat :=
  length (filter (fun e => is_transcription e = true) tr).
Definition grading_calls (tr : list TraceEvent) : nat :=
  length (filter (fun e => is_grading e = true) tr).

(** The evaluation results a list holds for one trial. *)
Definition results_for (trial : Z) (l : list EvaluationResult) : list EvaluationResult :=
  filter (fun r => er_trial_number r = trial) l.

(** The single results put on the socket, and the aggregates. *)
Definition sent_result (e : TraceEvent) : option EvaluationResult :=
  match e with EvSend (evaluation_result r) _ => Some r | _ => None end.
Definition sent_results (tr : list TraceEvent) : list EvaluationResult :=
  omap sent_result tr.
Definition sent_aggregate (e : TraceEvent) : option (list EvaluationResult) :=
  match e with EvSend (all_results l) _ => Some l | _ => None end.
Definition sent_aggregates (tr : list TraceEvent) : list (list EvaluationResult) :=
  omap sent_aggregate tr.

(** The moments of a trace: its script steps, the audio payloads put on
    the socket, and the ends of the waits, in the order of the trace. *)
Inductive Moment :=
| Step (s : ScriptStep)
| Payload
| WaitOver.

Definition moment_of (e : TraceEvent) : option Moment :=
  match e with
  | EvSend (tts_audio _) _ => Some Payload
  | EvWait _ _ => Some WaitOver
  | _ => Step <$> step_of e
  end.

Definition moments (tr : list TraceEvent) : list Moment := omap moment_of tr.

(** A script with, behind each text spoken, its payload and the end of
    its wait. *)
Definition with_audio (ss : list ScriptStep) : list Moment :=
  flat_map (fun s => match s with
                     | Speak _ => [Step s; Payload; WaitOver]
                     | _ => [Step s]
                     end) ss.

(** ** The script, step by step

    The sequences the specification describes, to compare the coroutines
    with. *)

Definition instruction_steps : list ScriptStep :=
  [ Transition instruction_display (Some 0) (Some WORKING_MEMORY_SCRIPT_instruction);
    Transition instruction_playing (Some 0) None;
    Speak WORKING_MEMORY_SCRIPT_instruction ].

Fixpoint display_steps (trial : Z) (word_index : Z) (words : list string) : list ScriptStep :=
  match words with
  | [] => []
  | word :: rest => Display word trial word_index :: display_steps trial (word_index + 1) rest
  end.

Definition trial_steps (trial : Z) (words : list string) : list ScriptStep :=
  (if trial =? 2 then
     [ Transition trial_intro_playing (Some trial) (Some WORKING_MEMORY_SCRIPT_trial_2_intro);
       Speak WORKING_MEMORY_SCRIPT_trial_2_intro ]
   else [])
  ++ [ Transition words_displaying (Some trial) None ]
  ++ display_steps trial 1 words
  ++ [ Transition words_playing (Some trial) None;
       Speak (join ". " words +:+ ".");
       Display "" trial 0;
       Transition prompt_playing (Some trial) (Some WORKING_MEMORY_SCRIPT_prompt);
       Speak WORKING_MEMORY_SCRIPT_prompt;
       Transition beep_start (Some trial) None;
       Transition recording (Some trial) None ].

Definition completion_steps (results : list EvaluationResult) : list ScriptStep :=
  [ Transition completion_playing None (Some WORKING_MEMORY_SCRIPT_completion);
    Speak WORKING_MEMORY_SCRIPT_completion;
    Transition complete None None;
    State complete_state None (Some "Task completed!");
    Results results ].

(** What an upload of a recording emits before the script moves on. *)
Definition recording_end_steps (trial : Z) : list ScriptStep :=
  if 0 <? trial then
    [ Transition beep_end (Some trial) None;
      Transition recording_complete (Some trial) None ]
  else [].

(** ** Judgements on runs *)

(** The events of one [send_tts_audio]: the synthesizer fails; or the send
    fails; or the audio goes out and the wait ends, by the signal before the
    deadline or at the deadline.  The boolean tells whether the event was
    set, the number is the time spent waiting. *)
Inductive audio_events (env : Env) (text : string) (trial : option Z)
  : list TraceEvent -> bool -> N -> Prop :=
| audio_synth_failed n e :
    elevenlabs_convert env n text = Raised e ->
    audio_events env text trial [EvSynth text (Raised e)] false 0
| audio_send_failed n a e :
    ws_send_text env n
      (tts_audio {| tts_audio_b64 := b64encode a; tts_trial_number := trial |}) = Raised e ->
    audio_events env text trial
      [EvSynth text (Returned a);
       EvSend (tts_audio {| tts_audio_b64 := b64encode a; tts_trial_number := trial |})
              (Raised e)] false 0
| audio_signalled a n d :
    client_ack_after env n = Some d ->
    (d < AUDIO_COMPLETE_TIMEOUT)%N ->
    audio_events env text trial
      [EvSynth text (Returned a);
       EvSend (tts_audio {| tts_audio_b64 := b64encode a; tts_trial_number := trial |})
              (Returned tt);
       EvWait AUDIO_COMPLETE_TIMEOUT (Signalled d)] true d
| audio_timed_out a :
    audio_events env text trial
      [EvSynth text (Returned a);
       EvSend (tts_audio {| tts_audio_b64 := b64encode a; tts_trial_number := trial |})
              (Returned tt);
       EvWait AUDIO_COMPLETE_TIMEOUT TimedOut] false AUDIO_COMPLETE_TIMEOUT.

(** The client never acknowledges a playback. *)
Definition no_ack (env : Env) : Prop := forall n, client_ack_after env n = None.

(** The socket and the synthesizer never fail. *)
Definition reliable (env : Env) : Prop :=
  (forall n m, ws_send_text env n m = Returned tt)
  /\ (forall n text, exists a, elevenlabs_convert env n text = Returned a).

(** A stretch of trace shows the script steps [ss], keeps the wait
    discipline, has only timeouts when no acknowledgement arrives, has one
    wait for each text spoken when nothing fails, has no call to the
    transcriber or the grader and no single result in it, and has each
    audio payload and the end of its wait right behind the synthesis. *)
Definition emits (env : Env) (new : list TraceEvent) (ss : list ScriptStep) : Prop :=
  steps new = ss
  /\ waits_ok new = true
  /\ (no_ack env -> waits_timed_out new = true)
  /\ (reliable env -> wait_count new = synth_calls new)
  /\ transcription_calls new = 0%nat
  /\ grading_calls new = 0%nat
  /\ sent_results new = []
  /\ audio_in_place new = true.

(** The coroutine [p], started in [w], returns normally in [w'] after the
    script steps [ss]. *)
Definition performs (env : Env) (p : Prog unit) (w w' : World) (ss : list ScriptStep) : Prop :=
  run env p w = (Returned tt, w')
  /\ exists new, trace w' = trace w ++ new /\ emits env new ss.

(** The world [p] leaves behind. *)
Definition after {A} (env : Env) (p : Prog A) (w : World) : World := (run env p w).2.
Arguments after : simpl never.

(** The attributes of the handler other than the two of the rendezvous. *)
Definition core (h : Handler)
  : string * list EvaluationResult * Z * list (list string) * bool * gset Z :=
  (current_phase h, evaluation_results h, trial_number h, trial_words h,
   completion_sent h, evaluated_trials h).

Arguments core : simpl never.

(** ** Reference values of the specification *)

(** The canonical result for a recording with no response in it. *)
Definition no_response_evaluation : Evaluation :=
  {| correct_words := JArray []; score := 0.0; is_correct := JBool false;
     confidence := 1.0; notes := JString NO_RESPONSE_NOTES |}.

(** The evaluation after an error in the [try] of the grading. *)
Definition error_evaluation (e : string) : Evaluation :=
  {| correct_words := JArray []; score := 0.0; is_correct := JBool false;
     confidence := 0.0; notes := JString ("Evaluation error: " +:+ e) |}.

(** What grading makes of the answer of the request. *)
Definition graded (rt : Runtime) (reply : outcome Json) : Evaluation :=
  match and_then reply (read_working_memory_reply rt) with
  | Returned evaluation => evaluation
  | Raised e => error_evaluation e
  end.

Definition no_response_result (trial : Z) (words : list string) : EvaluationResult :=
  {| er_trial_number := trial;
     er_word1 := None; er_word2 := None; er_category := None;
     er_words := Some words;
     er_correct_words := Some [];
     er_score := Some 0.0%float;
     er_transcript := "";
     er_is_correct := false;
     er_confidence := 1.0;
     er_notes := NO_RESPONSE_NOTES |}.

(** A session the way the protocol intends it: the start signal, then one
    upload after the instruction and one after each of the two trials. *)
Definition scripted_session (audio0 audio1 audio2 : bytes) : Prog unit :=
  _start_task;;
  _handle_audio_upload 0 audio0;;
  _handle_audio_upload 1 audio1;;
  _handle_audio_upload 2 audio2.

Definition scripted_session_steps : list ScriptStep :=
  instruction_steps
  ++ (recording_end_steps 0 ++ trial_steps 1 (_select_trial_words 1))
  ++ (recording_end_steps 1 ++ trial_steps 2 (_select_trial_words 1))
  ++ (recording_end_steps 2 ++ completion_steps []).

(** Plain left-to-right float summation and the IEEE square root, one
    possible pair of float routines. *)
Definition plain_float_sum (l : list float) : float := fold_left PrimFloat.add l 0%float.

(** The runtime the examples are run with.  No example holds a value that
    needs a conversion, so none of them reaches these answers, but for the
    text of the validation error, which goes no further than the log. *)
Definition example_runtime : Runtime :=
  {| float_of_str := fun s => Raised ("could not convert string to float: '" +:+ s +:+ "'");
     float_type_error := fun v =>
       "float() argument must be a string or a real number, not '" +:+ type_name v +:+ "'";
     lax_bool := fun _ => None;
     lax_str := fun _ => None;
     lax_str_list := fun _ => None;
     validation_error := fun _ _ _ => "validation error for EvaluationResult" |}.

(** A world where nothing fails and the client acknowledges each playback
    after 1.2 s. *)
Definition friendly_env : Env :=
  {| ws_send_text := fun _ _ => Returned tt;
     client_ack_after := fun _ => Some 1200%N;
     elevenlabs_convert := fun _ _ => Returned [Byte.x4d];
     whisper_create := fun _ _ => Returned "chair book";
     chat_create := fun _ _ _ =>
       Returned
         (JObject
            [ ("correct_words", JArray [JString "chair"; JString "book"]);
              ("score", JFloat 0x1.999999999999ap-2%float);
              ("is_correct", JBool false);
              ("confidence", JFloat 0x1.ccccccccccccdp-1%float);
              ("notes", JString "Only 2 out of 5 words were said") ]) |}.

(** The same world with a client that never acknowledges. *)
Definition deaf_env : Env :=
  {| ws_send_text := ws_send_text friendly_env;
     client_ack_after := fun _ => None;
     elevenlabs_convert := elevenlabs_convert friendly_env;
     whisper_create := whisper_create friendly_env;
     chat_create := chat_create friendly_env |}.

(** The handler once [_start_task] has selected the words. *)
Definition started_handler : Handler :=
  set_current_phase "instruction"
    (set_trial_words [_select_trial_words 1; _select_trial_words 1] init_handler).

Definition started_world : World :=
  {| handler := started_handler; trace := []; clock := 0 |}.

(** The texts spoken among some script steps. *)
Definition is_speak (s : ScriptStep) : bool :=
  match s with Speak _ => true | _ => false end.
Definition speak_count (ss : list ScriptStep) : nat :=
  length (filter (fun s => is_speak s = true) ss).

(** ** The gate and the result store under interleaving *)

(** What holds of the gate and the store whenever a coroutine is suspended:
    the results stored are exactly the single results put on the socket, in
    the same order; no two are for the same trial; each one's trial is a
    member of the gate; and every aggregate sent so far carried the results
    that had been sent singly before it, in that order. *)
Definition gate_inv (w : World) : Prop :=
  sent_results (trace w) = evaluation_results (handler w)
  /\ NoDup (map er_trial_number (evaluation_results (handler w)))
  /\ (forall r, r ∈ evaluation_results (handler w) ->
                er_trial_number r ∈ evaluated_trials (handler w))
  /\ (forall tr1 l r tr2,
         trace w = tr1 ++ EvSend (all_results l) r :: tr2 -> l = sent_results tr1).

(** How the world may differ between two such moments: the gate only
    grows; results are only appended, and only for trials that were not
    members; the trace only grows; [completion_sent] is not cleared. *)
Definition gate_step (w w' : World) : Prop :=
  evaluated_trials (handler w) ⊆ evaluated_trials (handler w')
  /\ (exists added,
         evaluation_results (handler w') = evaluation_results (handler w) ++ added
         /\ forall r, r ∈ added -> er_trial_number r ∉ evaluated_trials (handler w))
  /\ trace w `prefix_of` trace w'
  /\ (completion_sent (handler w) = true -> completion_sent (handler w') = true).

(** [safe_from p w0 w]: the coroutine [p], in the middle of a segment that
    began in [w0] and has reached [w], keeps [gate_inv] at each of its
    suspension points and at its end, each segment being a [gate_step];
    after a suspension it may find any world in which [gate_inv] holds. *)
Fixpoint safe_from {A} (p : Prog A) (w0 w : World) : Prop :=
  match p with
  | Ret _ | Raise _ => gate_inv w /\ gate_step w0 w
  | GetSelf k => safe_from (k (handler w)) w0 w
  | SetSelf h k => safe_from k w0 (with_handler h w)
  | SendText m k =>
      forall r,
        gate_inv (log (EvSend m r) 0 w) /\ gate_step w0 (log (EvSend m r) 0 w)
        /\ forall w1, gate_inv w1 -> safe_from (k r) w1 w1
  | Sleep ms k =>
      gate_inv (log (EvSleep ms) ms w) /\ gate_step w0 (log (EvSleep ms) ms w)
      /\ forall w1, gate_inv w1 -> safe_from k w1 w1
  | WaitFor t k =>
      (forall env, gate_inv (resolve_wait env t w).2
                   /\ gate_step w0 (resolve_wait env t w).2)
      /\ forall b w1, gate_inv w1 -> safe_from (k b) w1 w1
  | GenerateAudio text k =>
      forall r,
        gate_inv (log (EvSynth text r) 0 w) /\ gate_step w0 (log (EvSynth text r) 0 w)
        /\ forall w1, gate_inv w1 -> safe_from (k r) w1 w1
  | Transcribe audio k =>
      forall r,
        gate_inv (log (EvTranscribe audio r) 0 w)
        /\ gate_step w0 (log (EvTranscribe audio r) 0 w)
        /\ forall w1, gate_inv w1 -> safe_from (k r) w1 w1
  | ChatCompletion ws tr k =>
      forall r,
        gate_inv (log (EvGrade ws tr r) 0 w) /\ gate_step w0 (log (EvGrade ws tr r) 0 w)
        /\ forall w1, gate_inv w1 -> safe_from (k r) w1 w1
  | CreateTask c k =>
      gate_inv (log (EvCreateTask c) 0 w) /\ gate_step w0 (log (EvCreateTask c) 0 w)
      /\ forall w1, gate_inv w1 -> safe_from k w1 w1
  | ReceiveText k =>
      gate_inv w /\ gate_step w0 w /\ forall w1, gate_inv w1 -> safe_from k w1 w1
  end.

Definition safe {A} (p : Prog A) : Prop := forall w, gate_inv w -> safe_from p w w.

(** An event that is neither a single result nor an aggregate. *)
Definition plain_event (e : TraceEvent) : Prop :=
  sent_result e = None /\ sent_aggregate e = None.

(** A change of the handler that leaves the gate and the store alone and
    does not clear [completion_sent]. *)
Definition keeps_gate (h h' : Handler) : Prop :=
  evaluation_results h' = evaluation_results h
  /\ evaluated_trials h' = evaluated_trials h
  /\ (completion_sent h = true -> completion_sent h' = true).

(** The pool is safe: the invariant holds and every coroutine keeps it. *)
Definition sys_safe (s : System) : Prop :=
  gate_inv (world s) /\ Forall safe (tasks s).

(** A list of results in trial order. *)
Definition trial_ordered (l : list EvaluationResult) : Prop :=
  StronglySorted Z.le (map er_trial_number l).

(** Each aggregate of a trace, paired with the single results that were
    put on the socket before it, in the order they were. *)
Fixpoint aggregates_with_history (seen : list EvaluationResult) (tr : list TraceEvent)
  : list (list EvaluationResult * list EvaluationResult) :=
  match tr with
  | [] => []
  | EvSend (all_results l) _ :: rest => (l, seen) :: aggregates_with_history seen rest
  | EvSend (evaluation_result r) _ :: rest => aggregates_with_history (seen ++ [r]) rest
  | _ :: rest => aggregates_with_history seen rest
  end.

(** The start signal as the client sends it. *)
Definition start_frame : Received :=
  RecvMessage {| cm_type := event; cm_data := Event start_task |}.

(** A recording that is not silent. *)
Definition loud_audio : bytes := [Byte.x00; Byte.x10; Byte.x00; Byte.x10].

(** A schedule in which the recording of trial 2 is uploaded, and evaluated,
    before the one of trial 1: the connection handler runs until the words
    are selected (task 0); the upload of trial 2 is served (task 1) and
    creates its two tasks (2 and 3), the second of which creates the
    evaluation (4), which runs to its end; the same for trial 1 (tasks 5 to
    8); then the handler of the upload of trial 2 (task 2) runs to the end
    of the completion sequence. *)
Definition late_trial_1_ticks : list Tick :=
  replicate 6 (Resume 0)
  ++ [Request 2 loud_audio; Resume 1; Resume 1; Resume 3; Resume 4; Resume 4; Resume 4]
  ++ [Request 1 loud_audio; Resume 5; Resume 5; Resume 7; Resume 8; Resume 8; Resume 8]
  ++ replicate 12 (Resume 2).

(** Two uploads of the same recording of trial 1 whose evaluations run
    side by side: both pass the first gate test, both call the transcriber
    and the grader, and both reach [add_evaluation_result]. *)
Definition duplicate_upload_ticks : list Tick :=
  replicate 6 (Resume 0)
  ++ [Request 1 loud_audio; Resume 1; Resume 1; Resume 3]
  ++ [Request 1 loud_audio; Resume 5; Resume 5; Resume 7]
  ++ [Resume 4; Resume 8; Resume 4; Resume 8; Resume 4; Resume 8].

(** How many times a trace shows the scripted flow beginning: the
    transitions to the instruction display. *)
Definition is_flow_start (s : ScriptStep) : bool :=
  match s with
  | Transition instruction_display _ _ => true
  | _ => false
  end.
Definition flow_starts (tr : list TraceEvent) : nat :=
  length (filter (fun s => is_flow_start s = true) (steps tr)).

(** ** The completion sequence under interleaving *)

(** The messages of the completion sequence: the completion_playing
    transition, the completion audio (the only audio sent without a trial
    number), the complete transition, the task state "complete", and the
    aggregate of results. *)
Inductive CompletionPart :=
| part_playing | part_audio | part_complete | part_state | part_aggregate.

Definition is_part (k : CompletionPart) (m : ServerMessage) : bool :=
  match k, m with
  | part_playing, state_transition d =>
      match st_phase d with completion_playing => true | _ => false end
  | part_audio, tts_audio d =>
      match tts_trial_number d with None => true | Some _ => false end
  | part_complete, state_transition d =>
      match st_phase d with complete => true | _ => false end
  | part_state, task_state d =>
      match ts_state d with complete_state => true | listening => false end
  | part_aggregate, all_results _ => true
  | _, _ => false
  end.

Definition event_is_part (k : CompletionPart) (e : TraceEvent) : bool :=
  match e with
  | EvSend m _ => is_part k m
  | _ => false
  end.

Definition part_count (k : CompletionPart) (tr : list TraceEvent) : nat :=
  length (filter (fun e => event_is_part k e = true) tr).

Definition cost (k : CompletionPart) (m : ServerMessage) : nat :=
  if is_part k m then 1%nat else 0%nat.

(** [tame k n p h]: the coroutine [p], in a segment that has reached the
    handler [h], sends at most [n] messages of kind [k] from here on and
    never clears [completion_sent], provided the flag is set whenever it
    resumes. *)
Fixpoint tame {A} (k : CompletionPart) (n : nat) (p : Prog A) (h : Handler) : Prop :=
  match p with
  | Ret _ | Raise _ => True
  | GetSelf f => tame k n (f h) h
  | SetSelf h' f => completion_sent h' = true /\ tame k n f h'
  | SendText m f =>
      (cost k m <= n)%nat
      /\ forall r h1, completion_sent h1 = true -> tame k (n - cost k m) (f r) h1
  | Sleep _ f => forall h1, completion_sent h1 = true -> tame k n f h1
  | WaitFor _ f => forall (b : bool) h1, completion_sent h1 = true -> tame k n (f b) h1
  | GenerateAudio _ f => forall r h1, completion_sent h1 = true -> tame k n (f r) h1
  | Transcribe _ f => forall r h1, completion_sent h1 = true -> tame k n (f r) h1
  | ChatCompletion _ _ f => forall r h1, completion_sent h1 = true -> tame k n (f r) h1
  | CreateTask _ f => forall h1, completion_sent h1 = true -> tame k n f h1
  | ReceiveText f => forall h1, completion_sent h1 = true -> tame k n f h1
  end.

(** [entry k p h]: the coroutine [p], in a segment that has reached the
    handler [h], sends a message of kind [k] only after a segment of its own
    in which it found [completion_sent] clear and set it; from there on it
    is tame with a budget of one. *)
Fixpoint entry {A} (k : CompletionPart) (p : Prog A) (h : Handler) : Prop :=
  match p with
  | Ret _ | Raise _ => True
  | GetSelf f => entry k (f h) h
  | SetSelf h' f =>
      if completion_sent h then completion_sent h' = true /\ entry k f h'
      else if completion_sent h' then tame k 1 f h'
      else entry k f h'
  | SendText m f => is_part k m = false /\ forall r h1, entry k (f r) h1
  | Sleep _ f => forall h1, entry k f h1
  | WaitFor _ f => forall (b : bool) h1, entry k (f b) h1
  | GenerateAudio _ f => forall r h1, entry k (f r) h1
  | Transcribe _ f => forall r h1, entry k (f r) h1
  | ChatCompletion _ _ f => forall r h1, entry k (f r) h1
  | CreateTask _ f => forall h1, entry k f h1
  | ReceiveText f => forall h1, entry k f h1
  end.

(** A coroutine of the pool has not yet set the flag ([Fresh]), or set it
    and may still send [n] messages of the kind ([Owner n]). *)
Inductive TaskRole := Fresh | Owner (n : nat).

Definition budget (r : TaskRole) : nat :=
  match r with Fresh => 0%nat | Owner n => n end.

Definition task_ok (k : CompletionPart) (r : TaskRole) (p : Prog unit) : Prop :=
  match r with
  | Fresh => forall h, entry k p h
  | Owner n => forall h, completion_sent h = true -> tame k n p h
  end.

(** The messages of kind [k] sent so far and the ones the pool may still
    send are at most one in all, and none at all while the flag is clear. *)
Definition completion_inv (k : CompletionPart) (s : System) : Prop :=
  exists roles,
    Forall2 (task_ok k) roles (tasks s)
    /\ (sum_list_with budget roles + part_count k (trace (world s)) <= 1)%nat
    /\ (completion_sent (handler (world s)) = false ->
        Forall (fun r => r = Fresh) roles /\ part_count k (trace (world s)) = 0%nat).

(** Two uploads for the last trial whose handlers run side by side: both
    emit their end-of-recording markers, then each reaches
    [_send_completion]. *)
Definition duplicate_final_upload_ticks : list Tick :=
  replicate 6 (Resume 0)
  ++ [Request 2 loud_audio; Resume 1; Resume 1]
  ++ [Request 2 loud_audio; Resume 4; Resume 4]
  ++ replicate 4 (Resume 2) ++ replicate 4 (Resume 5)
  ++ [Resume 2; Resume 5; Resume 5]
  ++ replicate 8 (Resume 2) ++ replicate 3 (Resume 5).

(** ** Readers for the byte-level checks *)

(** [int.from_bytes(b, 'little')], to read back the fields of the WAV
    header. *)
Fixpoint from_bytes_little (b : bytes) : N :=
  match b with
  | [] => 0
  | x :: rest => (Byte.to_N x + 256 * from_bytes_little rest)%N
  end.

(** [b[i:j]] for [0 <= i <= j]. *)
Definition slice {A} (i j : nat) (l : list A) : list A := take (j - i) (drop i l).

(** A buffer the silence check treats as a WAV file. *)
Definition riff_tagged (audio_bytes : bytes) : Prop :=
  (4 < length audio_bytes)%nat /\ take 4 audio_bytes = RIFF.

(** ** Worlds in which one collaborator misbehaves *)

(** The grader is out of reach. *)
Definition failing_grader_env : Env :=
  {| ws_send_text := ws_send_text friendly_env;
     client_ack_after := client_ack_after friendly_env;
     elevenlabs_convert := elevenlabs_convert friendly_env;
     whisper_create := whisper_create friendly_env;
     chat_create := fun _ _ _ => Raised "Connection error." |}.

(** The transcriber is out of reach. *)
Definition failing_transcriber_env : Env :=
  {| ws_send_text := ws_send_text friendly_env;
     client_ack_after := client_ack_after friendly_env;
     elevenlabs_convert := elevenlabs_convert friendly_env;
     whisper_create := fun _ _ => Raised "Connection error.";
     chat_create := chat_create friendly_env |}.

(** The transcriber hears nothing but noise and answers with white space. *)
Definition blank_transcript_env : Env :=
  {| ws_send_text := ws_send_text friendly_env;
     client_ack_after := client_ack_after friendly_env;
     elevenlabs_convert := elevenlabs_convert friendly_env;
     whisper_create := fun _ _ => Returned " ";
     chat_create := chat_create friendly_env |}.

(** The grader answers with an object that holds [null] under "notes". *)
Definition null_notes_reply : Json :=
  JObject
    [ ("correct_words", JArray [JString "chair"; JString "book"]);
      ("score", JFloat 0x1.999999999999ap-2%float);
      ("is_correct", JBool false);
      ("confidence", JFloat 0x1.ccccccccccccdp-1%float);
      ("notes", JNull) ].

Definition null_notes_env : Env :=
  {| ws_send_text := ws_send_text friendly_env;
     client_ack_after := client_ack_after friendly_env;
     elevenlabs_convert := elevenlabs_convert friendly_env;
     whisper_create := whisper_create friendly_env;
     chat_create := fun _ _ _ => Returned null_notes_reply |}.

(** The grader answers with an object that holds [null] under
    "correct_words", and an integer score. *)
Definition null_words_reply : Json :=
  JObject
    [ ("correct_words", JNull);
      ("score", JInt 0);
      ("is_correct", JBool false);
      ("confidence", JFloat 0x1.ccccccccccccdp-1%float);
      ("notes", JString "No words were said") ].

Definition null_words_env : Env :=
  {| ws_send_text := ws_send_text friendly_env;
     client_ack_after := client_ack_after friendly_env;
     elevenlabs_convert := elevenlabs_convert friendly_env;
     whisper_create := whisper_create friendly_env;
     chat_create := fun _ _ _ => Returned null_words_reply |}.

(** ** Frames that end the message loop *)

(** The frames on which the [while True] loop is left: the client's
    end_session event, a disconnect, and a frame that does not parse into a
    [ClientMessage]. *)
Definition terminal (f : Received) : bool :=
  match f with
  | RecvDisconnect | RecvInvalid _ => true
  | RecvMessage m =>
      match cm_type m, cm_data m with
      | event, Event end_session => true
      | _, _ => false
      end
  end.

(** What the handler says on its way out. *)
Definition farewell (f : Received) : option string :=
  match f with
  | RecvDisconnect => None
  | RecvInvalid e => Some ("Error: " +:+ e)
  | RecvMessage _ => Some "Session ended by client"
  end.

Definition end_frame : Received :=
  RecvMessage {| cm_type := event; cm_data := Event end_session |}.
Definition ack_frame : Received :=
  RecvMessage {| cm_type := event; cm_data := Event audio_complete |}.

(** ** Invariants of a session under interleaving

    [obeys I E p h]: the coroutine [p], in a segment that has reached the
    handler [h], writes only handlers that satisfy [I] and performs only
    calls whose trace events satisfy [E], provided the handler satisfies [I]
    whenever the coroutine resumes. *)

Section Obeys.

Variable I : Handler -> Prop.
Variable E : TraceEvent -> Prop.

Fixpoint obeys {A} (p : Prog A) (h : Handler) : Prop :=
  match p with
  | Ret _ | Raise _ => True
  | GetSelf k => obeys (k h) h
  | SetSelf h' k => I h' /\ obeys k h'
  | SendText m k =>
      (forall r, E (EvSend m r)) /\ forall r h1, I h1 -> obeys (k r) h1
  | Sleep ms k => E (EvSleep ms) /\ forall h1, I h1 -> obeys k h1
  | WaitFor t k =>
      (forall r, E (EvWait t r)) /\ forall (b : bool) h1, I h1 -> obeys (k b) h1
  | GenerateAudio text k =>
      (forall r, E (EvSynth text r)) /\ forall r h1, I h1 -> obeys (k r) h1
  | Transcribe audio k =>
      (forall r, E (EvTranscribe audio r)) /\ forall r h1, I h1 -> obeys (k r) h1
  | ChatCompletion ws tr k =>
      (forall r, E (EvGrade ws tr r)) /\ forall r h1, I h1 -> obeys (k r) h1
  | CreateTask c k => E (EvCreateTask c) /\ forall h1, I h1 -> obeys k h1
  | ReceiveText k => forall h1, I h1 -> obeys k h1
  end.

(** A coroutine that obeys whenever it is resumed. *)
Definition law_abiding {A} (p : Prog A) : Prop := forall h, I h -> obeys p h.

(** The pool obeys: the handler satisfies [I], every event so far
    satisfies [E], and every coroutine is law-abiding. *)
Definition sys_obeys (s : System) : Prop :=
  I (handler (world s))
  /\ Forall E (trace (world s))
  /\ Forall law_abiding (tasks s).

End Obeys.

(** ** The vocabulary of the working-memory session *)

(** The five words of the script. *)
Definition SCRIPT_WORDS : list string := _select_trial_words 1.

(** The five texts the script has spoken. *)
Definition script_texts : list string :=
  [ WORKING_MEMORY_SCRIPT_instruction;
    WORKING_MEMORY_SCRIPT_trial_2_intro;
    join ". " SCRIPT_WORDS +:+ ".";
    WORKING_MEMORY_SCRIPT_prompt;
    WORKING_MEMORY_SCRIPT_completion ].

(** A result of the working-memory task: for trial 1 or 2, about the words
    of the script, with a score, and with the fields of the abstraction
    task left out.  The list of correct words is whatever the grader gave,
    and is missing when the grader gave [null]. *)
Definition wf_result (r : EvaluationResult) : Prop :=
  (er_trial_number r = 1 \/ er_trial_number r = 2)
  /\ er_words r = Some SCRIPT_WORDS
  /\ er_word1 r = None /\ er_word2 r = None /\ er_category r = None
  /\ is_Some (er_score r).

(** What the handler may hold. *)
Definition state_ok (h : Handler) : Prop :=
  (trial_words h = [] \/ trial_words h = [SCRIPT_WORDS; SCRIPT_WORDS])
  /\ (trial_number h = 0 \/ trial_number h = 1 \/ trial_number h = 2)
  /\ current_phase h ∈ ["waiting"; "instruction"; "trial_1"; "trial_2"; "complete"]
  /\ Forall wf_result (evaluation_results h)
  /\ evaluated_trials h ⊆ {[1; 2]}.

(** A state transition names a phase with the trial number and the text
    that go with it. *)
Definition transition_ok (d : StateTransition) : Prop :=
  match st_phase d with
  | instruction_display =>
      st_trial_number d = Some 0
      /\ st_message d = Some WORKING_MEMORY_SCRIPT_instruction
  | instruction_playing => st_trial_number d = Some 0 /\ st_message d = None
  | trial_intro_playing =>
      st_trial_number d = Some 2
      /\ st_message d = Some WORKING_MEMORY_SCRIPT_trial_2_intro
  | words_displaying | words_playing | beep_start | recording =>
      (st_trial_number d = Some 1 \/ st_trial_number d = Some 2) /\ st_message d = None
  | prompt_playing =>
      (st_trial_number d = Some 1 \/ st_trial_number d = Some 2)
      /\ st_message d = Some WORKING_MEMORY_SCRIPT_prompt
  | beep_end | recording_complete =>
      (exists trial, st_trial_number d = Some trial /\ 0 < trial) /\ st_message d = None
  | completion_playing =>
      st_trial_number d = None /\ st_message d = Some WORKING_MEMORY_SCRIPT_completion
  | complete => st_trial_number d = None /\ st_message d = None
  end.

(** A word display shows a word of the script at its position, counted
    from 1, or clears the display. *)
Definition display_ok (d : WordDisplayMessage) : Prop :=
  (wd_trial_number d = 1 \/ wd_trial_number d = 2)
  /\ ((wd_word d = "" /\ wd_word_index d = 0)
      \/ (1 <= wd_word_index d
          /\ SCRIPT_WORDS !! Z.to_nat (wd_word_index d - 1) = Some (wd_word d))).

Definition message_ok (m : ServerMessage) : Prop :=
  match m with
  | tts_audio d => tts_trial_number d ∈ [None; Some 0; Some 1; Some 2]
  | task_state d =>
      ts_trial_number d = None
      /\ ((ts_state d = listening /\ ts_message d = Some "Waiting to start...")
          \/ (ts_state d = complete_state /\ ts_message d = Some "Task completed!"))
  | debug _ => True
  | evaluation_result r => wf_result r
  | all_results l => Forall wf_result l
  | word_display d => display_ok d
  | state_transition d => transition_ok d
  end.

(** What a session may do: send a message of the vocabulary; sleep for one
    of four delays; wait with the 30 s deadline; have the synthesizer speak
    a text of the script; give the transcriber a WAV file; ask the grader
    about the words of the script and a transcript that is not blank. *)
Definition event_ok (e : TraceEvent) : Prop :=
  match e with
  | EvSend m _ => message_ok m
  | EvSleep ms => ms ∈ [50; 100; 200; 300]%N
  | EvWait t _ => t = AUDIO_COMPLETE_TIMEOUT
  | EvSynth text _ => text ∈ script_texts
  | EvTranscribe audio _ => take 4 audio = RIFF /\ (44 <= length audio)%nat
  | EvGrade ws tr _ => ws = SCRIPT_WORDS /\ strip_is_empty tr = false
  | EvCreateTask _ => True
  end.

(** ** websocket/abstraction_handler.py and its part of main.py

    The abstraction task runs on the same base class.  Its handler has the
    attributes [current_phase], [evaluation_results] and [trial_number];
    the other fields of [Handler] are carried along untouched. *)

Module Abstraction.

Definition ABSTRACTION_SCRIPT_instruction : string :=
  "For this task, I'm going to say two words that are related in some way. I want you to respond with what category these words both belong to. We'll do this twice, and you'll have 10 seconds to respond each time.".

(** [ABSTRACTION_SCRIPT["trials"]]: the pairs [word1], [word2]. *)
Definition ABSTRACTION_SCRIPT_trials : list (string * string) :=
  [("Train", "Bicycle"); ("Banana", "Orange")].

(** [BaseTaskHandler.send_tts_audio], which this handler does not
    override: synthesize and send, no wait. *)
Definition send_tts_audio (text : string) (trial : option Z) : Prog unit :=
  try_except
    (audio_bytes ← tts_service_generate_audio text;
     let audio_base64 := b64encode audio_bytes in
     websocket_send_text
       (tts_audio {| tts_audio_b64 := audio_base64; tts_trial_number := trial |}))
    (fun _ => Ret tt).

(** [_send_completion]: no guard in this handler. *)
Definition _send_completion : Prog unit := send_all_results.

Definition _send_instruction : Prog unit :=
  modify_self (set_current_phase "instruction");;
  let instruction_text := ABSTRACTION_SCRIPT_instruction in
  send_tts_audio instruction_text (Some 0);;
  send_task_state listening (Some 0) (Some "Instruction").

Definition _start_task : Prog unit :=
  try_except _send_instruction
    (fun e => send_debug ("Failed to start task: " +:+ e)).

(** The text spoken for a trial: one wording for the first trial, another
    for any other. *)
Definition trial_text (trial : Z) (word1 word2 : string) : string :=
  if trial =? 1 then
    "The two words are " +:+ word1 +:+ " and " +:+ word2
    +:+ ". What category do they both belong to?"
  else
    "Alright now let's do that one more time, again, you'll have 10 seconds to respond. This time your words are "
    +:+ word1 +:+ " and " +:+ word2 +:+ ". What category do they both belong to?".

Definition send_trial_audio (trial : Z) : Prog unit :=
  if Z.of_nat (length ABSTRACTION_SCRIPT_trials) <? trial then _send_completion
  else
    modify_self (set_current_phase ("trial_" +:+ str_int trial));;
    modify_self (set_trial_number trial);;
    pair ← of_outcome (py_index ABSTRACTION_SCRIPT_trials (trial - 1));
    let word1 := pair.1 in
    let word2 := pair.2 in
    send_tts_audio (trial_text trial word1 word2) (Some trial);;
    send_task_state listening (Some trial) (Some ("Trial " +:+ str_int trial)).

Definition _send_next_trial_immediately (trial : Z) : Prog unit :=
  try_except (send_trial_audio trial) (fun _ => Ret tt).

Definition _send_completion_immediately : Prog unit :=
  try_except _send_completion (fun _ => Ret tt).

(** The coroutine objects this handler hands to [asyncio.create_task]. *)
Inductive Coro :=
| co_send_next_trial_immediately (trial : Z)
| co_send_completion_immediately.

Definition coro_body (c : Coro) : Prog unit :=
  match c with
  | co_send_next_trial_immediately trial => _send_next_trial_immediately trial
  | co_send_completion_immediately => _send_completion_immediately
  end.

(** [_handle_audio_upload] does nothing but create one task; it is given
    here by the coroutine it creates. *)
Definition _handle_audio_upload (trial : Z) (audio_bytes : bytes) : Coro :=
  if trial =? 0 then co_send_next_trial_immediately 1
  else if trial <? Z.of_nat (length ABSTRACTION_SCRIPT_trials) then
    co_send_next_trial_immediately (trial + 1)
  else co_send_completion_immediately.

(** [EvaluationResult(trial_number=..., word1=..., word2=...,
    transcript=..., category=..., is_correct=..., confidence=...,
    notes=...)], as pydantic checks it. *)
Definition new_abstraction_result
    (rt : Runtime) (trial : Z) (word1 word2 transcript : string)
    (category : Json) (is_correct : Json) (confidence : float) (notes : Json)
  : outcome EvaluationResult :=
  match validate_optional_str rt category,
        validate_bool rt is_correct,
        validate_str rt notes with
  | Some cat, Some ok, Some nt =>
      Returned {| er_trial_number := trial;
                  er_word1 := Some word1; er_word2 := Some word2; er_category := cat;
                  er_words := None; er_correct_words := None; er_score := None;
                  er_transcript := transcript;
                  er_is_correct := ok;
                  er_confidence := confidence;
                  er_notes := nt |}
  | _, _, _ => Raised (validation_error rt category is_correct notes)
  end.

(** The override of [add_evaluation_result]: build the result, store and
    send it; no gate. *)
Definition add_evaluation_result
    (rt : Runtime) (trial : Z) (word1 word2 transcript : string)
    (category : Json) (is_correct : Json) (confidence : float) (notes : Json)
  : Prog unit :=
  result ← of_outcome
             (new_abstraction_result rt trial word1 word2 transcript
                category is_correct confidence notes);
  BaseTaskHandler_add_evaluation_result result;;
  send_evaluation_result result.

(** The dict [evaluate_abstraction_response] returns: the category, the
    verdict and the notes are whatever the reply holds under these keys. *)
Record AbstractionEvaluation :=
  { category : Json;
    is_correct : Json;
    confidence : float;
    notes : Json }.

(** The body of the [try] of [evaluate_abstraction_response], once the
    request and [json.loads] have given [result]. *)
Definition read_abstraction_reply (rt : Runtime) (result : Json)
  : outcome AbstractionEvaluation :=
  and_then (py_get result "category" (JString "none")) (fun category =>
  and_then (py_get result "is_correct" (JBool false)) (fun is_correct =>
  and_then (py_get result "confidence" (JFloat 0.0)) (fun confidence_value =>
  and_then (py_float rt confidence_value) (fun confidence =>
  and_then (py_get result "notes" (JString "")) (fun notes =>
  Returned {| category := category;
              is_correct := is_correct;
              confidence := confidence;
              notes := notes |}))))).

(** [evaluate_abstraction_response].  The function makes at most one
    request; [reply] is what the request and [json.loads] give, if the
    request is made.  Whatever raises inside the [try] ends in the
    [except] branch. *)
Definition evaluate_abstraction_response
    (rt : Runtime) (word1 word2 transcript : string) (reply : outcome Json)
  : AbstractionEvaluation :=
  if bool_decide (transcript = "") || strip_is_empty transcript then
    {| category := JString "none"; is_correct := JBool false; confidence := 1.0;
       notes := JString NO_RESPONSE_NOTES |}
  else
    match and_then reply (read_abstraction_reply rt) with
    | Returned evaluation => evaluation
    | Raised e =>
        {| category := JString "none"; is_correct := JBool false; confidence := 0.0;
           notes := JString ("Evaluation error: " +:+ e) |}
    end.

Section Main.

Variable float_sum : list float -> float.
Variable float_pow_half : float -> float.
Variable rt : Runtime.

(** [_evaluate_audio_background] of main.py: transcribe, grade, store and
    send. *)
Definition _evaluate_audio_background
    (audio_bytes : bytes) (trial : Z) (reply : outcome Json) : Prog unit :=
  try_except
    (transcript ← transcribe_audio float_sum float_pow_half audio_bytes;
     if (0 <? trial) && (trial <=? Z.of_nat (length ABSTRACTION_SCRIPT_trials)) then
       pair ← of_outcome (py_index ABSTRACTION_SCRIPT_trials (trial - 1));
       let word1 := pair.1 in
       let word2 := pair.2 in
       let evaluation := evaluate_abstraction_response rt word1 word2 transcript reply in
       add_evaluation_result rt trial word1 word2 transcript
         (category evaluation) (is_correct evaluation)
         (confidence evaluation) (notes evaluation)
     else Ret tt)
    (fun _ => Ret tt).

End Main.

End Abstraction.

(** ** services/tts_service.py: the synthesizer behind its cache *)

Module TTS.

(** *** Text normalization

    A [str] is a sequence of code points below 256, as elsewhere. *)

(** [c.lower()] in that range: A-Z and the capital letters of Latin-1
    (192-222 but the multiplication sign 215) move up by 32. *)
Definition lower_char (c : ascii) : ascii :=
  let n := N_of_ascii c in
  if ((65 <=? n) && (n <=? 90) || (192 <=? n) && (n <=? 222) && negb (n =? 215))%N
  then ascii_of_N (n + 32) else c.

Definition lower (s : list ascii) : list ascii := map lower_char s.

(** [s.lstrip()], [s.rstrip()] and [s.strip()]. *)
Fixpoint lstrip (s : list ascii) : list ascii :=
  match s with
  | [] => []
  | c :: rest => if is_space c then lstrip rest else s
  end.

Fixpoint rstrip (s : list ascii) : list ascii :=
  match s with
  | [] => []
  | c :: rest =>
      match rstrip rest with
      | [] => if is_space c then [] else [c]
      | r => c :: r
      end
  end.

Definition strip (s : list ascii) : list ascii := rstrip (lstrip s).

(** The pieces of [s] between white-space characters, empty pieces
    included; [s.split()] keeps the ones that are not empty. *)
Fixpoint pieces (s : list ascii) : list (list ascii) :=
  match s with
  | [] => [[]]
  | c :: rest =>
      if is_space c then [] :: pieces rest
      else match pieces rest with
           | w :: ws => (c :: w) :: ws
           | [] => [[c]]
           end
  end.

Definition nonempty (w : list ascii) : bool :=
  match w with [] => false | _ => true end.

Definition split (s : list ascii) : list (list ascii) := List.filter nonempty (pieces s).

(** [_normalize_text]: [" ".join(text.strip().lower().split())]. *)
Definition _normalize_text (text : string) : string :=
  join " " (map string_of_list_ascii
              (split (lower (strip (list_ascii_of_string text))))).

(** *** The service *)

(** [p / c] on paths: an empty component changes nothing. *)
Definition path_join (p c : string) : string :=
  if bool_decide (c = "") then p else p +:+ "/" +:+ c.

(** What [__init__] fixes: the voice comes from the environment, the rest
    is constant. *)
Record Service := { voice_id : string; cache_dir : string }.

Definition audio_format : string := "mp3".
Definition model_id : string := "eleven_multilingual_v2".
Definition sample_rate : option Z := None.

(** The metadata saved beside each cached audio. *)
Record Metadata :=
  { original_text : string;
    normalized_text : string;
    md_voice_id : string;
    md_model_id : string;
    md_audio_format : string;
    md_sample_rate : option Z;
    md_cache_key : string }.

(** The disk under the cache directory, and the requests made to
    ElevenLabs so far (voice and text). *)
Record Disk :=
  { files : gmap string bytes;
    requests : list (string * string) }.

(** What the outside answers: whether a directory can be made, a file
    read, a file written; and what ElevenLabs returns for a voice and a
    text. *)
Record IO :=
  { mkdir : string -> outcome unit;
    can_read : string -> bool;
    can_write : string -> bool;
    text_to_speech_convert : string -> string -> outcome bytes }.

Section Service.

(** [hashlib.sha256(s.encode('utf-8')).hexdigest()] and the bytes of
    [json.dumps(metadata, indent=2)]. *)
Variable sha256_hexdigest : string -> string.
Variable json_dumps : Metadata -> bytes.

Variable self : Service.
Variable io : IO.

Definition _get_cache_key
    (text voice_id model_id audio_format : string) (sample_rate : option Z) : string :=
  let normalized_text := _normalize_text text in
  let sample_rate_str :=
    match sample_rate with Some n => str_int n | None => "default" end in
  let cache_input :=
    normalized_text +:+ "|" +:+ voice_id +:+ "|" +:+ model_id +:+ "|"
    +:+ audio_format +:+ "|" +:+ sample_rate_str in
  sha256_hexdigest cache_input.

(** [_get_cache_path]: the file sits two directories deep, named after the
    first four characters of the key; making the directories may fail. *)
Definition _get_cache_path (cache_key audio_format : string) : outcome string :=
  let first_2 := substring 0 2 cache_key in
  let next_2 := substring 2 2 cache_key in
  let shard_dir := path_join (path_join (cache_dir self) first_2) next_2 in
  match mkdir io shard_dir with
  | Raised e => Raised e
  | Returned _ => Returned (path_join shard_dir (cache_key +:+ "." +:+ audio_format))
  end.

(** [_load_from_cache]: the bytes of the file if it is there and can be
    read, [None] otherwise. *)
Definition _load_from_cache (cache_path : string) (d : Disk) : option bytes :=
  match files d !! cache_path with
  | Some audio_bytes => if can_read io cache_path then Some audio_bytes else None
  | None => None
  end.

(** [cache_path.with_suffix('.json')] for a path that ends in ".mp3". *)
Definition metadata_path (cache_path : string) : string :=
  substring 0 (String.length cache_path - 4) cache_path +:+ ".json".

(** [_save_to_cache]: write the audio, then the metadata; a failure of
    either write is swallowed, and the first one skips the second. *)
Definition _save_to_cache
    (cache_path : string) (audio_bytes : bytes) (metadata : option Metadata) (d : Disk)
  : Disk :=
  if can_write io cache_path then
    let d1 := {| files := <[cache_path := audio_bytes]> (files d);
                 requests := requests d |} in
    match metadata with
    | Some md =>
        if can_write io (metadata_path cache_path) then
          {| files := <[metadata_path cache_path := json_dumps md]> (files d1);
             requests := requests d1 |}
        else d1
    | None => d1
    end
  else d.

(** [generate_audio]: the cached audio if there is one, else the audio
    ElevenLabs returns, which is cached; every exception is raised again. *)
Definition generate_audio (text : string) (voice : option string) (d : Disk)
  : outcome bytes * Disk :=
  let voice_id_to_use :=
    match voice with
    | Some v => if bool_decide (v = "") then voice_id self else v
    | None => voice_id self
    end in
  let cache_key := _get_cache_key text voice_id_to_use model_id audio_format sample_rate in
  match _get_cache_path cache_key audio_format with
  | Raised e => (Raised e, d)
  | Returned cache_path =>
      match _load_from_cache cache_path d with
      | Some cached_audio => (Returned cached_audio, d)
      | None =>
          let d1 := {| files := files d;
                       requests := requests d ++ [(voice_id_to_use, text)] |} in
          match text_to_speech_convert io voice_id_to_use text with
          | Raised e => (Raised e, d1)
          | Returned audio_bytes =>
              let metadata :=
                {| original_text := text;
                   normalized_text := _normalize_text text;
                   md_voice_id := voice_id_to_use;
                   md_model_id := model_id;
                   md_audio_format := audio_format;
                   md_sample_rate := sample_rate;
                   md_cache_key := cache_key |} in
              (Returned audio_bytes, _save_to_cache cache_path audio_bytes (Some metadata) d1)
          end
      end
  end.

End Service.

End TTS.

(** A toy service to run the cache on: a digest that is not SHA-256 (any
    function will do for a key), metadata that serializes to nothing, a
    disk that never fails and a synthesizer that answers every request
    with the same three bytes. *)
Definition toy_digest (s : string) : string := "00ff" +:+ s.
Definition toy_json_dumps (md : TTS.Metadata) : bytes := [].
Definition toy_service : TTS.Service :=
  {| TTS.voice_id := "nPczCjzI2devNBz1zQrb"; TTS.cache_dir := "backend/tts_cache" |}.
Definition toy_io : TTS.IO :=
  {| TTS.mkdir := fun _ => Returned tt;
     TTS.can_read := fun _ => true;
     TTS.can_write := fun _ => true;
     TTS.text_to_speech_convert := fun _ _ => Returned [Byte.x49; Byte.x44; Byte.x33] |}.
Definition empty_disk : TTS.Disk := {| TTS.files := ∅; TTS.requests := [] |}.

(** ** Time spent sleeping and waiting *)

(** The coroutine [p], run on its own from a state the session can be in,
    ends at most [n] ms later on the clock of sleeps and waits. *)
Definition within {A} (n : N) (p : Prog A) : Prop :=
  forall env w, state_ok (handler w) -> (clock (after env p w) <= clock w + n)%N.

(** ** Who can end a wait

    The playback event is set in one place, [_handle_audio_complete], which
    only the message loop of the connection handler calls. *)

(** [meek p h]: the coroutine [p], in a segment that has reached the
    handler [h], never sets the playback event: whenever it writes the
    handler, the event is set only if it was. *)
Fixpoint meek {A} (p : Prog A) (h : Handler) : Prop :=
  match p with
  | Ret _ | Raise _ => True
  | GetSelf k => meek (k h) h
  | SetSelf h' k =>
      (audio_complete_event h' = true -> audio_complete_event h = true) /\ meek k h'
  | SendText _ k => forall r h1, meek (k r) h1
  | Sleep _ k => forall h1, meek k h1
  | WaitFor _ k => forall (b : bool) h1, meek (k b) h1
  | GenerateAudio _ k => forall r h1, meek (k r) h1
  | Transcribe _ k => forall r h1, meek (k r) h1
  | ChatCompletion _ _ k => forall r h1, meek (k r) h1
  | CreateTask _ k => forall h1, meek k h1
  | ReceiveText k => forall h1, meek k h1
  end.

(** [calm p h]: the coroutine [p], in a segment that has reached the
    handler [h], waits only while the playback event is clear, provided
    that an event that is clear when [p] suspends is still clear when it
    resumes. *)
Fixpoint calm {A} (p : Prog A) (h : Handler) : Prop :=
  let kept h1 := audio_complete_event h = false -> audio_complete_event h1 = false in
  match p with
  | Ret _ | Raise _ => True
  | GetSelf k => calm (k h) h
  | SetSelf h' k => calm k h'
  | WaitFor _ k =>
      audio_complete_event h = false
      /\ forall (b : bool) h1, audio_complete_event h1 = false -> calm (k b) h1
  | SendText _ k => forall r h1, kept h1 -> calm (k r) h1
  | Sleep _ k => forall h1, kept h1 -> calm k h1
  | GenerateAudio _ k => forall r h1, kept h1 -> calm (k r) h1
  | Transcribe _ k => forall r h1, kept h1 -> calm (k r) h1
  | ChatCompletion _ _ k => forall r h1, kept h1 -> calm (k r) h1
  | CreateTask _ k => forall h1, kept h1 -> calm k h1
  | ReceiveText k => forall h1, kept h1 -> calm k h1
  end.

(** Meek, or calm, whenever it is resumed. *)
Definition always_meek {A} (p : Prog A) : Prop := forall h, meek p h.
Definition always_calm {A} (p : Prog A) : Prop := forall h, calm p h.

(** The pool of a session: the connection handler comes first and is
    calm, with the event known to be clear if [clear] says so; every other
    coroutine is meek. *)
Definition sys_calm (s : System) : Prop :=
  exists p0 others (clear : bool),
    tasks s = p0 :: others
    /\ (clear = true -> audio_complete_event (handler (world s)) = false)
    /\ (forall h1, (clear = true -> audio_complete_event h1 = false) -> calm p0 h1)
    /\ Forall always_meek others.

(** A client that acknowledges the instruction as soon as it can: the
    acknowledgement is queued behind the start signal. *)
Definition eager_frames : list Received := [start_frame; ack_frame].

(** The connection handler alone, up to the wait that follows the
    instruction audio. *)
Definition instruction_wait_ticks : list Tick := replicate 10 (Resume 0).

(** * Properties *)

(** ** Sanity checks of the Python helpers *)

Example b64encode_Man : b64encode [Byte.x4d; Byte.x61; Byte.x6e] = "TWFu".
Proof. reflexivity. Qed.

Example b64encode_Ma : b64encode [Byte.x4d; Byte.x61] = "TWE=".
Proof. reflexivity. Qed.

Example py_index_last : py_index [10; 20; 30] (-1) = Returned 30.
Proof. reflexivity. Qed.

Example join_words : join ". " ["chair"; "book"; "hand"] +:+ "." = "chair. book. hand.".
Proof. reflexivity. Qed.

Example str_int_neg : str_int (-3) = "-3".
Proof. reflexivity. Qed.

(** ** The interpreters *)

Lemma mbind_bind {A B} (p : Prog A) (f : A -> Prog B) : p ≫= f = bind p f.
Proof. reflexivity. Qed.

Lemma run_bind {A B} env (p : Prog A) (f : A -> Prog B) w :
  run env (p ≫= f) w =
  match run env p w with
  | (Returned a, w') => run env (f a) w'
  | (Raised e, w') => (Raised e, w')
  end.
Proof.
  rewrite mbind_bind. revert w.
  induction p as [a|e|k IH|h k IH|m k IH|ms k IH|t k IH|text k IH|audio k IH
                  |ws tr k IH|c k IH|k IH]; intros w; simpl; auto.
Qed.

Lemma run_try_except {A} env (p : Prog A) handle w :
  run env (try_except p handle) w =
  match run env p w with
  | (Returned a, w') => (Returned a, w')
  | (Raised e, w') => run env (handle e) w'
  end.
Proof.
  revert w.
  induction p as [a|e|k IH|h k IH|m k IH|ms k IH|t k IH|text k IH|audio k IH
                  |ws tr k IH|c k IH|k IH]; intros w; simpl; auto.
Qed.

(** A coroutine only ever extends the trace, and time does not go back. *)
Lemma resolve_wait_trace env t w :
  exists r, trace (resolve_wait env t w).2 = trace w ++ [EvWait t r].
Proof.
  unfold resolve_wait. repeat case_match; simpl; eauto.
Qed.


Lemma step_trace_prefix {A} env (p : Prog A) w :
  trace w `prefix_of` trace (step env p w).2.
Proof.
  revert w.
  induction p as [a|e|k IH|h k IH|m k IH|ms k IH|t k IH|text k IH|audio k IH
                  |ws tr k IH|c k IH|k IH]; intros w; simpl;
    try reflexivity; try (apply prefix_app_r; reflexivity).
  - apply IH.
  - apply (IH (with_handler h w)).
  - destruct (resolve_wait_trace env t w) as [r ->]. by apply prefix_app_r.
Qed.

(** Running a coroutine is running its first segment and then the rest. *)
Lemma run_step {A} env (p : Prog A) w :
  run env p w = run env (step env p w).1 (step env p w).2.
Proof.
  revert w.
  induction p as [a|e|k IH|h k IH|m k IH|ms k IH|t k IH|text k IH|audio k IH
                  |ws tr k IH|c k IH|k IH]; intros w; simpl; auto.
Qed.


(** ** The validation of a result *)

(** A result that pydantic accepts carries the trial, the words, the
    transcript and the two floats as given, and what the validation made of
    the three other values. *)
Lemma new_working_memory_result_fields rt trial words transcript cw sc ok conf nt result :
  new_working_memory_result rt trial words transcript cw sc ok conf nt = Returned result ->
  exists cw' ok' nt',
    validate_optional_str_list rt cw = Some cw'
    /\ validate_bool rt ok = Some ok'
    /\ validate_str rt nt = Some nt'
    /\ result = {| er_trial_number := trial;
                   er_word1 := None; er_word2 := None; er_category := None;
                   er_words := Some words;
                   er_correct_words := cw';
                   er_score := Some sc;
                   er_transcript := transcript;
                   er_is_correct := ok';
                   er_confidence := conf;
                   er_notes := nt' |}.
Proof.
  unfold new_working_memory_result.
  destruct (validate_optional_str_list rt cw) as [cw'|]; [|done].
  destruct (validate_bool rt ok) as [ok'|]; [|done].
  destruct (validate_str rt nt) as [nt'|]; [|done].
  intros [= <-]. by exists cw', ok', nt'.
Qed.

Lemma new_working_memory_result_trial rt trial words transcript cw sc ok conf nt result :
  new_working_memory_result rt trial words transcript cw sc ok conf nt = Returned result ->
  er_trial_number result = trial.
Proof.
  intros H. apply new_working_memory_result_fields in H as (cw' & ok' & nt' & _ & _ & _ & ->).
  done.
Qed.

(** Values of the expected types are accepted as they are. *)
Lemma as_strings_map (l : list string) : as_strings (map JString l) = Some l.
Proof. induction l as [|x l IH]; [done|]. simpl. by rewrite IH. Qed.

Lemma new_working_memory_result_typed rt trial words transcript cw sc ok conf nt :
  new_working_memory_result rt trial words transcript
    (JArray (map JString cw)) sc (JBool ok) conf (JString nt)
  = Returned {| er_trial_number := trial;
                er_word1 := None; er_word2 := None; er_category := None;
                er_words := Some words;
                er_correct_words := Some cw;
                er_score := Some sc;
                er_transcript := transcript;
                er_is_correct := ok;
                er_confidence := conf;
                er_notes := nt |}.
Proof.
  unfold new_working_memory_result. simpl. by rewrite as_strings_map.
Qed.
(** ** Traces *)

Lemma steps_app tr1 tr2 : steps (tr1 ++ tr2) = steps tr1 ++ steps tr2.
Proof. apply omap_app. Qed.

Lemma waits_ok_app tr1 tr2 :
  waits_ok tr1 = true -> waits_ok tr2 = true -> waits_ok (tr1 ++ tr2) = true.
Proof.
  revert tr2. induction tr1 as [tr1 IH] using (induction_ltof1 _ (@length _)).
  unfold ltof in IH. intros tr2 H1 H2.
  destruct tr1 as [|e rest]; [done|].
  destruct e as [m r|ms|t r|text r|audio r|ws tr r|c]; simpl in *;
    try (apply IH; [lia|done..]); try done.
  destruct m; try (apply IH; [simpl; lia|done..]).
  destruct r; try (apply IH; [simpl; lia|done..]).
  destruct rest as [|e' rest']; [done|].
  destruct e'; try done. simpl in *.
  apply andb_true_iff in H1 as [-> H1]. simpl.
  apply IH; [simpl; lia|done..].
Qed.

Lemma audio_in_place_app tr1 tr2 :
  audio_in_place tr1 = true -> audio_in_place tr2 = true ->
  audio_in_place (tr1 ++ tr2) = true.
Proof.
  revert tr2. induction tr1 as [tr1 IH] using (induction_ltof1 _ (@length _)).
  unfold ltof in IH. intros tr2 H1 H2.
  destruct tr1 as [|e rest]; [done|].
  destruct e as [m r|ms|t r|text r|audio r|ws tr r|c]; simpl in *;
    try (apply IH; [lia|done..]); try done.
  - destruct m; try (apply IH; [simpl; lia|done..]). done.
  - destruct r as [a|e]; [|apply IH; [simpl; lia|done..]].
    destruct rest as [|e1 rest1]; [done|].
    destruct e1 as [m r| | | | | |]; try done.
    destruct m as [d| | | | | |]; try done.
    destruct r as [u|e].
    + destruct rest1 as [|e2 rest2]; [done|].
      destruct e2; try done. simpl in *.
      apply andb_true_iff in H1 as [-> H1]. simpl.
      apply IH; [simpl; lia|done..].
    + simpl in *. apply andb_true_iff in H1 as [-> H1]. simpl.
      apply IH; [simpl; lia|done..].
Qed.

Lemma waits_timed_out_app tr1 tr2 :
  waits_timed_out (tr1 ++ tr2) = waits_timed_out tr1 && waits_timed_out tr2.
Proof. apply forallb_app. Qed.

Lemma transcription_calls_app tr1 tr2 :
  transcription_calls (tr1 ++ tr2) = (transcription_calls tr1 + transcription_calls tr2)%nat.
Proof. unfold transcription_calls. by rewrite filter_app, length_app. Qed.

Lemma grading_calls_app tr1 tr2 :
  grading_calls (tr1 ++ tr2) = (grading_calls tr1 + grading_calls tr2)%nat.
Proof. unfold grading_calls. by rewrite filter_app, length_app. Qed.

Lemma wait_count_app tr1 tr2 :
  wait_count (tr1 ++ tr2) = (wait_count tr1 + wait_count tr2)%nat.
Proof. unfold wait_count. by rewrite filter_app, length_app. Qed.

Lemma synth_calls_app tr1 tr2 :
  synth_calls (tr1 ++ tr2) = (synth_calls tr1 + synth_calls tr2)%nat.
Proof. unfold synth_calls. by rewrite filter_app, length_app. Qed.

Lemma sent_results_app tr1 tr2 :
  sent_results (tr1 ++ tr2) = sent_results tr1 ++ sent_results tr2.
Proof. apply omap_app. Qed.

Lemma sent_aggregates_app tr1 tr2 :
  sent_aggregates (tr1 ++ tr2) = sent_aggregates tr1 ++ sent_aggregates tr2.
Proof. apply omap_app. Qed.

Lemma emits_nil env : emits env [] [].
Proof. by repeat split. Qed.

Lemma emits_app env tr1 tr2 ss1 ss2 :
  emits env tr1 ss1 -> emits env tr2 ss2 -> emits env (tr1 ++ tr2) (ss1 ++ ss2).
Proof.
  intros (S1 & W1 & T1 & Y1 & C1 & G1 & R1 & A1) (S2 & W2 & T2 & Y2 & C2 & G2 & R2 & A2).
  repeat split.
  - by rewrite steps_app, S1, S2.
  - by apply waits_ok_app.
  - intros Hn. by rewrite waits_timed_out_app, T1, T2.
  - intros Hr. by rewrite wait_count_app, synth_calls_app, Y1, Y2.
  - by rewrite transcription_calls_app, C1, C2.
  - by rewrite grading_calls_app, G1, G2.
  - by rewrite sent_results_app, R1, R2.
  - by apply audio_in_place_app.
Qed.

Lemma emits_sleep env ms : emits env [EvSleep ms] [].
Proof. by repeat split. Qed.

Lemma emits_audio env text trial new b d :
  audio_events env text trial new b d -> emits env new [Speak text].
Proof.
  intros H. destruct H as [n e Hf|n a e Hf|a n d Hn Hd|a]; repeat split; simpl; try done.
  - intros [_ Hr]. destruct (Hr n text) as [a Ha]. congruence.
  - intros [Hr _]. rewrite Hr in Hf. done.
  - by rewrite String.eqb_refl.
  - unfold wait_resolved. rewrite N.eqb_refl. simpl. rewrite andb_true_r.
    by apply N.ltb_lt.
  - intros Hno. rewrite Hno in Hn. done.
  - rewrite String.eqb_refl. unfold wait_resolved. rewrite N.eqb_refl. simpl.
    rewrite andb_true_r. by apply N.ltb_lt.
  - by rewrite String.eqb_refl.
Qed.

(** ** The judgement [performs] *)

Lemma performs_conv env p w w' ss ss' :
  performs env p w w' ss -> ss = ss' -> performs env p w w' ss'.
Proof. by intros H <-. Qed.

Lemma performs_ret env w : performs env (Ret tt) w w [].
Proof. split; [done|]. exists []. split; [by rewrite app_nil_r|apply emits_nil]. Qed.

Lemma performs_bind env (p : Prog unit) (f : unit -> Prog unit) w w' w'' ss1 ss2 :
  performs env p w w' ss1 ->
  performs env (f tt) w' w'' ss2 ->
  performs env (p ≫= f) w w'' (ss1 ++ ss2).
Proof.
  intros (R1 & new1 & T1 & E1) (R2 & new2 & T2 & E2). split.
  - by rewrite run_bind, R1.
  - exists (new1 ++ new2). split; [|by apply emits_app].
    by rewrite T2, T1, app_assoc.
Qed.

Lemma performs_modify env g (f : unit -> Prog unit) w w' ss :
  performs env (f tt) (with_handler (g (handler w)) w) w' ss ->
  performs env (modify_self g ≫= f) w w' ss.
Proof.
  intros (R & new & T & E). split; [|by exists new].
  by rewrite run_bind.
Qed.

Lemma performs_modify_last env g w :
  performs env (modify_self g) w (with_handler (g (handler w)) w) [].
Proof. split; [done|]. exists []. split; [by rewrite app_nil_r|apply emits_nil]. Qed.

Lemma performs_read {A} env (g : Handler -> A) (f : A -> Prog unit) w w' ss :
  performs env (f (g (handler w))) w w' ss ->
  performs env (read_self g ≫= f) w w' ss.
Proof.
  intros (R & new & T & E). split; [|by exists new].
  by rewrite run_bind.
Qed.

Lemma performs_getself env (f : Handler -> Prog unit) w w' ss :
  performs env (f (handler w)) w w' ss ->
  performs env (GetSelf Ret ≫= f) w w' ss.
Proof.
  intros (R & new & T & E). split; [|by exists new].
  by rewrite run_bind.
Qed.

Lemma performs_returned {A} env (a : A) (f : A -> Prog unit) w w' ss :
  performs env (f a) w w' ss ->
  performs env (of_outcome (Returned a) ≫= f) w w' ss.
Proof.
  intros (R & new & T & E). split; [|by exists new].
  by rewrite run_bind.
Qed.

(** The silent steps of a run. *)
Lemma run_read {A B} env (g : Handler -> A) (f : A -> Prog B) w :
  run env (read_self g ≫= f) w = run env (f (g (handler w))) w.
Proof. reflexivity. Qed.

Lemma run_modify {B} env g (f : unit -> Prog B) w :
  run env (modify_self g ≫= f) w = run env (f tt) (with_handler (g (handler w)) w).
Proof. reflexivity. Qed.

Lemma run_ret_bind {A B} env (a : A) (f : A -> Prog B) w :
  run env (Ret a ≫= f) w = run env (f a) w.
Proof. reflexivity. Qed.

Lemma run_returned {A B} env (a : A) (f : A -> Prog B) w :
  run env (of_outcome (Returned a) ≫= f) w = run env (f a) w.
Proof. reflexivity. Qed.

(** A send inside [try ... except]: one event, whatever the socket says. *)
Lemma run_guarded_send env m w :
  run env (try_except (websocket_send_text m) (fun _ => Ret tt)) w =
  (Returned tt, sent env m w).
Proof.
  simpl. unfold sent. by destruct (ws_send_text env (length (trace w)) m) as [[]|e].
Qed.

Lemma performs_guarded_send env m w s :
  step_of (EvSend m (Returned tt)) = Some s ->
  sent_result (EvSend m (Returned tt)) = None ->
  performs env (try_except (websocket_send_text m) (fun _ => Ret tt)) w
    (sent env m w) [s].
Proof.
  intros Hs Hr. split; [apply run_guarded_send|].
  eexists. split; [reflexivity|].
  destruct m; simpl in Hs, Hr; try done; inversion Hs; subst; by repeat split.
Qed.

Lemma performs_send_state_transition env phase trial message w :
  performs env (_send_state_transition phase trial message) w
    (sent env (state_transition
                    {| st_phase := phase; st_trial_number := trial; st_message := message |}) w)
    [Transition phase trial message].
Proof. by apply performs_guarded_send. Qed.

Lemma performs_send_word_display env word trial word_index w :
  performs env (_send_word_display word trial word_index) w
    (sent env (word_display
                    {| wd_word := word; wd_trial_number := trial; wd_word_index := word_index |}) w)
    [Display word trial word_index].
Proof. by apply performs_guarded_send. Qed.

Lemma performs_send_task_state env state trial message w :
  performs env (send_task_state state trial message) w
    (sent env (task_state
                    {| ts_state := state; ts_trial_number := trial; ts_message := message |}) w)
    [State state trial message].
Proof. by apply performs_guarded_send. Qed.

Lemma performs_send_debug env message w :
  performs env (send_debug message) w
    (sent env (debug {| dbg_message := message |}) w)
    [Debug message].
Proof. by apply performs_guarded_send. Qed.

Lemma performs_sleep env ms w :
  performs env (asyncio_sleep ms) w (log (EvSleep ms) ms w) [].
Proof. split; [done|]. eexists. split; [reflexivity|apply emits_sleep]. Qed.

(** [send_tts_audio] always returns; it leaves the handler as it found it
    but for the rendezvous flags, and its events are those of
    [audio_events]. *)
Lemma run_send_tts_audio env text trial w :
  exists (b : bool) new d,
    run env (send_tts_audio text trial) w =
      (Returned tt,
       {| handler := set_waiting_for_audio_complete false
                       (set_audio_complete_event b (handler w));
          trace := trace w ++ new;
          clock := (clock w + d)%N |})
    /\ audio_events env text trial new b d.
Proof.
  unfold send_tts_audio. rewrite run_try_except. simpl.
  destruct (elevenlabs_convert env (length (trace w)) text) as [a|e] eqn:Hs; simpl.
  - destruct (ws_send_text env _ _) as [[]|e] eqn:Hw; simpl.
    + unfold resolve_wait; simpl.
      destruct (client_ack_after env _) as [d|] eqn:Hack; simpl.
      * destruct (d <? AUDIO_COMPLETE_TIMEOUT)%N eqn:Hd; simpl.
        -- exists true, [EvSynth text (Returned a);
                         EvSend (tts_audio {| tts_audio_b64 := b64encode a;
                                              tts_trial_number := trial |}) (Returned tt);
                         EvWait AUDIO_COMPLETE_TIMEOUT (Signalled d)], d.
           split.
           ++ unfold log; simpl. rewrite <- !app_assoc. simpl.
              by rewrite !N.add_0_r.
           ++ eapply audio_signalled; [exact Hack|by apply N.ltb_lt].
        -- eexists false, _, AUDIO_COMPLETE_TIMEOUT. split; [|apply (audio_timed_out _ _ _ a)].
           unfold log; simpl. rewrite <- !app_assoc. simpl. by rewrite !N.add_0_r.
      * eexists false, _, AUDIO_COMPLETE_TIMEOUT. split; [|apply (audio_timed_out _ _ _ a)].
        unfold log; simpl. rewrite <- !app_assoc. simpl. by rewrite !N.add_0_r.
    + eexists false, _, 0%N. split; [|eapply (audio_send_failed _ _ _ _ a e); exact Hw].
      unfold log; simpl. rewrite <- !app_assoc. simpl. by rewrite !N.add_0_r.
  - eexists false, _, 0%N. split; [|eapply (audio_synth_failed _ _ _ _ e); exact Hs].
    unfold log; simpl. by rewrite !N.add_0_r.
Qed.

Lemma performs_after env p w w' ss : performs env p w w' ss -> w' = after env p w.
Proof. intros [R _]. unfold after. by rewrite R. Qed.

Lemma performs_send_tts_audio env text trial w :
  performs env (send_tts_audio text trial) w
    (after env (send_tts_audio text trial) w) [Speak text].
Proof.
  destruct (run_send_tts_audio env text trial w) as (b & new & d & Hr & Ha).
  unfold after. rewrite Hr. split; [done|].
  exists new. split; [done|]. by eapply emits_audio.
Qed.

Lemma core_after_send_tts_audio env text trial w :
  core (handler (after env (send_tts_audio text trial) w)) = core (handler w).
Proof.
  destruct (run_send_tts_audio env text trial w) as (b & new & d & Hr & Ha).
  unfold after. by rewrite Hr.
Qed.

Lemma core_inv h h' :
  core h = core h' ->
  current_phase h = current_phase h'
  /\ evaluation_results h = evaluation_results h'
  /\ trial_number h = trial_number h'
  /\ trial_words h = trial_words h'
  /\ completion_sent h = completion_sent h'
  /\ evaluated_trials h = evaluated_trials h'.
Proof. unfold core. intros H. by injection H. Qed.

Lemma core_log e d w : core (handler (log e d w)) = core (handler w).
Proof. done. Qed.

Lemma core_sent env m w : core (handler (sent env m w)) = core (handler w).
Proof. done. Qed.

Lemma core_with_handler h w : core (handler (with_handler h w)) = core h.
Proof. done. Qed.

Create Rewrite HintDb core_db.
#[global] Hint Rewrite core_after_send_tts_audio core_log core_sent core_with_handler : core_db.

(** One step of a chain of awaited calls. *)
Ltac perform :=
  lazymatch goal with
  | |- performs _ (_send_state_transition _ _ _ ≫= _) _ _ _ =>
      eapply performs_bind; [apply performs_send_state_transition|]
  | |- performs _ (_send_word_display _ _ _ ≫= _) _ _ _ =>
      eapply performs_bind; [apply performs_send_word_display|]
  | |- performs _ (send_task_state _ _ _ ≫= _) _ _ _ =>
      eapply performs_bind; [apply performs_send_task_state|]
  | |- performs _ (send_debug _ ≫= _) _ _ _ =>
      eapply performs_bind; [apply performs_send_debug|]
  | |- performs _ (asyncio_sleep _ ≫= _) _ _ _ =>
      eapply performs_bind; [apply performs_sleep|]
  | |- performs _ (send_tts_audio _ _ ≫= _) _ _ _ =>
      eapply performs_bind; [apply performs_send_tts_audio|]
  | |- performs _ (modify_self _ ≫= _) _ _ _ => apply performs_modify
  | |- performs _ (read_self _ ≫= _) _ _ _ => apply performs_read
  | |- performs _ (GetSelf Ret ≫= _) _ _ _ => apply performs_getself
  | |- performs _ (of_outcome (Returned _) ≫= _) _ _ _ => apply performs_returned
  | |- performs _ (_send_state_transition _ _ _) _ _ _ =>
      apply performs_send_state_transition
  | |- performs _ (_send_word_display _ _ _) _ _ _ =>
      apply performs_send_word_display
  | |- performs _ (send_task_state _ _ _) _ _ _ => apply performs_send_task_state
  | |- performs _ (send_debug _) _ _ _ => apply performs_send_debug
  | |- performs _ (asyncio_sleep _) _ _ _ => apply performs_sleep
  | |- performs _ (send_tts_audio _ _) _ _ _ => apply performs_send_tts_audio
  | |- performs _ (modify_self _) _ _ _ => apply performs_modify_last
  | |- performs _ (Ret tt) _ _ _ => apply performs_ret
  end.

(** ** The flows of the script *)

Lemma flow_send_instruction env w :
  exists w',
    performs env _send_instruction w w' instruction_steps
    /\ core (handler w') = core (set_current_phase "instruction" (handler w)).
Proof.
  eexists. split.
  - unfold _send_instruction. eapply performs_conv; [repeat perform|done].
  - by autorewrite with core_db.
Qed.

Lemma for_word_display_cons trial word_index word rest :
  for_word_display trial word_index (word :: rest) =
  (_send_word_display word trial word_index;;
   asyncio_sleep 50;;
   for_word_display trial (word_index + 1) rest).
Proof. reflexivity. Qed.

Lemma flow_for_word_display env trial words : forall word_index w,
  exists w',
    performs env (for_word_display trial word_index words) w w'
      (display_steps trial word_index words)
    /\ core (handler w') = core (handler w).
Proof.
  induction words as [|word rest IH]; intros word_index w.
  - exists w. split; [apply performs_ret|done].
  - destruct (IH (word_index + 1)
                (log (EvSleep 50) 50
                   (sent env (word_display {| wd_word := word; wd_trial_number := trial;
                                              wd_word_index := word_index |}) w)))
      as (w' & Hp & Hc).
    exists w'. split.
    + rewrite for_word_display_cons.
      eapply performs_conv; [perform; perform; exact Hp|done].
    + rewrite Hc. by autorewrite with core_db.
Qed.

Lemma run_send_aggregate env w :
  run env
    (try_except
       (results ← read_self evaluation_results;
        websocket_send_text (all_results results))
       (fun _ => Ret tt)) w =
  (Returned tt, sent env (all_results (evaluation_results (handler w))) w).
Proof.
  simpl. unfold sent.
  by destruct (ws_send_text env (length (trace w)) _) as [[]|e].
Qed.

Lemma flow_send_all_results env w :
  exists w',
    performs env send_all_results w w'
      [State complete_state None (Some "Task completed!");
       Results (evaluation_results (handler w))]
    /\ core (handler w') = core (set_current_phase "complete" (handler w)).
Proof.
  eexists. split.
  - unfold send_all_results. eapply performs_conv.
    + perform. perform.
      split; [apply run_send_aggregate|].
      eexists. split; [reflexivity|]. by repeat split.
    + done.
  - by autorewrite with core_db.
Qed.

Lemma performs_assoc {A B} env (p : Prog A) (f : A -> Prog B) (g : B -> Prog unit) w w' ss :
  performs env (p ≫= (fun x => f x ≫= g)) w w' ss ->
  performs env ((p ≫= f) ≫= g) w w' ss.
Proof.
  intros (R & new & T & E). split; [|by exists new].
  rewrite <- R, !run_bind. destruct (run env p w) as [[a|e] w1]; [|done].
  by rewrite run_bind.
Qed.

Lemma performs_ret_bind {A} env (a : A) (f : A -> Prog unit) w w' ss :
  performs env (f a) w w' ss -> performs env (Ret a ≫= f) w w' ss.
Proof. done. Qed.

Lemma after_intro env p w ss (Q : World -> Prop) :
  (exists w', performs env p w w' ss /\ Q w') ->
  performs env p w (after env p w) ss /\ Q (after env p w).
Proof.
  intros (w' & Hp & HQ). by rewrite <- (performs_after _ _ _ _ _ Hp).
Qed.

Lemma performs_for_word_display env trial words word_index w :
  performs env (for_word_display trial word_index words) w
    (after env (for_word_display trial word_index words) w)
    (display_steps trial word_index words).
Proof.
  by destruct (after_intro _ _ _ _ _ (flow_for_word_display env trial words word_index w)).
Qed.

Lemma core_after_for_word_display env trial words word_index w :
  core (handler (after env (for_word_display trial word_index words) w)) = core (handler w).
Proof.
  by destruct (after_intro _ _ _ _ _ (flow_for_word_display env trial words word_index w)).
Qed.

#[global] Hint Rewrite core_after_for_word_display : core_db.

Ltac perform' :=
  lazymatch goal with
  | |- performs _ ((_ ≫= _) ≫= _) _ _ _ => apply performs_assoc
  | |- performs _ (Ret _ ≫= _) _ _ _ => apply performs_ret_bind
  | |- performs _ (for_word_display _ _ _ ≫= _) _ _ _ =>
      eapply performs_bind; [apply performs_for_word_display|]
  | |- _ => perform
  end.

(** [_send_completion] with the flag set: nothing happens. *)
Lemma flow_send_completion_again env w :
  completion_sent (handler w) = true ->
  run env _send_completion w = (Returned tt, w).
Proof.
  intros H. unfold _send_completion. rewrite run_bind. simpl. by rewrite H.
Qed.

(** [_send_completion] with the flag clear: the flag is set and the whole
    completion sequence follows. *)
Lemma flow_send_completion env w :
  completion_sent (handler w) = false ->
  exists w',
    performs env _send_completion w w'
      (completion_steps (evaluation_results (handler w)))
    /\ core (handler w')
       = core (set_current_phase "complete" (set_completion_sent true (handler w))).
Proof.
  intros H. unfold _send_completion.
  set (w1 := after env (send_tts_audio WORKING_MEMORY_SCRIPT_completion None)
               (log (EvSleep 100) 100
                  (sent env (state_transition
                     {| st_phase := completion_playing; st_trial_number := None;
                        st_message := Some WORKING_MEMORY_SCRIPT_completion |})
                     (with_handler (set_completion_sent true (handler w)) w)))).
  set (w2 := sent env (state_transition
                 {| st_phase := complete; st_trial_number := None; st_message := None |}) w1).
  destruct (flow_send_all_results env w2) as (w' & Hp & Hc).
  assert (Hcore : core (handler w2) = core (set_completion_sent true (handler w))).
  { unfold w2, w1. by autorewrite with core_db. }
  exists w'. split.
  - apply performs_read. rewrite H.
    eapply performs_conv; [repeat perform'; exact Hp|].
    apply core_inv in Hcore as (_ & Hres & _). simpl in Hres.
    unfold completion_steps. simpl. by rewrite Hres.
  - rewrite Hc. apply core_inv in Hcore as (H1 & H2 & H3 & H4 & H5 & H6).
    unfold core. simpl in *. by rewrite H2, H3, H4, H5, H6.
Qed.

(** [_send_trial_words] for a trial the handler has words for. *)
Lemma flow_send_trial_words env trial words w :
  (Z.of_nat (length (trial_words (handler w))) <? trial) = false ->
  py_index (trial_words (handler w)) (trial - 1) = Returned words ->
  exists w',
    performs env (_send_trial_words trial) w w' (trial_steps trial words)
    /\ core (handler w')
       = core (set_trial_number trial
                 (set_current_phase ("trial_" +:+ str_int trial) (handler w))).
Proof.
  intros Hlen Hidx. unfold _send_trial_words, trial_steps.
  destruct (trial =? 2) eqn:Ht.
  - eexists. split.
    + apply performs_getself. rewrite Hlen.
      perform. perform. apply performs_read. simpl trial_words. rewrite Hidx.
      eapply performs_conv; [repeat perform'|done].
    + by autorewrite with core_db.
  - eexists. split.
    + apply performs_getself. rewrite Hlen.
      perform. perform. apply performs_read. simpl trial_words. rewrite Hidx.
      eapply performs_conv; [repeat perform'|done].
    + by autorewrite with core_db.
Qed.

(** [_send_trial_words] past the last trial: the completion. *)
Lemma send_trial_words_past_last env trial w :
  (Z.of_nat (length (trial_words (handler w))) <? trial) = true ->
  run env (_send_trial_words trial) w = run env _send_completion w.
Proof.
  intros Hlen. unfold _send_trial_words. rewrite run_bind. simpl. by rewrite Hlen.
Qed.

Lemma performs_try_except env p handle w w' ss :
  performs env p w w' ss -> performs env (try_except p handle) w w' ss.
Proof.
  intros (R & new & T & E). split; [|by exists new].
  by rewrite run_try_except, R.
Qed.

Lemma flow_start_task env w :
  exists w',
    performs env _start_task w w' instruction_steps
    /\ core (handler w')
       = core (set_current_phase "instruction"
                 (set_trial_words [_select_trial_words 1; _select_trial_words 1] (handler w))).
Proof.
  destruct (flow_send_instruction env
              (with_handler
                 (set_trial_words [_select_trial_words 1; _select_trial_words 1] (handler w)) w))
    as (w' & Hp & Hc).
  exists w'. split; [|done].
  unfold _start_task. apply performs_try_except. by apply performs_modify.
Qed.

(** What [_handle_audio_upload] does before it moves on: the end of the
    recording, for a trial number above 0. *)
Lemma flow_recording_end env trial (next : Prog unit) w :
  exists w1,
    core (handler w1) = core (handler w)
    /\ forall w' ss,
         performs env next w1 w' ss ->
         performs env
           ((if 0 <? trial then
               _send_state_transition beep_end (Some trial) None;;
               asyncio_sleep 300;;
               _send_state_transition recording_complete (Some trial) None;;
               asyncio_sleep 200
             else Ret tt);; next)
           w w' (recording_end_steps trial ++ ss).
Proof.
  unfold recording_end_steps. destruct (0 <? trial).
  - eexists. split; [|intros w' ss Hp; eapply performs_conv;
                      [repeat perform'; exact Hp|done]].
    by autorewrite with core_db.
  - exists w. split; [done|]. intros w' ss Hp. by apply performs_ret_bind.
Qed.

(** An upload for the instruction step or for trial 1, when the handler has
    words for the trial that follows. *)
Lemma flow_handle_audio_upload_next env trial audio_bytes words w :
  trial = 0 \/ trial = 1 ->
  (Z.of_nat (length (trial_words (handler w))) <? trial + 1) = false ->
  py_index (trial_words (handler w)) trial = Returned words ->
  exists w',
    performs env (_handle_audio_upload trial audio_bytes) w w'
      (recording_end_steps trial ++ trial_steps (trial + 1) words)
    /\ core (handler w')
       = core (set_trial_number (trial + 1)
                 (set_current_phase ("trial_" +:+ str_int (trial + 1)) (handler w))).
Proof.
  intros Ht Hlen Hidx. unfold _handle_audio_upload.
  destruct (flow_recording_end env trial
              (if trial =? 0 then _send_trial_words 1
               else if trial =? 1 then _send_trial_words 2 else _send_completion) w)
    as (w1 & Hc1 & Hnext).
  apply core_inv in Hc1 as (H1 & H2 & H3 & H4 & H5 & H6).
  destruct (flow_send_trial_words env (trial + 1) words w1) as (w' & Hp & Hc).
  { by rewrite H4. }
  { rewrite H4. by replace (trial + 1 - 1) with trial by lia. }
  exists w'. split.
  - apply Hnext. by destruct Ht as [-> | ->].
  - rewrite Hc. unfold core. simpl. by rewrite H2, H4, H5, H6.
Qed.

(** An upload that leads to the completion: any trial number but 0 and 1,
    or a trial number past the words the handler has. *)
Lemma handle_audio_upload_completes env trial audio_bytes w :
  (trial <> 0 /\ trial <> 1)
  \/ (Z.of_nat (length (trial_words (handler w))) <? trial + 1) = true ->
  run env (_handle_audio_upload trial audio_bytes) w =
  run env
    ((if 0 <? trial then
        _send_state_transition beep_end (Some trial) None;;
        asyncio_sleep 300;;
        _send_state_transition recording_complete (Some trial) None;;
        asyncio_sleep 200
      else Ret tt);; _send_completion) w.
Proof.
  intros H. unfold _handle_audio_upload. rewrite !run_bind.
  destruct (run env _ w) as [[[]|e] w1] eqn:Hr; [|done].
  assert (Htw : trial_words (handler w1) = trial_words (handler w)).
  { destruct (flow_recording_end env trial (Ret tt) w) as (w2 & Hc & Hn).
    destruct (Hn w2 [] (performs_ret env w2)) as [Hrun _].
    rewrite run_bind, Hr in Hrun. simpl in Hrun. injection Hrun as ->.
    by apply core_inv in Hc as (_ & _ & _ & -> & _). }
  destruct (trial =? 0) eqn:H0; [|destruct (trial =? 1) eqn:H1; [|done]].
  - apply Z.eqb_eq in H0 as ->. destruct H as [[? _]|H]; [done|].
    apply send_trial_words_past_last. by rewrite Htw.
  - apply Z.eqb_eq in H1 as ->. destruct H as [[_ ?]|H]; [done|].
    apply send_trial_words_past_last. by rewrite Htw.
Qed.

Lemma flow_handle_audio_upload_completion env trial audio_bytes w :
  (trial <> 0 /\ trial <> 1)
  \/ (Z.of_nat (length (trial_words (handler w))) <? trial + 1) = true ->
  exists w',
    performs env (_handle_audio_upload trial audio_bytes) w w'
      (recording_end_steps trial
       ++ (if completion_sent (handler w) then []
           else completion_steps (evaluation_results (handler w))))
    /\ core (handler w')
       = (if completion_sent (handler w) then core (handler w)
          else core (set_current_phase "complete"
                      (set_completion_sent true (handler w)))).
Proof.
  intros H.
  destruct (flow_recording_end env trial _send_completion w) as (w1 & Hc1 & Hnext).
  apply core_inv in Hc1 as (H1 & H2 & H3 & H4 & H5 & H6).
  assert (Hsame : forall w' ss,
             performs env
               ((if 0 <? trial then
                   _send_state_transition beep_end (Some trial) None;;
                   asyncio_sleep 300;;
                   _send_state_transition recording_complete (Some trial) None;;
                   asyncio_sleep 200
                 else Ret tt);; _send_completion) w w' ss ->
             performs env (_handle_audio_upload trial audio_bytes) w w' ss).
  { intros w' ss (R & Hnew). split; [|done].
    by rewrite handle_audio_upload_completes. }
  destruct (completion_sent (handler w)) eqn:Hs.
  - exists w1. split.
    + apply Hsame, Hnext. split; [apply flow_send_completion_again; congruence|].
      exists []. split; [by rewrite app_nil_r|apply emits_nil].
    + unfold core. by rewrite H1, H2, H3, H4, H5, H6, Hs.
  - destruct (flow_send_completion env w1) as (w' & Hp & Hc); [congruence|].
    exists w'. split.
    + apply Hsame. rewrite <- H2. by apply Hnext.
    + rewrite Hc. unfold core. simpl. by rewrite H2, H3, H4, H6.
Qed.

(** ** The evaluation entry point, one call at a time *)

Lemma not_in_1_2 (trial : Z) :
  trial <> 1 -> trial <> 2 -> bool_decide (trial ∈ [1; 2]) = false.
Proof.
  intros H1 H2. apply bool_decide_eq_false.
  rewrite !elem_of_cons, elem_of_nil. tauto.
Qed.

Lemma in_1_2 (trial : Z) :
  trial = 1 \/ trial = 2 -> bool_decide (trial ∈ [1; 2]) = true.
Proof.
  intros H. apply bool_decide_eq_true. rewrite !elem_of_cons. tauto.
Qed.

Lemma evaluate_background_invalid_trial fs fp rt env audio_bytes trial w :
  trial <> 1 -> trial <> 2 ->
  run env (_evaluate_working_memory_audio_background fs fp rt audio_bytes trial) w
  = (Returned tt, w).
Proof.
  intros H1 H2. unfold _evaluate_working_memory_audio_background.
  by rewrite (not_in_1_2 trial H1 H2).
Qed.

(** C4: for a trial number outside 1..2 the background evaluation returns
    at once and normally: the world is left as it was, so there is no call
    to the transcriber or the grader, nothing is stored and nothing is
    sent; the first segment of the coroutine is already its end; and the
    gate of [add_evaluation_result] turns such a trial number away too. *)
Theorem C4_invalid_trial_rejected_silently
    (float_sum : list float -> float) (float_pow_half : float -> float)
    (rt : Runtime)
    env audio_bytes trial w :
  trial <> 1 -> trial <> 2 ->
  run env (_evaluate_working_memory_audio_background
             float_sum float_pow_half rt audio_bytes trial) w = (Returned tt, w)
  /\ step env (_evaluate_working_memory_audio_background
                 float_sum float_pow_half rt audio_bytes trial) w = (Ret tt, w)
  /\ forall words transcript cw sc ok conf nt,
       run env (add_evaluation_result rt trial words transcript cw sc ok conf nt) w
       = (Returned tt, w).
Proof.
  intros H1 H2.
  unfold _evaluate_working_memory_audio_background, add_evaluation_result.
  rewrite (not_in_1_2 trial H1 H2). by repeat split.
Qed.

Lemma C4_witness :
  run friendly_env
    (_evaluate_working_memory_audio_background
       plain_float_sum PrimFloat.sqrt example_runtime [Byte.x00; Byte.x10] 7) started_world
  = (Returned tt, started_world).
Proof.
  apply (C4_invalid_trial_rejected_silently
           plain_float_sum PrimFloat.sqrt example_runtime friendly_env [Byte.x00; Byte.x10] 7 started_world);
    lia.
Defined.

(** ** Silent recordings *)

Lemma is_silent_empty fs fp threshold : _is_silent fs fp [] threshold = true.
Proof. reflexivity. Qed.

Lemma run_transcribe_silent fs fp env audio_bytes w :
  _is_silent fs fp audio_bytes SILENCE_THRESHOLD = true ->
  run env (transcribe_audio fs fp audio_bytes) w = (Returned "", w).
Proof. intros H. unfold transcribe_audio. by rewrite H. Qed.

Lemma run_evaluate_no_transcript rt env words w :
  run env (evaluate_working_memory_response rt words "") w
  = (Returned no_response_evaluation, w).
Proof. reflexivity. Qed.

Lemma py_index_nonneg_lt {A} (l : list A) i x :
  0 <= i -> py_index l i = Returned x -> i < Z.of_nat (length l).
Proof.
  intros Hi. unfold py_index.
  destruct (i <? 0) eqn:Hn; [apply Z.ltb_lt in Hn; lia|].
  destruct (i <? 0) eqn:Hn'; [done|]. simpl.
  destruct (Z.of_nat (length l) <=? i) eqn:Hle; [done|].
  intros _. by apply Z.leb_gt.
Qed.

(** The gate of [add_evaluation_result]: open for a trial in 1..2 that is
    not yet a member, shut otherwise. *)
Lemma run_add_evaluation_result_open rt env trial words transcript cw sc ok conf nt result w :
  trial = 1 \/ trial = 2 ->
  trial ∉ evaluated_trials (handler w) ->
  new_working_memory_result rt trial words transcript cw sc ok conf nt = Returned result ->
  run env (add_evaluation_result rt trial words transcript cw sc ok conf nt) w
  = (Returned tt,
     sent env (evaluation_result result)
       (with_handler
          (set_evaluation_results (evaluation_results (handler w) ++ [result])
             (set_evaluated_trials (evaluated_trials (handler w) ∪ {[trial]}) (handler w)))
          w)).
Proof.
  intros Ht Hg Hres. unfold add_evaluation_result.
  rewrite (in_1_2 trial Ht). simpl negb. cbv iota.
  rewrite run_read, (bool_decide_eq_false_2 _ Hg).
  rewrite run_modify. cbv beta zeta. rewrite Hres, run_returned.
  unfold BaseTaskHandler_add_evaluation_result. rewrite run_modify.
  unfold send_evaluation_result. apply run_guarded_send.
Qed.

(** When pydantic refuses the values, the trial is marked all the same,
    and the error leaves the method. *)
Lemma run_add_evaluation_result_refused rt env trial words transcript cw sc ok conf nt e w :
  trial = 1 \/ trial = 2 ->
  trial ∉ evaluated_trials (handler w) ->
  new_working_memory_result rt trial words transcript cw sc ok conf nt = Raised e ->
  run env (add_evaluation_result rt trial words transcript cw sc ok conf nt) w
  = (Raised e,
     with_handler
       (set_evaluated_trials (evaluated_trials (handler w) ∪ {[trial]}) (handler w)) w).
Proof.
  intros Ht Hg Hres. unfold add_evaluation_result.
  rewrite (in_1_2 trial Ht). simpl negb. cbv iota.
  rewrite run_read, (bool_decide_eq_false_2 _ Hg).
  rewrite run_modify. cbv beta zeta. by rewrite Hres.
Qed.

Lemma run_add_evaluation_result_shut rt env trial words transcript cw sc ok conf nt w :
  trial ∈ evaluated_trials (handler w) ->
  run env (add_evaluation_result rt trial words transcript cw sc ok conf nt) w
  = (Returned tt, w).
Proof.
  intros Hg. unfold add_evaluation_result.
  destruct (negb (bool_decide (trial ∈ [1; 2]))); [done|].
  by rewrite run_read, (bool_decide_eq_true_2 _ Hg).
Qed.

(** The pipeline on a silent recording, gate open and words at hand. *)
Lemma run_evaluate_background_silent fs fp rt env audio_bytes trial words w :
  _is_silent fs fp audio_bytes SILENCE_THRESHOLD = true ->
  trial = 1 \/ trial = 2 ->
  trial ∉ evaluated_trials (handler w) ->
  py_index (trial_words (handler w)) (trial - 1) = Returned words ->
  run env (_evaluate_working_memory_audio_background fs fp rt audio_bytes trial) w
  = (Returned tt,
     sent env (evaluation_result (no_response_result trial words))
       (with_handler
          (set_evaluation_results
             (evaluation_results (handler w) ++ [no_response_result trial words])
             (set_evaluated_trials (evaluated_trials (handler w) ∪ {[trial]}) (handler w)))
          w)).
Proof.
  intros Hs Ht Hg Hi.
  unfold _evaluate_working_memory_audio_background.
  assert (Hlen : (0 <? trial) && (trial <=? Z.of_nat (length (trial_words (handler w)))) = true).
  { apply andb_true_iff. split; [apply Z.ltb_lt; lia|].
    apply Z.leb_le. apply py_index_nonneg_lt in Hi; lia. }
  rewrite run_try_except, (in_1_2 trial Ht). simpl negb. cbv iota.
  rewrite run_read, (bool_decide_eq_false_2 _ Hg).
  rewrite run_bind, (run_transcribe_silent _ _ _ _ _ Hs).
  rewrite run_read, Hlen, Hi, run_returned, run_read.
  rewrite (bool_decide_eq_false_2 _ Hg). simpl negb. cbv iota.
  rewrite run_bind, run_evaluate_no_transcript.
  by rewrite (run_add_evaluation_result_open _ _ _ _ _ _ _ _ _ _
                (no_response_result trial words)).
Qed.

Lemma py_index_in_range {A} (l : list A) i :
  0 <= i < Z.of_nat (length l) -> exists x, py_index l i = Returned x.
Proof.
  intros [Hi Hl]. unfold py_index.
  destruct (i <? 0) eqn:Hn; [apply Z.ltb_lt in Hn; lia|].
  rewrite Hn. simpl.
  destruct (Z.of_nat (length l) <=? i) eqn:Hle; [apply Z.leb_le in Hle; lia|].
  destruct (l !! Z.to_nat i) as [x|] eqn:Hx; [by exists x|].
  apply lookup_ge_None in Hx. lia.
Qed.

(** The pipeline on a silent recording, in any state: either nothing
    happens, or the canonical result is stored and sent. *)
Lemma run_evaluate_background_silent_cases fs fp rt env audio_bytes trial w :
  _is_silent fs fp audio_bytes SILENCE_THRESHOLD = true ->
  run env (_evaluate_working_memory_audio_background fs fp rt audio_bytes trial) w
  = (Returned tt, w)
  \/ exists words,
       (trial = 1 \/ trial = 2)
       /\ (trial ∉ evaluated_trials (handler w))
       /\ py_index (trial_words (handler w)) (trial - 1) = Returned words.
Proof.
  intros Hs.
  destruct (decide (trial = 1 \/ trial = 2)) as [Ht|Ht].
  - destruct (decide (trial ∈ evaluated_trials (handler w))) as [Hg|Hg].
    + left. unfold _evaluate_working_memory_audio_background.
      rewrite run_try_except, (in_1_2 trial Ht). simpl negb. cbv iota.
      by rewrite run_read, (bool_decide_eq_true_2 _ Hg).
    + destruct (andb (0 <? trial) (trial <=? Z.of_nat (length (trial_words (handler w)))))
        eqn:Hlen.
      * right. apply andb_true_iff in Hlen as [H0 Hl].
        apply Z.ltb_lt in H0. apply Z.leb_le in Hl.
        destruct (py_index_in_range (trial_words (handler w)) (trial - 1)) as [words Hw];
          [lia|]. by exists words.
      * left. unfold _evaluate_working_memory_audio_background.
        rewrite run_try_except, (in_1_2 trial Ht). simpl negb. cbv iota.
        rewrite run_read, (bool_decide_eq_false_2 _ Hg).
        rewrite run_bind, (run_transcribe_silent _ _ _ _ _ Hs).
        by rewrite run_read, Hlen.
  - left. apply evaluate_background_invalid_trial; tauto.
Qed.

(** C3: for a recording that is empty or that [_is_silent] classifies as
    silent, the transcriber is not called and the transcript is empty; the
    grader is not called on an empty transcript and the evaluation is the
    canonical one (no correct words, score 0.0, not correct, confidence 1.0,
    the 'No response detected' note); and the background evaluation makes
    neither call: it either leaves the world as it was (trial number
    refused, gate shut, or no words for the trial) or stores and sends
    exactly the canonical no-response result, which it does whenever the
    trial is 1 or 2, the gate is open and the words are there. *)
Theorem C3_silent_audio_canonical_no_response
    (float_sum : list float -> float) (float_pow_half : float -> float)
    (rt : Runtime)
    env audio_bytes trial w :
  audio_bytes = [] \/ _is_silent float_sum float_pow_half audio_bytes SILENCE_THRESHOLD = true ->
  let w' := after env (_evaluate_working_memory_audio_background
                         float_sum float_pow_half rt audio_bytes trial) w in
  run env (transcribe_audio float_sum float_pow_half audio_bytes) w = (Returned "", w)
  /\ (forall words,
        run env (evaluate_working_memory_response rt words "") w
        = (Returned
             {| correct_words := JArray []; score := 0.0; is_correct := JBool false;
                confidence := 1.0;
                notes := JString "No response detected - user remained silent" |}, w))
  /\ (exists new,
        trace w' = trace w ++ new
        /\ transcription_calls new = 0%nat
        /\ grading_calls new = 0%nat
        /\ ((new = [] /\ handler w' = handler w)
            \/ exists words r,
                 py_index (trial_words (handler w)) (trial - 1) = Returned words
                 /\ new = [EvSend (evaluation_result (no_response_result trial words)) r]
                 /\ evaluation_results (handler w')
                    = evaluation_results (handler w) ++ [no_response_result trial words]))
  /\ (forall words,
        trial = 1 \/ trial = 2 ->
        trial ∉ evaluated_trials (handler w) ->
        py_index (trial_words (handler w)) (trial - 1) = Returned words ->
        evaluation_results (handler w')
        = evaluation_results (handler w) ++ [no_response_result trial words]).
Proof.
  intros Hs w'.
  assert (Hsil : _is_silent float_sum float_pow_half audio_bytes SILENCE_THRESHOLD = true).
  { destruct Hs as [-> | Hs]; [apply is_silent_empty|done]. }
  split; [by apply run_transcribe_silent|].
  split; [done|].
  split.
  - destruct (run_evaluate_background_silent_cases
                float_sum float_pow_half rt env audio_bytes trial w Hsil)
      as [Hr | (words & Ht & Hg & Hi)].
    + exists []. unfold w', after. rewrite Hr. simpl.
      rewrite app_nil_r. repeat split; try done. by left.
    + eexists. unfold w', after.
      rewrite (run_evaluate_background_silent _ _ _ _ _ _ words w Hsil Ht Hg Hi).
      split; [reflexivity|]. repeat split; try done.
      right. by eexists words, _.
  - intros words Ht Hg Hi. unfold w', after.
    by rewrite (run_evaluate_background_silent _ _ _ _ _ _ words w Hsil Ht Hg Hi).
Qed.

Lemma C3_witness :
  let w' := after friendly_env
              (_evaluate_working_memory_audio_background
                 plain_float_sum PrimFloat.sqrt example_runtime [] 1) started_world in
  run friendly_env (transcribe_audio plain_float_sum PrimFloat.sqrt []) started_world
  = (Returned "", started_world)
  /\ evaluation_results (handler w')
     = [no_response_result 1 ["chair"; "book"; "hand"; "road"; "cloud"]].
Proof.
  destruct (C3_silent_audio_canonical_no_response
              plain_float_sum PrimFloat.sqrt example_runtime friendly_env [] 1 started_world)
    as (Ht & _ & _ & Hstore); [by left|].
  split; [exact Ht|].
  apply (Hstore ["chair"; "book"; "hand"; "road"; "cloud"]).
  - by left.
  - apply not_elem_of_empty.
  - reflexivity.
Defined.

(** ** Uploads *)

Lemma emits_inv env new ss :
  emits env new ss ->
  steps new = ss /\ waits_ok new = true /\ transcription_calls new = 0%nat
  /\ grading_calls new = 0%nat /\ sent_results new = [].
Proof. intros (S & W & T & Y & C & G & R & A). done. Qed.

(** C5: an upload for trial [k] in 0..N, N the number of trials the handler
    holds words for (2 once the task has started), returns normally; for
    k < N what it emits after the end-of-recording markers is the script of
    trial k+1, and the handler is then at trial k+1; for k = N it is the
    completion sequence (nothing more if that was sent before).  What is
    emitted is given by [k] and the words alone: the handler's own trial
    counter and phase do not enter, so the same upload replayed emits the
    same trial script again.  The transcriber and the grader are not
    called and no result is stored or sent on the way: the choice does not
    wait for the evaluation of trial [k]. *)
Theorem C5_next_phase_from_uploaded_trial_id env k audio_bytes w :
  let N := Z.of_nat (length (trial_words (handler w))) in
  N <= 2 -> 0 <= k <= N ->
  exists w' new,
    run env (_handle_audio_upload k audio_bytes) w = (Returned tt, w')
    /\ trace w' = trace w ++ new
    /\ (k < N ->
        exists words,
          py_index (trial_words (handler w)) k = Returned words
          /\ steps new = recording_end_steps k ++ trial_steps (k + 1) words
          /\ trial_number (handler w') = k + 1
          /\ current_phase (handler w') = "trial_" +:+ str_int (k + 1)
          /\ exists w'' new',
               run env (_handle_audio_upload k audio_bytes) w' = (Returned tt, w'')
               /\ trace w'' = trace w' ++ new'
               /\ steps new' = steps new)
    /\ (k = N ->
        steps new
        = recording_end_steps k
          ++ (if completion_sent (handler w) then []
              else completion_steps (evaluation_results (handler w)))
        /\ completion_sent (handler w') = true)
    /\ transcription_calls new = 0%nat
    /\ grading_calls new = 0%nat
    /\ sent_results new = []
    /\ evaluation_results (handler w') = evaluation_results (handler w)
    /\ evaluated_trials (handler w') = evaluated_trials (handler w).
Proof.
  intros N HN Hk.
  destruct (decide (k < N)) as [Hlt|Hge].
  - assert (Hk01 : k = 0 \/ k = 1) by lia.
    assert (Hlen : (N <? k + 1) = false) by (apply Z.ltb_ge; lia).
    destruct (py_index_in_range (trial_words (handler w)) k) as [words Hidx]; [lia|].
    destruct (flow_handle_audio_upload_next env k audio_bytes words w Hk01 Hlen Hidx)
      as (w' & (Hr & new & Ht & He) & Hc).
    apply core_inv in Hc as (H1 & H2 & H3 & H4 & H5 & H6). simpl in *.
    destruct (flow_handle_audio_upload_next env k audio_bytes words w' Hk01)
      as (w'' & (Hr' & new' & Ht' & He') & _).
    { by rewrite H4. }
    { by rewrite H4. }
    apply emits_inv in He as (S & _ & C & G & R).
    apply emits_inv in He' as (S' & _).
    exists w', new.
    split; [done|]. split; [done|]. split; [|split; [lia|done]].
    intros _. exists words.
    split; [done|]. split; [done|]. split; [done|]. split; [done|].
    exists w'', new'. split; [done|]. split; [done|]. by rewrite S, S'.
  - assert (HkN : k = N) by lia.
    assert (Hlen : (N <? k + 1) = true) by (apply Z.ltb_lt; lia).
    destruct (flow_handle_audio_upload_completion env k audio_bytes w (or_intror Hlen))
      as (w' & (Hr & new & Ht & He) & Hc).
    apply emits_inv in He as (S & _ & C & G & R).
    assert (Hcore : completion_sent (handler w') = true
                    /\ evaluation_results (handler w') = evaluation_results (handler w)
                    /\ evaluated_trials (handler w') = evaluated_trials (handler w)).
    { destruct (completion_sent (handler w)) eqn:Hs;
        apply core_inv in Hc as (H1 & H2 & H3 & H4 & H5 & H6); simpl in *;
        repeat split; congruence. }
    destruct Hcore as (Hc1 & Hc2 & Hc3).
    exists w', new.
    split; [done|]. split; [done|]. split; [lia|]. split; [done|]. done.
Qed.

Lemma C5_witness :
  exists w' new,
    run friendly_env (_handle_audio_upload 1 []) started_world = (Returned tt, w')
    /\ trace w' = trace started_world ++ new
    /\ steps new
       = recording_end_steps 1 ++ trial_steps 2 ["chair"; "book"; "hand"; "road"; "cloud"]
    /\ trial_number (handler w') = 2.
Proof.
  destruct (C5_next_phase_from_uploaded_trial_id friendly_env 1 [] started_world)
    as (w' & new & Hr & Ht & Hnext & _); [simpl; lia|simpl; lia|].
  destruct Hnext as (words & Hw & Hs & Hn & _); [simpl; lia|].
  exists w', new.
  split; [exact Hr|]. split; [exact Ht|]. split; [|exact Hn].
  simpl in Hw. injection Hw as <-. exact Hs.
Defined.

(** C10: an upload with any trial number but 0 and 1, negative numbers and
    numbers above 2 included, returns normally after the completion
    sequence, whatever the handler's own trial counter and words say: the
    end-of-recording markers for that number if it is positive, then the
    completion steps with the results stored so far (nothing more if the
    completion was sent before); the handler ends with [completion_sent]
    set, and in phase "complete" when this upload sent the completion. *)
Theorem C10_other_trial_ids_complete_the_session env trial audio_bytes w :
  trial <> 0 -> trial <> 1 ->
  exists w' new,
    run env (_handle_audio_upload trial audio_bytes) w = (Returned tt, w')
    /\ trace w' = trace w ++ new
    /\ steps new
       = recording_end_steps trial
         ++ (if completion_sent (handler w) then []
             else completion_steps (evaluation_results (handler w)))
    /\ completion_sent (handler w') = true
    /\ (completion_sent (handler w) = false -> current_phase (handler w') = "complete").
Proof.
  intros H0 H1.
  destruct (flow_handle_audio_upload_completion env trial audio_bytes w
              (or_introl (conj H0 H1)))
    as (w' & (Hr & new & Ht & He) & Hc).
  apply emits_inv in He as (S & _).
  exists w', new. repeat split; try done.
  - destruct (completion_sent (handler w)) eqn:Hs;
      apply core_inv in Hc as (? & ? & ? & ? & ? & ?); simpl in *; congruence.
  - intros Hs. rewrite Hs in Hc. by apply core_inv in Hc as (? & _).
Qed.

Lemma C10_witness :
  exists w' new,
    run friendly_env (_handle_audio_upload 7 []) started_world = (Returned tt, w')
    /\ trace w' = trace started_world ++ new
    /\ steps new = recording_end_steps 7 ++ completion_steps []
    /\ current_phase (handler w') = "complete".
Proof.
  destruct (C10_other_trial_ids_complete_the_session friendly_env 7 [] started_world)
    as (w' & new & Hr & Ht & Hs & _ & Hp); [lia|lia|].
  exists w', new.
  split; [exact Hr|]. split; [exact Ht|]. split; [exact Hs|].
  apply Hp. reflexivity.
Defined.

(** The same for a negative trial number: no end-of-recording marker. *)
Example upload_minus_3_completes :
  steps (trace (after friendly_env (_handle_audio_upload (-3) []) started_world))
  = completion_steps []
  /\ current_phase (handler (after friendly_env (_handle_audio_upload (-3) []) started_world))
     = "complete".
Proof. vm_compute. repeat split. Qed.

(** ** The script of one trial *)

Lemma synth_calls_speak_count tr : synth_calls tr = speak_count (steps tr).
Proof.
  unfold synth_calls, speak_count, steps.
  induction tr as [|e tr IH]; [done|].
  destruct e as [m r|ms|t r|text r|audio r|ws t r|c]; simpl;
    try destruct m; simpl; rewrite ?filter_cons; simpl;
    repeat case_decide; simpl; try done; by rewrite IH.
Qed.

Lemma speak_count_app ss1 ss2 :
  speak_count (ss1 ++ ss2) = (speak_count ss1 + speak_count ss2)%nat.
Proof. unfold speak_count. by rewrite filter_app, length_app. Qed.

Lemma speak_count_display_steps trial words : forall i,
  speak_count (display_steps trial i words) = 0%nat.
Proof. induction words as [|x rest IH]; intros i; [done|]. simpl. apply IH. Qed.

Lemma speak_count_trial_steps trial words :
  speak_count (trial_steps trial words) = if trial =? 2 then 3%nat else 2%nat.
Proof.
  unfold trial_steps. rewrite !speak_count_app, speak_count_display_steps.
  by destruct (trial =? 2).
Qed.

(** *** Where the payloads and the waits sit *)

Lemma wait_count_cons e tr :
  wait_count (e :: tr) = ((if is_wait e then 1 else 0) + wait_count tr)%nat.
Proof.
  change (e :: tr) with ([e] ++ tr). rewrite wait_count_app. f_equal.
  unfold wait_count. by destruct (is_wait e) eqn:He; cbn; rewrite He.
Qed.

Lemma synth_calls_cons e tr :
  synth_calls (e :: tr) = ((if is_synth e then 1 else 0) + synth_calls tr)%nat.
Proof.
  change (e :: tr) with ([e] ++ tr). rewrite synth_calls_app. f_equal.
  unfold synth_calls. by destruct (is_synth e) eqn:He; cbn; rewrite He.
Qed.

Lemma steps_cons e tr : steps (e :: tr) = from_option (fun s => [s]) [] (step_of e) ++ steps tr.
Proof. unfold steps. cbn. by destruct (step_of e). Qed.

Lemma moments_cons e tr :
  moments (e :: tr) = from_option (fun m => [m]) [] (moment_of e) ++ moments tr.
Proof. unfold moments. cbn. by destruct (moment_of e). Qed.

Lemma with_audio_cons s ss :
  with_audio (s :: ss)
  = match s with Speak _ => [Step s; Payload; WaitOver] | _ => [Step s] end ++ with_audio ss.
Proof. reflexivity. Qed.

Lemma audio_in_place_waits tr :
  audio_in_place tr = true -> (wait_count tr <= synth_calls tr)%nat.
Proof.
  induction tr as [tr IH] using (induction_ltof1 _ (@length _)).
  unfold ltof in IH. intros H.
  destruct tr as [|e rest]; [done|].
  assert (Hrest : audio_in_place rest = true -> (wait_count rest <= synth_calls rest)%nat)
    by (apply IH; simpl; lia).
  rewrite wait_count_cons, synth_calls_cons.
  destruct e as [m r|ms|t r|text r|audio r|ws tr r|c]; cbn [is_wait is_synth]; simpl in H;
    try (apply Hrest in H; lia); try done.
  - destruct m; try done; apply Hrest in H; lia.
  - destruct r as [a|e']; [|apply Hrest in H; lia].
    destruct rest as [|e1 rest1]; [done|].
    destruct e1 as [m r| | | | | |]; try done.
    destruct m as [d| | | | | |]; try done.
    destruct r as [u|e'].
    + destruct rest1 as [|e2 rest2]; [done|].
      destruct e2; try done.
      apply andb_true_iff in H as [_ H].
      rewrite !wait_count_cons, !synth_calls_cons. cbn [is_wait is_synth].
      apply IH in H; [lia|simpl; lia].
    + apply andb_true_iff in H as [_ H].
      rewrite !wait_count_cons, !synth_calls_cons. cbn [is_wait is_synth].
      apply IH in H; [lia|simpl; lia].
Qed.

(** When each text spoken has its wait, the trace is its script steps with
    the payload and the end of the wait right behind each text spoken. *)
Lemma moments_with_audio tr :
  audio_in_place tr = true ->
  wait_count tr = synth_calls tr ->
  moments tr = with_audio (steps tr).
Proof.
  induction tr as [tr IH] using (induction_ltof1 _ (@length _)).
  unfold ltof in IH. intros H Hc.
  destruct tr as [|e rest]; [done|].
  assert (Hrest : audio_in_place rest = true -> wait_count rest = synth_calls rest ->
                  moments rest = with_audio (steps rest))
    by (apply IH; simpl; lia).
  rewrite wait_count_cons, synth_calls_cons in Hc.
  rewrite moments_cons, steps_cons.
  destruct e as [m r|ms|t r|text r|audio r|ws tr r|c]; cbn [is_wait is_synth] in Hc;
    simpl in H; try done;
    try (cbn; apply Hrest; [done|lia]).
  - destruct m; try done; cbn; f_equal; apply Hrest; (done || lia).
  - destruct r as [a|e']; [|apply audio_in_place_waits in H; lia].
    destruct rest as [|e1 rest1]; [done|].
    destruct e1 as [m r| | | | | |]; try done.
    destruct m as [d| | | | | |]; try done.
    destruct r as [u|e'].
    + destruct rest1 as [|e2 rest2]; [done|].
      destruct e2; try done.
      apply andb_true_iff in H as [_ H].
      rewrite !wait_count_cons, !synth_calls_cons in Hc. cbn [is_wait is_synth] in Hc.
      rewrite !moments_cons, !steps_cons. cbn. do 3 f_equal.
      apply IH; [simpl; lia|done|lia].
    + apply andb_true_iff in H as [_ H].
      apply audio_in_place_waits in H.
      rewrite !wait_count_cons, !synth_calls_cons in Hc. cbn [is_wait is_synth] in Hc. lia.
Qed.

(** C7: the emission sequence of one trial, in any environment, returns
    normally and its steps are exactly, in this order: for trial 2 the
    intro transition and the intro audio; the words_displaying transition;
    one display event per word, numbered from 1; the words_playing
    transition and the words audio; the display clear; the prompt
    transition and the prompt audio; the beep_start and recording
    transitions.  Each audio that was synthesized is put on the socket at
    once, and every audio payload that went out is followed at once by the
    end of its wait, by the signal before the 30 s deadline or by the
    deadline: no event lies between the synthesis, the payload and the end
    of the wait, and no payload and no wait occurs anywhere else, so each
    step behind an audio comes after the end of its wait.  When neither
    the socket nor the synthesizer fails there is one such wait per audio
    step, and the trace is, moment by moment, the script with the payload
    and the end of the wait right behind each audio. *)
Theorem C7_trial_sequence_strictly_ordered env trial words w :
  (Z.of_nat (length (trial_words (handler w))) <? trial) = false ->
  py_index (trial_words (handler w)) (trial - 1) = Returned words ->
  exists w' new,
    run env (_send_trial_words trial) w = (Returned tt, w')
    /\ trace w' = trace w ++ new
    /\ steps new
       = (if trial =? 2 then
            [ Transition trial_intro_playing (Some trial)
                (Some WORKING_MEMORY_SCRIPT_trial_2_intro);
              Speak WORKING_MEMORY_SCRIPT_trial_2_intro ]
          else [])
         ++ [ Transition words_displaying (Some trial) None ]
         ++ display_steps trial 1 words
         ++ [ Transition words_playing (Some trial) None;
              Speak (join ". " words +:+ ".");
              Display "" trial 0;
              Transition prompt_playing (Some trial) (Some WORKING_MEMORY_SCRIPT_prompt);
              Speak WORKING_MEMORY_SCRIPT_prompt;
              Transition beep_start (Some trial) None;
              Transition recording (Some trial) None ]
    /\ waits_ok new = true
    /\ (reliable env -> wait_count new = if trial =? 2 then 3%nat else 2%nat)
    /\ audio_in_place new = true
    /\ (reliable env ->
        moments new
        = (if trial =? 2 then
             [ Step (Transition trial_intro_playing (Some trial)
                       (Some WORKING_MEMORY_SCRIPT_trial_2_intro));
               Step (Speak WORKING_MEMORY_SCRIPT_trial_2_intro); Payload; WaitOver ]
           else [])
          ++ [ Step (Transition words_displaying (Some trial) None) ]
          ++ map Step (display_steps trial 1 words)
          ++ [ Step (Transition words_playing (Some trial) None);
               Step (Speak (join ". " words +:+ ".")); Payload; WaitOver;
               Step (Display "" trial 0);
               Step (Transition prompt_playing (Some trial)
                       (Some WORKING_MEMORY_SCRIPT_prompt));
               Step (Speak WORKING_MEMORY_SCRIPT_prompt); Payload; WaitOver;
               Step (Transition beep_start (Some trial) None);
               Step (Transition recording (Some trial) None) ]).
Proof.
  intros Hlen Hidx.
  destruct (flow_send_trial_words env trial words w Hlen Hidx)
    as (w' & (Hr & new & Ht & (S & W & T & Y & _ & _ & _ & A)) & _).
  exists w', new. repeat split; try done.
  - intros Hrel. by rewrite (Y Hrel), synth_calls_speak_count, S, speak_count_trial_steps.
  - intros Hrel. rewrite (moments_with_audio new A (Y Hrel)), S.
    unfold trial_steps, with_audio. rewrite !flat_map_app.
    f_equal; [by destruct (trial =? 2)|]. f_equal. f_equal.
    generalize 1. clear. induction words as [|word rest IH]; intros i; [done|].
    simpl. f_equal. apply IH.
Qed.

Lemma friendly_env_reliable : reliable friendly_env.
Proof. split; [done|]. intros n text. by eexists. Qed.

Lemma C7_witness :
  exists w' new,
    run friendly_env (_send_trial_words 2) started_world = (Returned tt, w')
    /\ trace w' = trace started_world ++ new
    /\ steps new = trial_steps 2 ["chair"; "book"; "hand"; "road"; "cloud"]
    /\ waits_ok new = true
    /\ wait_count new = 3%nat
    /\ audio_in_place new = true
    /\ moments new = with_audio (trial_steps 2 ["chair"; "book"; "hand"; "road"; "cloud"]).
Proof.
  destruct (C7_trial_sequence_strictly_ordered friendly_env 2
              ["chair"; "book"; "hand"; "road"; "cloud"] started_world)
    as (w' & new & Hr & Ht & Hs & Hw & Hc & Ha & Hm); [reflexivity|reflexivity|].
  exists w', new.
  split; [exact Hr|]. split; [exact Ht|]. split; [exact Hs|]. split; [exact Hw|].
  split; [apply Hc, friendly_env_reliable|]. split; [exact Ha|].
  rewrite (Hm friendly_env_reliable). reflexivity.
Defined.

(** The whole trace of trial 1 when nothing fails and the client
    acknowledges after 1.2 s. *)
Example trial_1_trace :
  trace (after friendly_env (_send_trial_words 1) started_world)
  = [ EvSend (state_transition {| st_phase := words_displaying;
                                  st_trial_number := Some 1; st_message := None |})
        (Returned tt);
      EvSend (word_display {| wd_word := "chair"; wd_trial_number := 1; wd_word_index := 1 |})
        (Returned tt);
      EvSleep 50;
      EvSend (word_display {| wd_word := "book"; wd_trial_number := 1; wd_word_index := 2 |})
        (Returned tt);
      EvSleep 50;
      EvSend (word_display {| wd_word := "hand"; wd_trial_number := 1; wd_word_index := 3 |})
        (Returned tt);
      EvSleep 50;
      EvSend (word_display {| wd_word := "road"; wd_trial_number := 1; wd_word_index := 4 |})
        (Returned tt);
      EvSleep 50;
      EvSend (word_display {| wd_word := "cloud"; wd_trial_number := 1; wd_word_index := 5 |})
        (Returned tt);
      EvSleep 50;
      EvSleep 200;
      EvSend (state_transition {| st_phase := words_playing;
                                  st_trial_number := Some 1; st_message := None |})
        (Returned tt);
      EvSynth "chair. book. hand. road. cloud." (Returned [Byte.x4d]);
      EvSend (tts_audio {| tts_audio_b64 := "TQ=="; tts_trial_number := Some 1 |})
        (Returned tt);
      EvWait 30000 (Signalled 1200);
      EvSend (word_display {| wd_word := ""; wd_trial_number := 1; wd_word_index := 0 |})
        (Returned tt);
      EvSleep 200;
      EvSend (state_transition {| st_phase := prompt_playing; st_trial_number := Some 1;
                                  st_message := Some "Now you repeat them." |})
        (Returned tt);
      EvSleep 100;
      EvSynth "Now you repeat them." (Returned [Byte.x4d]);
      EvSend (tts_audio {| tts_audio_b64 := "TQ=="; tts_trial_number := Some 1 |})
        (Returned tt);
      EvWait 30000 (Signalled 1200);
      EvSend (state_transition {| st_phase := beep_start;
                                  st_trial_number := Some 1; st_message := None |})
        (Returned tt);
      EvSleep 100;
      EvSend (state_transition {| st_phase := recording;
                                  st_trial_number := Some 1; st_message := None |})
        (Returned tt) ].
Proof. vm_compute. repeat split. Qed.

(** ** A whole session *)

Lemma flow_scripted_session env audio0 audio1 audio2 :
  exists w',
    performs env (scripted_session audio0 audio1 audio2) init_world w'
      scripted_session_steps
    /\ core (handler w')
       = ("complete", [], 2,
          [_select_trial_words 1; _select_trial_words 1], true, ∅).
Proof.
  destruct (flow_start_task env init_world) as (w1 & Hp1 & Hc1).
  apply core_inv in Hc1 as (A1 & A2 & A3 & A4 & A5 & A6). simpl in *.
  destruct (flow_handle_audio_upload_next env 0 audio0 (_select_trial_words 1) w1)
    as (w2 & Hp2 & Hc2); [by left|by rewrite A4|by rewrite A4|].
  apply core_inv in Hc2 as (B1 & B2 & B3 & B4 & B5 & B6). simpl in *.
  destruct (flow_handle_audio_upload_next env 1 audio1 (_select_trial_words 1) w2)
    as (w3 & Hp3 & Hc3); [by right|by rewrite B4, A4|by rewrite B4, A4|].
  apply core_inv in Hc3 as (C1 & C2 & C3 & C4 & C5 & C6). simpl in *.
  destruct (flow_handle_audio_upload_completion env 2 audio2 w3) as (w4 & Hp4 & Hc4);
    [by left|].
  rewrite C5, B5, A5 in Hp4, Hc4. rewrite C2, B2, A2 in Hp4.
  exists w4. split.
  - unfold scripted_session, scripted_session_steps.
    eapply performs_bind; [exact Hp1|].
    eapply performs_bind; [exact Hp2|].
    eapply performs_bind; [exact Hp3|exact Hp4].
  - rewrite Hc4. unfold core. simpl.
    by rewrite C2, B2, A2, C3, C4, B4, A4, C6, B6, A6.
Qed.

(** One [send_tts_audio] when no acknowledgement arrives. *)
Lemma send_tts_audio_no_ack env text trial w :
  no_ack env ->
  exists new d,
    run env (send_tts_audio text trial) w
    = (Returned tt,
       {| handler := set_waiting_for_audio_complete false
                       (set_audio_complete_event false (handler w));
          trace := trace w ++ new;
          clock := (clock w + d)%N |})
    /\ waits_timed_out new = true
    /\ (wait_count new <= 1)%nat
    /\ d = (N.of_nat (wait_count new) * AUDIO_COMPLETE_TIMEOUT)%N.
Proof.
  intros Hno.
  destruct (run_send_tts_audio env text trial w) as (b & new & d & Hr & Ha).
  destruct Ha as [n e Hf|n a e Hf|a n d Hn Hd|a].
  - eexists _, 0%N. split; [exact Hr|]. repeat split; vm_compute; try done; lia.
  - eexists _, 0%N. split; [exact Hr|]. repeat split; vm_compute; try done; lia.
  - by rewrite Hno in Hn.
  - eexists _, AUDIO_COMPLETE_TIMEOUT. split; [exact Hr|].
    repeat split; vm_compute; try done; lia.
Qed.

(** C6: when no playback acknowledgement ever arrives, [send_tts_audio]
    still returns normally: its wait, if the audio went out, ends at the
    deadline after exactly 30000 ms, and the handler is left not waiting.
    The scripted session (start, then the uploads for the instruction and
    for trials 1 and 2) then returns normally too, every wait in its trace
    a timeout, in phase "complete" with the completion sent, the aggregate
    of results the last step; and its steps are the ones of any other
    environment, acknowledging ones included: a timeout changes nothing in
    what the engine does next. *)
Theorem C6_timeouts_still_reach_completion env audio0 audio1 audio2 :
  no_ack env ->
  (forall text trial w,
      exists new d,
        run env (send_tts_audio text trial) w
        = (Returned tt,
           {| handler := set_waiting_for_audio_complete false
                           (set_audio_complete_event false (handler w));
              trace := trace w ++ new;
              clock := (clock w + d)%N |})
        /\ waits_timed_out new = true
        /\ (wait_count new <= 1)%nat
        /\ d = (N.of_nat (wait_count new) * 30000)%N)
  /\ exists w',
       run env (scripted_session audio0 audio1 audio2) init_world = (Returned tt, w')
       /\ waits_timed_out (trace w') = true
       /\ waits_ok (trace w') = true
       /\ steps (trace w') = scripted_session_steps
       /\ last (steps (trace w')) = Some (Results [])
       /\ current_phase (handler w') = "complete"
       /\ completion_sent (handler w') = true
       /\ forall env' b0 b1 b2,
            steps (trace (after env' (scripted_session b0 b1 b2) init_world))
            = steps (trace w').
Proof.
  intros Hno. split; [intros; by apply send_tts_audio_no_ack|].
  destruct (flow_scripted_session env audio0 audio1 audio2)
    as (w' & (Hr & new & Ht & (S & W & T & _)) & Hc).
  simpl in Ht. subst new.
  unfold core in Hc. injection Hc as H1 H2 H3 H4 H5 H6.
  exists w'.
  split; [exact Hr|]. split; [by apply T|]. split; [exact W|]. split; [exact S|].
  split; [by rewrite S|]. split; [exact H1|]. split; [exact H5|].
  intros env' b0 b1 b2.
  destruct (flow_scripted_session env' b0 b1 b2)
    as (w2 & (Hr2 & new2 & Ht2 & (S2 & _)) & _).
  unfold after. rewrite Hr2. simpl in *. by rewrite Ht2, S2, S.
Qed.

Lemma deaf_env_no_ack : no_ack deaf_env.
Proof. by intros n. Qed.

Lemma C6_witness :
  exists w',
    run deaf_env (scripted_session [] [] []) init_world = (Returned tt, w')
    /\ waits_timed_out (trace w') = true
    /\ steps (trace w') = scripted_session_steps
    /\ current_phase (handler w') = "complete".
Proof.
  destruct (C6_timeouts_still_reach_completion deaf_env [] [] [] deaf_env_no_ack)
    as (_ & w' & Hr & Hw & _ & Hs & _ & Hp & _).
  exists w'.
  split; [exact Hr|]. split; [exact Hw|]. split; [exact Hs|exact Hp].
Defined.

(** Seven waits of 30 s each, the pauses of the script in between. *)
Example deaf_session_clock :
  clock (after deaf_env (scripted_session [] [] []) init_world) = 213000%N
  /\ wait_count (trace (after deaf_env (scripted_session [] [] []) init_world)) = 7%nat.
Proof. vm_compute. repeat split. Qed.

(** ** The gate under interleaving *)

Lemma gate_step_refl w : gate_step w w.
Proof.
  repeat split; try done. exists []. split; [by rewrite app_nil_r|].
  intros r Hr. by apply elem_of_nil in Hr.
Qed.

Lemma gate_step_trans w1 w2 w3 : gate_step w1 w2 -> gate_step w2 w3 -> gate_step w1 w3.
Proof.
  intros (E1 & (a1 & R1 & N1) & T1 & C1) (E2 & (a2 & R2 & N2) & T2 & C2).
  split; [set_solver|]. split; [|split; [by etrans|auto]].
  exists (a1 ++ a2). split; [by rewrite R2, R1, app_assoc|].
  intros r [Hr|Hr]%elem_of_app; [by apply N1|].
  intros Hin. apply (N2 r Hr). set_solver.
Qed.

(** Events other than a single result or an aggregate, and changes of the
    handler outside the gate and the store, keep the invariant. *)
Lemma gate_inv_log e d w :
  plain_event e -> gate_inv w -> gate_inv (log e d w).
Proof.
  intros [Hr Ha] (I1 & I2 & I3 & I4). unfold log. repeat split; simpl; try done.
  - rewrite sent_results_app. simpl. by rewrite Hr, app_nil_r.
  - intros tr1 l r tr2 Heq.
    destruct tr2 as [|e2 tr2 _] using rev_ind.
    + apply (app_inj_tail (trace w) tr1) in Heq as [_ ->]. by simpl in Ha.
    + rewrite app_comm_cons, app_assoc in Heq.
      apply app_inj_tail in Heq as [Heq _]. by apply (I4 _ _ _ _ Heq).
Qed.

Lemma gate_step_log e d w0 w : gate_step w0 w -> gate_step w0 (log e d w).
Proof.
  intros (E & R & T & C). repeat split; try done.
  simpl. etrans; [exact T|]. by apply prefix_app_r.
Qed.

Lemma gate_inv_with_handler h w :
  keeps_gate (handler w) h -> gate_inv w -> gate_inv (with_handler h w).
Proof.
  intros (K1 & K2 & K3) (I1 & I2 & I3 & I4).
  unfold gate_inv. simpl. rewrite K1, K2. done.
Qed.

Lemma gate_step_with_handler h w0 w :
  keeps_gate (handler w) h -> gate_step w0 w -> gate_step w0 (with_handler h w).
Proof.
  intros (K1 & K2 & K3) (E & R & T & C).
  unfold gate_step. simpl. rewrite K1, K2. repeat split; auto.
Qed.

Lemma safe_from_weaken {A} (p : Prog A) : forall w0 w1 w,
  gate_step w0 w1 -> safe_from p w1 w -> safe_from p w0 w.
Proof.
  induction p as [a|e|k IH|h k IH|m k IH|ms k IH|t k IH|text k IH|audio k IH
                  |ws tr k IH|c k IH|k IH]; intros w0 w1 w H01; simpl.
  - intros [HI HG]. split; [done|by eapply gate_step_trans].
  - intros [HI HG]. split; [done|by eapply gate_step_trans].
  - apply IH, H01.
  - apply IH, H01.
  - intros H r. destruct (H r) as (HI & HG & Hk).
    split; [done|]. split; [by eapply gate_step_trans|done].
  - intros (HI & HG & Hk). split; [done|]. split; [by eapply gate_step_trans|done].
  - intros (H & Hk). split; [|done]. intros env. destruct (H env) as [HI HG].
    split; [done|by eapply gate_step_trans].
  - intros H r. destruct (H r) as (HI & HG & Hk).
    split; [done|]. split; [by eapply gate_step_trans|done].
  - intros H r. destruct (H r) as (HI & HG & Hk).
    split; [done|]. split; [by eapply gate_step_trans|done].
  - intros H r. destruct (H r) as (HI & HG & Hk).
    split; [done|]. split; [by eapply gate_step_trans|done].
  - intros (HI & HG & Hk). split; [done|]. split; [by eapply gate_step_trans|done].
  - intros (HI & HG & Hk). split; [done|]. split; [by eapply gate_step_trans|done].
Qed.

(** One segment of a safe coroutine keeps the invariant, is a [gate_step],
    and leaves a safe coroutine. *)
Lemma safe_from_step {A} env (p : Prog A) : forall w0 w,
  safe_from p w0 w ->
  gate_inv (step env p w).2 /\ gate_step w0 (step env p w).2 /\ safe (step env p w).1.
Proof.
  induction p as [a|e|k IH|h k IH|m k IH|ms k IH|t k IH|text k IH|audio k IH
                  |ws tr k IH|c k IH|k IH]; intros w0 w; simpl.
  - intros [HI HG]. split; [done|]. split; [done|].
    intros w1 H1. split; [done|apply gate_step_refl].
  - intros [HI HG]. split; [done|]. split; [done|].
    intros w1 H1. split; [done|apply gate_step_refl].
  - apply IH.
  - apply IH.
  - intros H. destruct (H (ws_send_text env (length (trace w)) m)) as (HI & HG & Hk).
    done.
  - intros (HI & HG & Hk). done.
  - intros (H & Hk). destruct (H env) as [HI HG]. split; [done|]. split; [done|].
    intros w1 H1. by apply Hk.
  - intros H. destruct (H (elevenlabs_convert env (length (trace w)) text)) as (HI & HG & Hk).
    done.
  - intros H. destruct (H (whisper_create env (length (trace w)) audio)) as (HI & HG & Hk).
    done.
  - intros H. destruct (H (chat_create env (length (trace w)) ws tr)) as (HI & HG & Hk).
    done.
  - intros (HI & HG & Hk). done.
  - intros (HI & HG & Hk). done.
Qed.

Lemma safe_ret {A} (a : A) : safe (Ret a).
Proof. intros w H. split; [done|apply gate_step_refl]. Qed.

Lemma safe_raise {A} e : safe (@Raise A e).
Proof. intros w H. split; [done|apply gate_step_refl]. Qed.

Lemma safe_from_bind {A B} (p : Prog A) (f : A -> Prog B) :
  (forall a, safe (f a)) ->
  forall w0 w, safe_from p w0 w -> safe_from (p ≫= f) w0 w.
Proof.
  intros Hf. rewrite mbind_bind.
  induction p as [a|e|k IH|h k IH|m k IH|ms k IH|t k IH|text k IH|audio k IH
                  |ws tr k IH|c k IH|k IH]; intros w0 w; simpl.
  - intros [HI HG]. eapply safe_from_weaken; [exact HG|]. by apply Hf.
  - done.
  - apply IH.
  - apply IH.
  - intros H r. destruct (H r) as (HI & HG & Hk). split; [done|]. split; [done|].
    intros w1 H1. by apply IH, Hk.
  - intros (HI & HG & Hk). split; [done|]. split; [done|]. intros w1 H1. by apply IH, Hk.
  - intros (H & Hk). split; [done|]. intros b w1 H1. by apply IH, Hk.
  - intros H r. destruct (H r) as (HI & HG & Hk). split; [done|]. split; [done|].
    intros w1 H1. by apply IH, Hk.
  - intros H r. destruct (H r) as (HI & HG & Hk). split; [done|]. split; [done|].
    intros w1 H1. by apply IH, Hk.
  - intros H r. destruct (H r) as (HI & HG & Hk). split; [done|]. split; [done|].
    intros w1 H1. by apply IH, Hk.
  - intros (HI & HG & Hk). split; [done|]. split; [done|]. intros w1 H1. by apply IH, Hk.
  - intros (HI & HG & Hk). split; [done|]. split; [done|]. intros w1 H1. by apply IH, Hk.
Qed.

Lemma safe_bind {A B} (p : Prog A) (f : A -> Prog B) :
  safe p -> (forall a, safe (f a)) -> safe (p ≫= f).
Proof. intros Hp Hf w Hw. by apply safe_from_bind, Hp. Qed.

Lemma safe_from_try_except {A} (p : Prog A) handle :
  (forall e, safe (handle e)) ->
  forall w0 w, safe_from p w0 w -> safe_from (try_except p handle) w0 w.
Proof.
  intros Hf.
  induction p as [a|e|k IH|h k IH|m k IH|ms k IH|t k IH|text k IH|audio k IH
                  |ws tr k IH|c k IH|k IH]; intros w0 w; simpl.
  - done.
  - intros [HI HG]. eapply safe_from_weaken; [exact HG|]. by apply Hf.
  - apply IH.
  - apply IH.
  - intros H r. destruct (H r) as (HI & HG & Hk). split; [done|]. split; [done|].
    intros w1 H1. by apply IH, Hk.
  - intros (HI & HG & Hk). split; [done|]. split; [done|]. intros w1 H1. by apply IH, Hk.
  - intros (H & Hk). split; [done|]. intros b w1 H1. by apply IH, Hk.
  - intros H r. destruct (H r) as (HI & HG & Hk). split; [done|]. split; [done|].
    intros w1 H1. by apply IH, Hk.
  - intros H r. destruct (H r) as (HI & HG & Hk). split; [done|]. split; [done|].
    intros w1 H1. by apply IH, Hk.
  - intros H r. destruct (H r) as (HI & HG & Hk). split; [done|]. split; [done|].
    intros w1 H1. by apply IH, Hk.
  - intros (HI & HG & Hk). split; [done|]. split; [done|]. intros w1 H1. by apply IH, Hk.
  - intros (HI & HG & Hk). split; [done|]. split; [done|]. intros w1 H1. by apply IH, Hk.
Qed.

Lemma safe_try_except {A} (p : Prog A) handle :
  safe p -> (forall e, safe (handle e)) -> safe (try_except p handle).
Proof. intros Hp Hf w Hw. by apply safe_from_try_except, Hp. Qed.

(** *** The awaited calls are safe *)

Lemma safe_send m : (forall r, plain_event (EvSend m r)) -> safe (websocket_send_text m).
Proof.
  intros Hm w Hw r. split; [by apply gate_inv_log|].
  split; [apply gate_step_log, gate_step_refl|].
  intros w1 H1. destruct r; simpl; (split; [done|apply gate_step_refl]).
Qed.

Lemma safe_sleep ms : safe (asyncio_sleep ms).
Proof.
  intros w Hw. split; [by apply gate_inv_log|].
  split; [apply gate_step_log, gate_step_refl|]. apply safe_ret.
Qed.

Lemma safe_create_task c : safe (asyncio_create_task c).
Proof.
  intros w Hw. split; [by apply gate_inv_log|].
  split; [apply gate_step_log, gate_step_refl|]. apply safe_ret.
Qed.

Lemma safe_generate_audio text : safe (tts_service_generate_audio text).
Proof.
  intros w Hw r. split; [by apply gate_inv_log|].
  split; [apply gate_step_log, gate_step_refl|].
  intros w1 H1. destruct r; simpl; (split; [done|apply gate_step_refl]).
Qed.

Lemma safe_transcribe audio : safe (Transcribe audio of_outcome).
Proof.
  intros w Hw r. split; [by apply gate_inv_log|].
  split; [apply gate_step_log, gate_step_refl|].
  intros w1 H1. destruct r; simpl; (split; [done|apply gate_step_refl]).
Qed.

Lemma safe_chat_completion ws tr : safe (ChatCompletion ws tr of_outcome).
Proof.
  intros w Hw r. split; [by apply gate_inv_log|].
  split; [apply gate_step_log, gate_step_refl|].
  intros w1 H1. destruct r; simpl; (split; [done|apply gate_step_refl]).
Qed.

Lemma keeps_gate_refl h : keeps_gate h h.
Proof. done. Qed.

Lemma safe_wait t : safe (wait_for_audio_complete_event t).
Proof.
  intros w Hw. split; [|intros b; apply safe_ret].
  intros env. unfold resolve_wait.
  destruct (audio_complete_event (handler w)).
  - split; [by apply gate_inv_log|apply gate_step_log, gate_step_refl].
  - destruct (client_ack_after env _) as [d|]; [destruct (d <? t)%N|]; simpl.
    + split; [apply gate_inv_log; [done|]; by apply gate_inv_with_handler|].
      apply gate_step_log, gate_step_with_handler; [done|apply gate_step_refl].
    + split; [by apply gate_inv_log|apply gate_step_log, gate_step_refl].
    + split; [by apply gate_inv_log|apply gate_step_log, gate_step_refl].
Qed.

Lemma safe_modify f : (forall h, keeps_gate h (f h)) -> safe (modify_self f).
Proof.
  intros Hf w Hw. simpl. split; [by apply gate_inv_with_handler|].
  apply gate_step_with_handler; [done|apply gate_step_refl].
Qed.

Lemma safe_read {A} (g : Handler -> A) : safe (read_self g).
Proof. intros w Hw. simpl. split; [done|apply gate_step_refl]. Qed.

Lemma safe_getself : safe (GetSelf Ret).
Proof. intros w Hw. simpl. split; [done|apply gate_step_refl]. Qed.

Lemma safe_of_outcome {A} (r : outcome A) : safe (of_outcome r).
Proof. destruct r; [apply safe_ret|apply safe_raise]. Qed.

Lemma safe_receive {A} (p : Prog A) : safe p -> safe (ReceiveText p).
Proof.
  intros Hp w Hw. split; [done|]. split; [apply gate_step_refl|]. apply Hp.
Qed.

Create HintDb safe_db.
#[global] Hint Resolve safe_ret safe_raise safe_sleep safe_create_task safe_generate_audio
  safe_transcribe safe_chat_completion safe_wait safe_read safe_getself
  safe_of_outcome keeps_gate_refl : safe_db.

(** Break a coroutine into its calls. *)
Ltac safe_tac :=
  repeat first
    [ progress intros
    | progress cbv zeta
    | solve [auto with safe_db]
    | apply safe_bind
    | apply safe_try_except
    | apply safe_receive
    | apply safe_send; intros ?; split; reflexivity
    | apply safe_modify; intros ?; repeat split; (reflexivity || (simpl; tauto))
    | match goal with
      | |- safe (if ?b then _ else _) => destruct b
      | |- safe (match ?r with Returned _ => _ | Raised _ => _ end) => destruct r
      end ].

(** *** The coroutines of the handler are safe *)

Lemma safe_send_task_state state trial message : safe (send_task_state state trial message).
Proof. unfold send_task_state. safe_tac. Qed.

Lemma safe_send_debug message : safe (send_debug message).
Proof. unfold send_debug. safe_tac. Qed.

Lemma safe_send_state_transition phase trial message :
  safe (_send_state_transition phase trial message).
Proof. unfold _send_state_transition. safe_tac. Qed.

Lemma safe_send_word_display word trial word_index :
  safe (_send_word_display word trial word_index).
Proof. unfold _send_word_display. safe_tac. Qed.

Lemma safe_send_tts_audio text trial : safe (send_tts_audio text trial).
Proof. unfold send_tts_audio. safe_tac. Qed.

#[global] Hint Resolve safe_send_task_state safe_send_debug safe_send_state_transition
  safe_send_word_display safe_send_tts_audio : safe_db.

Lemma safe_send_instruction : safe _send_instruction.
Proof. unfold _send_instruction. safe_tac. Qed.

Lemma safe_for_word_display trial words : forall word_index,
  safe (for_word_display trial word_index words).
Proof.
  induction words as [|word rest IH]; intros word_index; [apply safe_ret|].
  rewrite for_word_display_cons. safe_tac.
Qed.

#[global] Hint Resolve safe_send_instruction safe_for_word_display : safe_db.

(** [send_all_results] reads the store and sends it in one segment: the
    aggregate is the list of the results sent singly so far. *)
Lemma safe_send_aggregate :
  safe (try_except
          (results ← read_self evaluation_results;
           websocket_send_text (all_results results))
          (fun _ => Ret tt)).
Proof.
  intros w Hw. simpl. intros r.
  destruct Hw as (I1 & I2 & I3 & I4).
  split; [|split; [apply gate_step_log, gate_step_refl|]].
  - unfold log. split; [|split; [done|split; [done|]]]; simpl.
    + rewrite sent_results_app. simpl. by rewrite app_nil_r.
    + intros tr1 l r' tr2 Heq.
      destruct tr2 as [|e2 tr2 _] using rev_ind.
      * apply (app_inj_tail (trace w) tr1) in Heq as [<- Heq].
        injection Heq as <- _. done.
      * rewrite app_comm_cons, app_assoc in Heq.
        apply app_inj_tail in Heq as [Heq _]. by apply (I4 _ _ _ _ Heq).
  - intros w1 H1. destruct r; simpl; (split; [done|apply gate_step_refl]).
Qed.

#[global] Hint Resolve safe_send_aggregate : safe_db.

Lemma safe_send_all_results : safe send_all_results.
Proof. unfold send_all_results. safe_tac. Qed.

#[global] Hint Resolve safe_send_all_results : safe_db.

Lemma safe_send_completion : safe _send_completion.
Proof. unfold _send_completion. safe_tac. Qed.

#[global] Hint Resolve safe_send_completion : safe_db.

Lemma safe_send_trial_words trial : safe (_send_trial_words trial).
Proof. unfold _send_trial_words. safe_tac. Qed.

Lemma safe_start_task : safe _start_task.
Proof. unfold _start_task. safe_tac. Qed.

#[global] Hint Resolve safe_send_trial_words safe_start_task : safe_db.

Lemma safe_handle_audio_upload trial audio_bytes :
  safe (_handle_audio_upload trial audio_bytes).
Proof. unfold _handle_audio_upload. safe_tac. Qed.

Lemma safe_handle_audio_complete : safe _handle_audio_complete.
Proof. unfold _handle_audio_complete. safe_tac. Qed.

#[global] Hint Resolve safe_handle_audio_upload safe_handle_audio_complete : safe_db.

Lemma message_loop_cons f rest task_started :
  message_loop (f :: rest) task_started =
  ReceiveText
    match f with
    | RecvDisconnect => Ret Closed
    | RecvInvalid e => Raise e
    | RecvMessage client_msg =>
        match cm_type client_msg, cm_data client_msg with
        | event, Event start_task =>
            if negb task_started then
              send_debug "Task start received, beginning scripted flow...";;
              _start_task;;
              message_loop rest true
            else message_loop rest task_started
        | event, Event end_session =>
            send_debug "Session ended by client";;
            Ret Closed
        | event, Event audio_complete =>
            _handle_audio_complete;;
            message_loop rest task_started
        | _, _ => message_loop rest task_started
        end
    end.
Proof. reflexivity. Qed.

Lemma safe_message_loop frames : forall task_started,
  safe (message_loop frames task_started).
Proof.
  induction frames as [|f rest IH]; intros task_started; [apply safe_ret|].
  rewrite message_loop_cons. apply safe_receive.
  destruct f as [m|e|]; [|apply safe_raise|apply safe_ret].
  destruct (cm_type m); [apply IH|].
  destruct (cm_data m) as [|[| |]]; [apply IH| | |].
  - destruct (negb task_started); [|apply IH]. safe_tac.
  - safe_tac.
  - safe_tac.
Qed.

Lemma safe_handle_connection session_id frames :
  safe (handle_connection session_id frames).
Proof.
  unfold handle_connection. safe_tac. apply safe_message_loop.
Qed.

(** *** The gate itself: test, mark, store and send in one segment *)

Lemma safe_add_evaluation_result rt trial words transcript cw sc ok conf nt :
  safe (add_evaluation_result rt trial words transcript cw sc ok conf nt).
Proof.
  unfold add_evaluation_result.
  destruct (negb (bool_decide (trial ∈ [1; 2]))); [apply safe_ret|].
  intros w Hw. simpl.
  destruct (bool_decide (trial ∈ evaluated_trials (handler w))) eqn:Hg; simpl.
  { split; [done|apply gate_step_refl]. }
  apply bool_decide_eq_false in Hg.
  destruct Hw as (I1 & I2 & I3 & I4).
  destruct (new_working_memory_result rt trial words transcript cw sc ok conf nt)
    as [result|e] eqn:Hres; simpl.
  - apply new_working_memory_result_trial in Hres.
    intros r. split; [|split].
    + unfold log. split; [|split; [|split]]; simpl.
      * by rewrite sent_results_app, I1.
      * rewrite map_app. simpl. apply NoDup_app. split; [done|].
        split; [|apply NoDup_singleton].
        intros t Ht Ht'. apply list_elem_of_singleton in Ht' as ->.
        apply list_elem_of_fmap in Ht as (r0 & Heq & Hr0).
        apply Hg. rewrite <- Hres, Heq. by apply I3.
      * intros r0 [Hr0|Hr0]%elem_of_app.
        -- apply elem_of_union_l. by apply I3.
        -- apply list_elem_of_singleton in Hr0 as ->. rewrite Hres. set_solver.
      * intros tr1 l r' tr2 Heq.
        destruct tr2 as [|e2 tr2 _] using rev_ind.
        -- by apply (app_inj_tail (trace w) tr1) in Heq as [_ ?].
        -- rewrite app_comm_cons, app_assoc in Heq.
           apply app_inj_tail in Heq as [Heq _]. by apply (I4 _ _ _ _ Heq).
    + unfold gate_step. simpl. split; [set_solver|].
      split; [|split; [by apply prefix_app_r|done]].
      eexists. split; [reflexivity|].
      intros r0 Hr0. apply list_elem_of_singleton in Hr0 as ->. by rewrite Hres.
    + intros w1 H1. destruct r; simpl; (split; [done|apply gate_step_refl]).
  - split.
    + split; [done|]. split; [done|]. split; [|done].
      intros r0 Hr0. simpl. apply elem_of_union_l. by apply I3.
    + unfold gate_step. simpl. split; [set_solver|].
      split; [|split; [done|done]].
      exists []. split; [by rewrite app_nil_r|]. intros r0 Hr0. by apply elem_of_nil in Hr0.
Qed.

Lemma safe_evaluate_working_memory_response rt words transcript :
  safe (evaluate_working_memory_response rt words transcript).
Proof. unfold evaluate_working_memory_response. safe_tac. Qed.

Lemma safe_transcribe_audio fs fp audio_bytes :
  safe (transcribe_audio fs fp audio_bytes).
Proof. unfold transcribe_audio. safe_tac. Qed.

#[global] Hint Resolve safe_add_evaluation_result safe_evaluate_working_memory_response
  safe_transcribe_audio : safe_db.

Lemma safe_evaluate_background fs fp rt audio_bytes trial :
  safe (_evaluate_working_memory_audio_background fs fp rt audio_bytes trial).
Proof. unfold _evaluate_working_memory_audio_background. safe_tac. Qed.

Lemma safe_process_async audio_bytes trial :
  safe (_process_working_memory_audio_async audio_bytes trial).
Proof. unfold _process_working_memory_audio_async. safe_tac. Qed.

Lemma safe_upload session_found audio trial :
  safe (upload_working_memory_audio session_found audio trial).
Proof. unfold upload_working_memory_audio. safe_tac. Qed.

Lemma safe_coro_body fs fp rt c : safe (coro_body fs fp rt c).
Proof.
  destruct c; simpl;
    [apply safe_handle_audio_upload|apply safe_process_async|apply safe_evaluate_background].
Qed.

(** *** Every schedule keeps the invariant *)

Lemma sys_safe_init session_id frames :
  sys_safe (init_system session_id frames).
Proof.
  split.
  - split; [done|]. split; [apply NoDup_nil_2|]. split.
    + intros r Hr. by apply elem_of_nil in Hr.
    + intros tr1 l r tr2 Heq. simpl in Heq. by destruct tr1.
  - constructor; [|done]. apply safe_bind; [apply safe_handle_connection|intros; apply safe_ret].
Qed.

Lemma tick_safe fs fp rt env s t :
  sys_safe s ->
  sys_safe (tick fs fp rt env s t) /\ gate_step (world s) (world (tick fs fp rt env s t)).
Proof.
  intros [Hi Ht]. destruct t as [i|trial audio]; unfold tick.
  - destruct (tasks s !! i) as [p|] eqn:Hp; [|by split; [|apply gate_step_refl]].
    assert (Hsafe : safe p) by (eapply Forall_lookup_1; eauto).
    destruct (safe_from_step env p (world s) (world s) (Hsafe _ Hi)) as (HI & HG & Hk).
    split; [|done]. split; [done|]. cbn [world tasks].
    apply Forall_app. split.
    + apply Forall_insert; done.
    + apply Forall_forall. intros q Hq.
      apply list_elem_of_omap in Hq as (e & _ & He).
      destruct e; simpl in He; try done. injection He as <-. apply safe_coro_body.
  - split; [|apply gate_step_refl]. split; [done|]. cbn [world tasks].
    apply Forall_app. split; [done|]. constructor; [|done].
    apply safe_bind; [apply safe_upload|intros; apply safe_ret].
Qed.

Lemma sched_safe fs fp rt env ticks : forall s,
  sys_safe s ->
  sys_safe (sched fs fp rt env ticks s) /\ gate_step (world s) (world (sched fs fp rt env ticks s)).
Proof.
  induction ticks as [|t ticks IH]; intros s Hs; simpl.
  - split; [done|apply gate_step_refl].
  - destruct (tick_safe fs fp rt env s t Hs) as [Hs1 Hg1].
    destruct (IH _ Hs1) as [Hs2 Hg2]. split; [done|by eapply gate_step_trans].
Qed.

Lemma sched_app fs fp rt env ticks1 ticks2 s :
  sched fs fp rt env (ticks1 ++ ticks2) s = sched fs fp rt env ticks2 (sched fs fp rt env ticks1 s).
Proof. unfold sched. apply fold_left_app. Qed.

(** ** At most one result per trial *)

Lemma results_for_none trial l :
  (forall r, r ∈ l -> er_trial_number r <> trial) -> results_for trial l = [].
Proof.
  intros H. unfold results_for.
  destruct (filter _ l) as [|r rest] eqn:Hf; [done|].
  assert (Hr : r ∈ filter (fun r0 => er_trial_number r0 = trial) l).
  { rewrite Hf. apply list_elem_of_here. }
  apply list_elem_of_filter in Hr as [Heq Hin]. by destruct (H r Hin).
Qed.

Lemma results_for_nodup trial l :
  NoDup (map er_trial_number l) -> (length (results_for trial l) <= 1)%nat.
Proof.
  unfold results_for. induction l as [|r l IH]; intros Hnd; [simpl; lia|].
  simpl in Hnd. apply NoDup_cons in Hnd as [Hr Hl].
  rewrite filter_cons. destruct (decide (er_trial_number r = trial)) as [Heq|Hne].
  - simpl. assert (Hnil : filter (fun r0 => er_trial_number r0 = trial) l = []).
    { apply results_for_none. intros r0 Hr0 Heq0.
      apply Hr. rewrite Heq, <- Heq0. apply list_elem_of_fmap. by exists r0. }
    rewrite Hnil. simpl. lia.
  - by apply IH.
Qed.

Lemma results_for_app trial l1 l2 :
  results_for trial (l1 ++ l2) = results_for trial l1 ++ results_for trial l2.
Proof. apply filter_app. Qed.

(** C1: in every run of a session, whatever uploads arrive (duplicates
    included) and however the event loop interleaves the coroutines, at
    any two moments [s1] and later [s2]: the store holds at most one
    result for a trial, and at most one was put on the socket; the results
    on the socket are the ones stored; gate membership is never cleared;
    the trial of every stored result is a member; and once a trial is a
    member, nothing more is stored or sent for it.  A trial's membership
    therefore changes at most once: when its one result is stored, or when
    pydantic refuses the values of its evaluation, and then no result is
    ever stored for it. *)
Theorem C1_at_most_one_result_per_trial
    (float_sum : list float -> float) (float_pow_half : float -> float)
    (rt : Runtime)
    env session_id frames ticks1 ticks2 trial :
  let s1 := sched float_sum float_pow_half rt env ticks1 (init_system session_id frames) in
  let s2 := sched float_sum float_pow_half rt env ticks2 s1 in
  (length (results_for trial (evaluation_results (handler (world s2)))) <= 1)%nat
  /\ (length (results_for trial (sent_results (trace (world s2)))) <= 1)%nat
  /\ sent_results (trace (world s2)) = evaluation_results (handler (world s2))
  /\ evaluated_trials (handler (world s1)) ⊆ evaluated_trials (handler (world s2))
  /\ (forall r, r ∈ evaluation_results (handler (world s2)) ->
                er_trial_number r ∈ evaluated_trials (handler (world s2)))
  /\ (trial ∈ evaluated_trials (handler (world s1)) ->
      results_for trial (evaluation_results (handler (world s2)))
      = results_for trial (evaluation_results (handler (world s1)))
      /\ results_for trial (sent_results (trace (world s2)))
         = results_for trial (sent_results (trace (world s1)))).
Proof.
  intros s1 s2.
  destruct (sched_safe float_sum float_pow_half rt env ticks1 _
              (sys_safe_init session_id frames)) as [[(A1 & A2 & A3 & A4) _] _].
  fold s1 in A1, A2, A3, A4.
  assert (Hs1 : sys_safe s1).
  { apply sched_safe, sys_safe_init. }
  destruct (sched_safe float_sum float_pow_half rt env ticks2 s1 Hs1)
    as [[(B1 & B2 & B3 & B4) _] (G1 & (added & G2 & G3) & G4 & G5)].
  fold s2 in B1, B2, B3, B4, G1, G2, G4, G5.
  split; [by apply results_for_nodup|].
  split; [rewrite B1; by apply results_for_nodup|].
  split; [done|]. split; [done|]. split; [done|].
  intros Hin.
  assert (Hnil : results_for trial added = []).
  { apply results_for_none. intros r Hr Heq.
    apply (G3 r Hr). by rewrite Heq. }
  rewrite B1, A1, G2, results_for_app, Hnil, app_nil_r. done.
Qed.

(** Two uploads of the recording of trial 1, evaluated side by side: two
    transcriptions and two gradings, one result stored and sent. *)
Example duplicate_upload_one_result :
  let s := sched plain_float_sum PrimFloat.sqrt example_runtime friendly_env duplicate_upload_ticks
             (init_system "s" [start_frame]) in
  map er_trial_number (evaluation_results (handler (world s))) = [1]
  /\ length (sent_results (trace (world s))) = 1%nat
  /\ transcription_calls (trace (world s)) = 2%nat
  /\ grading_calls (trace (world s)) = 2%nat.
Proof. vm_compute. repeat split. Qed.

(** ** The order of the aggregate *)

(** C2, as stated, fails: when the recording of trial 2 is uploaded and
    evaluated before the one of trial 1, the aggregate sent at completion
    lists the result of trial 2 first. *)
Lemma C2_counterexample :
  let s := sched plain_float_sum PrimFloat.sqrt example_runtime friendly_env late_trial_1_ticks
             (init_system "s" [start_frame]) in
  map (map er_trial_number) (sent_aggregates (trace (world s))) = [[2; 1]]
  /\ current_phase (handler (world s)) = "complete"
  /\ ~ Forall trial_ordered (sent_aggregates (trace (world s))).
Proof.
  assert (H : map (map er_trial_number)
                (sent_aggregates
                   (trace (world (sched plain_float_sum PrimFloat.sqrt example_runtime friendly_env
                                    late_trial_1_ticks (init_system "s" [start_frame])))))
              = [[2; 1]]) by (vm_compute; reflexivity).
  split; [exact H|]. split; [vm_compute; reflexivity|].
  intros Hall. unfold trial_ordered in Hall.
  destruct (sent_aggregates _) as [|l rest]; [discriminate H|].
  injection H as Hl _. apply Forall_inv in Hall. rewrite Hl in Hall.
  apply StronglySorted_inv in Hall as [_ Hall]. apply Forall_inv in Hall. lia.
Qed.

Lemma aggregates_with_history_spec tr : forall seen l hist,
  (l, hist) ∈ aggregates_with_history seen tr ->
  exists tr1 r tr2,
    tr = tr1 ++ EvSend (all_results l) r :: tr2 /\ hist = seen ++ sent_results tr1.
Proof.
  induction tr as [|e tr IH]; intros seen l hist Hin; [by apply elem_of_nil in Hin|].
  assert (Hskip : sent_result e = None ->
                  (l, hist) ∈ aggregates_with_history seen tr ->
                  exists tr1 r tr2,
                    e :: tr = tr1 ++ EvSend (all_results l) r :: tr2
                    /\ hist = seen ++ sent_results tr1).
  { intros He Hin'. destruct (IH _ _ _ Hin') as (tr1 & r & tr2 & -> & ->).
    exists (e :: tr1), r, tr2. split; [done|].
    unfold sent_results. simpl. by rewrite He. }
  destruct e as [m r|ms|t r|text r|audio r|ws t r|c]; try (by apply Hskip).
  destruct m as [d|d|d|d|d|d|d]; try (by apply Hskip).
  - simpl in Hin. destruct (IH _ _ _ Hin) as (tr1 & r' & tr2 & -> & ->).
    exists (EvSend (evaluation_result d) r :: tr1), r', tr2. split; [done|].
    unfold sent_results. simpl. by rewrite <- app_assoc.
  - simpl in Hin. apply elem_of_cons in Hin as [Heq|Hin]; [|by apply Hskip].
    injection Heq as -> ->. exists [], r, tr. split; [done|].
    by rewrite app_nil_r.
Qed.

(** C2, amended: in every run of a session, each aggregate put on the
    socket lists exactly the results that had been put on the socket singly
    before it, in the order in which they were, which is the order in which
    they were stored; it lists no trial twice, and it is a prefix of the
    store as it stands at any later moment. *)
Theorem C2_aggregate_in_storage_order
    (float_sum : list float -> float) (float_pow_half : float -> float)
    (rt : Runtime)
    env session_id frames ticks :
  let s := sched float_sum float_pow_half rt env ticks (init_system session_id frames) in
  Forall (fun lh => lh.1 = lh.2
                    /\ lh.1 `prefix_of` evaluation_results (handler (world s))
                    /\ NoDup (map er_trial_number lh.1))
    (aggregates_with_history [] (trace (world s))).
Proof.
  intros s.
  destruct (sched_safe float_sum float_pow_half rt env ticks _
              (sys_safe_init session_id frames)) as [[(I1 & I2 & I3 & I4) _] _].
  fold s in I1, I2, I3, I4.
  apply Forall_forall. intros [l hist] Hin.
  destruct (aggregates_with_history_spec _ _ _ _ Hin) as (tr1 & r & tr2 & Htr & Hh).
  simpl in Hh. subst hist.
  assert (Hl : l = sent_results tr1) by (by eapply I4).
  assert (Hpre : l `prefix_of` evaluation_results (handler (world s))).
  { rewrite <- I1, Htr, sent_results_app, <- Hl. by apply prefix_app_r. }
  split; [done|]. split; [done|]. simpl.
  destruct Hpre as [rest Hrest]. rewrite Hrest, map_app in I2.
  by apply NoDup_app in I2 as [? _].
Qed.

(** In the schedule of the counterexample the aggregate is the store in
    storage order: trial 2, then trial 1. *)
Example late_trial_1_aggregate :
  let s := sched plain_float_sum PrimFloat.sqrt example_runtime friendly_env late_trial_1_ticks
             (init_system "s" [start_frame]) in
  map (fun lh => (map er_trial_number lh.1, map er_trial_number lh.2))
      (aggregates_with_history [] (trace (world s)))
  = [([2; 1], [2; 1])].
Proof. vm_compute. reflexivity. Qed.

(** ** The start signal *)


Lemma run_send_debug env message w :
  run env (send_debug message) w
  = (Returned tt, sent env (debug {| dbg_message := message |}) w).
Proof. apply run_guarded_send. Qed.

Lemma run_receive {A} env (p : Prog A) w : run env (ReceiveText p) w = run env p w.
Proof. reflexivity. Qed.







(** Three start signals in a row begin the flow once. *)
Example three_starts_one_flow :
  flow_starts
    (trace (after friendly_env
              (handle_connection "s" [start_frame; start_frame; start_frame]) init_world))
  = 1%nat
  /\ after friendly_env (handle_connection "s" [start_frame; start_frame; start_frame])
       init_world
     = after friendly_env (handle_connection "s" [start_frame]) init_world.
Proof. vm_compute. split; reflexivity. Qed.

(** ** The completion sequence under interleaving *)

Lemma part_count_app k tr1 tr2 :
  part_count k (tr1 ++ tr2) = (part_count k tr1 + part_count k tr2)%nat.
Proof. unfold part_count. by rewrite filter_app, length_app. Qed.

Lemma part_count_send k m r tr :
  part_count k (tr ++ [EvSend m r]) = (part_count k tr + cost k m)%nat.
Proof.
  rewrite part_count_app. unfold part_count, cost. rewrite filter_cons. simpl.
  destruct (is_part k m); by case_decide.
Qed.

Lemma part_count_other k e tr :
  event_is_part k e = false -> part_count k (tr ++ [e]) = part_count k tr.
Proof.
  intros He. rewrite part_count_app. unfold part_count at 2.
  rewrite filter_cons, He. case_decide; [done|]. simpl. lia.
Qed.

Lemma resolve_wait_completion k env t w :
  completion_sent (handler (resolve_wait env t w).2) = completion_sent (handler w)
  /\ part_count k (trace (resolve_wait env t w).2) = part_count k (trace w).
Proof.
  unfold resolve_wait. repeat case_match; simpl; by rewrite part_count_other.
Qed.

Lemma tame_mono {A} k (p : Prog A) : forall n m h,
  (n <= m)%nat -> tame k n p h -> tame k m p h.
Proof.
  induction p as [a|e|f IH|h' f IH|m0 f IH|ms f IH|t f IH|text f IH|audio f IH
                  |ws tr f IH|c f IH|f IH]; intros n m h Hnm; simpl.
  - done.
  - done.
  - apply IH, Hnm.
  - intros [Hc Ht]. split; [done|]. by eapply IH.
  - intros [Hc Ht]. split; [lia|]. intros r h1 H1.
    eapply (IH r (n - cost k m0)%nat); [lia|by apply Ht].
  - intros H h1 H1. eapply IH; [exact Hnm|by apply H].
  - intros H b h1 H1. eapply IH; [exact Hnm|by apply H].
  - intros H r h1 H1. eapply IH; [exact Hnm|by apply H].
  - intros H r h1 H1. eapply IH; [exact Hnm|by apply H].
  - intros H r h1 H1. eapply IH; [exact Hnm|by apply H].
  - intros H h1 H1. eapply IH; [exact Hnm|by apply H].
  - intros H h1 H1. eapply IH; [exact Hnm|by apply H].
Qed.

Lemma entry_tame {A} k (p : Prog A) : forall h,
  completion_sent h = true -> entry k p h -> tame k 0 p h.
Proof.
  induction p as [a|e|f IH|h' f IH|m0 f IH|ms f IH|t f IH|text f IH|audio f IH
                  |ws tr f IH|c f IH|f IH]; intros h Hh; simpl.
  - done.
  - done.
  - by apply IH.
  - rewrite Hh. intros [Hc He]. split; [done|]. by apply IH.
  - intros [Hc He]. unfold cost. rewrite Hc. split; [lia|].
    intros r h1 H1. simpl. by apply IH.
  - intros H h1 H1. by apply IH.
  - intros H b h1 H1. by apply IH.
  - intros H r h1 H1. by apply IH.
  - intros H r h1 H1. by apply IH.
  - intros H r h1 H1. by apply IH.
  - intros H h1 H1. by apply IH.
  - intros H h1 H1. by apply IH.
Qed.

(** One segment of a tame coroutine. *)
Lemma tame_step {A} k env (p : Prog A) : forall n w,
  completion_sent (handler w) = true ->
  tame k n p (handler w) ->
  completion_sent (handler (step env p w).2) = true
  /\ exists n',
       (part_count k (trace (step env p w).2) + n' <= part_count k (trace w) + n)%nat
       /\ forall h1, completion_sent h1 = true -> tame k n' (step env p w).1 h1.
Proof.
  induction p as [a|e|f IH|h' f IH|m0 f IH|ms f IH|t f IH|text f IH|audio f IH
                  |ws tr f IH|c f IH|f IH]; intros n w Hw; simpl.
  - intros _. split; [done|]. exists n. split; [lia|done].
  - intros _. split; [done|]. exists n. split; [lia|done].
  - by apply IH.
  - intros [Hc Ht]. by apply (IH n (with_handler h' w)).
  - intros [Hc Ht]. split; [done|]. exists (n - cost k m0)%nat.
    split; [rewrite part_count_send; lia|]. intros h1 H1. by apply Ht.
  - intros Ht. split; [done|]. exists n.
    split; [by rewrite part_count_other|done].
  - intros Ht. destruct (resolve_wait_completion k env t w) as [-> ->].
    split; [done|]. exists n. split; [lia|]. intros h1 H1. by apply Ht.
  - intros Ht. split; [done|]. exists n.
    split; [by rewrite part_count_other|]. intros h1 H1. by apply Ht.
  - intros Ht. split; [done|]. exists n.
    split; [by rewrite part_count_other|]. intros h1 H1. by apply Ht.
  - intros Ht. split; [done|]. exists n.
    split; [by rewrite part_count_other|]. intros h1 H1. by apply Ht.
  - intros Ht. split; [done|]. exists n.
    split; [by rewrite part_count_other|done].
  - intros Ht. split; [done|]. exists n. split; [lia|done].
Qed.

(** One segment of a coroutine that has not set the flag: either the flag
    and the count are as before and the coroutine is as fresh as it was,
    or it found the flag clear, set it, and is tame from now on with what
    is left of a budget of one. *)
Lemma entry_step {A} k env (p : Prog A) : forall w,
  entry k p (handler w) ->
  (completion_sent (handler (step env p w).2) = completion_sent (handler w)
   /\ part_count k (trace (step env p w).2) = part_count k (trace w)
   /\ forall h1, entry k (step env p w).1 h1)
  \/ (completion_sent (handler w) = false
      /\ completion_sent (handler (step env p w).2) = true
      /\ exists n',
           (part_count k (trace (step env p w).2) + n' <= part_count k (trace w) + 1)%nat
           /\ forall h1, completion_sent h1 = true -> tame k n' (step env p w).1 h1).
Proof.
  induction p as [a|e|f IH|h' f IH|m0 f IH|ms f IH|t f IH|text f IH|audio f IH
                  |ws tr f IH|c f IH|f IH]; intros w; simpl.
  - intros _. by left.
  - intros _. by left.
  - by apply IH.
  - destruct (completion_sent (handler w)) eqn:Hw.
    + intros [Hc He]. destruct (IH (with_handler h' w) He) as [(H1 & H2 & H3)|(H1 & _)].
      * left. simpl in H1. by rewrite H1.
      * simpl in H1. congruence.
    + destruct (completion_sent h') eqn:Hh'.
      * intros Ht. right. split; [done|].
        by apply (tame_step k env f 1 (with_handler h' w)).
      * intros He. destruct (IH (with_handler h' w) He) as [(H1 & H2 & H3)|(H1 & H2 & H3)].
        -- left. simpl in H1. by rewrite H1.
        -- right. done.
  - intros [Hc He]. left. split; [done|].
    split; [rewrite part_count_send; unfold cost; rewrite Hc; lia|done].
  - intros He. left. split; [done|]. split; [by rewrite part_count_other|done].
  - intros He. left. destruct (resolve_wait_completion k env t w) as [-> ->]. done.
  - intros He. left. split; [done|]. split; [by rewrite part_count_other|done].
  - intros He. left. split; [done|]. split; [by rewrite part_count_other|done].
  - intros He. left. split; [done|]. split; [by rewrite part_count_other|done].
  - intros He. left. split; [done|]. split; [by rewrite part_count_other|done].
  - intros He. by left.
Qed.

(** *** Composing coroutines *)

Lemma tame_bind {A B} k (p : Prog A) (f : A -> Prog B) m : forall n h,
  completion_sent h = true ->
  tame k n p h ->
  (forall a h', completion_sent h' = true -> tame k m (f a) h') ->
  tame k (n + m) (p ≫= f) h.
Proof.
  rewrite mbind_bind.
  induction p as [a|e|g IH|h' g IH|m0 g IH|ms g IH|t g IH|text g IH|audio g IH
                  |ws tr g IH|c g IH|g IH]; intros n h Hh; simpl.
  - intros _ Hf. eapply tame_mono; [|by apply Hf]. lia.
  - done.
  - by apply IH.
  - intros [Hc Ht] Hf. split; [done|]. by apply IH.
  - intros [Hc Ht] Hf. split; [lia|]. intros r h1 H1.
    replace (n + m - cost k m0)%nat with ((n - cost k m0) + m)%nat by lia.
    apply IH; [done|by apply Ht|done].
  - intros H Hf h1 H1. apply IH; [done|by apply H|done].
  - intros H Hf b h1 H1. apply IH; [done|by apply H|done].
  - intros H Hf r h1 H1. apply IH; [done|by apply H|done].
  - intros H Hf r h1 H1. apply IH; [done|by apply H|done].
  - intros H Hf r h1 H1. apply IH; [done|by apply H|done].
  - intros H Hf h1 H1. apply IH; [done|by apply H|done].
  - intros H Hf h1 H1. apply IH; [done|by apply H|done].
Qed.

Lemma tame_try_except {A} k (p : Prog A) handle m : forall n h,
  completion_sent h = true ->
  tame k n p h ->
  (forall e h', completion_sent h' = true -> tame k m (handle e) h') ->
  tame k (n + m) (try_except p handle) h.
Proof.
  induction p as [a|e|g IH|h' g IH|m0 g IH|ms g IH|t g IH|text g IH|audio g IH
                  |ws tr g IH|c g IH|g IH]; intros n h Hh; simpl.
  - done.
  - intros _ Hf. eapply tame_mono; [|by apply Hf]. lia.
  - by apply IH.
  - intros [Hc Ht] Hf. split; [done|]. by apply IH.
  - intros [Hc Ht] Hf. split; [lia|]. intros r h1 H1.
    replace (n + m - cost k m0)%nat with ((n - cost k m0) + m)%nat by lia.
    apply IH; [done|by apply Ht|done].
  - intros H Hf h1 H1. apply IH; [done|by apply H|done].
  - intros H Hf b h1 H1. apply IH; [done|by apply H|done].
  - intros H Hf r h1 H1. apply IH; [done|by apply H|done].
  - intros H Hf r h1 H1. apply IH; [done|by apply H|done].
  - intros H Hf r h1 H1. apply IH; [done|by apply H|done].
  - intros H Hf h1 H1. apply IH; [done|by apply H|done].
  - intros H Hf h1 H1. apply IH; [done|by apply H|done].
Qed.

Lemma entry_bind {A B} k (p : Prog A) (f : A -> Prog B) :
  (forall a h', entry k (f a) h') ->
  forall h, entry k p h -> entry k (p ≫= f) h.
Proof.
  intros Hf. rewrite mbind_bind.
  induction p as [a|e|g IH|h' g IH|m0 g IH|ms g IH|t g IH|text g IH|audio g IH
                  |ws tr g IH|c g IH|g IH]; intros h; simpl.
  - intros _. apply Hf.
  - done.
  - apply IH.
  - destruct (completion_sent h).
    + intros [Hc He]. split; [done|]. by apply IH.
    + destruct (completion_sent h') eqn:Hh'; [|apply IH].
      intros Ht. rewrite <- mbind_bind.
      apply (tame_bind k g f 0 1 h' Hh' Ht).
      intros a h1 H1. by apply entry_tame.
  - intros [Hc He]. split; [done|]. intros r h1. apply IH, He.
  - intros H h1. apply IH, H.
  - intros H b h1. apply IH, H.
  - intros H r h1. apply IH, H.
  - intros H r h1. apply IH, H.
  - intros H r h1. apply IH, H.
  - intros H h1. apply IH, H.
  - intros H h1. apply IH, H.
Qed.

Lemma entry_try_except {A} k (p : Prog A) handle :
  (forall e h', entry k (handle e) h') ->
  forall h, entry k p h -> entry k (try_except p handle) h.
Proof.
  intros Hf.
  induction p as [a|e|g IH|h' g IH|m0 g IH|ms g IH|t g IH|text g IH|audio g IH
                  |ws tr g IH|c g IH|g IH]; intros h; simpl.
  - done.
  - intros _. apply Hf.
  - apply IH.
  - destruct (completion_sent h).
    + intros [Hc He]. split; [done|]. by apply IH.
    + destruct (completion_sent h') eqn:Hh'; [|apply IH].
      intros Ht.
      apply (tame_try_except k g handle 0 1 h' Hh' Ht).
      intros e h1 H1. by apply entry_tame.
  - intros [Hc He]. split; [done|]. intros r h1. apply IH, He.
  - intros H h1. apply IH, H.
  - intros H b h1. apply IH, H.
  - intros H r h1. apply IH, H.
  - intros H r h1. apply IH, H.
  - intros H r h1. apply IH, H.
  - intros H h1. apply IH, H.
  - intros H h1. apply IH, H.
Qed.

(** A coroutine is fresh when it is an [entry] in every state. *)
Lemma fresh_bind {A B} k (p : Prog A) (f : A -> Prog B) :
  (forall h, entry k p h) -> (forall a h, entry k (f a) h) ->
  forall h, entry k (p ≫= f) h.
Proof. intros Hp Hf h. by apply entry_bind. Qed.

Lemma fresh_try_except {A} k (p : Prog A) handle :
  (forall h, entry k p h) -> (forall e h, entry k (handle e) h) ->
  forall h, entry k (try_except p handle) h.
Proof. intros Hp Hf h. by apply entry_try_except. Qed.

Lemma fresh_ret {A} k (a : A) : forall h, entry k (Ret a) h.
Proof. done. Qed.

Lemma fresh_raise {A} k e : forall h, entry k (@Raise A e) h.
Proof. done. Qed.

Lemma fresh_of_outcome {A} k (r : outcome A) : forall h, entry k (of_outcome r) h.
Proof. by destruct r. Qed.

Lemma fresh_send k m :
  is_part k m = false -> forall h, entry k (websocket_send_text m) h.
Proof. intros Hm h. split; [done|]. intros r h1. apply fresh_of_outcome. Qed.

Lemma fresh_sleep k ms : forall h, entry k (asyncio_sleep ms) h.
Proof. done. Qed.

Lemma fresh_create_task k c : forall h, entry k (asyncio_create_task c) h.
Proof. done. Qed.

Lemma fresh_generate_audio k text : forall h, entry k (tts_service_generate_audio text) h.
Proof. intros h r h1. apply fresh_of_outcome. Qed.

Lemma fresh_transcribe k audio : forall h, entry k (Transcribe audio of_outcome) h.
Proof. intros h r h1. apply fresh_of_outcome. Qed.

Lemma fresh_chat_completion k ws tr : forall h, entry k (ChatCompletion ws tr of_outcome) h.
Proof. intros h r h1. apply fresh_of_outcome. Qed.

Lemma fresh_wait k t : forall h, entry k (wait_for_audio_complete_event t) h.
Proof. done. Qed.

Lemma fresh_read {A} k (g : Handler -> A) : forall h, entry k (read_self g) h.
Proof. done. Qed.

Lemma fresh_getself k : forall h, entry k (GetSelf Ret) h.
Proof. done. Qed.

Lemma fresh_receive {A} k (p : Prog A) :
  (forall h, entry k p h) -> forall h, entry k (ReceiveText p) h.
Proof. intros Hp h h1. apply Hp. Qed.

(** A change of the handler that leaves [completion_sent] alone. *)
Lemma fresh_modify k g :
  (forall h, completion_sent (g h) = completion_sent h) ->
  forall h, entry k (modify_self g) h.
Proof.
  intros Hg h. simpl. rewrite Hg. by destruct (completion_sent h).
Qed.

(** *** The coroutines other than the completion are fresh *)

Create HintDb fresh_db.
#[global] Hint Resolve fresh_ret fresh_raise fresh_of_outcome fresh_sleep fresh_create_task
  fresh_generate_audio fresh_transcribe fresh_chat_completion fresh_wait fresh_read
  fresh_getself : fresh_db.

Ltac fresh_step :=
  lazymatch goal with
  | |- forall _, _ => intros
  | |- entry _ (_ ≫= _) _ => apply fresh_bind
  | |- entry _ (try_except _ _) _ => apply fresh_try_except
  | |- entry _ (ReceiveText _) _ => apply fresh_receive
  | |- entry ?k (websocket_send_text _) _ =>
      apply fresh_send; destruct k; reflexivity
  | |- entry _ (modify_self _) _ => apply fresh_modify; intros ?; reflexivity
  | |- entry _ (if ?b then _ else _) _ => destruct b
  | |- entry _ (let _ := _ in _) _ => cbv zeta
  end.

Ltac fresh_tac := repeat first [ solve [auto with fresh_db] | fresh_step ].

Lemma fresh_send_task_state_listening k trial message :
  forall h, entry k (send_task_state listening trial message) h.
Proof. unfold send_task_state. fresh_tac. Qed.

Lemma fresh_send_debug k message : forall h, entry k (send_debug message) h.
Proof. unfold send_debug. fresh_tac. Qed.

Lemma fresh_send_evaluation_result k result :
  forall h, entry k (send_evaluation_result result) h.
Proof. unfold send_evaluation_result. fresh_tac. Qed.

Lemma fresh_send_state_transition k phase trial message :
  phase <> completion_playing -> phase <> complete ->
  forall h, entry k (_send_state_transition phase trial message) h.
Proof.
  intros H1 H2. unfold _send_state_transition.
  apply fresh_try_except; [|fresh_tac]. apply fresh_send.
  destruct k, phase; done.
Qed.

Lemma fresh_send_word_display k word trial word_index :
  forall h, entry k (_send_word_display word trial word_index) h.
Proof. unfold _send_word_display. fresh_tac. Qed.

Lemma fresh_send_tts_audio k text trial :
  forall h, entry k (send_tts_audio text (Some trial)) h.
Proof. unfold send_tts_audio. fresh_tac. Qed.

#[global] Hint Resolve fresh_send_task_state_listening fresh_send_debug
  fresh_send_evaluation_result fresh_send_word_display fresh_send_tts_audio : fresh_db.
#[global] Hint Extern 1 (entry _ (_send_state_transition _ _ _) _) =>
  apply fresh_send_state_transition; discriminate : fresh_db.

Lemma fresh_send_instruction k : forall h, entry k _send_instruction h.
Proof. unfold _send_instruction. fresh_tac. Qed.

Lemma fresh_for_word_display k trial words : forall word_index h,
  entry k (for_word_display trial word_index words) h.
Proof.
  induction words as [|word rest IH]; intros word_index; [done|].
  rewrite for_word_display_cons. fresh_tac.
Qed.

Lemma fresh_handle_audio_complete k : forall h, entry k _handle_audio_complete h.
Proof. unfold _handle_audio_complete. fresh_tac. Qed.

#[global] Hint Resolve fresh_send_instruction fresh_for_word_display
  fresh_handle_audio_complete : fresh_db.

Lemma fresh_start_task k : forall h, entry k _start_task h.
Proof. unfold _start_task. fresh_tac. Qed.

#[global] Hint Resolve fresh_start_task : fresh_db.

(** *** The completion: five messages, each kind once *)

Lemma tame_guarded_send k m h :
  tame k (cost k m) (try_except (websocket_send_text m) (fun _ => Ret tt)) h.
Proof.
  simpl. split; [lia|]. intros r h1 H1. by destruct r.
Qed.

Lemma tame_sleep k ms h : tame k 0 (asyncio_sleep ms) h.
Proof. done. Qed.

Lemma tame_send_tts_audio k text trial h :
  completion_sent h = true ->
  tame k (cost k (tts_audio {| tts_audio_b64 := ""; tts_trial_number := trial |}))
    (send_tts_audio text trial) h.
Proof.
  intros Hh. unfold send_tts_audio. simpl.
  split; [done|]. split; [done|].
  intros r h1 H1. destruct r as [a|e]; simpl.
  - split; [unfold cost; destruct k, trial; simpl; lia|].
    intros r h2 H2. destruct r as [[]|e]; simpl; [|done].
    intros b h3 H3. by destruct b.
  - done.
Qed.

Lemma tame_send_all_results k h :
  completion_sent h = true ->
  tame k (cost k (task_state {| ts_state := complete_state; ts_trial_number := None;
                                ts_message := Some "Task completed!" |})
          + cost k (all_results []))
    send_all_results h.
Proof.
  intros Hh. unfold send_all_results. simpl.
  split; [done|]. split; [lia|].
  intros r h1 H1. destruct r as [[]|e]; simpl.
  - split; [unfold cost; destruct k; simpl; lia|]. intros r h2 H2. by destruct r.
  - split; [unfold cost; destruct k; simpl; lia|]. intros r h2 H2. by destruct r.
Qed.

(** What follows the setting of the flag in [_send_completion]. *)
Lemma tame_completion_sequence k h :
  completion_sent h = true ->
  tame k 1
    (_send_state_transition completion_playing None (Some WORKING_MEMORY_SCRIPT_completion);;
     asyncio_sleep 100;;
     send_tts_audio WORKING_MEMORY_SCRIPT_completion None;;
     _send_state_transition complete None None;;
     send_all_results) h.
Proof.
  intros Hh.
  eapply tame_mono;
    [|apply tame_bind; [done|apply tame_guarded_send|];
      intros _ h1 H1;
      apply tame_bind; [done|apply tame_sleep|];
      intros _ h2 H2;
      apply tame_bind; [done|by apply tame_send_tts_audio|];
      intros _ h3 H3;
      apply tame_bind; [done|apply tame_guarded_send|];
      intros _ h4 H4;
      by apply tame_send_all_results].
  destruct k; vm_compute; lia.
Qed.

Lemma entry_read {A B} k (g : Handler -> A) (f : A -> Prog B) h :
  entry k (f (g h)) h -> entry k (read_self g ≫= f) h.
Proof. done. Qed.

Lemma entry_flip {B} k g (f : unit -> Prog B) h :
  completion_sent h = false ->
  completion_sent (g h) = true ->
  tame k 1 (f tt) (g h) ->
  entry k (modify_self g ≫= f) h.
Proof. intros Hh Hg Ht. simpl. by rewrite Hh, Hg. Qed.

Lemma fresh_send_completion k : forall h, entry k _send_completion h.
Proof.
  intros h. unfold _send_completion. apply entry_read. cbv beta.
  destruct (completion_sent h) eqn:Hh; [done|].
  apply entry_flip; [done|done|]. by apply tame_completion_sequence.
Qed.

#[global] Hint Resolve fresh_send_completion : fresh_db.

Lemma fresh_send_trial_words k trial : forall h, entry k (_send_trial_words trial) h.
Proof. unfold _send_trial_words. fresh_tac. Qed.

#[global] Hint Resolve fresh_send_trial_words : fresh_db.

Lemma fresh_handle_audio_upload k trial audio_bytes :
  forall h, entry k (_handle_audio_upload trial audio_bytes) h.
Proof. unfold _handle_audio_upload. fresh_tac. Qed.

Lemma fresh_message_loop k frames : forall task_started h,
  entry k (message_loop frames task_started) h.
Proof.
  induction frames as [|f rest IH]; intros task_started; [done|].
  rewrite message_loop_cons. apply fresh_receive.
  destruct f as [m|e|]; [|done|done].
  destruct (cm_type m); [apply IH|].
  destruct (cm_data m) as [|[| |]]; [apply IH| | |].
  - destruct (negb task_started); [|apply IH]. fresh_tac.
  - fresh_tac.
  - fresh_tac.
Qed.

Lemma fresh_handle_connection k session_id frames :
  forall h, entry k (handle_connection session_id frames) h.
Proof.
  unfold handle_connection. fresh_tac. apply fresh_message_loop.
Qed.

Lemma fresh_add_evaluation_result rt k trial words transcript cw sc ok conf nt :
  forall h, entry k (add_evaluation_result rt trial words transcript cw sc ok conf nt) h.
Proof.
  unfold add_evaluation_result, BaseTaskHandler_add_evaluation_result. fresh_tac.
Qed.

Lemma fresh_evaluate_working_memory_response rt k words transcript :
  forall h, entry k (evaluate_working_memory_response rt words transcript) h.
Proof. unfold evaluate_working_memory_response. fresh_tac. Qed.

Lemma fresh_transcribe_audio k fs fp audio_bytes :
  forall h, entry k (transcribe_audio fs fp audio_bytes) h.
Proof. unfold transcribe_audio. fresh_tac. Qed.

#[global] Hint Resolve fresh_handle_audio_upload fresh_handle_connection
  fresh_add_evaluation_result fresh_evaluate_working_memory_response
  fresh_transcribe_audio : fresh_db.

Lemma fresh_evaluate_background k fs fp rt audio_bytes trial :
  forall h, entry k (_evaluate_working_memory_audio_background fs fp rt audio_bytes trial) h.
Proof. unfold _evaluate_working_memory_audio_background. fresh_tac. Qed.

Lemma fresh_process_async k audio_bytes trial :
  forall h, entry k (_process_working_memory_audio_async audio_bytes trial) h.
Proof. unfold _process_working_memory_audio_async. fresh_tac. Qed.

Lemma fresh_upload k session_found audio trial :
  forall h, entry k (upload_working_memory_audio session_found audio trial) h.
Proof. unfold upload_working_memory_audio. fresh_tac. Qed.

Lemma fresh_coro_body k fs fp rt c : forall h, entry k (coro_body fs fp rt c) h.
Proof.
  destruct c; simpl;
    [apply fresh_handle_audio_upload|apply fresh_process_async|apply fresh_evaluate_background].
Qed.

(** *** Every schedule keeps the count *)

Lemma sum_budget_insert roles : forall i r r',
  roles !! i = Some r ->
  (sum_list_with budget (<[i := r']> roles) + budget r
   = sum_list_with budget roles + budget r')%nat.
Proof.
  induction roles as [|x roles IH]; intros i r r' Hi; [done|].
  destruct i as [|i]; simpl in *.
  - injection Hi as ->. lia.
  - specialize (IH i r r' Hi). lia.
Qed.

Lemma sum_budget_fresh n : sum_list_with budget (replicate n Fresh) = 0%nat.
Proof. induction n as [|n IH]; [done|]. simpl. by rewrite IH. Qed.

Lemma sum_budget_all_fresh roles :
  Forall (fun r => r = Fresh) roles -> sum_list_with budget roles = 0%nat.
Proof. induction 1 as [|r roles -> _ IH]; [done|]. simpl. by rewrite IH. Qed.

Lemma task_ok_fresh_list k (l : list (Prog unit)) :
  Forall (fun q => forall h, entry k q h) l ->
  Forall2 (task_ok k) (replicate (length l) Fresh) l.
Proof. induction 1; simpl; constructor; done. Qed.

Lemma created_tasks_fresh k fs fp rt tr :
  Forall (fun q => forall h, entry k q h) (omap (created_task fs fp rt) tr).
Proof.
  apply Forall_forall. intros q Hq.
  apply list_elem_of_omap in Hq as (e & _ & He).
  destruct e; simpl in He; try done. injection He as <-. apply fresh_coro_body.
Qed.

Lemma completion_inv_init k session_id frames :
  completion_inv k (init_system session_id frames).
Proof.
  exists [Fresh]. split; [|split].
  - constructor; [|done]. unfold init_system, task_ok.
    apply fresh_bind; [apply fresh_handle_connection|done].
  - vm_compute. lia.
  - intros _. split; [by repeat constructor|done].
Qed.

Lemma tick_completion k fs fp rt env s t :
  completion_inv k s -> completion_inv k (tick fs fp rt env s t).
Proof.
  intros (roles & HF & Hsum & Hclr). destruct t as [i|trial audio]; unfold tick.
  - destruct (tasks s !! i) as [p|] eqn:Hp; [|by exists roles].
    destruct (Forall2_lookup_r _ _ _ _ _ HF Hp) as (r & Hr & Hok).
    set (sp := omap (created_task fs fp rt)
                 (drop (length (trace (world s))) (trace (step env p (world s)).2))).
    assert (Hsp : Forall2 (task_ok k) (replicate (length sp) Fresh) sp).
    { apply task_ok_fresh_list, created_tasks_fresh. }
    destruct r as [|n].
    + destruct (entry_step k env p (world s) (Hok _))
        as [(Hc & Hn & He)|(Hc0 & Hc & n' & Hn & Ht)].
      * exists (<[i := Fresh]> roles ++ replicate (length sp) Fresh).
        cbn [world tasks]. split; [|split].
        -- apply Forall2_app; [|done]. by apply Forall2_insert.
        -- rewrite sum_list_with_app, sum_budget_fresh, Hn.
           pose proof (sum_budget_insert roles i Fresh Fresh Hr) as Hins.
           simpl in Hins. lia.
        -- rewrite Hc, Hn. intros Hf. destruct (Hclr Hf) as [Hall Hz].
           split; [|done]. apply Forall_app. split.
           ++ by apply Forall_insert.
           ++ by apply Forall_replicate.
      * destruct (Hclr Hc0) as [Hall Hz].
        exists (<[i := Owner n']> roles ++ replicate (length sp) Fresh).
        cbn [world tasks]. split; [|split].
        -- apply Forall2_app; [|done]. by apply Forall2_insert.
        -- rewrite sum_list_with_app, sum_budget_fresh.
           pose proof (sum_budget_insert roles i Fresh (Owner n') Hr) as Hins.
           rewrite (sum_budget_all_fresh roles Hall) in Hins. simpl in *. lia.
        -- rewrite Hc. done.
    + assert (Hcs : completion_sent (handler (world s)) = true).
      { destruct (completion_sent (handler (world s))) eqn:Hcs; [done|].
        destruct (Hclr eq_refl) as [Hall _].
        rewrite Forall_lookup in Hall. by specialize (Hall i _ Hr). }
      destruct (tame_step k env p n (world s) Hcs (Hok _ Hcs)) as (Hc & n' & Hn & Ht).
      exists (<[i := Owner n']> roles ++ replicate (length sp) Fresh).
      cbn [world tasks]. split; [|split].
      * apply Forall2_app; [|done]. by apply Forall2_insert.
      * rewrite sum_list_with_app, sum_budget_fresh.
        pose proof (sum_budget_insert roles i (Owner n) (Owner n') Hr). simpl in *. lia.
      * rewrite Hc. done.
  - exists (roles ++ [Fresh]). cbn [world tasks]. split; [|split].
    + apply Forall2_app; [done|]. constructor; [|done]. unfold task_ok.
      apply fresh_bind; [apply fresh_upload|done].
    + rewrite sum_list_with_app. simpl. lia.
    + intros Hf. destruct (Hclr Hf) as [Hall Hz]. split; [|done].
      apply Forall_app. split; [done|]. by repeat constructor.
Qed.

Lemma sched_completion k fs fp rt env ticks : forall s,
  completion_inv k s -> completion_inv k (sched fs fp rt env ticks s).
Proof.
  induction ticks as [|t ticks IH]; intros s Hs; [done|].
  simpl. apply IH. by apply tick_completion.
Qed.

(** ** The completion sequence, at most once *)

Lemma step_send_completion_again env w :
  completion_sent (handler w) = true ->
  step env _send_completion w = (Ret tt, w).
Proof. intros H. unfold _send_completion. simpl. by rewrite H. Qed.

Lemma step_send_completion_first env w :
  completion_sent (handler w) = false ->
  completion_sent (handler (step env _send_completion w).2) = true.
Proof. intros H. unfold _send_completion. simpl. by rewrite H. Qed.

(** C9: [_send_completion] with [completion_sent] set returns at once, the
    world untouched: nothing is emitted.  With the flag clear it sets the
    flag before its first suspension point, so an invocation that starts
    while the first one is suspended finds it set; it then emits the
    completion sequence and returns with the flag set.  In every run of a
    session, whatever uploads arrive and however the coroutines interleave,
    each message of the completion sequence (the completion_playing
    transition, the completion audio, the complete transition, the task
    state "complete", the aggregate of results) is put on the socket at most
    once, and the flag, once set, stays set. *)
Theorem C9_completion_sequence_at_most_once
    (float_sum : list float -> float) (float_pow_half : float -> float)
    (rt : Runtime) env :
  (forall w,
      completion_sent (handler w) = true ->
      run env _send_completion w = (Returned tt, w)
      /\ step env _send_completion w = (Ret tt, w))
  /\ (forall w,
         completion_sent (handler w) = false ->
         completion_sent (handler (step env _send_completion w).2) = true
         /\ exists w' new,
              run env _send_completion w = (Returned tt, w')
              /\ trace w' = trace w ++ new
              /\ steps new = completion_steps (evaluation_results (handler w))
              /\ completion_sent (handler w') = true)
  /\ (forall session_id frames ticks k,
         (part_count k
            (trace (world (sched float_sum float_pow_half rt env ticks
                             (init_system session_id frames)))) <= 1)%nat)
  /\ (forall session_id frames ticks1 ticks2,
         let s1 := sched float_sum float_pow_half rt env ticks1
                     (init_system session_id frames) in
         let s2 := sched float_sum float_pow_half rt env ticks2 s1 in
         completion_sent (handler (world s1)) = true ->
         completion_sent (handler (world s2)) = true).
Proof.
  split; [|split; [|split]].
  - intros w H. split; [by apply flow_send_completion_again
                       |by apply step_send_completion_again].
  - intros w H. split; [by apply step_send_completion_first|].
    destruct (flow_send_completion env w H) as (w' & (Hr & new & Ht & He) & Hc).
    apply emits_inv in He as (S & _).
    apply core_inv in Hc as (_ & _ & _ & _ & Hcs & _).
    by exists w', new.
  - intros session_id frames ticks k.
    destruct (sched_completion k float_sum float_pow_half rt env ticks _
                (completion_inv_init k session_id frames)) as (roles & _ & Hsum & _).
    lia.
  - intros session_id frames ticks1 ticks2 s1 s2.
    assert (Hs1 : sys_safe s1) by apply sched_safe, sys_safe_init.
    destruct (sched_safe float_sum float_pow_half rt env ticks2 s1 Hs1)
      as [_ (_ & _ & _ & G)].
    exact G.
Qed.

(** Two uploads for the last trial, handled side by side: one completion
    sequence. *)
Example duplicate_final_upload_one_completion :
  let s := sched plain_float_sum PrimFloat.sqrt example_runtime friendly_env duplicate_final_upload_ticks
             (init_system "s" [start_frame]) in
  map (fun k => part_count k (trace (world s)))
      [part_playing; part_audio; part_complete; part_state; part_aggregate]
  = [1; 1; 1; 1; 1]%nat
  /\ length (List.filter (fun st => match st with
                               | Transition beep_end _ _ => true
                               | _ => false
                               end)
               (steps (trace (world s)))) = 2%nat.
Proof. vm_compute. split; reflexivity. Qed.

(** * Further properties of the code

    ** services/stt_service.py: the WAV header and the silence check *)

Lemma to_bytes_little_ok size : forall n,
  (n < 256 ^ N.of_nat size)%N ->
  exists b, to_bytes_little size n = Returned b
            /\ length b = size /\ from_bytes_little b = n.
Proof.
  induction size as [|size IH]; intros n Hn.
  - exists []. simpl in *. assert (n = 0%N) as -> by lia. done.
  - rewrite Nat2N.inj_succ, N.pow_succ_r' in Hn.
    destruct (IH (n / 256)%N) as (rest & Hrest & Hlen & Hval).
    { apply N.Div0.div_lt_upper_bound. lia. }
    destruct (Byte.of_N (n mod 256)) as [x|] eqn:Hx.
    + exists (x :: rest). cbn [to_bytes_little]. rewrite Hx, Hrest.
      split; [done|]. split; [simpl; lia|].
      apply Byte.to_of_N in Hx. cbn [from_bytes_little]. rewrite Hval, Hx.
      rewrite N.add_comm. symmetry. apply N.div_mod. lia.
    + apply Byte.of_N_None_iff in Hx.
      pose proof (N.mod_lt n 256 ltac:(lia)). lia.
Qed.

Lemma to_bytes_little_overflow size : forall n,
  (256 ^ N.of_nat size <= n)%N ->
  to_bytes_little size n = Raised "int too big to convert".
Proof.
  induction size as [|size IH]; intros n Hn.
  - simpl in *. destruct (N.eqb_spec n 0); [lia|done].
  - rewrite Nat2N.inj_succ, N.pow_succ_r' in Hn.
    cbn [to_bytes_little]. rewrite IH.
    + by destruct (Byte.of_N (n mod 256)).
    + apply N.div_le_lower_bound; lia.
Qed.

Lemma wav_header_returns n :
  (n + 36 < 2 ^ 32)%N ->
  exists fs ds,
    to_bytes_little 4 (36 + n) = Returned fs /\ length fs = 4%nat
    /\ from_bytes_little fs = (36 + n)%N
    /\ to_bytes_little 4 n = Returned ds /\ length ds = 4%nat
    /\ from_bytes_little ds = n
    /\ wav_header n =
       Returned (ascii_bytes "RIFF" ++ fs ++ ascii_bytes "WAVE" ++ ascii_bytes "fmt "
                 ++ [Byte.x10; Byte.x00; Byte.x00; Byte.x00]
                 ++ [Byte.x01; Byte.x00] ++ [Byte.x01; Byte.x00]
                 ++ [Byte.x80; Byte.x3e; Byte.x00; Byte.x00]
                 ++ [Byte.x00; Byte.x7d; Byte.x00; Byte.x00]
                 ++ [Byte.x02; Byte.x00] ++ [Byte.x10; Byte.x00]
                 ++ ascii_bytes "data" ++ ds).
Proof.
  intros Hn.
  destruct (to_bytes_little_ok 4 (36 + n)) as (fs & Hfs & Hlfs & Hvfs);
    [change (256 ^ N.of_nat 4)%N with (2 ^ 32)%N; lia|].
  destruct (to_bytes_little_ok 4 n) as (ds & Hds & Hlds & Hvds);
    [change (256 ^ N.of_nat 4)%N with (2 ^ 32)%N; lia|].
  exists fs, ds. repeat (split; [done|]).
  unfold wav_header. rewrite Hfs, Hds. reflexivity.
Qed.

Lemma wav_header_length n h : wav_header n = Returned h -> length h = 44%nat /\ take 4 h = RIFF.
Proof.
  intros Hh.
  destruct (N.lt_ge_cases (n + 36) (2 ^ 32)) as [Hn|Hn].
  - destruct (wav_header_returns n Hn) as (fs & ds & _ & Hlfs & _ & _ & Hlds & _ & Heq).
    rewrite Heq in Hh. injection Hh as <-.
    split.
    + cbn [length]. rewrite length_app. cbn [length]. rewrite Hlfs, Hlds.
      reflexivity.
    + reflexivity.
  - unfold wav_header in Hh.
    rewrite (to_bytes_little_overflow 4 (36 + n)) in Hh
      by (change (256 ^ N.of_nat 4)%N with (2 ^ 32)%N; lia).
    discriminate.
Qed.

Lemma length_4_inv {A} (l : list A) :
  length l = 4%nat -> exists a b c d, l = [a; b; c; d].
Proof.
  destruct l as [|a [|b [|c [|d [|e l]]]]]; try discriminate. intros _. by exists a, b, c, d.
Qed.

Lemma wav_header_overflow n :
  (2 ^ 32 <= n + 36)%N -> wav_header n = Raised "int too big to convert".
Proof.
  intros Hn. unfold wav_header.
  rewrite (to_bytes_little_overflow 4 (36 + n))
    by (change (256 ^ N.of_nat 4)%N with (2 ^ 32)%N; lia).
  reflexivity.
Qed.

(** X1 (wav_header): the header [transcribe_audio] writes in front of [n]
    bytes of PCM data has 44 bytes whenever [n + 36] fits in four bytes:
    the tag RIFF, the file size [n + 36], the tags WAVE and fmt, a format
    chunk of 16 bytes for PCM, one channel, 16000 samples a second, 32000
    bytes a second, 2 bytes a block, 16 bits a sample, the tag data and the
    data size [n], every number little-endian.  When [n + 36] does not fit,
    building the header raises OverflowError. *)
Theorem wav_header_layout n :
  ((n + 36 < 2 ^ 32)%N ->
   exists h,
     wav_header n = Returned h
     /\ length h = 44%nat
     /\ slice 0 4 h = ascii_bytes "RIFF"
     /\ from_bytes_little (slice 4 8 h) = (n + 36)%N
     /\ slice 8 16 h = ascii_bytes "WAVEfmt "
     /\ from_bytes_little (slice 16 20 h) = 16%N
     /\ from_bytes_little (slice 20 22 h) = 1%N
     /\ from_bytes_little (slice 22 24 h) = 1%N
     /\ from_bytes_little (slice 24 28 h) = 16000%N
     /\ from_bytes_little (slice 28 32 h) = 32000%N
     /\ from_bytes_little (slice 32 34 h) = 2%N
     /\ from_bytes_little (slice 34 36 h) = 16%N
     /\ slice 36 40 h = ascii_bytes "data"
     /\ from_bytes_little (slice 40 44 h) = n)
  /\ ((2 ^ 32 <= n + 36)%N -> wav_header n = Raised "int too big to convert").
Proof.
  split.
  - intros Hn.
    destruct (wav_header_returns n Hn)
      as (fs & ds & _ & Hlfs & Hvfs & _ & Hlds & Hvds & Heq).
    eexists. split; [exact Heq|].
    apply length_4_inv in Hlfs as (f0 & f1 & f2 & f3 & ->).
    apply length_4_inv in Hlds as (d0 & d1 & d2 & d3 & ->).
    split; [reflexivity|]. split; [reflexivity|].
    split; [change (from_bytes_little [f0; f1; f2; f3] = (n + 36)%N); lia|].
    split; [reflexivity|]. do 7 (split; [reflexivity|]).
    split; [reflexivity|]. exact Hvds.
  - apply wav_header_overflow.
Qed.

Example wav_header_of_4_bytes :
  wav_header 4 =
  Returned (ascii_bytes "RIFF" ++ [Byte.x28; Byte.x00; Byte.x00; Byte.x00]
            ++ ascii_bytes "WAVEfmt "
            ++ [Byte.x10; Byte.x00; Byte.x00; Byte.x00; Byte.x01; Byte.x00; Byte.x01; Byte.x00;
                Byte.x80; Byte.x3e; Byte.x00; Byte.x00; Byte.x00; Byte.x7d; Byte.x00; Byte.x00;
                Byte.x02; Byte.x00; Byte.x10; Byte.x00]
            ++ ascii_bytes "data" ++ [Byte.x04; Byte.x00; Byte.x00; Byte.x00]).
Proof. reflexivity. Qed.

Lemma bytes_eqb_true a b : a = b -> bytes_eqb a b = true.
Proof. intros ->. unfold bytes_eqb. by apply bool_decide_eq_true. Qed.

Lemma map_to_N_inj (a : bytes) : forall b, map Byte.to_N a = map Byte.to_N b -> a = b.
Proof.
  induction a as [|x a IH]; intros [|y b] Heq; try discriminate; [done|].
  injection Heq as Hxy Hab. f_equal; [|by apply IH].
  pose proof (Byte.of_to_N x) as Hx. rewrite Hxy, Byte.of_to_N in Hx. congruence.
Qed.

Lemma bytes_eqb_false a b : a <> b -> bytes_eqb a b = false.
Proof.
  intros Hne. unfold bytes_eqb. apply bool_decide_eq_false. intros Heq.
  by apply Hne, map_to_N_inj.
Qed.

Lemma ltb_2_small n : (n <= 1)%nat -> (n <? 2)%nat = true.
Proof. intros. apply Nat.ltb_lt. lia. Qed.

(** X2 (_is_silent): a buffer of fewer than two bytes, and a buffer that
    starts with the tag RIFF and has at most one byte after the 44 bytes of
    a WAV header, is silent whatever the threshold: there is no sample to
    measure. *)
Theorem is_silent_without_samples
    (float_sum : list float -> float) (float_pow_half : float -> float)
    audio_bytes threshold :
  (length audio_bytes < 2)%nat
  \/ (riff_tagged audio_bytes /\ (length audio_bytes < 46)%nat) ->
  _is_silent float_sum float_pow_half audio_bytes threshold = true.
Proof.
  intros [Hshort|[[Hlen Htag] Hhdr]]; unfold _is_silent.
  - by destruct (Nat.ltb_spec (length audio_bytes) 2); [|lia].
  - destruct (Nat.ltb_spec (length audio_bytes) 2); [done|].
    destruct (Nat.ltb_spec 4 (length audio_bytes)); [|lia].
    rewrite (bytes_eqb_true _ _ Htag). cbn [andb].
    destruct (Nat.ltb_spec (length audio_bytes) 44); [done|]. cbn [andb].
    assert (Hd : (length (drop 44 audio_bytes) <= 1)%nat) by (rewrite length_drop; lia).
    destruct (negb (Nat.even (length (drop 44 audio_bytes)))) eqn:Hodd.
    + by rewrite ltb_2_small by (rewrite length_take; lia).
    + by rewrite ltb_2_small.
Qed.

Lemma is_silent_without_samples_witness :
  _is_silent plain_float_sum PrimFloat.sqrt
    (ascii_bytes "RIFF" ++ replicate 41 Byte.xff) SILENCE_THRESHOLD = true.
Proof.
  apply is_silent_without_samples. right. split; [split|].
  - vm_compute. lia.
  - reflexivity.
  - vm_compute. lia.
Defined.

Lemma is_silent_raw fs fp audio_bytes threshold :
  ~ riff_tagged audio_bytes ->
  _is_silent fs fp audio_bytes threshold =
  if (length audio_bytes <? 2)%nat then true
  else
    let audio_bytes :=
      if negb (Nat.even (length audio_bytes))
      then take (length audio_bytes - 1) audio_bytes else audio_bytes in
    if (length audio_bytes <? 2)%nat then true
    else
      let samples := unpack_int16_le audio_bytes in
      if (length samples =? 0)%nat then true
      else
        let normalized_samples :=
          map (fun sample => PrimFloat.abs (float_of_int sample / 32768)%float) samples in
        PrimFloat.ltb
          (fp (fs (map (fun s => (s * s)%float) normalized_samples)
               / float_of_int (Z.of_nat (length normalized_samples)))%float)
          threshold.
Proof.
  intros Hraw. unfold _is_silent.
  assert (Hw : (4 <? length audio_bytes)%nat && bytes_eqb (take 4 audio_bytes) RIFF = false).
  { destruct (Nat.ltb_spec 4 (length audio_bytes)); [|done]. cbn [andb].
    apply bytes_eqb_false. intros Htag. by apply Hraw. }
  rewrite Hw. reflexivity.
Qed.

Lemma is_silent_wav fs fp h audio_bytes threshold :
  length h = 44%nat -> take 4 h = RIFF ->
  _is_silent fs fp (h ++ audio_bytes) threshold =
  let audio_bytes :=
    if negb (Nat.even (length audio_bytes))
    then take (length audio_bytes - 1) audio_bytes else audio_bytes in
  if (length audio_bytes <? 2)%nat then true
  else
    let samples := unpack_int16_le audio_bytes in
    if (length samples =? 0)%nat then true
    else
      let normalized_samples :=
        map (fun sample => PrimFloat.abs (float_of_int sample / 32768)%float) samples in
      PrimFloat.ltb
        (fp (fs (map (fun s => (s * s)%float) normalized_samples)
             / float_of_int (Z.of_nat (length normalized_samples)))%float)
        threshold.
Proof.
  intros Hlen Htag. unfold _is_silent.
  assert (Hl : length (h ++ audio_bytes) = (44 + length audio_bytes)%nat)
    by (rewrite length_app; lia).
  rewrite Hl.
  assert (Ht : take 4 (h ++ audio_bytes) = RIFF) by (rewrite take_app_le by lia; done).
  rewrite Ht, (bytes_eqb_true RIFF RIFF eq_refl).
  replace (44 + length audio_bytes <? 2)%nat with false by (symmetry; apply Nat.ltb_ge; lia).
  replace (4 <? 44 + length audio_bytes)%nat with true by (symmetry; apply Nat.ltb_lt; lia).
  replace (44 + length audio_bytes <? 44)%nat with false by (symmetry; apply Nat.ltb_ge; lia).
  cbn [andb].
  replace (drop 44 (h ++ audio_bytes)) with audio_bytes
    by (rewrite <- Hlen, drop_app_length; done).
  reflexivity.
Qed.

(** X3 (_is_silent, transcribe_audio): the silence check sees through the
    header that [transcribe_audio] writes: for a recording that is not
    itself tagged RIFF, the WAV file built from it is silent exactly when
    the raw recording is. *)
Theorem is_silent_sees_through_own_header
    (float_sum : list float -> float) (float_pow_half : float -> float)
    audio_bytes h threshold :
  wav_header (N.of_nat (length audio_bytes)) = Returned h ->
  ~ riff_tagged audio_bytes ->
  _is_silent float_sum float_pow_half (h ++ audio_bytes) threshold
  = _is_silent float_sum float_pow_half audio_bytes threshold.
Proof.
  intros Hh Hraw. apply wav_header_length in Hh as [Hlen Htag].
  rewrite (is_silent_wav _ _ _ _ _ Hlen Htag), (is_silent_raw _ _ _ _ Hraw).
  cbv zeta.
  destruct (Nat.ltb_spec (length audio_bytes) 2) as [Hs|Hs]; [|done].
  destruct (negb (Nat.even (length audio_bytes))).
  - by rewrite ltb_2_small by (rewrite length_take; lia).
  - by rewrite ltb_2_small by lia.
Qed.

Lemma is_silent_sees_through_own_header_witness :
  _is_silent plain_float_sum PrimFloat.sqrt
    (ascii_bytes "RIFF" ++ [Byte.x28; Byte.x00; Byte.x00; Byte.x00]
     ++ ascii_bytes "WAVEfmt "
     ++ [Byte.x10; Byte.x00; Byte.x00; Byte.x00; Byte.x01; Byte.x00; Byte.x01; Byte.x00;
         Byte.x80; Byte.x3e; Byte.x00; Byte.x00; Byte.x00; Byte.x7d; Byte.x00; Byte.x00;
         Byte.x02; Byte.x00; Byte.x10; Byte.x00]
     ++ ascii_bytes "data" ++ [Byte.x04; Byte.x00; Byte.x00; Byte.x00]
     ++ loud_audio) SILENCE_THRESHOLD
  = _is_silent plain_float_sum PrimFloat.sqrt loud_audio SILENCE_THRESHOLD.
Proof.
  apply (is_silent_sees_through_own_header plain_float_sum PrimFloat.sqrt loud_audio
           (ascii_bytes "RIFF" ++ [Byte.x28; Byte.x00; Byte.x00; Byte.x00]
            ++ ascii_bytes "WAVEfmt "
            ++ [Byte.x10; Byte.x00; Byte.x00; Byte.x00; Byte.x01; Byte.x00; Byte.x01; Byte.x00;
                Byte.x80; Byte.x3e; Byte.x00; Byte.x00; Byte.x00; Byte.x7d; Byte.x00; Byte.x00;
                Byte.x02; Byte.x00; Byte.x10; Byte.x00]
            ++ ascii_bytes "data" ++ [Byte.x04; Byte.x00; Byte.x00; Byte.x00])).
  - reflexivity.
  - intros [Hlen _]. vm_compute in Hlen. lia.
Defined.

Lemma run_transcribe_loud fs fp env audio_bytes h w :
  _is_silent fs fp audio_bytes SILENCE_THRESHOLD = false ->
  wav_header (N.of_nat (length audio_bytes)) = Returned h ->
  run env (transcribe_audio fs fp audio_bytes) w
  = (whisper_create env (length (trace w)) (h ++ audio_bytes),
     log (EvTranscribe (h ++ audio_bytes)
            (whisper_create env (length (trace w)) (h ++ audio_bytes))) 0 w).
Proof.
  intros Hloud Heq. unfold transcribe_audio. rewrite Hloud, Heq, run_try_except.
  cbn [of_outcome]. rewrite run_ret_bind. cbn [run].
  by destruct (whisper_create env _ _).
Qed.

(** X4 (transcribe_audio): for a recording that is not silent, there is
    exactly one request to Whisper; the file it carries is the 44-byte
    header followed by the recording as uploaded; what Whisper answers is
    what [transcribe_audio] returns, and an error of Whisper is raised
    again.  The handler is not touched. *)
Theorem transcribe_audio_sends_wav_file
    (float_sum : list float -> float) (float_pow_half : float -> float)
    env audio_bytes w :
  _is_silent float_sum float_pow_half audio_bytes SILENCE_THRESHOLD = false ->
  (N.of_nat (length audio_bytes) + 36 < 2 ^ 32)%N ->
  exists h,
    wav_header (N.of_nat (length audio_bytes)) = Returned h
    /\ length h = 44%nat
    /\ let answer := whisper_create env (length (trace w)) (h ++ audio_bytes) in
       run env (transcribe_audio float_sum float_pow_half audio_bytes) w
       = (answer, log (EvTranscribe (h ++ audio_bytes) answer) 0 w).
Proof.
  intros Hloud Hn.
  destruct (wav_header_returns _ Hn) as (fs & ds & _ & _ & _ & _ & _ & _ & Heq).
  eexists. split; [exact Heq|].
  split; [by apply wav_header_length in Heq as [? _]|].
  cbv zeta. by apply run_transcribe_loud.
Qed.

Lemma transcribe_audio_sends_wav_file_witness :
  exists h,
    wav_header (N.of_nat (length loud_audio)) = Returned h
    /\ length h = 44%nat
    /\ let answer := whisper_create friendly_env (length (trace started_world))
                       (h ++ loud_audio) in
       run friendly_env (transcribe_audio plain_float_sum PrimFloat.sqrt loud_audio)
         started_world
       = (answer, log (EvTranscribe (h ++ loud_audio) answer) 0 started_world).
Proof.
  apply (transcribe_audio_sends_wav_file plain_float_sum PrimFloat.sqrt
           friendly_env loud_audio started_world).
  - vm_compute. reflexivity.
  - vm_compute. reflexivity.
Defined.

(** A recording of 2^32 - 36 bytes or more cannot be described by the
    header: [transcribe_audio] raises before Whisper is called. *)
Lemma transcribe_audio_oversized fs fp env audio_bytes w :
  _is_silent fs fp audio_bytes SILENCE_THRESHOLD = false ->
  (2 ^ 32 <= N.of_nat (length audio_bytes) + 36)%N ->
  run env (transcribe_audio fs fp audio_bytes) w = (Raised "int too big to convert", w).
Proof.
  intros Hloud Hn. unfold transcribe_audio.
  rewrite Hloud, (wav_header_overflow _ Hn). reflexivity.
Qed.
(** ** services/llm_service.py and main.py: the background evaluation *)

Lemma strip_is_empty_nonempty transcript :
  strip_is_empty transcript = false ->
  bool_decide (transcript = "") || strip_is_empty transcript = false.
Proof.
  intros H. rewrite H, orb_false_r. apply bool_decide_eq_false.
  intros ->. discriminate.
Qed.

Lemma strip_is_empty_blank transcript :
  strip_is_empty transcript = true ->
  bool_decide (transcript = "") || strip_is_empty transcript = true.
Proof. intros ->. apply orb_true_r. Qed.

Lemma run_evaluate_blank rt env words transcript w :
  strip_is_empty transcript = true ->
  run env (evaluate_working_memory_response rt words transcript) w
  = (Returned no_response_evaluation, w).
Proof.
  intros H. unfold evaluate_working_memory_response.
  by rewrite (strip_is_empty_blank _ H).
Qed.

(** Grading a transcript that is not blank: one request, and whatever
    comes of it, an evaluation. *)
Lemma run_evaluate_nonblank rt env words transcript w :
  strip_is_empty transcript = false ->
  run env (evaluate_working_memory_response rt words transcript) w
  = (Returned (graded rt (chat_create env (length (trace w)) words transcript)),
     log (EvGrade words transcript (chat_create env (length (trace w)) words transcript)) 0 w).
Proof.
  intros H. unfold evaluate_working_memory_response, graded.
  rewrite (strip_is_empty_nonempty _ H), run_try_except. cbn [mbind Prog_bind bind run].
  destruct (chat_create env (length (trace w)) words transcript) as [result|e];
    cbn [of_outcome bind run and_then]; [|done].
  by destruct (read_working_memory_reply rt result).
Qed.

Lemma run_evaluate_failed rt env words transcript e w :
  strip_is_empty transcript = false ->
  chat_create env (length (trace w)) words transcript = Raised e ->
  run env (evaluate_working_memory_response rt words transcript) w
  = (Returned (error_evaluation e), log (EvGrade words transcript (Raised e)) 0 w).
Proof. intros H Hr. by rewrite (run_evaluate_nonblank _ _ _ _ _ H), Hr. Qed.

(** What an evaluation read from a reply holds: the reply is an object,
    the two numbers are what [float] makes of the values under their keys,
    and the three other fields are the values under their keys as they
    are, or the defaults. *)
Lemma read_working_memory_reply_inv rt result evaluation :
  read_working_memory_reply rt result = Returned evaluation ->
  exists members,
    result = JObject members
    /\ correct_words evaluation
       = get_default (lookup_member "correct_words" members) (JArray [])
    /\ py_float rt (get_default (lookup_member "score" members) (JFloat 0.0))
       = Returned (score evaluation)
    /\ is_correct evaluation
       = get_default (lookup_member "is_correct" members) (JBool false)
    /\ py_float rt (get_default (lookup_member "confidence" members) (JFloat 0.0))
       = Returned (confidence evaluation)
    /\ notes evaluation = get_default (lookup_member "notes" members) (JString "").
Proof.
  unfold read_working_memory_reply.
  destruct result as [| | | | | |members]; try discriminate.
  cbn [py_get and_then].
  destruct (py_float rt (get_default (lookup_member "score" members) (JFloat 0.0)))
    as [sc|e] eqn:Hsc; [|discriminate]. cbn [and_then].
  destruct (py_float rt (get_default (lookup_member "confidence" members) (JFloat 0.0)))
    as [conf|e] eqn:Hconf; [|discriminate]. cbn [and_then].
  intros [= <-]. by exists members.
Qed.

Lemma read_working_memory_reply_typed rt members cw sc ok conf nt :
  get_default (lookup_member "correct_words" members) (JArray []) = JArray (map JString cw) ->
  get_default (lookup_member "score" members) (JFloat 0.0) = JFloat sc ->
  get_default (lookup_member "is_correct" members) (JBool false) = JBool ok ->
  get_default (lookup_member "confidence" members) (JFloat 0.0) = JFloat conf ->
  get_default (lookup_member "notes" members) (JString "") = JString nt ->
  read_working_memory_reply rt (JObject members)
  = Returned {| correct_words := JArray (map JString cw); score := sc;
                is_correct := JBool ok; confidence := conf; notes := JString nt |}.
Proof.
  intros H1 H2 H3 H4 H5. unfold read_working_memory_reply. cbn [py_get and_then].
  by rewrite H1, H2, H3, H4, H5.
Qed.

(** X5 (evaluate_working_memory_response): grading never raises and never
    touches the handler.  The grader is called once when the transcript has
    something other than white space in it, and not at all otherwise; and
    the verdict is False unless the grader replied with an object that
    holds another value under "is_correct", which is then the verdict as
    it is: a failed request, a reply without the key, and a blank
    transcript all give [is_correct = False]. *)
Theorem grading_never_raises_nor_guesses rt env words transcript w :
  let reply := chat_create env (length (trace w)) words transcript in
  exists evaluation,
    run env (evaluate_working_memory_response rt words transcript) w
    = (Returned evaluation,
       {| handler := handler w;
          trace := trace w ++ (if strip_is_empty transcript then []
                               else [EvGrade words transcript reply]);
          clock := clock w |})
    /\ (is_correct evaluation <> JBool false ->
        strip_is_empty transcript = false
        /\ exists members,
             reply = Returned (JObject members)
             /\ lookup_member "is_correct" members = Some (is_correct evaluation))
    /\ (forall e, strip_is_empty transcript = false -> reply = Raised e ->
          is_correct evaluation = JBool false
          /\ confidence evaluation = 0.0%float
          /\ notes evaluation = JString ("Evaluation error: " +:+ e)).
Proof.
  intros reply. destruct (strip_is_empty transcript) eqn:Hb.
  - exists no_response_evaluation. rewrite (run_evaluate_blank _ _ _ _ _ Hb).
    split; [destruct w; by rewrite app_nil_r|]. split; [done|]. discriminate.
  - exists (graded rt reply). rewrite (run_evaluate_nonblank _ _ _ _ _ Hb). fold reply.
    split; [unfold log; by rewrite N.add_0_r|]. unfold graded. split.
    + intros Hc. split; [done|].
      destruct reply as [result|e]; cbn [and_then] in *; [|done].
      destruct (read_working_memory_reply rt result) as [evaluation|e] eqn:Hread; [|done].
      apply read_working_memory_reply_inv in Hread as (members & -> & _ & _ & Hok & _).
      exists members. split; [done|]. rewrite Hok in *.
      by destruct (lookup_member "is_correct" members).
    + intros e _ ->. done.
Qed.

(** The pipeline up to the transcript, gate open. *)
Lemma run_evaluate_background_open fs fp rt env audio_bytes trial w :
  trial = 1 \/ trial = 2 ->
  trial ∉ evaluated_trials (handler w) ->
  run env (_evaluate_working_memory_audio_background fs fp rt audio_bytes trial) w
  = run env
      (try_except
         (transcript ← transcribe_audio fs fp audio_bytes;
          all_words ← read_self trial_words;
          if (0 <? trial) && (trial <=? Z.of_nat (length all_words)) then
            words ← of_outcome (py_index all_words (trial - 1));
            evaluated ← read_self evaluated_trials;
            if negb (bool_decide (trial ∈ evaluated)) then
              evaluation ← evaluate_working_memory_response rt words transcript;
              add_evaluation_result rt trial words transcript
                (correct_words evaluation) (score evaluation)
                (is_correct evaluation) (confidence evaluation) (notes evaluation)
            else Ret tt
          else Ret tt)
         (fun _ => Ret tt)) w.
Proof.
  intros Ht Hg. unfold _evaluate_working_memory_audio_background.
  rewrite !run_try_except, (in_1_2 trial Ht). simpl negb. cbv iota.
  by rewrite run_read, (bool_decide_eq_false_2 _ Hg).
Qed.

Lemma words_at_hand (all_words : list (list string)) trial words :
  trial = 1 \/ trial = 2 ->
  py_index all_words (trial - 1) = Returned words ->
  (0 <? trial) && (trial <=? Z.of_nat (length all_words)) = true.
Proof.
  intros Ht Hi. apply andb_true_iff. split; [apply Z.ltb_lt; lia|].
  apply Z.leb_le. apply py_index_nonneg_lt in Hi; lia.
Qed.

(** The pipeline from a transcript on, up to the gate: [ev] is the
    evaluation that grading gives, in the world [w1]. *)
Lemma run_evaluate_background_graded fs fp rt env audio_bytes trial words h transcript ev w w1 :
  trial = 1 \/ trial = 2 ->
  trial ∉ evaluated_trials (handler w) ->
  py_index (trial_words (handler w)) (trial - 1) = Returned words ->
  _is_silent fs fp audio_bytes SILENCE_THRESHOLD = false ->
  wav_header (N.of_nat (length audio_bytes)) = Returned h ->
  whisper_create env (length (trace w)) (h ++ audio_bytes) = Returned transcript ->
  run env (evaluate_working_memory_response rt words transcript)
    (log (EvTranscribe (h ++ audio_bytes) (Returned transcript)) 0 w) = (Returned ev, w1) ->
  handler w1 = handler w ->
  run env (_evaluate_working_memory_audio_background fs fp rt audio_bytes trial) w
  = run env
      (try_except
         (add_evaluation_result rt trial words transcript
            (correct_words ev) (score ev) (is_correct ev) (confidence ev) (notes ev))
         (fun _ => Ret tt)) w1.
Proof.
  intros Ht Hg Hi Hloud Hh Hw Hev Hh1.
  rewrite (run_evaluate_background_open _ _ _ _ _ _ _ Ht Hg).
  rewrite !run_try_except, run_bind, (run_transcribe_loud _ _ _ _ _ _ Hloud Hh), Hw.
  rewrite run_read. cbn [handler log].
  rewrite (words_at_hand _ _ _ Ht Hi), Hi, run_returned, run_read. cbn [handler log].
  rewrite (bool_decide_eq_false_2 _ Hg). simpl negb. cbv iota.
  by rewrite run_bind, Hev.
Qed.

(** What is stored and sent is the result built from the evaluation, when
    pydantic accepts it. *)
Lemma run_evaluate_background_transcribed
    fs fp rt env audio_bytes trial words h transcript ev result w w1 :
  trial = 1 \/ trial = 2 ->
  trial ∉ evaluated_trials (handler w) ->
  py_index (trial_words (handler w)) (trial - 1) = Returned words ->
  _is_silent fs fp audio_bytes SILENCE_THRESHOLD = false ->
  wav_header (N.of_nat (length audio_bytes)) = Returned h ->
  whisper_create env (length (trace w)) (h ++ audio_bytes) = Returned transcript ->
  run env (evaluate_working_memory_response rt words transcript)
    (log (EvTranscribe (h ++ audio_bytes) (Returned transcript)) 0 w) = (Returned ev, w1) ->
  handler w1 = handler w ->
  new_working_memory_result rt trial words transcript
    (correct_words ev) (score ev) (is_correct ev) (confidence ev) (notes ev)
  = Returned result ->
  run env (_evaluate_working_memory_audio_background fs fp rt audio_bytes trial) w
  = (Returned tt,
     sent env (evaluation_result result)
       (with_handler
          (set_evaluation_results (evaluation_results (handler w) ++ [result])
             (set_evaluated_trials (evaluated_trials (handler w) ∪ {[trial]}) (handler w)))
          w1)).
Proof.
  intros Ht Hg Hi Hloud Hh Hw Hev Hh1 Hres.
  rewrite (run_evaluate_background_graded _ _ _ _ _ _ _ _ _ _ _ _
             Ht Hg Hi Hloud Hh Hw Hev Hh1).
  rewrite run_try_except.
  rewrite (run_add_evaluation_result_open _ _ _ _ _ _ _ _ _ _ result)
    by (by rewrite ?Hh1).
  by rewrite Hh1.
Qed.

(** When pydantic refuses the evaluation, the trial is marked and nothing
    else happens. *)
Lemma run_evaluate_background_refused
    fs fp rt env audio_bytes trial words h transcript ev e w w1 :
  trial = 1 \/ trial = 2 ->
  trial ∉ evaluated_trials (handler w) ->
  py_index (trial_words (handler w)) (trial - 1) = Returned words ->
  _is_silent fs fp audio_bytes SILENCE_THRESHOLD = false ->
  wav_header (N.of_nat (length audio_bytes)) = Returned h ->
  whisper_create env (length (trace w)) (h ++ audio_bytes) = Returned transcript ->
  run env (evaluate_working_memory_response rt words transcript)
    (log (EvTranscribe (h ++ audio_bytes) (Returned transcript)) 0 w) = (Returned ev, w1) ->
  handler w1 = handler w ->
  new_working_memory_result rt trial words transcript
    (correct_words ev) (score ev) (is_correct ev) (confidence ev) (notes ev)
  = Raised e ->
  run env (_evaluate_working_memory_audio_background fs fp rt audio_bytes trial) w
  = (Returned tt,
     with_handler
       (set_evaluated_trials (evaluated_trials (handler w) ∪ {[trial]}) (handler w)) w1).
Proof.
  intros Ht Hg Hi Hloud Hh Hw Hev Hh1 Hres.
  rewrite (run_evaluate_background_graded _ _ _ _ _ _ _ _ _ _ _ _
             Ht Hg Hi Hloud Hh Hw Hev Hh1).
  rewrite run_try_except.
  rewrite (run_add_evaluation_result_refused _ _ _ _ _ _ _ _ _ _ e)
    by (by rewrite ?Hh1).
  by rewrite Hh1.
Qed.

Lemma run_evaluate_background_shut fs fp rt env audio_bytes trial w :
  trial ∈ evaluated_trials (handler w) ->
  run env (_evaluate_working_memory_audio_background fs fp rt audio_bytes trial) w
  = (Returned tt, w).
Proof.
  intros Hg. unfold _evaluate_working_memory_audio_background.
  rewrite run_try_except.
  destruct (negb (bool_decide (trial ∈ [1; 2]))); [done|].
  by rewrite run_read, (bool_decide_eq_true_2 _ Hg).
Qed.

(** X6 (_evaluate_working_memory_audio_background, add_evaluation_result,
    evaluate_working_memory_response): a recording with speech in it, for
    a trial whose gate is open and whose words are at hand, that Whisper
    transcribes and the grader answers.  The evaluation marks the trial in
    the gate in every case.  When pydantic accepts the values of the
    evaluation, there are three events and no more (the transcription, the
    grading, the result put on the socket), and the result is appended to
    the store; when it refuses them, there are the first two events only,
    and nothing is stored or sent.  So: a reply whose values are of their
    types, or missing, gives the result that carries them, each with its
    default when the reply lacks the key; a reply whose notes or verdict
    are null gives no result at all, though the trial is marked; and a
    reply whose correct words are null gives a result without a list of
    correct words. *)
Theorem graded_recording_is_stored_and_sent
    (float_sum : list float -> float) (float_pow_half : float -> float)
    (rt : Runtime)
    env audio_bytes trial words h transcript reply w :
  trial = 1 \/ trial = 2 ->
  trial ∉ evaluated_trials (handler w) ->
  py_index (trial_words (handler w)) (trial - 1) = Returned words ->
  _is_silent float_sum float_pow_half audio_bytes SILENCE_THRESHOLD = false ->
  wav_header (N.of_nat (length audio_bytes)) = Returned h ->
  whisper_create env (length (trace w)) (h ++ audio_bytes) = Returned transcript ->
  strip_is_empty transcript = false ->
  chat_create env (length (trace w) + 1) words transcript = Returned reply ->
  let evaluation := graded rt (Returned reply) in
  let heard :=
    [EvTranscribe (h ++ audio_bytes) (Returned transcript);
     EvGrade words transcript (Returned reply)] in
  let told result :=
    EvSend (evaluation_result result)
      (ws_send_text env (length (trace w) + 2) (evaluation_result result)) in
  exists w',
    run env (_evaluate_working_memory_audio_background
               float_sum float_pow_half rt audio_bytes trial) w = (Returned tt, w')
    /\ evaluated_trials (handler w') = evaluated_trials (handler w) ∪ {[trial]}
    /\ match new_working_memory_result rt trial words transcript
               (correct_words evaluation) (score evaluation) (is_correct evaluation)
               (confidence evaluation) (notes evaluation) with
       | Returned result =>
           trace w' = trace w ++ heard ++ [told result]
           /\ evaluation_results (handler w') = evaluation_results (handler w) ++ [result]
       | Raised _ =>
           trace w' = trace w ++ heard
           /\ evaluation_results (handler w') = evaluation_results (handler w)
       end
    /\ (forall members cw sc ok conf nt,
          reply = JObject members ->
          get_default (lookup_member "correct_words" members) (JArray [])
          = JArray (map JString cw) ->
          get_default (lookup_member "score" members) (JFloat 0.0) = JFloat sc ->
          get_default (lookup_member "is_correct" members) (JBool false) = JBool ok ->
          get_default (lookup_member "confidence" members) (JFloat 0.0) = JFloat conf ->
          get_default (lookup_member "notes" members) (JString "") = JString nt ->
          let result :=
            {| er_trial_number := trial;
               er_word1 := None; er_word2 := None; er_category := None;
               er_words := Some words;
               er_correct_words := Some cw;
               er_score := Some sc;
               er_transcript := transcript;
               er_is_correct := ok;
               er_confidence := conf;
               er_notes := nt |} in
          trace w' = trace w ++ heard ++ [told result]
          /\ evaluation_results (handler w') = evaluation_results (handler w) ++ [result])
    /\ (forall ev,
          read_working_memory_reply rt reply = Returned ev ->
          notes ev = JNull \/ is_correct ev = JNull ->
          trace w' = trace w ++ heard
          /\ evaluation_results (handler w') = evaluation_results (handler w))
    /\ (forall ev ok nt,
          read_working_memory_reply rt reply = Returned ev ->
          correct_words ev = JNull ->
          validate_bool rt (is_correct ev) = Some ok ->
          validate_str rt (notes ev) = Some nt ->
          let result :=
            {| er_trial_number := trial;
               er_word1 := None; er_word2 := None; er_category := None;
               er_words := Some words;
               er_correct_words := None;
               er_score := Some (score ev);
               er_transcript := transcript;
               er_is_correct := ok;
               er_confidence := confidence ev;
               er_notes := nt |} in
          trace w' = trace w ++ heard ++ [told result]
          /\ evaluation_results (handler w') = evaluation_results (handler w) ++ [result]).
Proof.
  intros Ht Hg Hi Hloud Hh Hw Hb Hr evaluation heard told.
  assert (Hev := run_evaluate_nonblank rt env words transcript
                   (log (EvTranscribe (h ++ audio_bytes) (Returned transcript)) 0 w) Hb).
  cbn [trace log] in Hev. rewrite length_app in Hev. cbn [length] in Hev.
  rewrite Hr in Hev. fold evaluation in Hev.
  set (built := new_working_memory_result rt trial words transcript
                  (correct_words evaluation) (score evaluation) (is_correct evaluation)
                  (confidence evaluation) (notes evaluation)).
  assert (Hmain : exists w',
    run env (_evaluate_working_memory_audio_background
               float_sum float_pow_half rt audio_bytes trial) w = (Returned tt, w')
    /\ evaluated_trials (handler w') = evaluated_trials (handler w) ∪ {[trial]}
    /\ match built with
       | Returned result =>
           trace w' = trace w ++ heard ++ [told result]
           /\ evaluation_results (handler w') = evaluation_results (handler w) ++ [result]
       | Raised _ =>
           trace w' = trace w ++ heard
           /\ evaluation_results (handler w') = evaluation_results (handler w)
       end).
  { destruct built as [result|e] eqn:Hbuilt.
    - eexists. split.
      + by apply (run_evaluate_background_transcribed _ _ _ _ _ _ _ _ _ _ _ _ _
                    Ht Hg Hi Hloud Hh Hw Hev eq_refl Hbuilt).
      + cbn [sent trace log with_handler handler evaluation_results evaluated_trials
               set_evaluation_results set_evaluated_trials].
        split; [done|]. split; [|done]. unfold told, heard.
        rewrite <- !app_assoc. cbn [app]. rewrite !length_app. cbn [length].
        replace (length (trace w) + 1 + 1)%nat with (length (trace w) + 2)%nat by lia.
        reflexivity.
    - eexists. split.
      + by apply (run_evaluate_background_refused _ _ _ _ _ _ _ _ _ _ _ _ _
                    Ht Hg Hi Hloud Hh Hw Hev eq_refl Hbuilt).
      + cbn [sent trace log with_handler handler evaluation_results evaluated_trials
               set_evaluation_results set_evaluated_trials].
        split; [done|]. split; [|done]. unfold heard. by rewrite <- !app_assoc. }
  destruct Hmain as (w' & Hrun & Hgate & Hbuilt). exists w'.
  split; [done|]. split; [done|]. split; [done|].
  unfold evaluation, graded in built. cbn [and_then] in built.
  split; [|split].
  - intros members cw sc ok conf nt -> H1 H2 H3 H4 H5 result.
    subst built.
    rewrite (read_working_memory_reply_typed rt members cw sc ok conf nt H1 H2 H3 H4 H5)
      in Hbuilt.
    cbn [correct_words score is_correct confidence notes] in Hbuilt.
    by rewrite new_working_memory_result_typed in Hbuilt.
  - intros ev Hread Hnull. subst built. rewrite Hread in Hbuilt.
    unfold new_working_memory_result in Hbuilt.
    destruct (validate_optional_str_list rt (correct_words ev)); [|done].
    destruct Hnull as [Hnull|Hnull]; rewrite Hnull in Hbuilt;
      cbn [validate_str validate_bool] in Hbuilt;
      [by destruct (validate_bool rt (is_correct ev))|done].
  - intros ev ok nt Hread Hcw Hok Hnt result. subst built. rewrite Hread in Hbuilt.
    unfold new_working_memory_result in Hbuilt.
    by rewrite Hcw, Hok, Hnt in Hbuilt.
Qed.

Lemma graded_recording_is_stored_and_sent_witness :
  exists w' w'',
    run friendly_env
      (_evaluate_working_memory_audio_background
         plain_float_sum PrimFloat.sqrt example_runtime loud_audio 1)
      started_world = (Returned tt, w')
    /\ map er_transcript (evaluation_results (handler w')) = ["chair book"]
    /\ map er_correct_words (evaluation_results (handler w')) = [Some ["chair"; "book"]]
    /\ evaluated_trials (handler w') = ∅ ∪ {[1]}
    /\ run null_notes_env
         (_evaluate_working_memory_audio_background
            plain_float_sum PrimFloat.sqrt example_runtime loud_audio 1)
         started_world = (Returned tt, w'')
    /\ evaluation_results (handler w'') = []
    /\ sent_results (trace w'') = []
    /\ evaluated_trials (handler w'') = ∅ ∪ {[1]}.
Proof.
  destruct (wav_header (N.of_nat (length loud_audio))) as [h|] eqn:Hh; [|discriminate Hh].
  destruct (graded_recording_is_stored_and_sent plain_float_sum PrimFloat.sqrt example_runtime
              friendly_env loud_audio 1 ["chair"; "book"; "hand"; "road"; "cloud"]
              h "chair book"
              (JObject
                 [ ("correct_words", JArray [JString "chair"; JString "book"]);
                   ("score", JFloat 0x1.999999999999ap-2%float);
                   ("is_correct", JBool false);
                   ("confidence", JFloat 0x1.ccccccccccccdp-1%float);
                   ("notes", JString "Only 2 out of 5 words were said") ])
              started_world)
    as (w' & Hrun & Hgate & _ & Htyped & _);
    [by left|apply not_elem_of_empty|reflexivity|vm_compute; reflexivity|exact Hh
    |reflexivity|reflexivity|reflexivity|].
  destruct (Htyped _ ["chair"; "book"] _ false _ "Only 2 out of 5 words were said"
              eq_refl eq_refl eq_refl eq_refl eq_refl eq_refl) as [_ Hres].
  destruct (graded_recording_is_stored_and_sent plain_float_sum PrimFloat.sqrt example_runtime
              null_notes_env loud_audio 1 ["chair"; "book"; "hand"; "road"; "cloud"]
              h "chair book" null_notes_reply started_world)
    as (w'' & Hrun' & Hgate' & _ & _ & Hnull & _);
    [by left|apply not_elem_of_empty|reflexivity|vm_compute; reflexivity|exact Hh
    |reflexivity|reflexivity|reflexivity|].
  destruct (Hnull _ eq_refl (or_introl eq_refl)) as [Htr' Hres'].
  exists w', w''. split; [exact Hrun|]. rewrite Hres.
  split; [reflexivity|]. split; [reflexivity|]. split; [exact Hgate|].
  split; [exact Hrun'|]. split; [exact Hres'|]. split; [by rewrite Htr'|exact Hgate'].
Defined.

(** X7 (_evaluate_working_memory_audio_background,
    evaluate_working_memory_response): when the request to the grader
    fails, the evaluation does not fail: a result marked incorrect, with
    score 0.0, confidence 0.0 and the error text in its notes, is stored and
    sent like any other, and the trial enters the gate.  The failure is
    therefore final: a later evaluation of the same trial, whatever the
    recording, changes nothing. *)
Theorem failed_grading_is_stored_and_final
    (float_sum : list float -> float) (float_pow_half : float -> float)
    (rt : Runtime)
    env audio_bytes trial words h transcript e w :
  trial = 1 \/ trial = 2 ->
  trial ∉ evaluated_trials (handler w) ->
  py_index (trial_words (handler w)) (trial - 1) = Returned words ->
  _is_silent float_sum float_pow_half audio_bytes SILENCE_THRESHOLD = false ->
  wav_header (N.of_nat (length audio_bytes)) = Returned h ->
  whisper_create env (length (trace w)) (h ++ audio_bytes) = Returned transcript ->
  strip_is_empty transcript = false ->
  chat_create env (length (trace w) + 1) words transcript = Raised e ->
  let result :=
    {| er_trial_number := trial;
       er_word1 := None; er_word2 := None; er_category := None;
       er_words := Some words;
       er_correct_words := Some [];
       er_score := Some 0.0%float;
       er_transcript := transcript;
       er_is_correct := false;
       er_confidence := 0.0%float;
       er_notes := "Evaluation error: " +:+ e |} in
  exists w',
    run env (_evaluate_working_memory_audio_background
               float_sum float_pow_half rt audio_bytes trial) w = (Returned tt, w')
    /\ evaluation_results (handler w') = evaluation_results (handler w) ++ [result]
    /\ sent_results (trace w') = sent_results (trace w) ++ [result]
    /\ forall env' audio_bytes',
         run env' (_evaluate_working_memory_audio_background
                     float_sum float_pow_half rt audio_bytes' trial) w' = (Returned tt, w').
Proof.
  intros Ht Hg Hi Hloud Hh Hw Hb Hr result.
  assert (Hev := run_evaluate_failed rt env words transcript e
                   (log (EvTranscribe (h ++ audio_bytes) (Returned transcript)) 0 w) Hb).
  cbn [trace log] in Hev. rewrite length_app in Hev. specialize (Hev Hr).
  eexists. split.
  - by apply (run_evaluate_background_transcribed _ _ _ _ _ _ _ _ _ _ result _ _
                Ht Hg Hi Hloud Hh Hw Hev).
  - cbn [sent trace log with_handler handler evaluation_results evaluated_trials
           set_evaluation_results set_evaluated_trials
           correct_words score is_correct confidence notes].
    split; [done|]. split.
    + rewrite !sent_results_app. cbn. by rewrite !app_nil_r.
    + intros env' audio_bytes'. apply run_evaluate_background_shut.
      cbn [sent trace log with_handler handler evaluated_trials
             set_evaluation_results set_evaluated_trials].
      apply elem_of_union. right. by apply elem_of_singleton.
Qed.

Lemma failed_grading_is_stored_and_final_witness :
  exists w',
    run failing_grader_env
      (_evaluate_working_memory_audio_background plain_float_sum PrimFloat.sqrt example_runtime loud_audio 1)
      started_world = (Returned tt, w')
    /\ map er_notes (evaluation_results (handler w')) = ["Evaluation error: Connection error."]
    /\ run friendly_env
         (_evaluate_working_memory_audio_background plain_float_sum PrimFloat.sqrt example_runtime loud_audio 1)
         w' = (Returned tt, w').
Proof.
  destruct (wav_header (N.of_nat (length loud_audio))) as [h|] eqn:Hh; [|discriminate Hh].
  destruct (failed_grading_is_stored_and_final plain_float_sum PrimFloat.sqrt example_runtime
              failing_grader_env loud_audio 1 ["chair"; "book"; "hand"; "road"; "cloud"]
              h "chair book" "Connection error." started_world)
    as (w' & Hrun & Hres & _ & Hfinal).
  - by left.
  - apply not_elem_of_empty.
  - reflexivity.
  - vm_compute. reflexivity.
  - exact Hh.
  - reflexivity.
  - reflexivity.
  - reflexivity.
  - exists w'. split; [exact Hrun|]. rewrite Hres. split; [reflexivity|]. apply Hfinal.
Defined.

(** X8 (_evaluate_working_memory_audio_background, transcribe_audio): when
    Whisper fails, the error goes no further than the evaluation: the
    coroutine returns normally, the grader is not called, nothing is stored
    or sent, and the gate stays open for the trial. *)
Theorem failed_transcription_leaves_gate_open
    (float_sum : list float -> float) (float_pow_half : float -> float)
    (rt : Runtime)
    env audio_bytes trial h e w :
  trial = 1 \/ trial = 2 ->
  trial ∉ evaluated_trials (handler w) ->
  _is_silent float_sum float_pow_half audio_bytes SILENCE_THRESHOLD = false ->
  wav_header (N.of_nat (length audio_bytes)) = Returned h ->
  whisper_create env (length (trace w)) (h ++ audio_bytes) = Raised e ->
  run env (_evaluate_working_memory_audio_background
             float_sum float_pow_half rt audio_bytes trial) w
  = (Returned tt,
     {| handler := handler w;
        trace := trace w ++ [EvTranscribe (h ++ audio_bytes) (Raised e)];
        clock := clock w |}).
Proof.
  intros Ht Hg Hloud Hh Hw.
  rewrite (run_evaluate_background_open _ _ _ _ _ _ _ Ht Hg).
  rewrite run_try_except, run_bind, (run_transcribe_loud _ _ _ _ _ _ Hloud Hh), Hw.
  cbn [run]. unfold log. by rewrite N.add_0_r.
Qed.

Lemma failed_transcription_leaves_gate_open_witness :
  exists h,
    run failing_transcriber_env
      (_evaluate_working_memory_audio_background plain_float_sum PrimFloat.sqrt example_runtime loud_audio 1)
      started_world
    = (Returned tt,
       {| handler := handler started_world;
          trace := trace started_world
                   ++ [EvTranscribe (h ++ loud_audio) (Raised "Connection error.")];
          clock := clock started_world |}).
Proof.
  destruct (wav_header (N.of_nat (length loud_audio))) as [h|] eqn:Hh; [|discriminate Hh].
  exists h.
  apply (failed_transcription_leaves_gate_open plain_float_sum PrimFloat.sqrt example_runtime
           failing_transcriber_env loud_audio 1 h "Connection error." started_world).
  - by left.
  - apply not_elem_of_empty.
  - vm_compute. reflexivity.
  - exact Hh.
  - reflexivity.
Defined.

(** X9 (_evaluate_working_memory_audio_background,
    evaluate_working_memory_response): when the recording is not silent but
    the transcript Whisper returns is blank (empty, or white space only),
    the grader is not called; the result stored and sent is the one for no
    response (incorrect, no correct word, score 0.0, confidence 1.0), with
    the transcript as Whisper gave it. *)
Theorem blank_transcript_is_no_response
    (float_sum : list float -> float) (float_pow_half : float -> float)
    (rt : Runtime)
    env audio_bytes trial words h transcript w :
  trial = 1 \/ trial = 2 ->
  trial ∉ evaluated_trials (handler w) ->
  py_index (trial_words (handler w)) (trial - 1) = Returned words ->
  _is_silent float_sum float_pow_half audio_bytes SILENCE_THRESHOLD = false ->
  wav_header (N.of_nat (length audio_bytes)) = Returned h ->
  whisper_create env (length (trace w)) (h ++ audio_bytes) = Returned transcript ->
  strip_is_empty transcript = true ->
  let result :=
    {| er_trial_number := trial;
       er_word1 := None; er_word2 := None; er_category := None;
       er_words := Some words;
       er_correct_words := Some [];
       er_score := Some 0.0%float;
       er_transcript := transcript;
       er_is_correct := false;
       er_confidence := 1.0%float;
       er_notes := "No response detected - user remained silent" |} in
  exists w',
    run env (_evaluate_working_memory_audio_background
               float_sum float_pow_half rt audio_bytes trial) w = (Returned tt, w')
    /\ trace w'
       = trace w ++ [EvTranscribe (h ++ audio_bytes) (Returned transcript);
                     EvSend (evaluation_result result)
                       (ws_send_text env (length (trace w) + 1) (evaluation_result result))]
    /\ evaluation_results (handler w') = evaluation_results (handler w) ++ [result].
Proof.
  intros Ht Hg Hi Hloud Hh Hw Hb result.
  assert (Hev := run_evaluate_blank rt env words transcript
                   (log (EvTranscribe (h ++ audio_bytes) (Returned transcript)) 0 w) Hb).
  eexists. split.
  - by apply (run_evaluate_background_transcribed _ _ _ _ _ _ _ _ _ _ result _ _
                Ht Hg Hi Hloud Hh Hw Hev).
  - cbn [sent trace log with_handler handler evaluation_results evaluated_trials
           set_evaluation_results set_evaluated_trials].
    split; [|done].
    rewrite <- !app_assoc. cbn [app]. by rewrite !length_app.
Qed.

Lemma blank_transcript_is_no_response_witness :
  exists w',
    run blank_transcript_env
      (_evaluate_working_memory_audio_background plain_float_sum PrimFloat.sqrt example_runtime loud_audio 2)
      started_world = (Returned tt, w')
    /\ map er_transcript (evaluation_results (handler w')) = [" "]
    /\ grading_calls (trace w') = 0%nat.
Proof.
  destruct (wav_header (N.of_nat (length loud_audio))) as [h|] eqn:Hh; [|discriminate Hh].
  destruct (blank_transcript_is_no_response plain_float_sum PrimFloat.sqrt example_runtime
              blank_transcript_env loud_audio 2 ["chair"; "book"; "hand"; "road"; "cloud"]
              h " " started_world)
    as (w' & Hrun & Htr & Hres).
  - by right.
  - apply not_elem_of_empty.
  - reflexivity.
  - vm_compute. reflexivity.
  - exact Hh.
  - reflexivity.
  - reflexivity.
  - exists w'. split; [exact Hrun|]. rewrite Hres, Htr. split; reflexivity.
Defined.

(** X10 (_evaluate_working_memory_audio_background): a recording for trial
    1 or 2 that arrives when the handler holds no words for that trial (the
    task was never started) is transcribed all the same, but nothing comes
    of it: the grader is not called, nothing is stored or sent, the gate is
    left as it was. *)
Theorem recording_without_words_is_dropped
    (float_sum : list float -> float) (float_pow_half : float -> float)
    (rt : Runtime)
    env audio_bytes trial w :
  trial = 1 \/ trial = 2 ->
  trial ∉ evaluated_trials (handler w) ->
  Z.of_nat (length (trial_words (handler w))) < trial ->
  exists new,
    run env (_evaluate_working_memory_audio_background
               float_sum float_pow_half rt audio_bytes trial) w
    = (Returned tt,
       {| handler := handler w; trace := trace w ++ new; clock := clock w |})
    /\ grading_calls new = 0%nat
    /\ steps new = []
    /\ (_is_silent float_sum float_pow_half audio_bytes SILENCE_THRESHOLD = false ->
        (N.of_nat (length audio_bytes) + 36 < 2 ^ 32)%N ->
        transcription_calls new = 1%nat).
Proof.
  intros Ht Hg Hlen.
  assert (Hno : (0 <? trial) && (trial <=? Z.of_nat (length (trial_words (handler w)))) = false).
  { apply andb_false_iff. right. apply Z.leb_gt. lia. }
  rewrite (run_evaluate_background_open _ _ _ _ _ _ _ Ht Hg).
  rewrite run_try_except, run_bind.
  destruct (_is_silent float_sum float_pow_half audio_bytes SILENCE_THRESHOLD) eqn:Hs.
  - rewrite (run_transcribe_silent _ _ _ _ _ Hs), run_read, Hno. cbn [run].
    exists []. split; [destruct w; by rewrite app_nil_r|]. done.
  - destruct (N.lt_ge_cases (N.of_nat (length audio_bytes) + 36) (2 ^ 32)) as [Hn|Hn].
    + destruct (wav_header_returns _ Hn) as (fs & ds & _ & _ & _ & _ & _ & _ & Hh).
      rewrite (run_transcribe_loud _ _ _ _ _ _ Hs Hh).
      destruct (whisper_create env _ _) as [transcript|e].
      * rewrite run_read. cbn [handler log]. rewrite Hno. cbn [run].
        eexists [EvTranscribe _ _].
        split; [unfold log; by rewrite N.add_0_r|]. done.
      * cbn [run]. eexists [EvTranscribe _ _].
        split; [unfold log; by rewrite N.add_0_r|]. done.
    + rewrite (transcribe_audio_oversized _ _ _ _ _ Hs Hn). cbn [run].
      exists []. split; [destruct w; by rewrite app_nil_r|].
      split; [done|]. split; [done|]. intros _ Hn'. lia.
Qed.

Lemma recording_without_words_is_dropped_witness :
  exists new,
    run friendly_env
      (_evaluate_working_memory_audio_background plain_float_sum PrimFloat.sqrt example_runtime loud_audio 1)
      init_world
    = (Returned tt,
       {| handler := handler init_world; trace := trace init_world ++ new;
          clock := clock init_world |})
    /\ grading_calls new = 0%nat
    /\ transcription_calls new = 1%nat.
Proof.
  destruct (recording_without_words_is_dropped plain_float_sum PrimFloat.sqrt example_runtime
              friendly_env loud_audio 1 init_world)
    as (new & Hrun & Hg & _ & Ht).
  - by left.
  - apply not_elem_of_empty.
  - vm_compute. reflexivity.
  - exists new. split; [exact Hrun|]. split; [exact Hg|].
    apply Ht; vm_compute; reflexivity.
Defined.
(** ** websocket/working_memory_handler.py: one playback *)

(** X11 (send_tts_audio): one playback never raises and ends with
    [waiting_for_audio_complete] cleared, at most 30 s later.  The
    synthesizer is called once.  If it fails, nothing is sent and nothing is
    waited for; if the send fails, nothing is waited for; otherwise the one
    message sent is the audio in base 64 with the trial number, followed by
    one wait with the 30 s deadline, and the event is left set exactly when
    the wait was ended by the signal. *)
Theorem send_tts_audio_outcomes env text trial w :
  let synth := elevenlabs_convert env (length (trace w)) text in
  exists (heard : bool) new d,
    run env (send_tts_audio text trial) w
    = (Returned tt,
       {| handler := set_waiting_for_audio_complete false
                       (set_audio_complete_event heard (handler w));
          trace := trace w ++ new;
          clock := (clock w + d)%N |})
    /\ (d <= AUDIO_COMPLETE_TIMEOUT)%N
    /\ match synth with
       | Raised e => new = [EvSynth text (Raised e)] /\ d = 0%N /\ heard = false
       | Returned a =>
           let m := tts_audio {| tts_audio_b64 := b64encode a; tts_trial_number := trial |} in
           match ws_send_text env (length (trace w) + 1) m with
           | Raised e =>
               new = [EvSynth text (Returned a); EvSend m (Raised e)]
               /\ d = 0%N /\ heard = false
           | Returned _ =>
               exists r,
                 new = [EvSynth text (Returned a); EvSend m (Returned tt);
                        EvWait AUDIO_COMPLETE_TIMEOUT r]
                 /\ d = wait_duration AUDIO_COMPLETE_TIMEOUT r
                 /\ heard = match r with Signalled _ => true | TimedOut => false end
           end
       end.
Proof.
  intros synth. subst synth.
  unfold send_tts_audio. rewrite run_try_except. simpl.
  destruct (elevenlabs_convert env (length (trace w)) text) as [a|e] eqn:Hs; simpl.
  - rewrite length_app. cbn [length].
    destruct (ws_send_text env _ _) as [[]|e] eqn:Hw; simpl.
    + unfold resolve_wait; simpl.
      destruct (client_ack_after env _) as [d|] eqn:Hack; simpl.
      * destruct (d <? AUDIO_COMPLETE_TIMEOUT)%N eqn:Hd; simpl.
        -- exists true. eexists. exists d. split.
           ++ unfold log; simpl. rewrite <- !app_assoc. simpl. by rewrite !N.add_0_r.
           ++ apply N.ltb_lt in Hd. split; [lia|]. by exists (Signalled d).
        -- exists false. eexists. exists AUDIO_COMPLETE_TIMEOUT. split.
           ++ unfold log; simpl. rewrite <- !app_assoc. simpl. by rewrite !N.add_0_r.
           ++ split; [lia|]. by exists TimedOut.
      * exists false. eexists. exists AUDIO_COMPLETE_TIMEOUT. split.
        -- unfold log; simpl. rewrite <- !app_assoc. simpl. by rewrite !N.add_0_r.
        -- split; [lia|]. by exists TimedOut.
    + exists false. eexists. exists 0%N. split.
      * unfold log; simpl. rewrite <- !app_assoc. simpl. by rewrite !N.add_0_r.
      * done.
  - exists false. eexists. exists 0%N. split.
    + unfold log; simpl. by rewrite !N.add_0_r.
    + done.
Qed.

(** X12 (send_tts_audio, _handle_audio_complete): an acknowledgement that
    was handled before a playback starts has no effect on it: the event is
    cleared first, so the playback runs exactly as if the acknowledgement
    had never come. *)
Theorem stale_acknowledgement_is_discarded env text trial w :
  run env (_handle_audio_complete;; send_tts_audio text trial) w
  = run env (send_tts_audio text trial) w.
Proof.
  unfold _handle_audio_complete. rewrite run_modify.
  unfold send_tts_audio. rewrite !run_try_except, !run_modify. reflexivity.
Qed.
(** ** websocket/base_handler.py: how a connection ends *)

Lemma run_start_task_returns env w :
  exists w', run env _start_task w = (Returned tt, w').
Proof. destruct (flow_start_task env w) as (w' & (Hr & _) & _). by exists w'. Qed.

(** Frames that do not end the loop are consumed one by one; the loop is
    then where it would be had the remaining frames been the only ones. *)
Lemma message_loop_prefix env pre : forall task_started w,
  existsb terminal pre = false ->
  exists task_started' w1,
    run env (message_loop pre task_started) w = (Returned (StillReceiving task_started'), w1)
    /\ forall rest,
         run env (message_loop (pre ++ rest) task_started) w
         = run env (message_loop rest task_started') w1.
Proof.
  induction pre as [|f pre IH]; intros task_started w Hpre.
  { by exists task_started, w. }
  cbn [existsb] in Hpre. apply orb_false_iff in Hpre as [Hf Hpre].
  cbn [app]. rewrite message_loop_cons, run_receive.
  destruct f as [m|e|]; [|discriminate|discriminate].
  cbn [terminal] in Hf.
  destruct (cm_type m) eqn:Hty.
  - destruct (IH task_started w Hpre) as (b' & w1 & Hr & Hrest).
    exists b', w1. split; [done|]. intros rest.
    by rewrite <- Hrest, message_loop_cons, run_receive, Hty.
  - destruct (cm_data m) as [|[| |]] eqn:Hda; [| |discriminate|].
    + destruct (IH task_started w Hpre) as (b' & w1 & Hr & Hrest).
      exists b', w1. split; [done|]. intros rest.
      by rewrite <- Hrest, message_loop_cons, run_receive, Hty, Hda.
    + destruct task_started; simpl negb; cbv iota.
      * destruct (IH true w Hpre) as (b' & w1 & Hr & Hrest).
        exists b', w1. split; [done|]. intros rest.
        by rewrite <- Hrest, message_loop_cons, run_receive, Hty, Hda.
      * rewrite run_bind, run_send_debug, run_bind.
        destruct (run_start_task_returns env
                    (sent env (debug {| dbg_message :=
                       "Task start received, beginning scripted flow..." |}) w))
          as (w2 & Hst).
        rewrite Hst.
        destruct (IH true w2 Hpre) as (b' & w1 & Hr & Hrest).
        exists b', w1. split; [done|]. intros rest.
        rewrite <- Hrest, message_loop_cons, run_receive, Hty, Hda. simpl negb. cbv iota.
        by rewrite run_bind, run_send_debug, run_bind, Hst.
    + rewrite run_bind. unfold _handle_audio_complete at 1. simpl run at 1. cbv iota beta.
      destruct (IH task_started (with_handler (audio_complete_set (handler w)) w) Hpre)
        as (b' & w1 & Hr & Hrest).
      exists b', w1. split; [done|]. intros rest.
      rewrite <- Hrest, message_loop_cons, run_receive, Hty, Hda.
      rewrite run_bind. unfold _handle_audio_complete at 1. simpl run at 1. by cbv iota beta.
Qed.

Lemma run_handle_connection env session_id frames w :
  run env (handle_connection session_id frames) w
  = let w0 := sent env (task_state {| ts_state := listening; ts_trial_number := None;
                                      ts_message := Some "Waiting to start..." |})
                (sent env (debug {| dbg_message := "Session ID: " +:+ session_id |})
                   (sent env (debug {| dbg_message :=
                      "Connected to task (Session: " +:+ session_id +:+ ")" |}) w)) in
    match run env (message_loop frames false) w0 with
    | (Returned exit, w1) => (Returned exit, w1)
    | (Raised e, w1) =>
        (Returned Closed, sent env (debug {| dbg_message := "Error: " +:+ e |}) w1)
    end.
Proof.
  unfold handle_connection.
  rewrite run_bind, run_send_debug, run_bind, run_send_debug, run_bind.
  unfold send_task_state. rewrite run_guarded_send, run_try_except. cbv zeta.
  destruct (run env (message_loop frames false) _) as [[exit|e] w1]; [done|].
  by rewrite run_bind, run_try_except, run_send_debug.
Qed.

Lemma run_message_loop_terminal env f post task_started w :
  terminal f = true ->
  run env (message_loop (f :: post) task_started) w
  = match f with
    | RecvInvalid e => (Raised e, w)
    | RecvDisconnect => (Returned Closed, w)
    | RecvMessage _ =>
        (Returned Closed, sent env (debug {| dbg_message := "Session ended by client" |}) w)
    end.
Proof.
  intros Hf. rewrite message_loop_cons, run_receive.
  destruct f as [m|e|]; [|done|done].
  cbn [terminal] in Hf.
  destruct (cm_type m); [discriminate|].
  destruct (cm_data m) as [|[| |]]; try discriminate.
  by rewrite run_bind, run_send_debug.
Qed.

(** X13 (handle_connection): the first frame that is an end_session event,
    a disconnect or a frame that does not parse ends the session: the
    frames before it are handled as if they were all there is, one last
    debug message goes out ("Session ended by client", or "Error: " and the
    text of the exception; none after a disconnect), the handler returns,
    and no frame after it is ever looked at. *)
Theorem first_terminal_frame_ends_session env session_id pre f post w :
  existsb terminal pre = false ->
  terminal f = true ->
  let w1 := after env (handle_connection session_id pre) w in
  run env (handle_connection session_id (pre ++ f :: post)) w
  = (Returned Closed,
     match farewell f with
     | Some message => sent env (debug {| dbg_message := message |}) w1
     | None => w1
     end).
Proof.
  intros Hpre Hf w1. subst w1. unfold after.
  rewrite !run_handle_connection. cbv zeta.
  set (w0 := sent env (task_state _) _).
  destruct (message_loop_prefix env pre false w0 Hpre) as (b' & w1 & Hr & Hrest).
  rewrite Hrest, Hr, (run_message_loop_terminal _ _ _ _ _ Hf). cbn [snd].
  by destruct f.
Qed.

Lemma first_terminal_frame_ends_session_witness :
  run friendly_env
    (handle_connection "s" ([ack_frame] ++ RecvInvalid "Expecting value" :: [start_frame]))
    init_world
  = (Returned Closed,
     sent friendly_env (debug {| dbg_message := "Error: Expecting value" |})
       (after friendly_env (handle_connection "s" [ack_frame]) init_world)).
Proof.
  apply (first_terminal_frame_ends_session friendly_env "s"
           [ack_frame] (RecvInvalid "Expecting value") [start_frame] init_world).
  - reflexivity.
  - reflexivity.
Defined.

(** X14 (handle_connection): the connection handler never raises, whatever
    the frames and whatever fails underneath; it has closed the socket
    exactly when one of the frames was terminal, and is otherwise waiting
    for the next frame. *)
Theorem handle_connection_never_raises env session_id frames w :
  exists exit w',
    run env (handle_connection session_id frames) w = (Returned exit, w')
    /\ (exit = Closed <-> existsb terminal frames = true).
Proof.
  rewrite run_handle_connection. cbv zeta.
  set (w0 := sent env (task_state _) _). clearbody w0.
  assert (Hloop : forall frames b w0,
            exists r w1, run env (message_loop frames b) w0 = (r, w1)
              /\ (existsb terminal frames = true ->
                  r = Returned Closed \/ exists e, r = Raised e)
              /\ (existsb terminal frames = false ->
                  exists b', r = Returned (StillReceiving b'))).
  { clear. intros frames. induction frames as [|f rest IH]; intros b w0.
    { exists (Returned (StillReceiving b)), w0. split; [done|]. split; [done|]. by exists b. }
    destruct (terminal f) eqn:Hf.
    - rewrite (run_message_loop_terminal _ _ _ _ _ Hf). cbn [existsb]. rewrite Hf.
      destruct f; eexists _, _; (split; [done|]); (split; [|done]); intros _; eauto.
    - destruct (message_loop_prefix env [f] b w0) as (b' & w1 & _ & Hrest).
      { cbn [existsb]. by rewrite Hf. }
      specialize (Hrest rest). cbn [app] in Hrest. rewrite Hrest.
      cbn [existsb]. rewrite Hf. cbn [orb]. apply IH. }
  destruct (Hloop frames false w0) as (r & w1 & Hr & Hclosed & Hopen). rewrite Hr.
  destruct (existsb terminal frames).
  - destruct (Hclosed eq_refl) as [->|[e ->]]; eexists _, _; done.
  - destruct (Hopen eq_refl) as [b' ->]. eexists _, _. split; [done|]. split; discriminate.
Qed.
(** ** Invariants of a session under interleaving: the general argument *)

Section ObeysFacts.

Context (I : Handler -> Prop) (E : TraceEvent -> Prop).

Lemma obeys_bind {A B} (p : Prog A) (f : A -> Prog B) : forall h,
  I h -> obeys I E p h -> (forall a h1, I h1 -> obeys I E (f a) h1) ->
  obeys I E (p ≫= f) h.
Proof.
  rewrite mbind_bind.
  induction p as [a|e|k IH|h' k IH|m k IH|ms k IH|t k IH|text k IH|audio k IH
                  |ws tr k IH|c k IH|k IH]; intros h Hh Hp Hf; simpl in *.
  - by apply Hf.
  - done.
  - by apply IH.
  - destruct Hp as [Hh' Hk]. split; [done|]. by apply IH.
  - destruct Hp as [He Hk]. split; [done|]. intros r h1 H1. apply IH; auto.
  - destruct Hp as [He Hk]. split; [done|]. intros h1 H1. apply IH; auto.
  - destruct Hp as [He Hk]. split; [done|]. intros b h1 H1. apply IH; auto.
  - destruct Hp as [He Hk]. split; [done|]. intros r h1 H1. apply IH; auto.
  - destruct Hp as [He Hk]. split; [done|]. intros r h1 H1. apply IH; auto.
  - destruct Hp as [He Hk]. split; [done|]. intros r h1 H1. apply IH; auto.
  - destruct Hp as [He Hk]. split; [done|]. intros h1 H1. apply IH; auto.
  - intros h1 H1. apply IH; auto.
Qed.

Lemma obeys_try_except {A} (p : Prog A) handle : forall h,
  I h -> obeys I E p h -> (forall e h1, I h1 -> obeys I E (handle e) h1) ->
  obeys I E (try_except p handle) h.
Proof.
  induction p as [a|e|k IH|h' k IH|m k IH|ms k IH|t k IH|text k IH|audio k IH
                  |ws tr k IH|c k IH|k IH]; intros h Hh Hp Hf; simpl in *.
  - done.
  - by apply Hf.
  - by apply IH.
  - destruct Hp as [Hh' Hk]. split; [done|]. by apply IH.
  - destruct Hp as [He Hk]. split; [done|]. intros r h1 H1. apply IH; auto.
  - destruct Hp as [He Hk]. split; [done|]. intros h1 H1. apply IH; auto.
  - destruct Hp as [He Hk]. split; [done|]. intros b h1 H1. apply IH; auto.
  - destruct Hp as [He Hk]. split; [done|]. intros r h1 H1. apply IH; auto.
  - destruct Hp as [He Hk]. split; [done|]. intros r h1 H1. apply IH; auto.
  - destruct Hp as [He Hk]. split; [done|]. intros r h1 H1. apply IH; auto.
  - destruct Hp as [He Hk]. split; [done|]. intros h1 H1. apply IH; auto.
  - intros h1 H1. apply IH; auto.
Qed.

Lemma obeys_read {A B} (g : Handler -> A) (f : A -> Prog B) h :
  obeys I E (f (g h)) h -> obeys I E (read_self g ≫= f) h.
Proof. done. Qed.

Lemma obeys_getself {B} (f : Handler -> Prog B) h :
  obeys I E (f h) h -> obeys I E (GetSelf Ret ≫= f) h.
Proof. done. Qed.

Lemma obeys_modify {B} g (f : unit -> Prog B) h :
  I (g h) -> obeys I E (f tt) (g h) -> obeys I E (modify_self g ≫= f) h.
Proof. done. Qed.

Lemma obeys_modify_last g h : I (g h) -> obeys I E (modify_self g) h.
Proof. done. Qed.

Lemma obeys_ret_bind {A B} (a : A) (f : A -> Prog B) h :
  obeys I E (f a) h -> obeys I E (Ret a ≫= f) h.
Proof. done. Qed.

Lemma obeys_returned {A B} (a : A) (f : A -> Prog B) h :
  obeys I E (f a) h -> obeys I E (of_outcome (Returned a) ≫= f) h.
Proof. done. Qed.

Lemma obeys_of_outcome {A} (r : outcome A) h : obeys I E (of_outcome r) h.
Proof. by destruct r. Qed.

Lemma obeys_send m h :
  (forall r, E (EvSend m r)) -> obeys I E (websocket_send_text m) h.
Proof. intros He. split; [done|]. intros r h1 _. apply obeys_of_outcome. Qed.

Lemma obeys_guarded_send m h :
  (forall r, E (EvSend m r)) ->
  obeys I E (try_except (websocket_send_text m) (fun _ => Ret tt)) h.
Proof. intros He. split; [done|]. intros [|] h1 _; done. Qed.

Lemma obeys_sleep ms h : E (EvSleep ms) -> obeys I E (asyncio_sleep ms) h.
Proof. done. Qed.

Lemma obeys_create_task c h : E (EvCreateTask c) -> obeys I E (asyncio_create_task c) h.
Proof. done. Qed.

(** One segment of a law-abiding coroutine. *)
Lemma step_obeys {A} env (p : Prog A) :
  (forall h, I h -> I (audio_complete_set h)) ->
  forall w,
    I (handler w) -> obeys I E p (handler w) ->
    I (handler (step env p w).2)
    /\ law_abiding I E (step env p w).1
    /\ exists new, trace (step env p w).2 = trace w ++ new /\ Forall E new.
Proof.
  intros Hack.
  induction p as [a|e|k IH|h' k IH|m k IH|ms k IH|t k IH|text k IH|audio k IH
                  |ws tr k IH|c k IH|k IH]; intros w Hw Hp; simpl in *.
  - split; [done|]. split; [done|]. exists []. by rewrite app_nil_r.
  - split; [done|]. split; [done|]. exists []. by rewrite app_nil_r.
  - by apply IH.
  - destruct Hp as [Hh' Hk]. by apply (IH (with_handler h' w)).
  - destruct Hp as [He Hk]. split; [done|]. split; [intros h1 H1; by apply Hk|].
    eexists [_]. split; [done|]. by apply Forall_singleton.
  - destruct Hp as [He Hk]. split; [done|]. split; [intros h1 H1; by apply Hk|].
    eexists [_]. split; [done|]. by apply Forall_singleton.
  - destruct Hp as [He Hk].
    split; [|split; [intros h1 H1; by apply Hk|]].
    + unfold resolve_wait. repeat case_match; simpl; auto.
    + destruct (resolve_wait_trace env t w) as [r Hr]. exists [EvWait t r].
      split; [done|]. by apply Forall_singleton.
  - destruct Hp as [He Hk]. split; [done|]. split; [intros h1 H1; by apply Hk|].
    eexists [_]. split; [done|]. by apply Forall_singleton.
  - destruct Hp as [He Hk]. split; [done|]. split; [intros h1 H1; by apply Hk|].
    eexists [_]. split; [done|]. by apply Forall_singleton.
  - destruct Hp as [He Hk]. split; [done|]. split; [intros h1 H1; by apply Hk|].
    eexists [_]. split; [done|]. by apply Forall_singleton.
  - destruct Hp as [He Hk]. split; [done|]. split; [intros h1 H1; by apply Hk|].
    eexists [_]. split; [done|]. by apply Forall_singleton.
  - split; [done|]. split; [intros h1 H1; by apply Hp|]. exists []. by rewrite app_nil_r.
Qed.

(** Every schedule keeps a pool law-abiding, provided the coroutines
    that can join the pool are. *)
Lemma tick_obeys fs fp rt env s t :
  (forall h, I h -> I (audio_complete_set h)) ->
  (forall c, law_abiding I E (coro_body fs fp rt c)) ->
  (forall audio trial,
      law_abiding I E (upload_working_memory_audio true audio trial;; Ret tt)) ->
  sys_obeys I E s -> sys_obeys I E (tick fs fp rt env s t).
Proof.
  intros Hack Hcoro Hreq (Hi & He & Ht). destruct t as [i|trial audio]; unfold tick.
  - destruct (tasks s !! i) as [p|] eqn:Hp; [|done].
    assert (Hlaw : law_abiding I E p) by (eapply Forall_lookup_1; eauto).
    destruct (step_obeys env p Hack (world s) Hi (Hlaw _ Hi)) as (HI & HL & new & Hnew & HE).
    split; [done|]. cbn [world tasks]. split.
    + rewrite Hnew. apply Forall_app. by split.
    + apply Forall_app. split.
      * apply Forall_insert; done.
      * apply Forall_forall. intros q Hq.
        apply list_elem_of_omap in Hq as (e & _ & Hq).
        destruct e; simpl in Hq; try done. injection Hq as <-. apply Hcoro.
  - split; [done|]. split; [done|]. cbn [world tasks].
    apply Forall_app. split; [done|]. constructor; [|done]. apply Hreq.
Qed.

Lemma sched_obeys fs fp rt env ticks : forall s,
  (forall h, I h -> I (audio_complete_set h)) ->
  (forall c, law_abiding I E (coro_body fs fp rt c)) ->
  (forall audio trial,
      law_abiding I E (upload_working_memory_audio true audio trial;; Ret tt)) ->
  sys_obeys I E s -> sys_obeys I E (sched fs fp rt env ticks s).
Proof.
  induction ticks as [|t ticks IH]; intros s Hack Hcoro Hreq Hs; simpl; [done|].
  apply IH; try done. by apply tick_obeys.
Qed.

End ObeysFacts.
(** ** The vocabulary is respected by every coroutine *)

Lemma state_ok_init : state_ok init_handler.
Proof.
  split; [by left|]. split; [by left|]. split; [set_solver|].
  split; [constructor|]. set_solver.
Qed.

Lemma state_ok_set_current_phase v h :
  v ∈ ["waiting"; "instruction"; "trial_1"; "trial_2"; "complete"] ->
  state_ok h -> state_ok (set_current_phase v h).
Proof. intros Hv (H1 & H2 & H3 & H4 & H5). done. Qed.

Lemma state_ok_set_trial_number v h :
  v = 0 \/ v = 1 \/ v = 2 -> state_ok h -> state_ok (set_trial_number v h).
Proof. intros Hv (H1 & H2 & H3 & H4 & H5). done. Qed.

Lemma state_ok_set_trial_words h :
  state_ok h -> state_ok (set_trial_words [SCRIPT_WORDS; SCRIPT_WORDS] h).
Proof. intros (H1 & H2 & H3 & H4 & H5). split; [by right|done]. Qed.

Lemma state_ok_set_completion_sent v h :
  state_ok h -> state_ok (set_completion_sent v h).
Proof. intros (H1 & H2 & H3 & H4 & H5). done. Qed.

Lemma state_ok_set_audio_complete_event v h :
  state_ok h -> state_ok (set_audio_complete_event v h).
Proof. intros (H1 & H2 & H3 & H4 & H5). done. Qed.

Lemma state_ok_set_waiting_for_audio_complete v h :
  state_ok h -> state_ok (set_waiting_for_audio_complete v h).
Proof. intros (H1 & H2 & H3 & H4 & H5). done. Qed.

Lemma state_ok_audio_complete_set h : state_ok h -> state_ok (audio_complete_set h).
Proof. intros (H1 & H2 & H3 & H4 & H5). done. Qed.

Lemma state_ok_store r h :
  wf_result r -> state_ok h ->
  state_ok (set_evaluation_results (evaluation_results h ++ [r]) h).
Proof.
  intros Hr (H1 & H2 & H3 & H4 & H5). do 3 (split; [done|]). split; [|done].
  cbn [evaluation_results set_evaluation_results]. apply Forall_app. split; [done|].
  by apply Forall_singleton.
Qed.

Lemma state_ok_mark trial h :
  trial = 1 \/ trial = 2 -> state_ok h ->
  state_ok (set_evaluated_trials (evaluated_trials h ∪ {[trial]}) h).
Proof.
  intros Ht (H1 & H2 & H3 & H4 & H5). do 4 (split; [done|]).
  cbn [evaluated_trials set_evaluated_trials]. intros x Hx.
  apply elem_of_union in Hx as [Hx|Hx]; [by apply H5|].
  apply elem_of_singleton in Hx as ->. apply elem_of_union.
  destruct Ht as [->| ->]; [left|right]; by apply elem_of_singleton.
Qed.

#[local] Hint Resolve state_ok_set_completion_sent state_ok_set_audio_complete_event
  state_ok_set_waiting_for_audio_complete state_ok_set_trial_words
  state_ok_audio_complete_set : core.

(** *** The send helpers *)

Lemma lawful_send_state_transition phase trial message :
  transition_ok {| st_phase := phase; st_trial_number := trial; st_message := message |} ->
  law_abiding state_ok event_ok (_send_state_transition phase trial message).
Proof. intros Hd h Hh. by apply obeys_guarded_send. Qed.

Lemma lawful_send_word_display word trial word_index :
  display_ok {| wd_word := word; wd_trial_number := trial; wd_word_index := word_index |} ->
  law_abiding state_ok event_ok (_send_word_display word trial word_index).
Proof. intros Hd h Hh. by apply obeys_guarded_send. Qed.

Lemma lawful_send_debug message : law_abiding state_ok event_ok (send_debug message).
Proof. intros h Hh. by apply obeys_guarded_send. Qed.

Lemma lawful_send_evaluation_result r :
  wf_result r -> law_abiding state_ok event_ok (send_evaluation_result r).
Proof. intros Hr h Hh. by apply obeys_guarded_send. Qed.

Lemma lawful_sleep ms :
  ms ∈ [50; 100; 200; 300]%N -> law_abiding state_ok event_ok (asyncio_sleep ms).
Proof. intros Hms h Hh. by apply obeys_sleep. Qed.

Lemma lawful_send_tts_audio text trial :
  text ∈ script_texts -> trial ∈ [None; Some 0; Some 1; Some 2] ->
  law_abiding state_ok event_ok (send_tts_audio text trial).
Proof.
  intros Htext Htrial h Hh. unfold send_tts_audio.
  apply obeys_try_except; [done| |].
  - apply obeys_modify; [auto|]. apply obeys_modify; [auto|].
    split; [done|]. intros [a|e] h1 H1; [|done].
    split; [done|]. intros [[]|e] h2 H2; [|done].
    split; [done|]. intros [|] h3 H3; [done|]. split; [auto|done].
  - intros e h1 H1. split; [auto|done].
Qed.

Lemma lawful_send_all_results : law_abiding state_ok event_ok send_all_results.
Proof.
  intros h Hh. unfold send_all_results.
  apply obeys_modify; [apply state_ok_set_current_phase; [set_solver|done]|].
  split.
  - intros r. split; [done|]. by right.
  - intros [[]|e] h1 H1; simpl.
    + split; [intros r; apply H1|]. intros [|] h2 H2; done.
    + split; [intros r; apply H1|]. intros [|] h2 H2; done.
Qed.

(** *** The scripted flow *)

Lemma instruction_in_script : WORKING_MEMORY_SCRIPT_instruction ∈ script_texts.
Proof. apply list_elem_of_here. Qed.
Lemma intro_in_script : WORKING_MEMORY_SCRIPT_trial_2_intro ∈ script_texts.
Proof. apply list_elem_of_further, list_elem_of_here. Qed.
Lemma words_in_script : join ". " SCRIPT_WORDS +:+ "." ∈ script_texts.
Proof. do 2 apply list_elem_of_further. apply list_elem_of_here. Qed.
Lemma prompt_in_script : WORKING_MEMORY_SCRIPT_prompt ∈ script_texts.
Proof. do 3 apply list_elem_of_further. apply list_elem_of_here. Qed.
Lemma completion_in_script : WORKING_MEMORY_SCRIPT_completion ∈ script_texts.
Proof. do 4 apply list_elem_of_further. apply list_elem_of_here. Qed.

Lemma trial_tag_0 : Some 0 ∈ [None; Some 0; Some 1; Some 2].
Proof. apply list_elem_of_further, list_elem_of_here. Qed.
Lemma trial_tag_none : (None : option Z) ∈ [None; Some 0; Some 1; Some 2].
Proof. apply list_elem_of_here. Qed.
Lemma trial_tag_trial trial :
  trial = 1 \/ trial = 2 -> Some trial ∈ [None; Some 0; Some 1; Some 2].
Proof.
  intros [->| ->]; [do 2 apply list_elem_of_further|do 3 apply list_elem_of_further];
    apply list_elem_of_here.
Qed.

Lemma delay_50 : 50%N ∈ [50; 100; 200; 300]%N.
Proof. apply list_elem_of_here. Qed.
Lemma delay_100 : 100%N ∈ [50; 100; 200; 300]%N.
Proof. apply list_elem_of_further, list_elem_of_here. Qed.
Lemma delay_200 : 200%N ∈ [50; 100; 200; 300]%N.
Proof. do 2 apply list_elem_of_further. apply list_elem_of_here. Qed.
Lemma delay_300 : 300%N ∈ [50; 100; 200; 300]%N.
Proof. do 3 apply list_elem_of_further. apply list_elem_of_here. Qed.

Lemma lawful_seq {A B} (p : Prog A) (f : A -> Prog B) :
  law_abiding state_ok event_ok p ->
  (forall a, law_abiding state_ok event_ok (f a)) ->
  law_abiding state_ok event_ok (p ≫= f).
Proof. intros Hp Hf h Hh. apply obeys_bind; [done|by apply Hp|]. intros a. apply Hf. Qed.

Lemma lawful_try {A} (p : Prog A) handle :
  law_abiding state_ok event_ok p ->
  (forall e, law_abiding state_ok event_ok (handle e)) ->
  law_abiding state_ok event_ok (try_except p handle).
Proof. intros Hp Hf h Hh. apply obeys_try_except; [done|by apply Hp|]. intros e. apply Hf. Qed.

Lemma lawful_ret {A} (a : A) : law_abiding state_ok event_ok (Ret a).
Proof. done. Qed.

Lemma lawful_raise {A} e : law_abiding state_ok event_ok (Raise e : Prog A).
Proof. done. Qed.

Lemma lawful_modify g :
  (forall h, state_ok h -> state_ok (g h)) ->
  law_abiding state_ok event_ok (modify_self g).
Proof. intros Hg h Hh. apply obeys_modify_last. by apply Hg. Qed.

Lemma lawful_send_instruction : law_abiding state_ok event_ok _send_instruction.
Proof.
  unfold _send_instruction.
  apply lawful_seq; [apply lawful_modify; intros h Hh;
                     apply state_ok_set_current_phase; [set_solver|done]|intros _].
  cbv zeta.
  apply lawful_seq; [by apply lawful_send_state_transition|intros _].
  apply lawful_seq; [apply lawful_sleep, delay_100|intros _].
  apply lawful_seq; [by apply lawful_send_state_transition|intros _].
  apply lawful_send_tts_audio; [apply instruction_in_script|apply trial_tag_0].
Qed.

Lemma lawful_send_completion : law_abiding state_ok event_ok _send_completion.
Proof.
  intros h Hh. unfold _send_completion. apply obeys_read.
  destruct (completion_sent h); [done|].
  revert h Hh. change (law_abiding state_ok event_ok
    (modify_self (set_completion_sent true);;
     let completion_text := WORKING_MEMORY_SCRIPT_completion in
     _send_state_transition completion_playing None (Some completion_text);;
     asyncio_sleep 100;;
     send_tts_audio completion_text None;;
     _send_state_transition complete None None;;
     send_all_results)).
  apply lawful_seq; [apply lawful_modify; auto|intros _]. cbv zeta.
  apply lawful_seq; [by apply lawful_send_state_transition|intros _].
  apply lawful_seq; [apply lawful_sleep, delay_100|intros _].
  apply lawful_seq; [apply lawful_send_tts_audio;
                     [apply completion_in_script|apply trial_tag_none]|intros _].
  apply lawful_seq; [by apply lawful_send_state_transition|intros _].
  apply lawful_send_all_results.
Qed.

Lemma lawful_for_word_display trial words : forall word_index,
  trial = 1 \/ trial = 2 ->
  1 <= word_index ->
  (forall i word, words !! i = Some word ->
                  SCRIPT_WORDS !! (Z.to_nat (word_index - 1) + i)%nat = Some word) ->
  law_abiding state_ok event_ok (for_word_display trial word_index words).
Proof.
  induction words as [|word rest IH]; intros word_index Ht Hi Hw; [apply lawful_ret|].
  rewrite for_word_display_cons.
  apply lawful_seq; [|intros _].
  { apply lawful_send_word_display. split; [done|]. right. split; [done|].
    cbn [wd_word wd_word_index]. rewrite <- (Hw 0%nat word eq_refl). f_equal. lia. }
  apply lawful_seq; [apply lawful_sleep, delay_50|intros _].
  apply IH; [done|lia|]. intros i w Hiw.
  rewrite <- (Hw (S i) w Hiw). f_equal. lia.
Qed.

Lemma lawful_send_trial_words trial :
  trial = 1 \/ trial = 2 ->
  law_abiding state_ok event_ok (_send_trial_words trial).
Proof.
  intros Ht h Hh. unfold _send_trial_words. apply obeys_getself.
  destruct (Z.of_nat (length (trial_words h)) <? trial) eqn:Hlen;
    [by apply lawful_send_completion|].
  assert (Hwords : trial_words h = [SCRIPT_WORDS; SCRIPT_WORDS]).
  { destruct Hh as ([Hw|Hw] & _); [|done]. rewrite Hw in Hlen. simpl in Hlen.
    apply Z.ltb_ge in Hlen. lia. }
  assert (Hphase : state_ok (set_current_phase ("trial_" +:+ str_int trial) h)).
  { apply state_ok_set_current_phase; [|done]. destruct Ht as [->| ->]; set_solver. }
  apply obeys_modify; [done|].
  assert (Hnum : state_ok (set_trial_number trial
                             (set_current_phase ("trial_" +:+ str_int trial) h))).
  { apply state_ok_set_trial_number; [|done]. destruct Ht as [->| ->]; auto. }
  apply obeys_modify; [done|]. apply obeys_read.
  cbn [trial_words set_trial_number set_current_phase]. rewrite Hwords.
  assert (Hidx : py_index [SCRIPT_WORDS; SCRIPT_WORDS] (trial - 1) = Returned SCRIPT_WORDS)
    by (by destruct Ht as [->| ->]).
  rewrite Hidx. apply obeys_returned.
  set (h2 := set_trial_number _ _) in *. clearbody h2. revert h2 Hnum.
  change (law_abiding state_ok event_ok
    ((if trial =? 2 then
        let intro_text := WORKING_MEMORY_SCRIPT_trial_2_intro in
        _send_state_transition trial_intro_playing (Some trial) (Some intro_text);;
        asyncio_sleep 100;;
        send_tts_audio intro_text (Some trial)
      else Ret tt);;
     _send_state_transition words_displaying (Some trial) None;;
     for_word_display trial 1 SCRIPT_WORDS;;
     asyncio_sleep 200;;
     _send_state_transition words_playing (Some trial) None;;
     let words_text := join ". " SCRIPT_WORDS +:+ "." in
     send_tts_audio words_text (Some trial);;
     _send_word_display "" trial 0;;
     asyncio_sleep 200;;
     let prompt_text := WORKING_MEMORY_SCRIPT_prompt in
     _send_state_transition prompt_playing (Some trial) (Some prompt_text);;
     asyncio_sleep 100;;
     send_tts_audio prompt_text (Some trial);;
     _send_state_transition beep_start (Some trial) None;;
     asyncio_sleep 100;;
     _send_state_transition recording (Some trial) None)).
  assert (Htag : Some trial = Some 1 \/ Some trial = Some 2)
    by (destruct Ht as [->| ->]; auto).
  apply lawful_seq; [|intros _].
  { destruct (Z.eqb_spec trial 2) as [->|]; [|apply lawful_ret]. cbv zeta.
    apply lawful_seq; [by apply lawful_send_state_transition|intros _].
    apply lawful_seq; [apply lawful_sleep, delay_100|intros _].
    apply lawful_send_tts_audio; [apply intro_in_script|apply trial_tag_trial; auto]. }
  apply lawful_seq; [by apply lawful_send_state_transition|intros _].
  apply lawful_seq; [by apply lawful_for_word_display|intros _].
  apply lawful_seq; [apply lawful_sleep, delay_200|intros _].
  apply lawful_seq; [by apply lawful_send_state_transition|intros _]. cbv zeta.
  apply lawful_seq; [apply lawful_send_tts_audio;
                     [apply words_in_script|by apply trial_tag_trial]|intros _].
  apply lawful_seq; [apply lawful_send_word_display; split; [done|by left]|intros _].
  apply lawful_seq; [apply lawful_sleep, delay_200|intros _].
  apply lawful_seq; [by apply lawful_send_state_transition|intros _].
  apply lawful_seq; [apply lawful_sleep, delay_100|intros _].
  apply lawful_seq; [apply lawful_send_tts_audio;
                     [apply prompt_in_script|by apply trial_tag_trial]|intros _].
  apply lawful_seq; [by apply lawful_send_state_transition|intros _].
  apply lawful_seq; [apply lawful_sleep, delay_100|intros _].
  by apply lawful_send_state_transition.
Qed.

Lemma lawful_start_task : law_abiding state_ok event_ok _start_task.
Proof.
  unfold _start_task. apply lawful_try; [|intros e; apply lawful_send_debug]. cbv zeta.
  apply lawful_seq; [apply lawful_modify; auto|intros _].
  apply lawful_send_instruction.
Qed.

Lemma lawful_handle_audio_upload trial audio_bytes :
  law_abiding state_ok event_ok (_handle_audio_upload trial audio_bytes).
Proof.
  unfold _handle_audio_upload. apply lawful_seq; [|intros _].
  - destruct (Z.ltb_spec 0 trial) as [Hpos|]; [|apply lawful_ret].
    apply lawful_seq; [apply lawful_send_state_transition; split; [by exists trial|done]
                      |intros _].
    apply lawful_seq; [apply lawful_sleep, delay_300|intros _].
    apply lawful_seq; [apply lawful_send_state_transition; split; [by exists trial|done]
                      |intros _].
    apply lawful_sleep, delay_200.
  - destruct (trial =? 0); [apply lawful_send_trial_words; auto|].
    destruct (trial =? 1); [apply lawful_send_trial_words; auto|].
    apply lawful_send_completion.
Qed.

(** *** The evaluation *)

Lemma elem_1_2 (trial : Z) : trial ∈ [1; 2] -> trial = 1 \/ trial = 2.
Proof.
  intros H. apply elem_of_cons in H as [->|H]; [by left|].
  apply elem_of_cons in H as [->|H]; [by right|]. by apply elem_of_nil in H.
Qed.

Lemma lawful_add_evaluation_result rt trial transcript cw sc ok conf nt :
  law_abiding state_ok event_ok
    (add_evaluation_result rt trial SCRIPT_WORDS transcript cw sc ok conf nt).
Proof.
  intros h Hh. unfold add_evaluation_result.
  destruct (bool_decide (trial ∈ [1; 2])) eqn:Ht; [|done]. simpl negb. cbv iota.
  apply bool_decide_eq_true in Ht.
  assert (Ht' : trial = 1 \/ trial = 2) by (by apply elem_1_2).
  apply obeys_read. destruct (bool_decide (trial ∈ evaluated_trials h)); [done|].
  assert (Hmark := state_ok_mark trial h Ht' Hh).
  apply obeys_modify; [done|].
  destruct (new_working_memory_result rt trial SCRIPT_WORDS transcript cw sc ok conf nt)
    as [result|e] eqn:Hres; [|done].
  apply new_working_memory_result_fields in Hres as (cw' & ok' & nt' & _ & _ & _ & ->).
  set (result := {| er_trial_number := trial |}).
  assert (Hr : wf_result result) by (repeat split; eauto).
  apply obeys_returned.
  unfold BaseTaskHandler_add_evaluation_result.
  apply obeys_modify; [by apply state_ok_store|].
  by apply lawful_send_evaluation_result, state_ok_store.
Qed.

Lemma lawful_evaluate_response rt transcript :
  law_abiding state_ok event_ok (evaluate_working_memory_response rt SCRIPT_WORDS transcript).
Proof.
  intros h Hh. unfold evaluate_working_memory_response.
  destruct (bool_decide (transcript = "") || strip_is_empty transcript) eqn:Hb; [done|].
  apply orb_false_iff in Hb as [_ Hb]. split; [done|].
  intros [j|e] h1 H1; [|done]. cbn [Prog_bind bind of_outcome].
  by destruct (read_working_memory_reply rt j).
Qed.

Lemma lawful_transcribe_audio fs fp audio_bytes :
  law_abiding state_ok event_ok (transcribe_audio fs fp audio_bytes).
Proof.
  intros h Hh. unfold transcribe_audio.
  destruct (_is_silent fs fp audio_bytes SILENCE_THRESHOLD); [done|].
  destruct (wav_header (N.of_nat (length audio_bytes))) as [hdr|e] eqn:Hhdr; [|done].
  apply wav_header_length in Hhdr as [Hlen Htag].
  split.
  - intros r. split.
    + by rewrite take_app_le by lia.
    + rewrite length_app. lia.
  - intros [t|e] h1 H1; done.
Qed.

Lemma lawful_evaluate_background fs fp rt audio_bytes trial :
  law_abiding state_ok event_ok
    (_evaluate_working_memory_audio_background fs fp rt audio_bytes trial).
Proof.
  unfold _evaluate_working_memory_audio_background.
  apply lawful_try; [|intros e; apply lawful_ret].
  destruct (bool_decide (trial ∈ [1; 2])) eqn:Ht; [|apply lawful_ret]. simpl negb. cbv iota.
  apply bool_decide_eq_true in Ht.
  assert (Ht' : trial = 1 \/ trial = 2) by (by apply elem_1_2).
  intros h Hh. apply obeys_read.
  destruct (bool_decide (trial ∈ evaluated_trials h)); [done|].
  apply obeys_bind; [done|by apply lawful_transcribe_audio|].
  intros transcript h1 H1. apply obeys_read.
  destruct ((0 <? trial) && (trial <=? Z.of_nat (length (trial_words h1)))) eqn:Hlen;
    [|done].
  assert (Hwords : trial_words h1 = [SCRIPT_WORDS; SCRIPT_WORDS]).
  { destruct H1 as ([Hw|Hw] & _); [|done]. rewrite Hw in Hlen. simpl in Hlen.
    apply andb_true_iff in Hlen as [_ Hlen]. apply Z.leb_le in Hlen. lia. }
  rewrite Hwords.
  assert (Hidx : py_index [SCRIPT_WORDS; SCRIPT_WORDS] (trial - 1) = Returned SCRIPT_WORDS)
    by (by destruct Ht' as [->| ->]).
  rewrite Hidx. apply obeys_returned. apply obeys_read.
  destruct (bool_decide (trial ∈ evaluated_trials h1)); [done|]. simpl negb. cbv iota.
  apply obeys_bind; [done|by apply lawful_evaluate_response|].
  intros evaluation. apply lawful_add_evaluation_result.
Qed.

Lemma lawful_process_async audio_bytes trial :
  law_abiding state_ok event_ok (_process_working_memory_audio_async audio_bytes trial).
Proof.
  unfold _process_working_memory_audio_async.
  apply lawful_try; [|intros e; apply lawful_ret].
  destruct (trial =? 0); [apply lawful_ret|]. intros h Hh. by apply obeys_create_task.
Qed.

Lemma lawful_upload session_found audio trial :
  law_abiding state_ok event_ok (upload_working_memory_audio session_found audio trial).
Proof.
  unfold upload_working_memory_audio.
  apply lawful_try; [|intros e; apply lawful_ret].
  destruct session_found; [|apply lawful_ret]. simpl negb. cbv iota zeta.
  apply lawful_seq; [intros h Hh; by apply obeys_create_task|intros _].
  apply lawful_seq; [intros h Hh; by apply obeys_create_task|intros _].
  apply lawful_ret.
Qed.

Lemma lawful_coro_body fs fp rt c : law_abiding state_ok event_ok (coro_body fs fp rt c).
Proof.
  destruct c; simpl;
    [apply lawful_handle_audio_upload|apply lawful_process_async
    |apply lawful_evaluate_background].
Qed.

(** *** The connection *)

Lemma lawful_receive {A} (p : Prog A) :
  law_abiding state_ok event_ok p -> law_abiding state_ok event_ok (ReceiveText p).
Proof. intros Hp h Hh h1 H1. by apply Hp. Qed.

Lemma lawful_message_loop frames : forall task_started,
  law_abiding state_ok event_ok (message_loop frames task_started).
Proof.
  induction frames as [|f rest IH]; intros task_started; [apply lawful_ret|].
  rewrite message_loop_cons. apply lawful_receive.
  destruct f as [m|e|]; [|apply lawful_raise|apply lawful_ret].
  destruct (cm_type m); [apply IH|].
  destruct (cm_data m) as [|[| |]]; [apply IH| | |].
  - destruct task_started; simpl negb; cbv iota; [apply IH|].
    apply lawful_seq; [apply lawful_send_debug|intros _].
    apply lawful_seq; [apply lawful_start_task|intros _]. apply IH.
  - apply lawful_seq; [apply lawful_send_debug|intros _]. apply lawful_ret.
  - apply lawful_seq; [|intros _; apply IH].
    unfold _handle_audio_complete. apply lawful_modify. auto.
Qed.

Lemma lawful_send_task_state_listening :
  law_abiding state_ok event_ok
    (send_task_state listening None (Some "Waiting to start...")).
Proof.
  intros h Hh. unfold send_task_state. apply obeys_guarded_send.
  intros r. split; [done|]. by left.
Qed.

Lemma lawful_handle_connection session_id frames :
  law_abiding state_ok event_ok (handle_connection session_id frames).
Proof.
  unfold handle_connection.
  apply lawful_seq; [apply lawful_send_debug|intros _].
  apply lawful_seq; [apply lawful_send_debug|intros _].
  apply lawful_seq; [apply lawful_send_task_state_listening|intros _].
  apply lawful_try; [apply lawful_message_loop|intros e].
  apply lawful_seq; [|intros _; apply lawful_ret].
  apply lawful_try; [apply lawful_send_debug|intros e'; apply lawful_ret].
Qed.

(** Every schedule of a session keeps to the vocabulary. *)
Lemma session_obeys fs fp rt env session_id frames ticks :
  sys_obeys state_ok event_ok (sched fs fp rt env ticks (init_system session_id frames)).
Proof.
  apply sched_obeys.
  - apply state_ok_audio_complete_set.
  - apply lawful_coro_body.
  - intros audio trial. apply lawful_seq; [apply lawful_upload|intros; apply lawful_ret].
  - split; [apply state_ok_init|]. split; [constructor|].
    constructor; [|done].
    apply lawful_seq; [apply lawful_handle_connection|intros; apply lawful_ret].
Qed.
(** ** What every schedule of a session keeps to *)

Lemma sent_results_ok tr : Forall event_ok tr -> Forall wf_result (sent_results tr).
Proof.
  induction 1 as [|e tr He _ IH]; [constructor|].
  unfold sent_results. cbn [omap list_omap].
  destruct e as [[]| | | | | |]; try exact IH. constructor; [exact He|exact IH].
Qed.

Lemma sent_aggregates_ok tr :
  Forall event_ok tr -> Forall (Forall wf_result) (sent_aggregates tr).
Proof.
  induction 1 as [|e tr He _ IH]; [constructor|].
  unfold sent_aggregates. cbn [omap list_omap].
  destruct e as [[]| | | | | |]; try exact IH. constructor; [exact He|exact IH].
Qed.

(** X15 (add_evaluation_result, _evaluate_working_memory_audio_background,
    send_all_results): in every run of a session, whatever uploads arrive
    and however the coroutines interleave, every evaluation result that is
    stored, sent singly or sent in an aggregate is for trial 1 or 2, names
    the five words of the script as the expected words, has a score, and
    leaves the fields of the abstraction task empty.  Its list of correct
    words is the grader's, and is missing when the grader gave null. *)
Theorem every_result_is_well_formed
    (float_sum : list float -> float) (float_pow_half : float -> float)
    (rt : Runtime)
    env session_id frames ticks :
  let s := sched float_sum float_pow_half rt env ticks (init_system session_id frames) in
  Forall wf_result (evaluation_results (handler (world s)))
  /\ Forall wf_result (sent_results (trace (world s)))
  /\ Forall (Forall wf_result) (sent_aggregates (trace (world s))).
Proof.
  intros s.
  destruct (session_obeys float_sum float_pow_half rt env session_id frames ticks)
    as ((_ & _ & _ & Hres & _) & Htr & _).
  split; [exact Hres|]. split; [by apply sent_results_ok|by apply sent_aggregates_ok].
Qed.

(** X16 (send_tts_audio, transcribe_audio, evaluate_working_memory_response
    and their callers): in every run of a session, the synthesizer is asked
    for no text but the five of the script (the instruction, the intro of
    trial 2, the five words, the prompt, the completion); the transcriber is
    given nothing but files that start with a 44-byte RIFF header; and the
    grader is asked only about the five words of the script and a
    transcript that is not blank. *)
Theorem requests_stay_within_script
    (float_sum : list float -> float) (float_pow_half : float -> float)
    (rt : Runtime)
    env session_id frames ticks :
  let s := sched float_sum float_pow_half rt env ticks (init_system session_id frames) in
  (forall text r, EvSynth text r ∈ trace (world s) -> text ∈ script_texts)
  /\ (forall audio r, EvTranscribe audio r ∈ trace (world s) ->
        take 4 audio = RIFF /\ (44 <= length audio)%nat)
  /\ (forall words transcript r, EvGrade words transcript r ∈ trace (world s) ->
        words = ["chair"; "book"; "hand"; "road"; "cloud"]
        /\ strip_is_empty transcript = false).
Proof.
  intros s.
  destruct (session_obeys float_sum float_pow_half rt env session_id frames ticks)
    as (_ & Htr & _).
  fold s in Htr. rewrite Forall_forall in Htr.
  split; [|split].
  - intros text r Hin. exact (Htr _ Hin).
  - intros audio r Hin. exact (Htr _ Hin).
  - intros words transcript r Hin. exact (Htr _ Hin).
Qed.

(** X17 (the send helpers and the scripted flow): in every run of a
    session, every message put on the socket belongs to the vocabulary of
    the task: a transition names its phase with the trial number and the
    text that go with it; a word display shows a word of the script at its
    position, or clears the display; an audio payload is tagged with no
    trial, 0, 1 or 2; a task state is the initial "listening" or the final
    "complete"; a result is for trial 1 or 2, about the five words of the
    script, with a score.  Every sleep lasts 50, 100, 200 or
    300 ms, and every wait has the 30 s deadline. *)
Theorem messages_stay_within_vocabulary
    (float_sum : list float -> float) (float_pow_half : float -> float)
    (rt : Runtime)
    env session_id frames ticks :
  let s := sched float_sum float_pow_half rt env ticks (init_system session_id frames) in
  (forall m r, EvSend m r ∈ trace (world s) -> message_ok m)
  /\ (forall ms, EvSleep ms ∈ trace (world s) -> ms ∈ [50; 100; 200; 300]%N)
  /\ (forall t r, EvWait t r ∈ trace (world s) -> t = 30000%N).
Proof.
  intros s.
  destruct (session_obeys float_sum float_pow_half rt env session_id frames ticks)
    as (_ & Htr & _).
  fold s in Htr. rewrite Forall_forall in Htr.
  split; [|split].
  - intros m r Hin. exact (Htr _ Hin).
  - intros ms Hin. exact (Htr _ Hin).
  - intros t r Hin. exact (Htr _ Hin).
Qed.

(** X18 (the handler's attributes): in every run of a session, the handler
    holds either no words or the five words of the script for each of the
    two trials; its trial number is 0, 1 or 2; its phase is "waiting",
    "instruction", "trial_1", "trial_2" or "complete"; and only trials 1 and
    2 are ever members of the evaluation gate. *)
Theorem handler_state_stays_in_range
    (float_sum : list float -> float) (float_pow_half : float -> float)
    (rt : Runtime)
    env session_id frames ticks :
  let h := handler (world (sched float_sum float_pow_half rt env ticks
                             (init_system session_id frames))) in
  (trial_words h = []
   \/ trial_words h = [["chair"; "book"; "hand"; "road"; "cloud"];
                       ["chair"; "book"; "hand"; "road"; "cloud"]])
  /\ (trial_number h = 0 \/ trial_number h = 1 \/ trial_number h = 2)
  /\ current_phase h ∈ ["waiting"; "instruction"; "trial_1"; "trial_2"; "complete"]
  /\ evaluated_trials h ⊆ {[1; 2]}.
Proof.
  intros h.
  destruct (session_obeys float_sum float_pow_half rt env session_id frames ticks)
    as ((H1 & H2 & H3 & _ & H5) & _).
  done.
Qed.
(** ** websocket/abstraction_handler.py: the other task on the same base *)

Lemma run_base_send_tts_audio env text trial w :
  exists new,
    run env (Abstraction.send_tts_audio text trial) w
    = (Returned tt, {| handler := handler w; trace := trace w ++ new; clock := clock w |})
    /\ steps new = [Speak text]
    /\ wait_count new = 0%nat
    /\ sent_results new = [] /\ sent_aggregates new = [].
Proof.
  unfold Abstraction.send_tts_audio. rewrite run_try_except. simpl.
  destruct (elevenlabs_convert env (length (trace w)) text) as [a|e]; simpl.
  - destruct (ws_send_text env _ _) as [[]|e]; simpl.
    + eexists [_; _]. split; [unfold log; simpl; rewrite <- !app_assoc; simpl; by rewrite !N.add_0_r|done].
    + eexists [_; _]. split; [unfold log; simpl; rewrite <- !app_assoc; simpl; by rewrite !N.add_0_r|done].
  - eexists [_]. split; [unfold log; simpl; by rewrite !N.add_0_r|done].
Qed.

Lemma run_send_task_state env state trial message w :
  run env (send_task_state state trial message) w
  = (Returned tt,
     sent env (task_state {| ts_state := state; ts_trial_number := trial;
                             ts_message := message |}) w).
Proof. apply run_guarded_send. Qed.

(** A trial whose pair of words the script has: the state changes, the
    text is spoken, the client is told to listen. *)
Lemma run_send_trial_audio env trial pair w :
  trial <= 2 ->
  py_index Abstraction.ABSTRACTION_SCRIPT_trials (trial - 1) = Returned pair ->
  exists w' new,
    run env (Abstraction.send_trial_audio trial) w = (Returned tt, w')
    /\ trace w' = trace w ++ new
    /\ steps new = [Speak (Abstraction.trial_text trial pair.1 pair.2);
                    State listening (Some trial) (Some ("Trial " +:+ str_int trial))]
    /\ wait_count new = 0%nat
    /\ handler w' = set_trial_number trial
                      (set_current_phase ("trial_" +:+ str_int trial) (handler w)).
Proof.
  intros Hle Hpair. unfold Abstraction.send_trial_audio.
  destruct (Z.ltb_spec (Z.of_nat (length Abstraction.ABSTRACTION_SCRIPT_trials)) trial)
    as [Hgt|_]; [simpl in Hgt; lia|].
  rewrite !run_modify. cbn [handler with_handler]. rewrite Hpair, run_returned. cbv zeta.
  rewrite run_bind.
  destruct (run_base_send_tts_audio env
              (Abstraction.trial_text trial pair.1 pair.2) (Some trial)
              (with_handler (set_trial_number trial
                               (set_current_phase ("trial_" +:+ str_int trial) (handler w)))
                 (with_handler (set_current_phase ("trial_" +:+ str_int trial) (handler w)) w)))
    as (new & Hrun & Hsteps & Hwait & _).
  rewrite Hrun, run_send_task_state.
  eexists _, (new ++ [_]). split; [done|]. split.
  - cbn [sent log trace with_handler]. by rewrite app_assoc.
  - split; [by rewrite steps_app, Hsteps|]. split; [|done].
    by rewrite wait_count_app, Hwait.
Qed.

(** X19 (AbstractionTaskHandler._handle_audio_upload, send_trial_audio):
    an upload with trial number 0 or 1 makes the abstraction handler play
    the next trial: the handler's trial number becomes that of the next
    trial, its phase the matching "trial_" phase, the text of the trial is
    spoken with the pair of words of the script (one wording for trial 1,
    another for trial 2), and the client is told to listen.  Nothing is
    waited for. *)
Theorem abstraction_upload_plays_next_trial env k audio_bytes pair w :
  k = 0 \/ k = 1 ->
  Abstraction.ABSTRACTION_SCRIPT_trials !! Z.to_nat k = Some pair ->
  exists w' new,
    run env (Abstraction.coro_body (Abstraction._handle_audio_upload k audio_bytes)) w
    = (Returned tt, w')
    /\ trace w' = trace w ++ new
    /\ steps new = [Speak (Abstraction.trial_text (k + 1) pair.1 pair.2);
                    State listening (Some (k + 1)) (Some ("Trial " +:+ str_int (k + 1)))]
    /\ wait_count new = 0%nat
    /\ trial_number (handler w') = k + 1
    /\ current_phase (handler w') = "trial_" +:+ str_int (k + 1)
    /\ evaluation_results (handler w') = evaluation_results (handler w).
Proof.
  intros Hk Hpair.
  assert (Hco : Abstraction._handle_audio_upload k audio_bytes
                = Abstraction.co_send_next_trial_immediately (k + 1))
    by (by destruct Hk as [->| ->]).
  rewrite Hco. cbn [Abstraction.coro_body]. unfold Abstraction._send_next_trial_immediately.
  rewrite run_try_except.
  destruct (run_send_trial_audio env (k + 1) pair w)
    as (w' & new & Hrun & Htr & Hst & Hwait & Hh).
  { lia. }
  { destruct Hk as [->| ->]; simpl in Hpair; by injection Hpair as <-. }
  rewrite Hrun. exists w', new. do 4 (split; [done|]). by rewrite Hh.
Qed.

Lemma abstraction_upload_plays_next_trial_witness :
  exists w' new,
    run friendly_env
      (Abstraction.coro_body (Abstraction._handle_audio_upload 1 loud_audio)) init_world
    = (Returned tt, w')
    /\ trace w' = trace init_world ++ new
    /\ steps new
       = [Speak "Alright now let's do that one more time, again, you'll have 10 seconds to respond. This time your words are Banana and Orange. What category do they both belong to?";
          State listening (Some 2) (Some "Trial 2")]
    /\ trial_number (handler w') = 2.
Proof.
  destruct (abstraction_upload_plays_next_trial friendly_env 1 loud_audio
              ("Banana", "Orange") init_world)
    as (w' & new & Hrun & Htr & Hst & _ & Hn & _).
  - by right.
  - reflexivity.
  - exists w', new. split; [exact Hrun|]. split; [exact Htr|]. split; [exact Hst|exact Hn].
Defined.

(** X20 (AbstractionTaskHandler._handle_audio_upload, send_trial_audio):
    the abstraction handler does not reject trial numbers below zero.  An
    upload with the number [k < 0] makes it play "trial [k + 1]": the
    handler's trial number and phase are set to that number, and, since a
    negative index counts from the end of the list of trials, the upload
    -1 has the pair of the last trial spoken under the trial number 0, the
    upload -2 the pair of the first trial under the number -1; below that
    the index is out of range, and the error is swallowed after the state
    was changed. *)
Theorem abstraction_upload_accepts_negative_trials env k audio_bytes w :
  k < 0 ->
  exists w' new,
    run env (Abstraction.coro_body (Abstraction._handle_audio_upload k audio_bytes)) w
    = (Returned tt, w')
    /\ trace w' = trace w ++ new
    /\ trial_number (handler w') = k + 1
    /\ current_phase (handler w') = "trial_" +:+ str_int (k + 1)
    /\ steps new
       = (if k =? -1 then
            [Speak (Abstraction.trial_text 0 "Banana" "Orange");
             State listening (Some 0) (Some "Trial 0")]
          else if k =? -2 then
            [Speak (Abstraction.trial_text (-1) "Train" "Bicycle");
             State listening (Some (-1)) (Some "Trial -1")]
          else []).
Proof.
  intros Hk.
  assert (Hco : Abstraction._handle_audio_upload k audio_bytes
                = Abstraction.co_send_next_trial_immediately (k + 1)).
  { unfold Abstraction._handle_audio_upload.
    destruct (Z.eqb_spec k 0); [lia|].
    destruct (Z.ltb_spec k (Z.of_nat (length Abstraction.ABSTRACTION_SCRIPT_trials)));
      [done|simpl in *; lia]. }
  rewrite Hco. cbn [Abstraction.coro_body]. unfold Abstraction._send_next_trial_immediately.
  rewrite run_try_except.
  destruct (Z.eqb_spec k (-1)) as [->|Hk1]; [|destruct (Z.eqb_spec k (-2)) as [->|Hk2]].
  - destruct (run_send_trial_audio env 0 ("Banana", "Orange") w)
      as (w' & new & Hrun & Htr & Hst & _ & Hh); [lia|done|].
    change (-1 + 1) with 0. rewrite Hrun. exists w', new. by rewrite Hh.
  - destruct (run_send_trial_audio env (-1) ("Train", "Bicycle") w)
      as (w' & new & Hrun & Htr & Hst & _ & Hh); [lia|done|].
    change (-2 + 1) with (-1). rewrite Hrun. exists w', new. by rewrite Hh.
  - unfold Abstraction.send_trial_audio.
    destruct (Z.ltb_spec (Z.of_nat (length Abstraction.ABSTRACTION_SCRIPT_trials)) (k + 1))
      as [Hgt|_]; [simpl in Hgt; lia|].
    rewrite !run_modify. cbn [handler with_handler].
    assert (Hidx : py_index Abstraction.ABSTRACTION_SCRIPT_trials (k + 1 - 1)
                   = Raised "list index out of range").
    { unfold py_index. cbn [length Abstraction.ABSTRACTION_SCRIPT_trials].
      destruct (Z.ltb_spec (k + 1 - 1) 0); [|lia].
      destruct (Z.ltb_spec (k + 1 - 1 + Z.of_nat 2) 0); [done|lia]. }
    rewrite Hidx. cbn [of_outcome mbind Prog_bind bind run].
    eexists _, []. split; [done|]. split; [by rewrite app_nil_r|]. done.
Qed.

Lemma abstraction_upload_accepts_negative_trials_witness :
  exists w' new,
    run friendly_env
      (Abstraction.coro_body (Abstraction._handle_audio_upload (-1) loud_audio)) init_world
    = (Returned tt, w')
    /\ trace w' = trace init_world ++ new
    /\ trial_number (handler w') = 0
    /\ steps new
       = [Speak "Alright now let's do that one more time, again, you'll have 10 seconds to respond. This time your words are Banana and Orange. What category do they both belong to?";
          State listening (Some 0) (Some "Trial 0")].
Proof.
  destruct (abstraction_upload_accepts_negative_trials friendly_env (-1) loud_audio init_world)
    as (w' & new & Hrun & Htr & Hn & _ & Hst).
  - lia.
  - exists w', new. split; [exact Hrun|]. split; [exact Htr|]. split; [exact Hn|exact Hst].
Defined.

(** X21 (AbstractionTaskHandler._handle_audio_upload, _send_completion,
    send_all_results): in the abstraction handler the completion is not
    guarded: every upload with a trial number of 2 or more sends the task
    state "complete" and the aggregate of the results stored so far,
    whether or not a completion was sent before; so each such upload adds
    one aggregate to what the client receives. *)
Theorem abstraction_completion_is_sent_every_time env k audio_bytes w :
  2 <= k ->
  exists w' r1 r2,
    run env (Abstraction.coro_body (Abstraction._handle_audio_upload k audio_bytes)) w
    = (Returned tt, w')
    /\ trace w'
       = trace w ++ [EvSend (task_state {| ts_state := complete_state;
                                           ts_trial_number := None;
                                           ts_message := Some "Task completed!" |}) r1;
                     EvSend (all_results (evaluation_results (handler w))) r2]
    /\ handler w' = set_current_phase "complete" (handler w)
    /\ length (sent_aggregates (trace w')) = S (length (sent_aggregates (trace w))).
Proof.
  intros Hk.
  assert (Hco : Abstraction._handle_audio_upload k audio_bytes
                = Abstraction.co_send_completion_immediately).
  { unfold Abstraction._handle_audio_upload.
    destruct (Z.eqb_spec k 0); [lia|].
    destruct (Z.ltb_spec k (Z.of_nat (length Abstraction.ABSTRACTION_SCRIPT_trials)));
      [simpl in *; lia|done]. }
  rewrite Hco. cbn [Abstraction.coro_body].
  unfold Abstraction._send_completion_immediately, Abstraction._send_completion,
    send_all_results.
  rewrite run_try_except, run_modify, run_bind, run_send_task_state, run_send_aggregate.
  eexists _, _, _. split; [done|]. split.
  - cbn [sent log trace with_handler handler evaluation_results set_current_phase].
    by rewrite <- app_assoc.
  - split; [done|].
    cbn [sent log trace with_handler handler]. rewrite !sent_aggregates_app.
    rewrite !length_app. simpl. lia.
Qed.

Lemma abstraction_completion_is_sent_every_time_witness :
  exists w' w'',
    run friendly_env
      (Abstraction.coro_body (Abstraction._handle_audio_upload 2 loud_audio)) init_world
    = (Returned tt, w')
    /\ run friendly_env
         (Abstraction.coro_body (Abstraction._handle_audio_upload 2 loud_audio)) w'
       = (Returned tt, w'')
    /\ length (sent_aggregates (trace w'')) = 2%nat.
Proof.
  destruct (abstraction_completion_is_sent_every_time friendly_env 2 loud_audio init_world)
    as (w' & r1 & r2 & Hrun & _ & _ & Hn); [lia|].
  destruct (abstraction_completion_is_sent_every_time friendly_env 2 loud_audio w')
    as (w'' & r1' & r2' & Hrun' & _ & _ & Hn'); [lia|].
  exists w', w''. split; [exact Hrun|]. split; [exact Hrun'|].
  rewrite Hn', Hn. reflexivity.
Defined.

Lemma run_transcribe_handler fs fp env audio_bytes w r w1 :
  run env (transcribe_audio fs fp audio_bytes) w = (r, w1) -> handler w1 = handler w.
Proof.
  intros Hrun.
  destruct (_is_silent fs fp audio_bytes SILENCE_THRESHOLD) eqn:Hs.
  - rewrite (run_transcribe_silent _ _ _ _ _ Hs) in Hrun. by injection Hrun as _ <-.
  - destruct (N.lt_ge_cases (N.of_nat (length audio_bytes) + 36) (2 ^ 32)) as [Hn|Hn].
    + destruct (wav_header_returns _ Hn) as (f & d & _ & _ & _ & _ & _ & _ & Hh).
      rewrite (run_transcribe_loud _ _ _ _ _ _ Hs Hh) in Hrun. by injection Hrun as _ <-.
    + rewrite (transcribe_audio_oversized _ _ _ _ _ Hs Hn) in Hrun. by injection Hrun as _ <-.
Qed.

(** What an evaluation read from a reply holds under "is_correct". *)
Lemma read_abstraction_reply_verdict rt result evaluation :
  Abstraction.read_abstraction_reply rt result = Returned evaluation ->
  exists members,
    result = JObject members
    /\ Abstraction.is_correct evaluation
       = get_default (lookup_member "is_correct" members) (JBool false).
Proof.
  unfold Abstraction.read_abstraction_reply.
  destruct result as [| | | | | |members]; try discriminate.
  cbn [py_get and_then].
  destruct (py_float rt (get_default (lookup_member "confidence" members) (JFloat 0.0)))
    as [conf|e]; [|discriminate]. cbn [and_then].
  intros [= <-]. by exists members.
Qed.

(** X22 (_evaluate_audio_background, AbstractionTaskHandler.add_evaluation_result,
    evaluate_abstraction_response): the abstraction task has no evaluation
    gate.  For a recording for trial 1 or 2 whose transcription does not
    fail, whatever the store already holds for that trial: when pydantic
    accepts the values of the evaluation, one result is appended to the
    store and sent, which names the trial, its pair of words and the
    transcript; when it refuses them, nothing is stored or sent.  A
    category that is a string or null, with a verdict that is a bool and
    notes that are a string, is accepted; a blank transcript and a failed
    request always give a result, marked incorrect; notes or a verdict
    that are null give none.  The verdict is False unless the transcript
    is not blank and the grader replied with an object that holds another
    value under "is_correct". *)
Theorem abstraction_results_are_not_gated
    (float_sum : list float -> float) (float_pow_half : float -> float)
    (rt : Runtime)
    env audio_bytes trial reply pair transcript w w1 :
  trial = 1 \/ trial = 2 ->
  Abstraction.ABSTRACTION_SCRIPT_trials !! Z.to_nat (trial - 1) = Some pair ->
  run env (transcribe_audio float_sum float_pow_half audio_bytes) w
  = (Returned transcript, w1) ->
  let evaluation :=
    Abstraction.evaluate_abstraction_response rt pair.1 pair.2 transcript reply in
  let stored w' result :=
    evaluation_results (handler w') = evaluation_results (handler w) ++ [result]
    /\ sent_results (trace w') = sent_results (trace w1) ++ [result] in
  let dropped w' :=
    evaluation_results (handler w') = evaluation_results (handler w)
    /\ trace w' = trace w1 in
  exists w',
    run env (Abstraction._evaluate_audio_background
               float_sum float_pow_half rt audio_bytes trial reply) w = (Returned tt, w')
    /\ match Abstraction.new_abstraction_result rt trial pair.1 pair.2 transcript
               (Abstraction.category evaluation) (Abstraction.is_correct evaluation)
               (Abstraction.confidence evaluation) (Abstraction.notes evaluation) with
       | Returned result =>
           stored w' result
           /\ er_trial_number result = trial
           /\ er_word1 result = Some pair.1 /\ er_word2 result = Some pair.2
           /\ er_transcript result = transcript
       | Raised _ => dropped w'
       end
    /\ (forall cat ok nt,
          validate_optional_str rt (Abstraction.category evaluation) = Some cat ->
          Abstraction.is_correct evaluation = JBool ok ->
          Abstraction.notes evaluation = JString nt ->
          stored w'
            {| er_trial_number := trial;
               er_word1 := Some pair.1; er_word2 := Some pair.2; er_category := cat;
               er_words := None; er_correct_words := None; er_score := None;
               er_transcript := transcript;
               er_is_correct := ok;
               er_confidence := Abstraction.confidence evaluation;
               er_notes := nt |})
    /\ (strip_is_empty transcript = true \/ (exists e, reply = Raised e) ->
        exists result, stored w' result /\ er_is_correct result = false)
    /\ (Abstraction.notes evaluation = JNull \/ Abstraction.is_correct evaluation = JNull ->
        dropped w')
    /\ (Abstraction.is_correct evaluation <> JBool false ->
        strip_is_empty transcript = false
        /\ exists members,
             reply = Returned (JObject members)
             /\ lookup_member "is_correct" members
                = Some (Abstraction.is_correct evaluation)).
Proof.
  intros Ht Hpair Htr evaluation stored dropped.
  assert (Hh := run_transcribe_handler _ _ _ _ _ _ _ Htr).
  set (built := Abstraction.new_abstraction_result rt trial pair.1 pair.2 transcript
                  (Abstraction.category evaluation) (Abstraction.is_correct evaluation)
                  (Abstraction.confidence evaluation) (Abstraction.notes evaluation)).
  assert (Hlen : (0 <? trial)
                 && (trial <=? Z.of_nat (length Abstraction.ABSTRACTION_SCRIPT_trials)) = true)
    by (by destruct Ht as [->| ->]).
  assert (Hidx : py_index Abstraction.ABSTRACTION_SCRIPT_trials (trial - 1) = Returned pair).
  { destruct Ht as [->| ->]; simpl in Hpair; by injection Hpair as <-. }
  assert (Hmain : exists w',
    run env (Abstraction._evaluate_audio_background
               float_sum float_pow_half rt audio_bytes trial reply) w = (Returned tt, w')
    /\ match built with
       | Returned result =>
           stored w' result
           /\ er_trial_number result = trial
           /\ er_word1 result = Some pair.1 /\ er_word2 result = Some pair.2
           /\ er_transcript result = transcript
       | Raised _ => dropped w'
       end).
  { unfold Abstraction._evaluate_audio_background.
    rewrite run_try_except, run_bind, Htr.
    rewrite Hlen, Hidx, run_returned. cbv zeta.
    unfold Abstraction.add_evaluation_result. fold evaluation. fold built.
    destruct built as [result|e] eqn:Hbuilt.
    - rewrite run_returned.
      unfold BaseTaskHandler_add_evaluation_result. rewrite run_modify.
      unfold send_evaluation_result. rewrite run_guarded_send.
      eexists. split; [done|]. unfold stored.
      cbn [sent log trace with_handler handler evaluation_results set_evaluation_results].
      rewrite Hh. split; [split; [done|by rewrite sent_results_app]|].
      subst built. unfold Abstraction.new_abstraction_result in Hbuilt.
      destruct (validate_optional_str rt _); [|done].
      destruct (validate_bool rt _); [|done].
      destruct (validate_str rt _); [|done].
      by injection Hbuilt as <-.
    - cbn [of_outcome bind Prog_bind mbind run]. eexists. split; [done|].
      unfold dropped. by rewrite Hh. }
  destruct Hmain as (w' & Hrun & Hbuilt). exists w'.
  split; [done|]. split; [done|].
  assert (Hverdict : Abstraction.is_correct evaluation <> JBool false ->
    strip_is_empty transcript = false
    /\ exists members,
         reply = Returned (JObject members)
         /\ lookup_member "is_correct" members = Some (Abstraction.is_correct evaluation)).
  { unfold evaluation, Abstraction.evaluate_abstraction_response.
    destruct (bool_decide (transcript = "") || strip_is_empty transcript) eqn:Hb; [done|].
    apply orb_false_iff in Hb as [_ Hb]. intros Hc. split; [done|].
    destruct reply as [result|e]; cbn [and_then] in *; [|done].
    destruct (Abstraction.read_abstraction_reply rt result) as [ev|e] eqn:Hread; [|done].
    apply read_abstraction_reply_verdict in Hread as (members & -> & Hok).
    exists members. split; [done|]. rewrite Hok in *.
    by destruct (lookup_member "is_correct" members). }
  split; [|split; [|split; [|exact Hverdict]]].
  - intros cat ok nt Hcat Hok Hnt. subst built.
    unfold Abstraction.new_abstraction_result in Hbuilt.
    rewrite Hcat, Hok, Hnt in Hbuilt. cbn [validate_bool validate_str] in Hbuilt.
    by destruct Hbuilt.
  - intros Hcase.
    assert (Hev : exists conf nt,
               evaluation = {| Abstraction.category := JString "none";
                               Abstraction.is_correct := JBool false;
                               Abstraction.confidence := conf;
                               Abstraction.notes := JString nt |}).
    { unfold evaluation, Abstraction.evaluate_abstraction_response.
      destruct Hcase as [Hb|[e ->]].
      - rewrite (strip_is_empty_blank _ Hb). by eexists _, _.
      - destruct (bool_decide (transcript = "") || strip_is_empty transcript);
          by eexists _, _. }
    destruct Hev as (conf & nt & Hev). subst built. rewrite Hev in Hbuilt.
    unfold Abstraction.new_abstraction_result in Hbuilt.
    cbn [validate_optional_str validate_bool validate_str Abstraction.category
           Abstraction.is_correct Abstraction.confidence Abstraction.notes] in Hbuilt.
    eexists. split; [apply Hbuilt|done].
  - intros Hnull. subst built. unfold Abstraction.new_abstraction_result in Hbuilt.
    destruct (validate_optional_str rt (Abstraction.category evaluation)); [|done].
    destruct Hnull as [Hnull|Hnull]; rewrite Hnull in Hbuilt;
      cbn [validate_str validate_bool] in Hbuilt;
      [by destruct (validate_bool rt (Abstraction.is_correct evaluation))|done].
Qed.

Lemma abstraction_results_are_not_gated_witness :
  exists w' w'',
    run friendly_env
      (Abstraction._evaluate_audio_background plain_float_sum PrimFloat.sqrt example_runtime [] 1
         (Raised "unused")) init_world = (Returned tt, w')
    /\ run friendly_env
         (Abstraction._evaluate_audio_background plain_float_sum PrimFloat.sqrt example_runtime [] 1
            (Raised "unused")) w' = (Returned tt, w'')
    /\ map er_trial_number (evaluation_results (handler w'')) = [1; 1].
Proof.
  destruct (abstraction_results_are_not_gated plain_float_sum PrimFloat.sqrt example_runtime
              friendly_env [] 1 (Raised "unused") ("Train", "Bicycle") "" init_world init_world)
    as (w' & Hrun & Hbuilt & _); [by left|reflexivity|reflexivity|].
  destruct (abstraction_results_are_not_gated plain_float_sum PrimFloat.sqrt example_runtime
              friendly_env [] 1 (Raised "unused") ("Train", "Bicycle") "" w' w')
    as (w'' & Hrun' & Hbuilt' & _); [by left|reflexivity|reflexivity|].
  cbn in Hbuilt, Hbuilt'.
  destruct Hbuilt as [[Hres _] _]. destruct Hbuilt' as [[Hres' _] _].
  exists w', w''. split; [exact Hrun|]. split; [exact Hrun'|].
  rewrite Hres', Hres. reflexivity.
Defined.
(** ** services/tts_service.py: normalization and the cache *)

Lemma is_space_lower_char c : is_space (TTS.lower_char c) = is_space c.
Proof. destruct c as [[] [] [] [] [] [] [] []]; reflexivity. Qed.

Lemma lower_char_idem c : TTS.lower_char (TTS.lower_char c) = TTS.lower_char c.
Proof. destruct c as [[] [] [] [] [] [] [] []]; reflexivity. Qed.

Lemma pieces_not_nil s : TTS.pieces s <> [].
Proof. destruct s as [|c rest]; simpl; [done|]. by repeat case_match. Qed.

Lemma pieces_cons_word c rest :
  is_space c = false ->
  exists w ws, TTS.pieces rest = w :: ws /\ TTS.pieces (c :: rest) = (c :: w) :: ws.
Proof.
  intros Hc. simpl. rewrite Hc.
  destruct (TTS.pieces rest) as [|w ws] eqn:Hp; [by apply pieces_not_nil in Hp|].
  by exists w, ws.
Qed.

Lemma pieces_lower s : TTS.pieces (TTS.lower s) = map TTS.lower (TTS.pieces s).
Proof.
  induction s as [|c rest IH]; [done|].
  cbn [TTS.lower map TTS.pieces]. fold (TTS.lower rest).
  rewrite is_space_lower_char, IH.
  destruct (is_space c); [done|]. by destruct (TTS.pieces rest).
Qed.

Lemma filter_nonempty_lower ws :
  List.filter TTS.nonempty (map TTS.lower ws) = map TTS.lower (List.filter TTS.nonempty ws).
Proof.
  induction ws as [|w ws IH]; [done|]. simpl. rewrite IH. by destruct w.
Qed.

Lemma split_lower s : TTS.split (TTS.lower s) = map TTS.lower (TTS.split s).
Proof. unfold TTS.split. by rewrite pieces_lower, filter_nonempty_lower. Qed.

Lemma split_lstrip s : TTS.split (TTS.lstrip s) = TTS.split s.
Proof.
  induction s as [|c rest IH]; [done|].
  cbn [TTS.lstrip]. destruct (is_space c) eqn:Hc; [|done].
  rewrite IH. unfold TTS.split. simpl. by rewrite Hc.
Qed.

(** Stripping on the right keeps the first piece and the words after it. *)
Lemma pieces_rstrip s :
  exists w ws ws',
    TTS.pieces s = w :: ws /\ TTS.pieces (TTS.rstrip s) = w :: ws'
    /\ List.filter TTS.nonempty ws = List.filter TTS.nonempty ws'.
Proof.
  induction s as [|c rest (w & ws & ws' & Hp & Hr & Hf)]; [by exists [], [], []|].
  cbn [TTS.rstrip TTS.pieces]. rewrite Hp.
  destruct (TTS.rstrip rest) as [|c' r] eqn:Hrs.
  - simpl in Hr. injection Hr as <- <-.
    simpl in Hf.
    destruct (is_space c) eqn:Hc; [exists [], ([] :: ws), []|exists [c], ws, []];
      simpl; rewrite ?Hc; done.
  - change (TTS.pieces (c :: c' :: r))
      with (if is_space c then [] :: TTS.pieces (c' :: r)
            else match TTS.pieces (c' :: r) with
                 | w :: ws => (c :: w) :: ws
                 | [] => [[c]]
                 end).
    rewrite Hr. destruct (is_space c).
    + exists [], (w :: ws), (w :: ws'). simpl. by rewrite Hf.
    + by exists (c :: w), ws, ws'.
Qed.

Lemma split_rstrip s : TTS.split (TTS.rstrip s) = TTS.split s.
Proof.
  destruct (pieces_rstrip s) as (w & ws & ws' & Hp & Hr & Hf).
  unfold TTS.split. rewrite Hp, Hr. simpl. by rewrite Hf.
Qed.

Lemma split_strip s : TTS.split (TTS.strip s) = TTS.split s.
Proof. unfold TTS.strip. by rewrite split_rstrip, split_lstrip. Qed.

(** The words of a text as [_normalize_text] sees them. *)
Lemma normalize_text_words text :
  TTS._normalize_text text
  = join " " (map string_of_list_ascii
                (map TTS.lower (TTS.split (list_ascii_of_string text)))).
Proof.
  unfold TTS._normalize_text. rewrite split_lower. do 2 f_equal.
  rewrite <- !split_lower. unfold TTS.split.
  rewrite !pieces_lower, !filter_nonempty_lower. f_equal.
  fold (TTS.split (TTS.strip (list_ascii_of_string text))).
  fold (TTS.split (list_ascii_of_string text)). apply split_strip.
Qed.

Lemma list_ascii_of_string_app a b :
  list_ascii_of_string (a +:+ b) = list_ascii_of_string a ++ list_ascii_of_string b.
Proof. induction a as [|c a IH]; [done|]. simpl. by rewrite IH. Qed.

Lemma pieces_no_space s :
  Forall (Forall (fun c => is_space c = false)) (TTS.pieces s).
Proof.
  induction s as [|c rest IH]; [by repeat constructor|].
  simpl. destruct (is_space c) eqn:Hc; [by constructor|].
  destruct (TTS.pieces rest) as [|w ws]; [by repeat constructor|].
  apply Forall_cons in IH as [Hw Hws]. constructor; [by constructor|done].
Qed.

Lemma split_words s :
  Forall (fun w => w <> [] /\ Forall (fun c => is_space c = false) w) (TTS.split s).
Proof.
  unfold TTS.split. pose proof (pieces_no_space s) as H.
  induction H as [|w ws Hw _ IH]; [constructor|].
  simpl. destruct w; [done|]. constructor; [done|]. exact IH.
Qed.

Lemma pieces_word_app w s :
  Forall (fun c => is_space c = false) w ->
  exists hd tl, TTS.pieces s = hd :: tl /\ TTS.pieces (w ++ s) = (w ++ hd) :: tl.
Proof.
  induction 1 as [|c w Hc _ (hd & tl & Hs & Hws)].
  - destruct (TTS.pieces s) as [|hd tl] eqn:Hp; [by apply pieces_not_nil in Hp|].
    by exists hd, tl.
  - exists hd, tl. split; [done|]. simpl. by rewrite Hc, Hws.
Qed.

Lemma split_join ws :
  Forall (fun w => w <> [] /\ Forall (fun c => is_space c = false) w) ws ->
  TTS.split (list_ascii_of_string (join " " (map string_of_list_ascii ws))) = ws.
Proof.
  induction 1 as [|w ws [Hne Hw] Hws IH]; [done|].
  destruct ws as [|w2 rest].
  - cbn [map join]. rewrite list_ascii_of_string_of_list_ascii.
    destruct (pieces_word_app w [] Hw) as (hd & tl & Hs & Hp).
    simpl in Hs. injection Hs as <- <-. rewrite app_nil_r in Hp.
    unfold TTS.split. rewrite Hp. simpl. by destruct w.
  - change (join " " (map string_of_list_ascii (w :: w2 :: rest)))
      with (string_of_list_ascii w +:+ " "
            +:+ join " " (map string_of_list_ascii (w2 :: rest))).
    rewrite !list_ascii_of_string_app, list_ascii_of_string_of_list_ascii.
    set (s := list_ascii_of_string (join " " (map string_of_list_ascii (w2 :: rest)))) in *.
    change (list_ascii_of_string " ") with [" "%char].
    destruct (pieces_word_app w ([" "%char] ++ s) Hw) as (hd & tl & Hs & Hp).
    simpl in Hs. injection Hs as <- <-. rewrite app_nil_r in Hp.
    unfold TTS.split in *. rewrite Hp. simpl. rewrite IH. by destruct w.
Qed.

Lemma lower_idem s : TTS.lower (TTS.lower s) = TTS.lower s.
Proof. unfold TTS.lower. rewrite map_map. apply map_ext. intros c. apply lower_char_idem. Qed.

Lemma lower_words_ok ws :
  Forall (fun w => w <> [] /\ Forall (fun c => is_space c = false) w) ws ->
  Forall (fun w => w <> [] /\ Forall (fun c => is_space c = false) w) (map TTS.lower ws).
Proof.
  induction 1 as [|w ws [Hne Hw] _ IH]; [constructor|].
  simpl. constructor; [|done]. split; [by destruct w|].
  unfold TTS.lower. apply Forall_map. eapply Forall_impl; [exact Hw|].
  intros c Hc. simpl. by rewrite is_space_lower_char.
Qed.

Lemma rstrip_app_space s : TTS.rstrip (s ++ [" "%char]) = TTS.rstrip s.
Proof.
  induction s as [|c rest IH]; [done|].
  cbn [app]. cbn [TTS.rstrip]. by rewrite IH.
Qed.

Lemma split_padded s :
  TTS.split ([" "%char; " "%char] ++ s ++ [" "%char]) = TTS.split s.
Proof.
  rewrite <- (split_lstrip (_ ++ _)). cbn [app TTS.lstrip].
  change (is_space " ") with true. cbv iota. rewrite split_lstrip.
  by rewrite <- split_rstrip, rstrip_app_space, split_rstrip.
Qed.

(** X23 (_normalize_text): normalizing is idempotent, and it ignores what
    the cache key is meant to ignore: the case of the letters, white space
    at either end, and how much white space (and of which kind) separates
    the words. *)
Theorem normalize_text_is_canonical text :
  TTS._normalize_text (TTS._normalize_text text) = TTS._normalize_text text
  /\ (forall text',
        map TTS.lower (TTS.split (list_ascii_of_string text'))
        = map TTS.lower (TTS.split (list_ascii_of_string text)) ->
        TTS._normalize_text text' = TTS._normalize_text text)
  /\ TTS._normalize_text ("  " +:+ text +:+ " ") = TTS._normalize_text text
  /\ TTS._normalize_text
       (string_of_list_ascii (TTS.lower (list_ascii_of_string text)))
     = TTS._normalize_text text.
Proof.
  split; [|split; [|split]].
  - rewrite (normalize_text_words (TTS._normalize_text text)).
    rewrite (normalize_text_words text) at 1.
    rewrite split_join by apply lower_words_ok, split_words.
    rewrite (normalize_text_words text). do 2 f_equal.
    rewrite map_map. apply map_ext. intros w. apply lower_idem.
  - intros text' Heq. by rewrite !normalize_text_words, Heq.
  - rewrite !normalize_text_words, !list_ascii_of_string_app.
    change (list_ascii_of_string "  ") with [" "%char; " "%char].
    change (list_ascii_of_string " ") with [" "%char].
    by rewrite split_padded.
  - rewrite !normalize_text_words, list_ascii_of_string_of_list_ascii, split_lower.
    do 2 f_equal. rewrite map_map. apply map_ext. intros w. apply lower_idem.
Qed.

(** *** The cache *)

Lemma string_length_app a b :
  String.length (a +:+ b) = (String.length a + String.length b)%nat.
Proof. induction a as [|c a IH]; [done|]. simpl. by rewrite IH. Qed.

Lemma substring_0_length n : forall s,
  String.length (substring 0 n s) = (n `min` String.length s)%nat.
Proof.
  induction n as [|n IH]; intros [|c s]; simpl; try done. by rewrite IH.
Qed.

(** The metadata never lands on the audio file. *)
Lemma metadata_path_differs p : TTS.metadata_path p <> p.
Proof.
  intros Heq. apply (f_equal String.length) in Heq.
  unfold TTS.metadata_path in Heq.
  rewrite string_length_app, substring_0_length in Heq. simpl in Heq. lia.
Qed.

Lemma save_to_cache_stores json io path audio md d :
  TTS.can_write io path = true ->
  TTS.files (TTS._save_to_cache json io path audio (Some md) d) !! path = Some audio
  /\ TTS.requests (TTS._save_to_cache json io path audio (Some md) d) = TTS.requests d.
Proof.
  intros Hw. unfold TTS._save_to_cache. rewrite Hw.
  destruct (TTS.can_write io (TTS.metadata_path path)); simpl.
  - split; [|done]. rewrite lookup_insert_ne by apply metadata_path_differs.
    apply lookup_insert_eq.
  - split; [|done]. apply lookup_insert_eq.
Qed.

(** X24 (generate_audio, _save_to_cache, _load_from_cache, _get_cache_key):
    what is synthesized once is served from the cache afterwards.  When a
    text misses the cache, ElevenLabs answers with some audio and the file
    can be written, the call returns that audio after one request; and any
    later call on the resulting disk, for any text with the same normal
    form (and the same voice), returns the same audio without a request
    and without touching the disk, whether or not the metadata could be
    written. *)
Theorem synthesized_audio_is_served_from_cache
    (sha256_hexdigest : string -> string) (json_dumps : TTS.Metadata -> bytes)
    self io text text' voice d path audio :
  let voice_id_to_use :=
    match voice with
    | Some v => if bool_decide (v = "") then TTS.voice_id self else v
    | None => TTS.voice_id self
    end in
  TTS._get_cache_path self io
    (TTS._get_cache_key sha256_hexdigest text voice_id_to_use
       TTS.model_id TTS.audio_format TTS.sample_rate) TTS.audio_format = Returned path ->
  TTS._load_from_cache io path d = None ->
  TTS.text_to_speech_convert io voice_id_to_use text = Returned audio ->
  TTS.can_write io path = true ->
  TTS.can_read io path = true ->
  TTS._normalize_text text' = TTS._normalize_text text ->
  exists d1,
    TTS.generate_audio sha256_hexdigest json_dumps self io text voice d = (Returned audio, d1)
    /\ TTS.requests d1 = TTS.requests d ++ [(voice_id_to_use, text)]
    /\ TTS.generate_audio sha256_hexdigest json_dumps self io text' voice d1
       = (Returned audio, d1).
Proof.
  intros v Hpath Hmiss Hconv Hw Hr Hnorm.
  eexists. split; [|split].
  - unfold TTS.generate_audio. fold v. rewrite Hpath, Hmiss, Hconv. reflexivity.
  - by destruct (save_to_cache_stores json_dumps io path audio
                   {| TTS.original_text := text;
                      TTS.normalized_text := TTS._normalize_text text;
                      TTS.md_voice_id := v; TTS.md_model_id := TTS.model_id;
                      TTS.md_audio_format := TTS.audio_format;
                      TTS.md_sample_rate := TTS.sample_rate;
                      TTS.md_cache_key :=
                        TTS._get_cache_key sha256_hexdigest text v
                          TTS.model_id TTS.audio_format TTS.sample_rate |}
                   {| TTS.files := TTS.files d;
                      TTS.requests := TTS.requests d ++ [(v, text)] |} Hw) as [_ ->].
  - unfold TTS.generate_audio at 1. fold v.
    assert (Hkey : TTS._get_cache_key sha256_hexdigest text' v
                     TTS.model_id TTS.audio_format TTS.sample_rate
                   = TTS._get_cache_key sha256_hexdigest text v
                       TTS.model_id TTS.audio_format TTS.sample_rate).
    { unfold TTS._get_cache_key. by rewrite Hnorm. }
    rewrite Hkey, Hpath. unfold TTS._load_from_cache at 1.
    destruct (save_to_cache_stores json_dumps io path audio
                {| TTS.original_text := text;
                   TTS.normalized_text := TTS._normalize_text text;
                   TTS.md_voice_id := v; TTS.md_model_id := TTS.model_id;
                   TTS.md_audio_format := TTS.audio_format;
                   TTS.md_sample_rate := TTS.sample_rate;
                   TTS.md_cache_key :=
                     TTS._get_cache_key sha256_hexdigest text v
                       TTS.model_id TTS.audio_format TTS.sample_rate |}
                {| TTS.files := TTS.files d;
                   TTS.requests := TTS.requests d ++ [(v, text)] |} Hw) as [-> _].
    by rewrite Hr.
Qed.

Lemma synthesized_audio_is_served_from_cache_witness :
  exists d1,
    TTS.generate_audio toy_digest toy_json_dumps toy_service toy_io
      "Now you repeat them." None empty_disk
    = (Returned [Byte.x49; Byte.x44; Byte.x33], d1)
    /\ TTS.requests d1 = [("nPczCjzI2devNBz1zQrb", "Now you repeat them.")]
    /\ TTS.generate_audio toy_digest toy_json_dumps toy_service toy_io
         "  now YOU repeat   them. " None d1
       = (Returned [Byte.x49; Byte.x44; Byte.x33], d1).
Proof.
  apply (synthesized_audio_is_served_from_cache toy_digest toy_json_dumps toy_service toy_io
           "Now you repeat them." "  now YOU repeat   them. " None empty_disk
           "backend/tts_cache/00/ff/00ffnow you repeat them.|nPczCjzI2devNBz1zQrb|eleven_multilingual_v2|mp3|default.mp3"
           [Byte.x49; Byte.x44; Byte.x33]).
  - vm_compute. reflexivity.
  - reflexivity.
  - reflexivity.
  - reflexivity.
  - reflexivity.
  - vm_compute. reflexivity.
Defined.

(** X25 (generate_audio, _save_to_cache, _load_from_cache): what
    [generate_audio] returns is the cached audio or the answer of
    ElevenLabs, never anything else, and it makes at most one request.  An
    error (of [mkdir], or of ElevenLabs) is raised again and leaves every
    file as it was.  A disk that cannot be written is not an error: on a
    miss the answer of ElevenLabs is returned all the same, and the files
    are left as they were. *)
Theorem generate_audio_outcomes
    (sha256_hexdigest : string -> string) (json_dumps : TTS.Metadata -> bytes)
    self io text voice d :
  let voice_id_to_use :=
    match voice with
    | Some v => if bool_decide (v = "") then TTS.voice_id self else v
    | None => TTS.voice_id self
    end in
  let cache_path :=
    TTS._get_cache_path self io
      (TTS._get_cache_key sha256_hexdigest text voice_id_to_use
         TTS.model_id TTS.audio_format TTS.sample_rate) TTS.audio_format in
  let result := TTS.generate_audio sha256_hexdigest json_dumps self io text voice d in
  (TTS.requests result.2 = TTS.requests d
   \/ TTS.requests result.2 = TTS.requests d ++ [(voice_id_to_use, text)])
  /\ (forall e, result.1 = Raised e ->
        TTS.files result.2 = TTS.files d
        /\ (cache_path = Raised e
            \/ TTS.text_to_speech_convert io voice_id_to_use text = Raised e))
  /\ (forall audio, result.1 = Returned audio ->
        exists path,
          cache_path = Returned path
          /\ ((TTS._load_from_cache io path d = Some audio /\ result.2 = d)
              \/ (TTS._load_from_cache io path d = None
                  /\ TTS.text_to_speech_convert io voice_id_to_use text = Returned audio
                  /\ (TTS.can_write io path = false -> TTS.files result.2 = TTS.files d))))
  /\ (forall path audio,
        cache_path = Returned path ->
        TTS._load_from_cache io path d = None ->
        TTS.text_to_speech_convert io voice_id_to_use text = Returned audio ->
        result.1 = Returned audio).
Proof.
  intros v cache_path result. subst result. unfold TTS.generate_audio. fold v. fold cache_path.
  destruct cache_path as [path|e] eqn:Hpath; cbn [fst snd].
  - destruct (TTS._load_from_cache io path d) as [cached|] eqn:Hload; cbn [fst snd].
    + split; [by left|]. split; [discriminate|]. split.
      * intros audio [= <-]. exists path. split; [done|]. by left.
      * intros path' audio [= <-] Hnone. congruence.
    + destruct (TTS.text_to_speech_convert io v text) as [a|e] eqn:Hconv; cbn [fst snd].
      * split.
        { right. unfold TTS._save_to_cache.
          destruct (TTS.can_write io path); [|done].
          by destruct (TTS.can_write io (TTS.metadata_path path)). }
        split; [discriminate|]. split.
        -- intros audio [= <-]. exists path. split; [done|]. right.
           split; [done|]. split; [done|]. intros Hw.
           unfold TTS._save_to_cache. by rewrite Hw.
        -- by intros path' audio [= <-] _ [= <-].
      * split; [by right|]. split.
        -- intros e' [= <-]. split; [done|]. by right.
        -- split; [discriminate|]. by intros path' audio [= <-] _ ?.
  - split; [by left|]. split.
    + intros e' [= <-]. split; [done|]. by left.
    + split; [discriminate|]. intros path audio Hp. discriminate Hp.
Qed.
(** ** Time spent sleeping and waiting *)

Lemma run_obeys {A} (I : Handler -> Prop) (E : TraceEvent -> Prop) env (p : Prog A) :
  (forall h, I h -> I (audio_complete_set h)) ->
  forall w, I (handler w) -> obeys I E p (handler w) -> I (handler (run env p w).2).
Proof.
  intros Hack.
  induction p as [a|e|k IH|h' k IH|m k IH|ms k IH|t k IH|text k IH|audio k IH
                  |ws tr k IH|c k IH|k IH]; intros w Hw Hp; simpl in *.
  - done.
  - done.
  - by apply IH.
  - destruct Hp as [Hh' Hk]. by apply (IH (with_handler h' w)).
  - destruct Hp as [_ Hk]. apply IH; [done|]. by apply Hk.
  - destruct Hp as [_ Hk]. apply IH; [done|]. by apply Hk.
  - destruct Hp as [_ Hk].
    assert (Hr : I (handler (resolve_wait env t w).2))
      by (unfold resolve_wait; repeat case_match; simpl; auto).
    apply IH; [done|]. by apply Hk.
  - destruct Hp as [_ Hk]. apply IH; [done|]. by apply Hk.
  - destruct Hp as [_ Hk]. apply IH; [done|]. by apply Hk.
  - destruct Hp as [_ Hk]. apply IH; [done|]. by apply Hk.
  - destruct Hp as [_ Hk]. apply IH; [done|]. by apply Hk.
  - apply IH; [done|]. by apply Hp.
Qed.

Lemma run_state_ok {A} env (p : Prog A) w :
  law_abiding state_ok event_ok p -> state_ok (handler w) ->
  state_ok (handler (run env p w).2).
Proof.
  intros Hp Hw. eapply run_obeys; [apply state_ok_audio_complete_set|done|by apply Hp].
Qed.

Lemma within_mono {A} n m (p : Prog A) : (n <= m)%N -> within n p -> within m p.
Proof. intros Hnm Hp env w Hw. specialize (Hp env w Hw). lia. Qed.

Lemma within_ret {A} (a : A) : within 0 (Ret a).
Proof. intros env w _. unfold after. simpl. lia. Qed.

Lemma within_seq {A B} n m (p : Prog A) (f : A -> Prog B) :
  law_abiding state_ok event_ok p ->
  within n p -> (forall a, within m (f a)) -> within (n + m) (p ≫= f).
Proof.
  intros Hlaw Hp Hf env w Hw. unfold after. rewrite run_bind.
  specialize (Hp env w Hw). unfold after in Hp.
  pose proof (run_state_ok env p w Hlaw Hw) as Hw1.
  destruct (run env p w) as [[a|e] w1]; simpl in *; [|lia].
  specialize (Hf a env w1 Hw1). unfold after in Hf. lia.
Qed.

Lemma within_try {A} n m (p : Prog A) handle :
  law_abiding state_ok event_ok p ->
  within n p -> (forall e, within m (handle e)) -> within (n + m) (try_except p handle).
Proof.
  intros Hlaw Hp Hf env w Hw. unfold after. rewrite run_try_except.
  specialize (Hp env w Hw). unfold after in Hp.
  pose proof (run_state_ok env p w Hlaw Hw) as Hw1.
  destruct (run env p w) as [[a|e] w1]; simpl in *; [lia|].
  specialize (Hf e env w1 Hw1). unfold after in Hf. lia.
Qed.

Lemma within_guarded_send m : within 0 (try_except (websocket_send_text m) (fun _ => Ret tt)).
Proof. intros env w _. unfold after. rewrite run_guarded_send. simpl. lia. Qed.

Lemma within_sleep ms : within ms (asyncio_sleep ms).
Proof. intros env w _. unfold after. simpl. lia. Qed.

Lemma within_modify g : within 0 (modify_self g).
Proof. intros env w _. unfold after. simpl. lia. Qed.

Lemma within_send_tts_audio text trial : within 30000 (send_tts_audio text trial).
Proof.
  intros env w _. unfold after.
  destruct (run_send_tts_audio env text trial w) as (b & new & d & Hr & Ha).
  rewrite Hr. simpl. inversion Ha; subst; unfold AUDIO_COMPLETE_TIMEOUT in *; lia.
Qed.

Lemma within_send_all_results : within 0 send_all_results.
Proof.
  intros env w _. unfold after, send_all_results.
  rewrite run_modify, run_bind. unfold send_task_state.
  rewrite run_guarded_send, run_send_aggregate. simpl. lia.
Qed.

Lemma within_send_state_transition phase trial message :
  within 0 (_send_state_transition phase trial message).
Proof. apply within_guarded_send. Qed.

Lemma within_send_word_display word trial word_index :
  within 0 (_send_word_display word trial word_index).
Proof. apply within_guarded_send. Qed.

Lemma within_send_instruction : within 30100 _send_instruction.
Proof.
  eapply within_mono; cycle 1.
  - unfold _send_instruction.
    eapply within_seq; [apply lawful_modify; intros h Hh;
                        apply state_ok_set_current_phase; [set_solver|done]
                       |apply within_modify|intros _]. cbv zeta.
    eapply within_seq; [by apply lawful_send_state_transition
                       |apply within_send_state_transition|intros _].
    eapply within_seq; [apply lawful_sleep, delay_100|apply within_sleep|intros _].
    eapply within_seq; [by apply lawful_send_state_transition
                       |apply within_send_state_transition|intros _].
    apply within_send_tts_audio.
  - lia.
Qed.

Lemma within_send_completion : within 30100 _send_completion.
Proof.
  intros env w Hw. unfold after, _send_completion. rewrite run_read.
  destruct (completion_sent (handler w)); [simpl; lia|].
  revert env w Hw.
  change (within 30100
    (modify_self (set_completion_sent true);;
     let completion_text := WORKING_MEMORY_SCRIPT_completion in
     _send_state_transition completion_playing None (Some completion_text);;
     asyncio_sleep 100;;
     send_tts_audio completion_text None;;
     _send_state_transition complete None None;;
     send_all_results)).
  eapply within_mono; cycle 1.
  - eapply within_seq; [apply lawful_modify; auto using state_ok_set_completion_sent
                       |apply within_modify|intros _]. cbv zeta.
    eapply within_seq; [by apply lawful_send_state_transition
                       |apply within_send_state_transition|intros _].
    eapply within_seq; [apply lawful_sleep, delay_100|apply within_sleep|intros _].
    eapply within_seq; [apply lawful_send_tts_audio;
                        [apply completion_in_script|apply trial_tag_none]
                       |apply within_send_tts_audio|intros _].
    eapply within_seq; [by apply lawful_send_state_transition
                       |apply within_send_state_transition|intros _].
    apply within_send_all_results.
  - lia.
Qed.

Lemma within_for_word_display trial words : forall word_index,
  trial = 1 \/ trial = 2 ->
  1 <= word_index ->
  (forall i word, words !! i = Some word ->
                  SCRIPT_WORDS !! (Z.to_nat (word_index - 1) + i)%nat = Some word) ->
  within (50 * N.of_nat (length words)) (for_word_display trial word_index words).
Proof.
  induction words as [|word rest IH]; intros word_index Ht Hi Hw; [apply within_ret|].
  rewrite for_word_display_cons.
  eapply within_mono; cycle 1.
  - eapply within_seq; [|apply within_send_word_display|intros _].
    { apply lawful_send_word_display. split; [done|]. right. split; [done|].
      cbn [wd_word wd_word_index]. rewrite <- (Hw 0%nat word eq_refl). f_equal. lia. }
    eapply within_seq; [apply lawful_sleep, delay_50|apply within_sleep|intros _].
    apply (IH (word_index + 1)); [done|lia|]. intros i w Hiw.
    rewrite <- (Hw (S i) w Hiw). f_equal. lia.
  - cbn [length]. lia.
Qed.

Lemma within_send_trial_words trial :
  trial = 1 \/ trial = 2 ->
  within (if trial =? 2 then 90950 else 60850) (_send_trial_words trial).
Proof.
  intros Ht env w Hw. unfold after, _send_trial_words.
  change (run env (GetSelf Ret ≫= ?f) w) with (run env (f (handler w)) w). cbv beta.
  destruct (Z.of_nat (length (trial_words (handler w))) <? trial) eqn:Hlen.
  { pose proof (within_send_completion env w Hw) as Hc. unfold after in Hc.
    destruct (trial =? 2); lia. }
  assert (Hwords : trial_words (handler w) = [SCRIPT_WORDS; SCRIPT_WORDS]).
  { destruct Hw as ([Hw|Hw] & _); [|done]. rewrite Hw in Hlen. simpl in Hlen.
    apply Z.ltb_ge in Hlen. lia. }
  rewrite !run_modify, run_read.
  cbn [handler with_handler trial_words set_trial_number set_current_phase].
  rewrite Hwords.
  assert (Hidx : py_index [SCRIPT_WORDS; SCRIPT_WORDS] (trial - 1) = Returned SCRIPT_WORDS)
    by (by destruct Ht as [->| ->]).
  rewrite Hidx, run_returned.
  set (w2 := with_handler _ (with_handler _ w)).
  assert (Hw2 : state_ok (handler w2)).
  { apply state_ok_set_trial_number; [destruct Ht as [->| ->]; auto|].
    apply state_ok_set_current_phase; [|done]. destruct Ht as [->| ->]; set_solver. }
  change (clock w) with (clock w2). clearbody w2. clear w Hw Hlen Hwords.
  revert env w2 Hw2.
  change (within (if trial =? 2 then 90950 else 60850)
    ((if trial =? 2 then
        let intro_text := WORKING_MEMORY_SCRIPT_trial_2_intro in
        _send_state_transition trial_intro_playing (Some trial) (Some intro_text);;
        asyncio_sleep 100;;
        send_tts_audio intro_text (Some trial)
      else Ret tt);;
     _send_state_transition words_displaying (Some trial) None;;
     for_word_display trial 1 SCRIPT_WORDS;;
     asyncio_sleep 200;;
     _send_state_transition words_playing (Some trial) None;;
     let words_text := join ". " SCRIPT_WORDS +:+ "." in
     send_tts_audio words_text (Some trial);;
     _send_word_display "" trial 0;;
     asyncio_sleep 200;;
     let prompt_text := WORKING_MEMORY_SCRIPT_prompt in
     _send_state_transition prompt_playing (Some trial) (Some prompt_text);;
     asyncio_sleep 100;;
     send_tts_audio prompt_text (Some trial);;
     _send_state_transition beep_start (Some trial) None;;
     asyncio_sleep 100;;
     _send_state_transition recording (Some trial) None)).
  assert (Htag : Some trial = Some 1 \/ Some trial = Some 2)
    by (destruct Ht as [->| ->]; auto).
  eapply within_mono; cycle 1.
  - eapply (within_seq (if trial =? 2 then 30100 else 0)); [| |intros _].
    { destruct (Z.eqb_spec trial 2) as [->|]; [|apply lawful_ret]. cbv zeta.
      apply lawful_seq; [by apply lawful_send_state_transition|intros _].
      apply lawful_seq; [apply lawful_sleep, delay_100|intros _].
      apply lawful_send_tts_audio; [apply intro_in_script|apply trial_tag_trial; auto]. }
    { destruct (Z.eqb_spec trial 2) as [->|]; [|apply within_ret]. cbv zeta.
      eapply within_mono; cycle 1.
      - eapply within_seq; [by apply lawful_send_state_transition
                           |apply within_send_state_transition|intros _].
        eapply within_seq; [apply lawful_sleep, delay_100|apply within_sleep|intros _].
        apply within_send_tts_audio.
      - lia. }
    eapply within_seq; [by apply lawful_send_state_transition
                       |apply within_send_state_transition|intros _].
    eapply within_seq; [by apply lawful_for_word_display
                       |by apply within_for_word_display|intros _].
    eapply within_seq; [apply lawful_sleep, delay_200|apply within_sleep|intros _].
    eapply within_seq; [by apply lawful_send_state_transition
                       |apply within_send_state_transition|intros _]. cbv zeta.
    eapply within_seq; [apply lawful_send_tts_audio;
                        [apply words_in_script|by apply trial_tag_trial]
                       |apply within_send_tts_audio|intros _].
    eapply within_seq; [apply lawful_send_word_display; split; [done|by left]
                       |apply within_send_word_display|intros _].
    eapply within_seq; [apply lawful_sleep, delay_200|apply within_sleep|intros _].
    eapply within_seq; [by apply lawful_send_state_transition
                       |apply within_send_state_transition|intros _].
    eapply within_seq; [apply lawful_sleep, delay_100|apply within_sleep|intros _].
    eapply within_seq; [apply lawful_send_tts_audio;
                        [apply prompt_in_script|by apply trial_tag_trial]
                       |apply within_send_tts_audio|intros _].
    eapply within_seq; [by apply lawful_send_state_transition
                       |apply within_send_state_transition|intros _].
    eapply within_seq; [apply lawful_sleep, delay_100|apply within_sleep|intros _].
    apply within_send_state_transition.
  - destruct (trial =? 2); vm_compute; discriminate.
Qed.

Lemma within_start_task : within 30100 _start_task.
Proof.
  unfold _start_task. eapply within_mono; cycle 1.
  - eapply within_try; [| |intros e; apply within_guarded_send].
    + apply lawful_seq; [apply lawful_modify; auto using state_ok_set_trial_words|intros _].
      apply lawful_send_instruction.
    + cbv zeta.
      eapply within_seq; [apply lawful_modify; auto using state_ok_set_trial_words
                         |apply within_modify|intros _].
      apply within_send_instruction.
  - lia.
Qed.

Lemma lawful_recording_end trial :
  law_abiding state_ok event_ok
    (if 0 <? trial then
       _send_state_transition beep_end (Some trial) None;;
       asyncio_sleep 300;;
       _send_state_transition recording_complete (Some trial) None;;
       asyncio_sleep 200
     else Ret tt).
Proof.
  destruct (Z.ltb_spec 0 trial) as [Hpos|]; [|apply lawful_ret].
  apply lawful_seq; [apply lawful_send_state_transition; split; [by exists trial|done]
                    |intros _].
  apply lawful_seq; [apply lawful_sleep, delay_300|intros _].
  apply lawful_seq; [apply lawful_send_state_transition; split; [by exists trial|done]
                    |intros _].
  apply lawful_sleep, delay_200.
Qed.

Lemma within_recording_end trial :
  within (if 0 <? trial then 500 else 0)
    (if 0 <? trial then
       _send_state_transition beep_end (Some trial) None;;
       asyncio_sleep 300;;
       _send_state_transition recording_complete (Some trial) None;;
       asyncio_sleep 200
     else Ret tt).
Proof.
  destruct (Z.ltb_spec 0 trial) as [Hpos|]; [|apply within_ret].
  eapply within_mono; cycle 1.
  - eapply within_seq; [apply lawful_send_state_transition; split; [by exists trial|done]
                       |apply within_send_state_transition|intros _].
    eapply within_seq; [apply lawful_sleep, delay_300|apply within_sleep|intros _].
    eapply within_seq; [apply lawful_send_state_transition; split; [by exists trial|done]
                       |apply within_send_state_transition|intros _].
    apply within_sleep.
  - lia.
Qed.

Lemma within_handle_audio_upload trial audio_bytes :
  within (if trial =? 0 then 60850 else if trial =? 1 then 91450 else 30600)
    (_handle_audio_upload trial audio_bytes).
Proof.
  unfold _handle_audio_upload. eapply within_mono; cycle 1.
  - eapply (within_seq (if 0 <? trial then 500 else 0)
                       (if trial =? 0 then 60850 else if trial =? 1 then 90950 else 30100));
      [apply lawful_recording_end|apply within_recording_end|intros _].
    destruct (Z.eqb_spec trial 0) as [->|]; [by apply (within_send_trial_words 1); left|].
    destruct (Z.eqb_spec trial 1) as [->|]; [by apply (within_send_trial_words 2); right|].
    apply within_send_completion.
  - destruct (Z.eqb_spec trial 0) as [->|]; [done|].
    destruct (Z.eqb_spec trial 1) as [->|]; [done|].
    destruct (0 <? trial); vm_compute; discriminate.
Qed.

(** X26 (_handle_audio_upload, _send_trial_words, _send_completion,
    send_tts_audio, _start_task): the time the scripted flow spends
    sleeping and waiting is bounded, whatever the client and the services
    do.  Started in any state a session can be in, the handler of an upload
    is done at most 60.85 s later for trial number 0, 91.45 s for trial
    number 1 and 30.6 s for any other; and a whole session (the start, then
    the uploads 0, 1 and 2) at most 213 s later, the time it takes when no
    playback is ever acknowledged. *)
Theorem scripted_flow_time_is_bounded env trial audio_bytes audio0 audio1 audio2 w :
  state_ok (handler w) ->
  (clock (after env (_handle_audio_upload trial audio_bytes) w)
   <= clock w + (if (trial =? 0)%Z then 60850
                 else if (trial =? 1)%Z then 91450 else 30600))%N
  /\ (clock (after env (scripted_session audio0 audio1 audio2) w) <= clock w + 213000)%N
  /\ clock (after deaf_env (scripted_session audio0 audio1 audio2) started_world) = 213000%N.
Proof.
  intros Hw. split; [by apply within_handle_audio_upload|]. split.
  - revert env w Hw. change (within 213000 (scripted_session audio0 audio1 audio2)).
    unfold scripted_session. eapply within_mono; cycle 1.
    + eapply within_seq; [apply lawful_start_task|apply within_start_task|intros _].
      eapply within_seq; [apply lawful_handle_audio_upload
                         |apply within_handle_audio_upload|intros _].
      eapply within_seq; [apply lawful_handle_audio_upload
                         |apply within_handle_audio_upload|intros _].
      apply within_handle_audio_upload.
    + vm_compute. discriminate.
  - vm_compute. reflexivity.
Qed.

Lemma scripted_flow_time_is_bounded_witness :
  (clock (after friendly_env (_handle_audio_upload 1 loud_audio) started_world)
   <= clock started_world + 91450)%N
  /\ (clock (after friendly_env (scripted_session [] loud_audio loud_audio) started_world)
      <= clock started_world + 213000)%N.
Proof.
  destruct (scripted_flow_time_is_bounded friendly_env 1 loud_audio [] loud_audio loud_audio
              started_world) as (H1 & H2 & _).
  - split; [by right|]. split; [by left|]. split; [|split; [constructor|]].
    + apply list_elem_of_further, list_elem_of_here.
    + intros x Hx. by apply elem_of_empty in Hx.
  - split; [exact H1|exact H2].
Defined.
(** ** Who can end a wait *)

Lemma meek_bind {A B} (p : Prog A) (f : A -> Prog B) : forall h,
  meek p h -> (forall a, always_meek (f a)) -> meek (p ≫= f) h.
Proof.
  rewrite mbind_bind.
  induction p as [a|e|k IH|h' k IH|m k IH|ms k IH|t k IH|text k IH|audio k IH
                  |ws tr k IH|c k IH|k IH]; intros h Hp Hf; simpl in *;
    try done; try (by apply IH); try (intros; by apply IH).
  - by apply Hf.
  - destruct Hp as [Hh' Hk]. split; [done|]. by apply IH.
Qed.

Lemma meek_try_except {A} (p : Prog A) handle : forall h,
  meek p h -> (forall e, always_meek (handle e)) -> meek (try_except p handle) h.
Proof.
  induction p as [a|e|k IH|h' k IH|m k IH|ms k IH|t k IH|text k IH|audio k IH
                  |ws tr k IH|c k IH|k IH]; intros h Hp Hf; simpl in *;
    try done; try (by apply IH); try (intros; by apply IH).
  - by apply Hf.
  - destruct Hp as [Hh' Hk]. split; [done|]. by apply IH.
Qed.

Lemma meek_seq {A B} (p : Prog A) (f : A -> Prog B) :
  always_meek p -> (forall a, always_meek (f a)) -> always_meek (p ≫= f).
Proof. intros Hp Hf h. by apply meek_bind. Qed.

Lemma meek_try {A} (p : Prog A) handle :
  always_meek p -> (forall e, always_meek (handle e)) -> always_meek (try_except p handle).
Proof. intros Hp Hf h. by apply meek_try_except. Qed.

Lemma meek_ret {A} (a : A) : always_meek (Ret a).
Proof. done. Qed.

Lemma meek_of_outcome {A} (r : outcome A) : always_meek (of_outcome r).
Proof. by destruct r. Qed.

Lemma meek_read {A} (g : Handler -> A) : always_meek (read_self g).
Proof. done. Qed.

Lemma meek_getself : always_meek (GetSelf Ret).
Proof. done. Qed.

Lemma meek_modify g :
  (forall h, audio_complete_event (g h) = true -> audio_complete_event h = true) ->
  always_meek (modify_self g).
Proof. intros Hg h. split; [apply Hg|done]. Qed.

Lemma meek_send m : always_meek (websocket_send_text m).
Proof. intros h r h1. apply meek_of_outcome. Qed.

Lemma meek_guarded_send m :
  always_meek (try_except (websocket_send_text m) (fun _ => Ret tt)).
Proof. apply meek_try; [apply meek_send|intros; apply meek_ret]. Qed.

Lemma meek_sleep ms : always_meek (asyncio_sleep ms).
Proof. done. Qed.

Lemma meek_create_task c : always_meek (asyncio_create_task c).
Proof. done. Qed.

Create HintDb meek.

#[local] Hint Resolve meek_ret meek_of_outcome meek_read meek_getself meek_send
  meek_guarded_send meek_sleep meek_create_task : meek.

Ltac meek_walk :=
  repeat first
    [ solve [auto with meek]
    | apply meek_seq; [|intros ?]
    | apply meek_try; [|intros ?]
    | apply meek_modify; intros ?; simpl; congruence
    | match goal with
      | |- always_meek (if ?b then _ else _) => destruct b
      | |- always_meek (let _ := _ in _) => cbv zeta
      end ].

(** *** No coroutine of the handler sets the event *)

Lemma meek_send_tts_audio text trial : always_meek (send_tts_audio text trial).
Proof.
  unfold send_tts_audio. apply meek_try; [|intros e; meek_walk].
  apply meek_seq; [meek_walk|intros _].
  apply meek_seq; [meek_walk|intros _].
  apply meek_seq; [intros h r h1; apply meek_of_outcome|intros audio_bytes]. cbv zeta.
  apply meek_seq; [meek_walk|intros _].
  apply meek_seq; [done|intros [|]]; meek_walk.
Qed.

Lemma meek_send_state_transition phase trial message :
  always_meek (_send_state_transition phase trial message).
Proof. apply meek_guarded_send. Qed.

Lemma meek_send_word_display word trial word_index :
  always_meek (_send_word_display word trial word_index).
Proof. apply meek_guarded_send. Qed.

Lemma meek_send_debug message : always_meek (send_debug message).
Proof. apply meek_guarded_send. Qed.

Lemma meek_send_task_state state trial message :
  always_meek (send_task_state state trial message).
Proof. apply meek_guarded_send. Qed.

Lemma meek_send_evaluation_result result : always_meek (send_evaluation_result result).
Proof. apply meek_guarded_send. Qed.

#[local] Hint Resolve meek_send_tts_audio meek_send_state_transition
  meek_send_word_display meek_send_debug meek_send_task_state
  meek_send_evaluation_result : meek.

Lemma meek_send_all_results : always_meek send_all_results.
Proof. unfold send_all_results. meek_walk. Qed.

#[local] Hint Resolve meek_send_all_results : meek.

Lemma meek_send_instruction : always_meek _send_instruction.
Proof. unfold _send_instruction. meek_walk. Qed.

Lemma meek_send_completion : always_meek _send_completion.
Proof. unfold _send_completion. meek_walk. Qed.

Lemma meek_for_word_display trial words : forall word_index,
  always_meek (for_word_display trial word_index words).
Proof.
  induction words as [|word rest IH]; intros word_index; [apply meek_ret|].
  rewrite for_word_display_cons. meek_walk.
Qed.

#[local] Hint Resolve meek_send_instruction meek_send_completion
  meek_for_word_display : meek.

Lemma meek_send_trial_words trial : always_meek (_send_trial_words trial).
Proof. unfold _send_trial_words. meek_walk. Qed.

#[local] Hint Resolve meek_send_trial_words : meek.

Lemma meek_handle_audio_upload trial audio_bytes :
  always_meek (_handle_audio_upload trial audio_bytes).
Proof. unfold _handle_audio_upload. meek_walk. Qed.

Lemma meek_add_evaluation_result rt trial words transcript cw sc ok conf nt :
  always_meek (add_evaluation_result rt trial words transcript cw sc ok conf nt).
Proof.
  unfold add_evaluation_result, BaseTaskHandler_add_evaluation_result. meek_walk.
Qed.

Lemma meek_evaluate_response rt words transcript :
  always_meek (evaluate_working_memory_response rt words transcript).
Proof.
  intros h. unfold evaluate_working_memory_response.
  destruct (bool_decide (transcript = "") || strip_is_empty transcript); [done|].
  intros [j|e] h1; [|done]. cbn [Prog_bind bind of_outcome].
  by destruct (read_working_memory_reply rt j).
Qed.

Lemma meek_transcribe_audio fs fp audio_bytes :
  always_meek (transcribe_audio fs fp audio_bytes).
Proof.
  intros h. unfold transcribe_audio.
  destruct (_is_silent fs fp audio_bytes SILENCE_THRESHOLD); [done|].
  destruct (wav_header (N.of_nat (length audio_bytes))) as [hdr|e]; [|done].
  intros [t|e] h1; done.
Qed.

#[local] Hint Resolve meek_handle_audio_upload meek_add_evaluation_result
  meek_evaluate_response meek_transcribe_audio : meek.

Lemma meek_evaluate_background fs fp rt audio_bytes trial :
  always_meek (_evaluate_working_memory_audio_background fs fp rt audio_bytes trial).
Proof. unfold _evaluate_working_memory_audio_background. meek_walk. Qed.

Lemma meek_process_async audio_bytes trial :
  always_meek (_process_working_memory_audio_async audio_bytes trial).
Proof. unfold _process_working_memory_audio_async. meek_walk. Qed.

Lemma meek_upload session_found audio trial :
  always_meek (upload_working_memory_audio session_found audio trial).
Proof. unfold upload_working_memory_audio. meek_walk. Qed.

Lemma meek_coro_body fs fp rt c : always_meek (coro_body fs fp rt c).
Proof.
  destruct c; simpl;
    [apply meek_handle_audio_upload|apply meek_process_async
    |apply meek_evaluate_background].
Qed.

(** *** The connection handler waits only on a clear event *)

Lemma calm_bind {A B} (p : Prog A) (f : A -> Prog B) : forall h,
  calm p h -> (forall a, always_calm (f a)) -> calm (p ≫= f) h.
Proof.
  rewrite mbind_bind.
  induction p as [a|e|k IH|h' k IH|m k IH|ms k IH|t k IH|text k IH|audio k IH
                  |ws tr k IH|c k IH|k IH]; intros h Hp Hf; simpl in *;
    try done; try (by apply IH); try (intros; apply IH; auto).
  - by apply Hf.
  - destruct Hp as [Hh Hk]. split; [done|]. intros b h1 H1. apply IH; auto.
Qed.

Lemma calm_try_except {A} (p : Prog A) handle : forall h,
  calm p h -> (forall e, always_calm (handle e)) -> calm (try_except p handle) h.
Proof.
  induction p as [a|e|k IH|h' k IH|m k IH|ms k IH|t k IH|text k IH|audio k IH
                  |ws tr k IH|c k IH|k IH]; intros h Hp Hf; simpl in *;
    try done; try (by apply IH); try (intros; apply IH; auto).
  - by apply Hf.
  - destruct Hp as [Hh Hk]. split; [done|]. intros b h1 H1. apply IH; auto.
Qed.

Lemma calm_seq {A B} (p : Prog A) (f : A -> Prog B) :
  always_calm p -> (forall a, always_calm (f a)) -> always_calm (p ≫= f).
Proof. intros Hp Hf h. by apply calm_bind. Qed.

Lemma calm_try {A} (p : Prog A) handle :
  always_calm p -> (forall e, always_calm (handle e)) -> always_calm (try_except p handle).
Proof. intros Hp Hf h. by apply calm_try_except. Qed.

Lemma calm_ret {A} (a : A) : always_calm (Ret a).
Proof. done. Qed.

Lemma calm_raise {A} e : always_calm (Raise e : Prog A).
Proof. done. Qed.

Lemma calm_modify g : always_calm (modify_self g).
Proof. done. Qed.

Lemma calm_guarded_send m :
  always_calm (try_except (websocket_send_text m) (fun _ => Ret tt)).
Proof. intros h [|] h1 _; done. Qed.

Lemma calm_sleep ms : always_calm (asyncio_sleep ms).
Proof. done. Qed.

(** [send_tts_audio] clears the event before it waits, with no suspension
    point of another kind than the synthesis and the send in between. *)
Lemma calm_send_tts_audio text trial : always_calm (send_tts_audio text trial).
Proof.
  intros h. unfold send_tts_audio. simpl.
  intros [audio_bytes|e] h1 H1; simpl; [|done].
  intros [[]|e] h2 H2; simpl; [|done].
  split; [auto|]. intros [|] h3 H3; done.
Qed.

Lemma calm_send_instruction : always_calm _send_instruction.
Proof.
  unfold _send_instruction.
  apply calm_seq; [apply calm_modify|intros _]. cbv zeta.
  apply calm_seq; [apply calm_guarded_send|intros _].
  apply calm_seq; [apply calm_sleep|intros _].
  apply calm_seq; [apply calm_guarded_send|intros _].
  apply calm_send_tts_audio.
Qed.

Lemma calm_start_task : always_calm _start_task.
Proof.
  unfold _start_task. apply calm_try; [|intros e; apply calm_guarded_send]. cbv zeta.
  apply calm_seq; [apply calm_modify|intros _]. apply calm_send_instruction.
Qed.

Lemma calm_receive {A} (p : Prog A) : always_calm p -> always_calm (ReceiveText p).
Proof. intros Hp h h1 _. apply Hp. Qed.

Lemma calm_message_loop frames : forall task_started,
  always_calm (message_loop frames task_started).
Proof.
  induction frames as [|f rest IH]; intros task_started; [apply calm_ret|].
  rewrite message_loop_cons. apply calm_receive.
  destruct f as [m|e|]; [|apply calm_raise|apply calm_ret].
  destruct (cm_type m); [apply IH|].
  destruct (cm_data m) as [|[| |]]; [apply IH| | |].
  - destruct task_started; simpl negb; cbv iota; [apply IH|].
    apply calm_seq; [apply calm_guarded_send|intros _].
    apply calm_seq; [apply calm_start_task|intros _]. apply IH.
  - apply calm_seq; [apply calm_guarded_send|intros _]. apply calm_ret.
  - apply calm_seq; [apply calm_modify|intros _; apply IH].
Qed.

Lemma calm_handle_connection session_id frames :
  always_calm (handle_connection session_id frames).
Proof.
  unfold handle_connection.
  apply calm_seq; [apply calm_guarded_send|intros _].
  apply calm_seq; [apply calm_guarded_send|intros _].
  apply calm_seq; [apply calm_guarded_send|intros _].
  apply calm_try; [apply calm_message_loop|intros e].
  apply calm_seq; [|intros _; apply calm_ret].
  apply calm_try; [apply calm_guarded_send|intros e'; apply calm_ret].
Qed.

(** *** One segment, one tick, every schedule *)

Lemma resolve_wait_no_ack env t w :
  no_ack env ->
  resolve_wait env t w =
    if audio_complete_event (handler w) then (true, log (EvWait t (Signalled 0)) 0 w)
    else (false, log (EvWait t TimedOut) t w).
Proof. intros Hno. unfold resolve_wait. by rewrite Hno. Qed.

(** A segment of a meek coroutine leaves a clear event clear. *)
Lemma step_meek {A} env (p : Prog A) :
  no_ack env ->
  forall w,
    meek p (handler w) ->
    (audio_complete_event (handler (step env p w).2) = true ->
     audio_complete_event (handler w) = true)
    /\ always_meek (step env p w).1.
Proof.
  intros Hno.
  induction p as [a|e|k IH|h' k IH|m k IH|ms k IH|t k IH|text k IH|audio k IH
                  |ws tr k IH|c k IH|k IH]; intros w Hp; simpl in *;
    try (split; [done|]; intros h; by apply Hp).
  - by apply IH.
  - destruct Hp as [Hh' Hk]. destruct (IH (with_handler h' w) Hk) as [H1 H2].
    split; [|done]. intros H. apply Hh', H1, H.
  - rewrite resolve_wait_no_ack by done. split.
    + destruct (audio_complete_event (handler w)) eqn:Hflag; simpl; congruence.
    + intros h. by apply Hp.
Qed.

(** A segment of a calm coroutine: a wait in it times out, and what is
    left is calm. *)
Lemma step_calm {A} env (p : Prog A) :
  no_ack env ->
  forall w,
    calm p (handler w) ->
    (exists clear : bool,
        (clear = true -> audio_complete_event (handler (step env p w).2) = false)
        /\ forall h1, (clear = true -> audio_complete_event h1 = false) ->
                      calm (step env p w).1 h1)
    /\ forall t r, trace (step env p w).2 = trace w ++ [EvWait t r] -> r = TimedOut.
Proof.
  intros Hno.
  assert (Hnil : forall (l : list TraceEvent) e, l = l ++ [e] -> False).
  { intros l e H. apply (f_equal length) in H. rewrite length_app in H. simpl in H. lia. }
  assert (Hkeep : forall b : bool, exists clear : bool,
             (clear = true -> b = false) /\ (b = false -> clear = true)).
  { intros b. exists (negb b). by destruct b. }
  induction p as [a|e|k IH|h' k IH|m k IH|ms k IH|t k IH|text k IH|audio k IH
                  |ws tr k IH|c k IH|k IH]; intros w Hp; simpl in *.
  - split; [by exists false|]. intros t r H. by apply Hnil in H.
  - split; [by exists false|]. intros t r H. by apply Hnil in H.
  - by apply IH.
  - by apply (IH (with_handler h' w)).
  - split.
    + destruct (Hkeep (audio_complete_event (handler w))) as (clear & H1 & H2).
      exists clear. split; [done|]. intros h1 Hh1. apply Hp. auto.
    + intros t r H. apply app_inj_tail in H as [_ H]. discriminate H.
  - split.
    + destruct (Hkeep (audio_complete_event (handler w))) as (clear & H1 & H2).
      exists clear. split; [done|]. intros h1 Hh1. apply Hp. auto.
    + intros t' r H. apply app_inj_tail in H as [_ H]. discriminate H.
  - destruct Hp as [Hclear Hk]. rewrite resolve_wait_no_ack by done. rewrite Hclear.
    simpl. split.
    + exists true. split; [done|]. intros h1 Hh1. apply Hk. auto.
    + intros t' r H. apply app_inj_tail in H as [_ H]. congruence.
  - split.
    + destruct (Hkeep (audio_complete_event (handler w))) as (clear & H1 & H2).
      exists clear. split; [done|]. intros h1 Hh1. apply Hp. auto.
    + intros t r H. apply app_inj_tail in H as [_ H]. discriminate H.
  - split.
    + destruct (Hkeep (audio_complete_event (handler w))) as (clear & H1 & H2).
      exists clear. split; [done|]. intros h1 Hh1. apply Hp. auto.
    + intros t r H. apply app_inj_tail in H as [_ H]. discriminate H.
  - split.
    + destruct (Hkeep (audio_complete_event (handler w))) as (clear & H1 & H2).
      exists clear. split; [done|]. intros h1 Hh1. apply Hp. auto.
    + intros t r H. apply app_inj_tail in H as [_ H]. discriminate H.
  - split.
    + destruct (Hkeep (audio_complete_event (handler w))) as (clear & H1 & H2).
      exists clear. split; [done|]. intros h1 Hh1. apply Hp. auto.
    + intros t r H. apply app_inj_tail in H as [_ H]. discriminate H.
  - split.
    + destruct (Hkeep (audio_complete_event (handler w))) as (clear & H1 & H2).
      exists clear. split; [done|]. intros h1 Hh1. apply Hp. auto.
    + intros t r H. by apply Hnil in H.
Qed.

Lemma created_tasks_meek fs fp rt (new : list TraceEvent) :
  Forall always_meek (omap (created_task fs fp rt) new).
Proof.
  apply Forall_forall. intros q Hq.
  apply list_elem_of_omap in Hq as (e & _ & Hq).
  destruct e; simpl in Hq; try done. injection Hq as <-. apply meek_coro_body.
Qed.

Lemma tick_calm fs fp rt env s t :
  no_ack env -> sys_calm s -> sys_calm (tick fs fp rt env s t).
Proof.
  intros Hno (p0 & others & clear & Htasks & Hclear & Hp0 & Hothers).
  destruct t as [[|j]|trial audio]; unfold tick; rewrite Htasks.
  - cbn [lookup list_lookup].
    destruct (step_calm env p0 Hno (world s) (Hp0 _ Hclear)) as [(clear' & H1 & H2) _].
    eexists _, _, clear'. cbn [world tasks]. split; [reflexivity|].
    split; [done|]. split; [done|].
    apply Forall_app. split; [done|apply created_tasks_meek].
  - change ((p0 :: others) !! S j) with (others !! j).
    destruct (others !! j) as [p|] eqn:Hp.
    + assert (Hmeek : always_meek p) by (eapply Forall_lookup_1; eauto).
      destruct (step_meek env p Hno (world s) (Hmeek _)) as [H1 H2].
      eexists p0, _, clear. cbn [world tasks]. split; [reflexivity|].
      split; [|split; [done|]].
      * intros Hc. specialize (Hclear Hc).
        destruct (audio_complete_event (handler (step env p (world s)).2)); [|done].
        rewrite H1 in Hclear; done.
      * apply Forall_app. split; [by apply Forall_insert|apply created_tasks_meek].
    + exists p0, others, clear. by rewrite Htasks.
  - eexists p0, _, clear. cbn [world tasks]. split; [reflexivity|].
    split; [done|]. split; [done|].
    apply Forall_app. split; [done|]. constructor; [|done].
    apply meek_seq; [apply meek_upload|intros; apply meek_ret].
Qed.

Lemma sched_calm fs fp rt env ticks : forall s,
  no_ack env -> sys_calm s -> sys_calm (sched fs fp rt env ticks s).
Proof.
  induction ticks as [|t ticks IH]; intros s Hno Hs; simpl; [done|].
  apply IH; [done|]. by apply tick_calm.
Qed.

Lemma init_system_calm session_id frames : sys_calm (init_system session_id frames).
Proof.
  eexists _, [], false. split; [reflexivity|]. split; [done|]. split; [|done].
  intros h1 _. revert h1.
  apply calm_seq; [apply calm_handle_connection|intros; apply calm_ret].
Qed.

(** A wait of the connection handler times out, in every schedule. *)
Lemma connection_wait_times_out fs fp rt env s t r :
  no_ack env -> sys_calm s ->
  trace (world (tick fs fp rt env s (Resume 0))) = trace (world s) ++ [EvWait t r] ->
  r = TimedOut.
Proof.
  intros Hno (p0 & others & clear & Htasks & Hclear & Hp0 & Hothers).
  unfold tick. rewrite Htasks. cbn [lookup list_lookup world].
  destruct (step_calm env p0 Hno (world s) (Hp0 _ Hclear)) as [_ H]. apply H.
Qed.

(** X27 (websocket/base_handler.py, [handle_connection] and
    [_handle_audio_complete]; websocket/working_memory_handler.py,
    [_start_task], [_send_instruction] and [send_tts_audio]): the playback
    event is set by the message loop only, and the message loop awaits
    [_start_task] in place.  So, when acknowledgements reach the handler
    only as frames of the connection, a wait of the connection handler
    itself, the one that follows the instruction audio, is never ended by
    an acknowledgement: in every schedule, whatever the frames and the
    uploads, it times out.  A client whose acknowledgement is queued right
    behind the start signal makes no difference: the handler waits the
    full 30 seconds, and reads the acknowledgement afterwards. *)
Theorem connection_handler_waits_time_out fs fp rt env session_id frames ticks :
  no_ack env ->
  (let s := sched fs fp rt env ticks (init_system session_id frames) in
   forall t r,
     trace (world (tick fs fp rt env s (Resume 0))) = trace (world s) ++ [EvWait t r] ->
     r = TimedOut)
  /\ (let s := sched fs fp rt deaf_env instruction_wait_ticks
                 (init_system session_id eager_frames) in
      let s1 := tick fs fp rt deaf_env s (Resume 0) in
      let s2 := sched fs fp rt deaf_env [Resume 0; Resume 0] s1 in
      trace (world s1) = trace (world s) ++ [EvWait AUDIO_COMPLETE_TIMEOUT TimedOut]
      /\ clock (world s1) = (clock (world s) + AUDIO_COMPLETE_TIMEOUT)%N
      /\ audio_complete_event (handler (world s1)) = false
      /\ audio_complete_event (handler (world s2)) = true
      /\ trace (world s2) = trace (world s1)).
Proof.
  intros Hno. split.
  - intros s t r. apply connection_wait_times_out; [done|].
    apply sched_calm; [done|apply init_system_calm].
  - vm_compute. done.
Qed.

Lemma connection_handler_waits_time_out_witness :
  no_ack deaf_env
  /\ forall t r,
       let s := sched plain_float_sum PrimFloat.sqrt example_runtime deaf_env
                  (instruction_wait_ticks ++ [Request 0 []; Resume 1])
                  (init_system "session" eager_frames) in
       trace (world (tick plain_float_sum PrimFloat.sqrt example_runtime deaf_env s (Resume 0)))
       = trace (world s) ++ [EvWait t r] ->
       r = TimedOut.
Proof.
  split; [intros n; reflexivity|]. intros t r.
  apply (connection_handler_waits_time_out plain_float_sum PrimFloat.sqrt example_runtime deaf_env
           "session" eager_frames (instruction_wait_ticks ++ [Request 0 []; Resume 1])).
  intros n. reflexivity.
Defined.
